(* ===== verification/_CoqProject ===== *)
-Q . S2P
Prelude.v
Frame.v
FederatedAuthority.v
ConsensusEngine.v
Selection.v
Throttle.v
Governance.v
FederatedAuthorityObservation.v
CNightPrimitives.v
CNightObservation.v
CNightMigration.v
PartnerChainsBridge.v
C2mBridge.v
Committee.v
Epochs.v
BlockSearch.v
McHash.v
CardanoBlocks.v
Plutus.v
Domain.v
SystemParameters.v
AuthoritySelection.v
PlutusData.v
CandidatesDb.v
CandidatesSource.v
CandidatesAgreement.v
CNightWindow.v
CNightQueries.v
CNightLedger.v
CNightPull.v
CNightCache.v
CNightProvider.v
GovernanceSource.v
BridgeDb.v
BridgeSource.v
LedgerErrors.v
LedgerApi.v
LedgerBridge.v
Midnight.v
BridgeLedger.v
Beefy.v
FilteringPool.v
