(* ===== verification/Prelude.v ===== *)
(** * Verification of the Midnight node

    The program is a Substrate chain: a runtime composed of FRAME pallets
    ([src/pallets], [src/runtime]), the partner chains toolkit that ties it to Cardano
    ([src/partner-chains/toolkit]), and a node that reads Cardano from a Db-Sync database
    ([src/primitives/mainchain-follower], [.../toolkit/data-sources/db-sync]).  A block begins
    with the hooks of the pallets, then executes inherents, which bring observations of Cardano
    on chain and which importing nodes check against their own observations, then transactions.
    Transactions of the Midnight ledger are applied by host functions of the node
    ([src/ledger]), which the ledger's pallets call; the state of the ledger is in a
    database of the host, and its key in the storage of the chain.
    This development models the pallets that hold the chain's own logic, the path of the
    observations (tables, queries, caches, inherent data providers) and the host functions of
    the ledger, as executable functions, and proves what makes them correct: where an
    observation has a path of several components, from the ledger of Cardano to the storage of
    the pallet, and for the bridge on to the Midnight ledger.

    ** Parts, files and sources

    - Shared: [Prelude] (this file: the monad, machine integers, strings, LRU caches) and
      [Frame] (origins, weights, bounded collections, time units).
    - Governance.  A motion is approved by bodies (the council, the technical committee)
      and dispatched as root: [FederatedAuthority] ([src/pallets/federated-authority]).
      The bodies' members are those observed on Cardano: [GovernanceSource] (the data source
      and the inherent data provider, [.../data_source/federated_authority_observation.rs])
      reads them, [FederatedAuthorityObservation] ([src/pallets/federated-authority-observation]
      and its primitives) installs them through the class [Membership], which [Governance]
      ([src/runtime/common/src/governance.rs]) implements.  [SystemParameters]
      ([src/pallets/system-parameters]) holds what governance sets.
    - Committees.  [CandidatesDb] (the queries of [candidates_data_source/db_model.rs]),
      [CandidatesSource] (the source and its caches, [.../mod.rs], [.../cached.rs]) and
      [CandidatesAgreement] bring the candidates; [AuthoritySelection]
      ([.../authority-selection-inherents]) tells which are valid and selects with [Selection]
      ([.../committee-selection/selection]); [Committee] ([.../committee-selection/pallet])
      stores the selected committee one epoch ahead and rotates it into the session pallet,
      seen through the class [SessionPallet].
    - Codecs.  [Plutus] (data and CBOR, [.../utils/plutus]), [PlutusData] (the data of the
      smart contracts, [.../smart-contracts/plutus-data]) and [Domain]
      ([.../sidechain/domain]).
    - Time and the main chain reference.  [Epochs] ([.../toolkit/sidechain]: slots, epochs, the
      pallet), [BlockSearch] ([.../sidechain-block-search]), [McHash]
      ([.../sidechain-mc-hash]: the Cardano block that a block refers to) with the class
      [McHashDataSource], and its instance [CardanoBlocks] ([.../db-sync/src/block]).
    - Consensus.  [ConsensusEngine] ([src/pallets/consensus-engine]): the change from
      AURA to BABE.
    - cNIGHT observation.  [CNightPrimitives] (positions and order of what is observed,
      [src/primitives/cnight-observation]); [CNightQueries] (queries and decoding of rows,
      [db/queries/cnight_observation.rs], [data_source/cnight_observation.rs]), [CNightWindow]
      and [CNightCache] (windows and the cache with its background task,
      [data_source/cnight_observation_bulk.rs]), with the reference [CNightLedger] and the
      refinement [CNightPull]; [CNightProvider] ([idp/cnight_observation.rs]);
      [CNightObservation] (the pallet: registrations, creations, spends) and [CNightMigration]
      (the migration [v1.rs] of its storage).
    - Bridge.  [BridgeDb] (the query for bridge transactions, [.../db-sync/src/db_model.rs]) and
      [BridgeSource] ([.../db-sync/src/bridge]: the source, with and without its cache, and the
      provider) observe transfers, [PartnerChainsBridge] ([.../toolkit/bridge]) receives them
      and hands them to a [TransferHandler]; [C2mBridge] ([src/pallets/c2m-bridge]) is
      the instance [c2m_handler], and discharges the laws [TotalHandler].  [BridgeLedger]
      configures it as the runtime does, with the executor of [Midnight].
    - The Midnight ledger.  [LedgerErrors] (errors and their codes,
      [src/ledger/src/versions/common/types.rs]); [LedgerApi] (the node's view of a ledger and
      of a transaction, [.../common/api], and the ledger crates as the classes
      [LedgerTypes], [MnLedger] and [MnLedgerLaws]); [LedgerBridge] (the host functions with their
      caches, [.../common/mod.rs], [src/ledger/src/host_api/ledger_9.rs]; the state of a node is
      the record [Host], and a host function is a value of [HM A], whose changes survive an
      error); [Midnight] ([src/pallets/midnight], [src/pallets/midnight-system], and whole
      blocks of their calls); [FilteringPool] ([src/node/src/filtering_pool.rs]).
    - BEEFY.  [Beefy]: the authority sets of the runtime ([src/runtime/src/beefy.rs]), the payload
      of the node ([src/node/src/payload.rs]) and the relay to Cardano ([src/relay/src]).
    - [Throttle] ([src/pallets/throttle]): a limit on what an account submits.

    In each file of a pallet the storage items are the fields of a record [State], the
    associated types and constants of its [Config] trait a record [Config], its errors
    and events inductive types, and each function, hook, inherent method and call a
    definition of the source's name.  Setters [set_x] write one field.  In a file of a data
    source the tables are the fields of a record [Db], each SQL query is a function on it, and
    the fields of the source that change (caches, configuration) are its state.

    ** Conventions

    - A fallible function is a value of [M S E A]: it reads and writes the state and
      returns [Ok], fails with [Err], or is a [Panic], which rejects the block.  [Err] has
      no state, because FRAME discards the storage changes of a failed call.
    - Integers are [Z] with the width at each operation: [wrap] where the release profile
      wraps, [saturating_add] and the like where the code saturates, [bounded_try_from]
      where a bounded collection refuses.  [usize] is 32 bits in the runtime.
    - A database changes between the queries of a call: query number [n] of a node sees
      [world n], or fails where that is [None].  A row that refers to another contains it.
      What a query is compared with is a ledger, the transactions of Cardano, and a relation
      ([represents], [follows]) says that the tables hold the ledger up to a height or an
      epoch, whatever the later blocks are.  For cNIGHT this includes that the database knows
      the datum of an output with its block, which does not hold of an output that commits to
      a datum by hash only until the datum is revealed.
    - What is assumed of the block table ([table_ok]) holds of networks with blocks from
      before the first configured epoch: the slots that the configuration gives are only
      those of later blocks, and the table may begin at any block.
    - Row limits of queries are premises on the ledger ([within_limit]); the code does not
      check them, and rows beyond them are cut off.
    - Logging and metrics are left out; what a function returns, stores, emits and weighs is not.
    - Loops are structural on the list they iterate.  Those with fuel (the migration, the
      binary search, the pages of a pull) receive a bound that their theorems show sufficient.
    - What is not in the repository is a parameter, and what the theorems need of it a
      named hypothesis or class: [dispatch_frame] (a dispatched call does not write the
      motions or their events), [MembershipLaws] and [pm_reset_ok] (pallet_membership),
      [inc_spec] and [dec_spec] (the counters of frame_system), [ChaChaLaws] (draws are
      within range, shuffles are permutations), [executor_returns] (the ledger does not
      panic), [hashed_inj] (distinct keys of a storage map have distinct hashed keys),
      [SessionLaws] (a validator set is applied at the rotation after the one that
      returned it), [MinicborLaws], [ScaleLaws] and [CardanoSerializationLibLaws] (codecs read
      back what they wrote), [PostgresLaws] ([ORDER BY] sorts a permutation),
      [CardanoAddressesLaws], [LruCacheLaws] (a cache returns what was put last), in
      [AuthoritySelection] the signature schemes ([Crypto]), [MnLedgerLaws] (a cost within the
      limits can be normalized, a transaction whose guaranteed part runs does not fail, keys and
      system transactions are read back, a key tells the content), [states_distinct] and
      [seen] (no two states or transactions that occur have the same hash), and [BeefyLaws] (the
      payload keeps its entries, both Merkle crates build the same tree).  Each property with such a
      hypothesis has a witness on a concrete instance, in the file's [Example] module or
      beside it.

    ** What the theorems show

    - Governance: no call is dispatched as root without the approvals required, with the
      runtime's configuration those of both bodies; the events replay to the storage;
      when closing a motion succeeds; a failed dispatch leaves no trace; actual weights
      stay within those declared; memberships equal the observation, and the observation is
      that of Cardano's ledger, for every node and state of its cache.
    - Committees: each group has the seats of the D-parameter and nobody in it fewer than
      the integer part of their expected number; a committee has only valid candidates, a
      pool only with a registration that the pool and its partner chain key signed; what a provider offers is a function of the
      ledger, so nodes with different databases and caches select the same committee; the
      current and the queued committee are those of the session pallet on every reachable
      chain; the inherent an author creates is the one an importer accepts; a late chain
      catches up.
    - Codecs: the encoding of signed data is unambiguous; what is written to the main chain is
      read back.
    - The main chain reference: a proposed reference is verified by importers, references
      never regress, what a source calls stable is stable in its database, also if the
      database changes during a call; the source implements the view of the chain that the
      verification relies on, on chains with at least as many blocks as the security parameter
      and the margin.
    - Consensus: which digests a block may carry in each state; the epoch that BABE
      starts from is aligned to its slot; a flip block panics and so never commits.
    - cNIGHT: the blocks of a chain bring every event of Cardano's ledger into the pallet, in
      order and once, with the source that queries and with the cache, whose background task
      may run between the calls; the inherent of an author passes the importers' check; events
      tell exactly the registrations that are unique; from genesis on every destruction that
      the ledger executes matches an earlier creation with the same key, if the ledger can
      build the transactions; the observed position never goes back; the migration
      moves every row.
    - Bridge: the cached source answers as the ledger of Cardano does; the blocks of a chain
      take every transfer in order and once, and catch up; the amounts paid out never exceed
      those received, and equal them when no ledger call fails; each credit to a user consumes
      an approval; a transfer reaches the Midnight ledger as the transaction that its recipient
      and approval call for.
    - The Midnight ledger: a block has the same effect on every node with the same states,
      whatever is in their caches; the end of a block cannot fail; what passed pre-dispatch
      fails only for its cost, the limits of the block or its report; what is
      reported as created and spent is so in the new state, and accounts for the change unless
      an override is stale; governance only sets parameters;
      transactions of the memo version are gated; error codes are unique; an override of the
      order of UTXOs gives back the order of the old block; nothing that the filter denies reaches the pool.
    - BEEFY: the relay's proof has the root that the chain put into the payload, and its votes
      are for leaves of it; the data for Cardano determines the proof.
    - Throttle: when a transaction is accepted; at most twice the limit passes in any
      window's length of blocks, and twice the limit can, since windows do not roll.

    ** Not modelled

    The Midnight ledger itself, and of its bindings the versions 7 and 8, the migration between
    versions, reads of contract and Zswap state and the expiry of cached entries; storage
    migrations of the committee pallet, which rewrite the storage of pallet_session;
    data sources of the toolkit that the node does not use; the node's services, command
    lines and tools.  They are wrappers of third-party libraries, input and output, or
    demonstrations.  Benchmarks, mocks and generated code are left out; benchmarked weights are
    parameters, except those that [FederatedAuthority] and [CNightObservation] bound. *)

From Stdlib Require Export ZArith Lia.
From stdpp Require Export base gmap sets numbers option list.

#[export] Set Default Goal Selector "!".

(** ** Outcomes of fallible code

    A Rust function of the runtime returns, fails with an error value, or
    panics.  A panic in a hook or in a mandatory extrinsic rejects the block. *)
Inductive outcome (E A : Type) : Type :=
| Ok (a : A)
| Err (e : E)
| Panic.
Arguments Ok {E A} a.
Arguments Err {E A} e.
Arguments Panic {E A}.

(** Computations of a pallet: they read and write the storage [S], and fail with
    an [E].  A failing computation has no storage component: FRAME runs every
    dispatchable in a storage layer that is discarded when it returns [Err]. *)
Definition M (S E A : Type) : Type := S -> outcome E (A * S).

Definition ret {S E A} (a : A) : M S E A := fun s => Ok (a, s).
Definition bind {S E A B} (m : M S E A) (k : A -> M S E B) : M S E B :=
  fun s => match m s with
           | Ok (a, s') => k a s'
           | Err e => Err e
           | Panic => Panic
           end.
Definition get {S E} : M S E S := fun s => Ok (s, s).
Definition gets {S E A} (f : S -> A) : M S E A := fun s => Ok (f s, s).
Definition put {S E} (s : S) : M S E unit := fun _ => Ok (tt, s).
Definition modify {S E} (f : S -> S) : M S E unit := fun s => Ok (tt, f s).
Definition throw {S E A} (e : E) : M S E A := fun _ => Err e.
Definition panic {S E A} : M S E A := fun _ => Panic.

(** [ensure!(b, e)] *)
Definition ensure {S E} (b : bool) (e : E) : M S E unit :=
  if b then ret tt else throw e.
(** [assert!(b)] *)
Definition assert_ {S E} (b : bool) : M S E unit :=
  if b then ret tt else panic.
(** [option.ok_or(e)?] *)
Definition ok_or {S E A} (o : option A) (e : E) : M S E A :=
  match o with Some a => ret a | None => throw e end.
(** [option.expect(..)] *)
Definition expect {S E A} (o : option A) : M S E A :=
  match o with Some a => ret a | None => panic end.
Definition when {S E} (b : bool) (m : M S E unit) : M S E unit :=
  if b then m else ret tt.

(** [m.map_err(f)?] *)
Definition with_err {S E F A} (f : E -> F) (m : M S E A) : M S F A :=
  fun s => match m s with Ok r => Ok r | Err e => Err (f e) | Panic => Panic end.

(** [for x in l { f(x) }] *)
Fixpoint for_each {S E A} (f : A -> M S E unit) (l : list A) : M S E unit :=
  match l with
  | [] => ret tt
  | x :: l' => bind (f x) (fun _ => for_each f l')
  end.

Declare Scope pallet_scope.
Delimit Scope pallet_scope with pallet.
Notation "'let*' x := m 'in' k" := (bind m (fun x => k))
  (at level 10, x name, m at level 200, k at level 200,
   format "'[v' 'let*'  x  :=  m  'in' '/' k ']'") : pallet_scope.
Notation "'let*' ' p := m 'in' k" := (bind m (fun x => match x with p => k end))
  (at level 10, p pattern, m at level 200, k at level 200,
   format "'[v' 'let*'  ' p  :=  m  'in' '/' k ']'") : pallet_scope.
Notation "'do*' m 'in' k" := (bind m (fun _ => k))
  (at level 10, m at level 200, k at level 200,
   format "'[v' 'do*'  m  'in' '/' k ']'") : pallet_scope.
Open Scope pallet_scope.
Open Scope Z_scope.

(** *** Fallible code without state *)

Definition obind {E A B} (m : outcome E A) (k : A -> outcome E B) : outcome E B :=
  match m with Ok a => k a | Err e => Err e | Panic => Panic end.
Notation "'let!' x := m 'in' k" := (obind m (fun x => k))
  (at level 10, x name, m at level 200, k at level 200,
   format "'[v' 'let!'  x  :=  m  'in' '/' k ']'") : pallet_scope.
(** [option.ok_or(e)] and [option.expect(..)] *)
Definition some_or {E A} (o : option A) (e : E) : outcome E A :=
  match o with Some a => Ok a | None => Err e end.
Definition some_or_panic {E A} (o : option A) : outcome E A :=
  match o with Some a => Ok a | None => Panic end.
(** [result.map_err(f)] *)
Definition map_err {E F A} (f : E -> F) (m : outcome E A) : outcome F A :=
  match m with Ok a => Ok a | Err e => Err (f e) | Panic => Panic end.
(** [a / b] and [a % b] of unsigned integers panic on zero. *)
Definition div {E} (a b : Z) : outcome E Z := if b =? 0 then Panic else Ok (a / b).
Definition rem {E} (a b : Z) : outcome E Z := if b =? 0 then Panic else Ok (a mod b).

(** ** Machine integers

    A [w]-bit unsigned integer is a [Z] in [0 .. 2^w - 1]. *)
Definition umax (w : Z) : Z := 2 ^ w - 1.
Definition in_u (w x : Z) : Prop := (0 <= x <= umax w).
Definition wrap (w x : Z) : Z := (x mod 2 ^ w).
Definition saturating_add (w a b : Z) : Z := Z.min (a + b) (umax w).
Definition saturating_mul (w a b : Z) : Z := Z.min (a * b) (umax w).
(** Saturating at zero: the same at every width. *)
Definition saturating_sub (a b : Z) : Z := Z.max 0 (a - b).

(** [checked_sub], [checked_mul] and [try_from] to [w] bits *)
Definition checked_sub (a b : Z) : option Z := if b <=? a then Some (a - b) else None.
Definition checked_mul (w a b : Z) : option Z := if a * b <=? umax w then Some (a * b) else None.
Definition try_into_u (w a : Z) : option Z := if a <=? umax w then Some a else None.

Definition len {A} (l : list A) : Z := Z.of_nat (length l).

(** [u32::to_le_bytes] *)
Definition u32_to_le_bytes (x : Z) : list Z :=
  [x mod 256; x / 256 mod 256; x / 65536 mod 256; x / 16777216 mod 256].

(** [iter().sum()] on integers, before it is brought to their width. *)
Definition sumZ (l : list Z) : Z := foldr Z.add 0 l.

Create HintDb pallet.

(** *** Computing with the monad *)

Ltac unfold_m :=
  cbv [bind ret get gets put modify throw panic ensure assert_ ok_or expect when] in *.

Lemma bind_Ok {S E A B} (m : M S E A) (k : A -> M S E B) s a s1 :
  m s = Ok (a, s1) -> bind m k s = k a s1.
Proof. unfold bind. by intros ->. Qed.

Lemma bind_Err {S E A B} (m : M S E A) (k : A -> M S E B) s e : m s = Err e -> bind m k s = Err e.
Proof. unfold bind. by intros ->. Qed.

Lemma bind_Ok_inv {S E A B} (m : M S E A) (k : A -> M S E B) s b s' :
  bind m k s = Ok (b, s') -> exists a s1, m s = Ok (a, s1) /\ k a s1 = Ok (b, s').
Proof. unfold bind. destruct (m s) as [[a s1] | e |]; naive_solver. Qed.

Lemma bind_expect_inv {S E A B} (o : option A) (k : A -> M S E B) s b s' :
  bind (expect o) k s = Ok (b, s') -> exists a, o = Some a /\ k a s = Ok (b, s').
Proof. destruct o as [a|]; [by exists a|done]. Qed.

Lemma for_each_app {S E A} (f : A -> M S E unit) l1 l2 s :
  for_each f (l1 ++ l2) s = bind (for_each f l1) (fun _ => for_each f l2) s.
Proof.
  revert s. induction l1 as [|x l1 IH]; intros s; simpl; [done|].
  unfold bind. destruct (f x s) as [[[] s1] | e |]; [|done..].
  rewrite IH. done.
Qed.

(** A loop keeps an invariant that its body keeps. *)
Lemma for_each_inv {S E A} (f : A -> M S E unit) (P : S -> Prop) l s s' :
  (forall x s1 s2, x ∈ l -> P s1 -> f x s1 = Ok (tt, s2) -> P s2) ->
  P s -> for_each f l s = Ok (tt, s') -> P s'.
Proof.
  revert s. induction l as [|x l IH]; intros s Hf Hs Hrun; simpl in Hrun.
  - unfold ret in Hrun. naive_solver.
  - apply bind_Ok_inv in Hrun as ([] & s1 & Hx & Hl).
    eapply IH; [| |exact Hl].
    + intros y ??? . eapply Hf. by apply list_elem_of_further.
    + eapply Hf; [|done|exact Hx]. apply list_elem_of_here.
Qed.

(** A loop whose body never fails never fails. *)
Lemma for_each_total {S E A} (f : A -> M S E unit) l s :
  (forall x s1, exists s2, f x s1 = Ok (tt, s2)) -> exists s', for_each f l s = Ok (tt, s').
Proof.
  intros Hf. revert s. induction l as [|x l IH]; intros s; simpl.
  - by exists s.
  - destruct (Hf x s) as [s1 Hx]. unfold bind. rewrite Hx. apply IH.
Qed.

(** *** Sums *)

Lemma sumZ_cons x l : sumZ (x :: l) = x + sumZ l.
Proof. done. Qed.

Lemma sumZ_app l1 l2 : sumZ (l1 ++ l2) = sumZ l1 + sumZ l2.
Proof. induction l1 as [|x l1 IH]; simpl; [done|]. rewrite IH. lia. Qed.

Lemma sumZ_nonneg l : Forall (Z.le 0) l -> 0 <= sumZ l.
Proof. induction 1; simpl; lia. Qed.

Lemma sumZ_elem_le l x : Forall (Z.le 0) l -> x ∈ l -> x <= sumZ l.
Proof.
  induction 1 as [|y l Hy Hl IH]; intros Hx; [by apply not_elem_of_nil in Hx|].
  apply elem_of_cons in Hx as [->|Hx]; simpl.
  - pose proof (sumZ_nonneg l Hl). lia.
  - specialize (IH Hx). lia.
Qed.

#[export] Instance sumZ_perm : Proper (Permutation ==> eq) sumZ.
Proof. induction 1; simpl in *; lia. Qed.

Lemma sumZ_ext {A} (f g : A -> Z) (l : list A) : (forall x, x ∈ l -> f x = g x) -> sumZ (f <$> l) = sumZ (g <$> l).
Proof.
  induction l as [|x l IH]; intros Hfg; [done|]. rewrite !fmap_cons, !sumZ_cons, (Hfg x) by left.
  rewrite IH; [done|]. intros y Hy. apply Hfg. by right.
Qed.

Lemma sumZ_zero {A} (f : A -> Z) (l : list A) : (forall x, x ∈ l -> f x = 0) -> sumZ (f <$> l) = 0.
Proof. intros Hf. rewrite (sumZ_ext f (fun _ => 0)) by done. clear Hf. induction l as [|x l IH]; [done|exact IH]. Qed.

Lemma sumZ_add {A} (f g : A -> Z) (l : list A) : sumZ ((fun x => f x + g x) <$> l) = sumZ (f <$> l) + sumZ (g <$> l).
Proof. induction l as [|x l IH]; [done|]. rewrite !fmap_cons, !sumZ_cons, IH. lia. Qed.

Lemma sumZ_filter {A} (P : A -> Prop) `{!forall x, Decision (P x)} (f : A -> Z) (l : list A) :
  sumZ (f <$> filter P l) = sumZ ((fun x => if decide (P x) then f x else 0) <$> l).
Proof.
  induction l as [|x l IH]; [done|]. rewrite filter_cons. destruct (decide (P x)) as [Hx|Hx].
  - rewrite !fmap_cons, !sumZ_cons, IH, decide_True by done. done.
  - rewrite fmap_cons, sumZ_cons, IH, decide_False by done. done.
Qed.

(** Terms outside [P] that are zero may be left out. *)
Lemma sumZ_restrict {A} (P : A -> Prop) `{!forall x, Decision (P x)} (f : A -> Z) (l : list A) :
  (forall x, x ∈ l -> ~ P x -> f x = 0) -> sumZ (f <$> filter P l) = sumZ (f <$> l).
Proof. intros Hf. rewrite sumZ_filter. apply sumZ_ext. intros x Hx. case_decide; [done|]. by rewrite Hf. Qed.

(** One term of the sum *)
Lemma sumZ_single {A K} `{!EqDecision K} (key : A -> K) (f : A -> Z) (l : list A) x : NoDup (key <$> l) -> x ∈ l ->
  sumZ ((fun y => if bool_decide (key y = key x) then f y else 0) <$> l) = f x.
Proof.
  induction l as [|y l IH]; intros Hnd Hx; [by apply elem_of_nil in Hx|].
  rewrite fmap_cons in Hnd. apply NoDup_cons in Hnd as [Hni Hnd]. rewrite fmap_cons, sumZ_cons.
  apply elem_of_cons in Hx as [->|Hx].
  - rewrite bool_decide_true, sumZ_zero by done || (intros z Hz; rewrite bool_decide_false; [done|];
      intros Heq; apply Hni; rewrite <-Heq; by apply list_elem_of_fmap_2). lia.
  - rewrite IH, bool_decide_false by (done || (intros Heq; apply Hni; rewrite Heq; by apply list_elem_of_fmap_2)). done.
Qed.

Lemma div_Ok {E} a b : 0 < b -> div (E:=E) a b = Ok (a / b).
Proof. intros. unfold div. by rewrite (proj2 (Z.eqb_neq b 0)) by lia. Qed.

Lemma rem_Ok {E} a b : 0 < b -> rem (E:=E) a b = Ok (a mod b).
Proof. intros. unfold rem. by rewrite (proj2 (Z.eqb_neq b 0)) by lia. Qed.

Lemma wrap_small w x : in_u w x -> wrap w x = x.
Proof. unfold in_u, umax, wrap. intros. apply Z.mod_small. lia. Qed.

#[export] Hint Rewrite @sumZ_app : pallet.

(** ** Lists *)

Lemma filter_ext_elem {A} (P Q : A -> Prop) `{!forall x, Decision (P x), !forall x, Decision (Q x)} (l : list A) :
  (forall x, x ∈ l -> P x <-> Q x) -> filter P l = filter Q l.
Proof.
  induction l as [|x l IH]; intros Hpq; [done|]. rewrite !filter_cons, IH by (intros; apply Hpq; by right).
  assert (x ∈ x :: l) as Hx by left. specialize (Hpq x Hx). repeat case_decide; tauto.
Qed.

Lemma omap_cons {A B} (f : A -> option B) x (l : list A) :
  omap f (x :: l) = match f x with Some y => y :: omap f l | None => omap f l end.
Proof. done. Qed.

Lemma length_omap_le {A B} (f : A -> option B) (l : list A) : len (omap f l) <= len l.
Proof. unfold len. induction l as [|x l IH]; [done|]. rewrite omap_cons. destruct (f x); cbn [length]; lia. Qed.

Lemma mapM_ext_elem {A B} (f g : A -> option B) (l : list A) :
  (forall x, x ∈ l -> f x = g x) -> mapM f l = mapM g l.
Proof.
  induction l as [|x l IH]; intros Hfg; [done|]. cbn [mapM]. rewrite (Hfg x) by left. rewrite IH; [done|].
  intros y Hy. apply Hfg. by right.
Qed.

Lemma filter_none {A} (P : A -> Prop) `{!forall x, Decision (P x)} (l : list A) : (forall x, x ∈ l -> ~ P x) -> filter P l = [].
Proof.
  intros Hno. induction l as [|x l IH]; [done|]. rewrite filter_cons, decide_False by (apply Hno; left).
  apply IH. intros y Hy. apply Hno. by right.
Qed.

Lemma filter_all {A} (P : A -> Prop) `{!forall x, Decision (P x)} (l : list A) : (forall x, x ∈ l -> P x) -> filter P l = l.
Proof.
  induction l as [|x l IH]; intros Hall; [done|]. rewrite filter_cons_True by (apply Hall; left).
  f_equal. apply IH. intros y Hy. apply Hall. by right.
Qed.

Lemma bind_if_fmap {A B} (F : A -> list B) (b : A -> bool) (g : A -> B) (l : list A) :
  (forall x, x ∈ l -> F x = if b x then [g x] else []) -> l ≫= F = g <$> filter (fun x => b x = true) l.
Proof.
  induction l as [|x l IH]; intros HF; [done|]. rewrite bind_cons, (HF x) by left.
  rewrite IH by (intros y Hy; apply HF; by right). rewrite filter_cons. by destruct (b x).
Qed.

Lemma filter_fmap_comm {A B} (f : A -> B) (P : B -> Prop) `{!forall x, Decision (P x)} (l : list A) :
  filter P (f <$> l) = f <$> filter (fun x => P (f x)) l.
Proof.
  induction l as [|x l IH]; [done|]. rewrite fmap_cons, !filter_cons, IH. by destruct (decide (P (f x))).
Qed.

(** Elementwise related after a permutation *)
Definition perm_rel {A B} (R : A -> B -> Prop) (l1 : list A) (l2 : list B) : Prop :=
  exists m, Forall2 R l1 m /\ m ≡ₚ l2.

(** ** Strings *)

(** [String::from_utf8]: the byte sequences that are UTF-8 *)
Definition byte_in (lo hi b : Z) : bool := (lo <=? b) && (b <=? hi).
Notation continuation := (byte_in 128 191).
Fixpoint is_utf8 (l : list Z) : bool :=
  match l with
  | [] => true
  | a :: l1 =>
      if a <? 128 then is_utf8 l1 else
      match l1 with
      | [] => false
      | b :: l2 =>
          if byte_in 194 223 a then continuation b && is_utf8 l2 else
          match l2 with
          | [] => false
          | c :: l3 =>
              if byte_in 224 239 a then
                byte_in (if a =? 224 then 160 else 128) (if a =? 237 then 159 else 191) b && continuation c && is_utf8 l3
              else
              match l3 with
              | [] => false
              | d :: l4 =>
                  byte_in 240 244 a && byte_in (if a =? 240 then 144 else 128) (if a =? 244 then 143 else 191) b
                  && continuation c && continuation d && is_utf8 l4
              end
          end
      end
  end.
Definition from_utf8 {E} (l : list Z) (e : E) : outcome E (list Z) := if is_utf8 l then Ok l else Err e.

(** ** Caches *)

(** The LRU cache: [lru_get] also marks the entry as used; [stored] tells what is in it. *)
Class LruCache := {
  Lru : Type -> Type -> Type;
  lru_new {K V} : Z -> Lru K V;
  lru_get {K V} `{EqDecision K} : K -> Lru K V -> option V * Lru K V;
  lru_put {K V} `{EqDecision K} : K -> V -> Lru K V -> Lru K V
}.
Class LruCacheLaws {lru : LruCache} := {
  stored {K V} : K -> V -> Lru K V -> Prop;
  stored_new {K V} n (k : K) (v : V) : ~ stored k v (lru_new n);
  stored_get {K V} `{EqDecision K} (k : K) (c : Lru K V) v : fst (lru_get k c) = Some v -> stored k v c;
  stored_after_get {K V} `{EqDecision K} (k k' : K) (c : Lru K V) v : stored k v (snd (lru_get k' c)) -> stored k v c;
  stored_put {K V} `{EqDecision K} (k k' : K) (v v' : V) (c : Lru K V) :
    stored k v (lru_put k' v' c) -> (k, v) = (k', v') \/ stored k v c
}.

(** A cache as a list *)
Module ListLru.
(** The least recently used entry is the last one. *)
#[export] Instance list_lru : LruCache := {
  Lru K V := (Z * list (K * V))%type;
  lru_new K V n := (n, []);
  lru_get K V _ k c :=
    match filter (fun e => fst e = k) (snd c) with
    | [] => (None, c)
    | e :: _ => (Some (snd e), (fst c, e :: filter (fun e => fst e <> k) (snd c)))
    end;
  lru_put K V _ k v c := (fst c, take (Z.to_nat (fst c)) ((k, v) :: filter (fun e => fst e <> k) (snd c)))
}.
#[export] Instance list_lru_laws : LruCacheLaws.
Proof.
  refine {| stored K V k v c := (k, v) ∈ snd c |}.
  - intros K V n k v. apply not_elem_of_nil.
  - intros K V ? k [n l] v. cbn. destruct (filter _ l) as [|[k' v'] l'] eqn:Hf; [done|]. cbn. intros [= ->].
    assert ((k', v) ∈ filter (fun e => fst e = k) l) as Hin by (rewrite Hf; left).
    by apply list_elem_of_filter in Hin as [<- ?].
  - intros K V ? k k' [n l] v. cbn. destruct (filter _ l) as [|e l'] eqn:Hf; [done|]. cbn.
    intros [<-|[_ Hin]%list_elem_of_filter]%elem_of_cons; [|done].
    assert ((k, v) ∈ filter (fun e => fst e = k') l) as Hin by (rewrite Hf; left). by apply list_elem_of_filter in Hin as [_ ?].
  - intros K V ? k k' v v' [n l]. cbn. intros Hin%elem_of_take. destruct Hin as (i & Hi & _).
    apply list_elem_of_lookup_2 in Hi. apply elem_of_cons in Hi as [?|[_ Hi]%list_elem_of_filter]; auto.
Qed.
End ListLru.
