(* ===== verification/Frame.v ===== *)
(** * The FRAME vocabulary of the pallets

    What the pallets use of FRAME and Substrate: origins, weights, the result
    of a dispatchable, bounded collections and the read and write costs of the
    database.  The pallets' sources rely on these crates and the crates are not
    part of the repository, so origins are a class that the pallets are
    parametric in, and the others are the documented behaviour of the crate. *)

From S2P Require Import Prelude.

(** ** Origins *)

(** [frame_system::{ensure_root, ensure_signed, ensure_none}]: the checks that
    a dispatchable makes of its origin; [None] is the error [BadOrigin]. *)
Class Origins (Origin AccountId : Type) := {
  ensure_root : Origin -> option unit;
  ensure_signed : Origin -> option AccountId;
  ensure_none : Origin -> option unit
}.

(** The origins of [frame_system::RawOrigin]. *)
Inductive RawOrigin (AccountId : Type) :=
| Root
| Signed (who : AccountId)
| NoneOrigin.
Arguments Root {AccountId}.
Arguments Signed {AccountId} who.
Arguments NoneOrigin {AccountId}.

#[export] Instance raw_origins AccountId : Origins (RawOrigin AccountId) AccountId := {
  ensure_root o := match o with Root => Some tt | _ => None end;
  ensure_signed o := match o with Signed w => Some w | _ => None end;
  ensure_none o := match o with NoneOrigin => Some tt | _ => None end
}.

(** ** Weights *)

(** [sp_weights::Weight]: two [u64] components. *)
Record Weight := from_parts { ref_time : Z; proof_size : Z }.

Definition weight_zero : Weight := from_parts 0 0.
Definition weight_add (a b : Weight) : Weight :=
  from_parts (saturating_add 64 (ref_time a) (ref_time b))
             (saturating_add 64 (proof_size a) (proof_size b)).
Definition weight_mul (a : Weight) (n : Z) : Weight :=
  from_parts (saturating_mul 64 (ref_time a) n) (saturating_mul 64 (proof_size a) n).
Definition weight_max (a b : Weight) : Weight :=
  from_parts (Z.max (ref_time a) (ref_time b)) (Z.max (proof_size a) (proof_size b)).
Definition weight_min (a b : Weight) : Weight :=
  from_parts (Z.min (ref_time a) (ref_time b)) (Z.min (proof_size a) (proof_size b)).
(** [checked_add]: [None] when a component overflows. *)
Definition weight_checked_add (a b : Weight) : option Weight :=
  let t := (ref_time a + ref_time b) in
  let p := (proof_size a + proof_size b) in
  if ((t <=? umax 64) && (p <=? umax 64)) then Some (from_parts t p) else None.
Definition all_lte (a b : Weight) : bool :=
  (ref_time a <=? ref_time b) && (proof_size a <=? proof_size b).
Definition any_gt (a b : Weight) : bool :=
  (ref_time b <? ref_time a) || (proof_size b <? proof_size a).

(** [RuntimeDbWeight]: the cost of one read and of one write, in reference time. *)
Record RuntimeDbWeight := { db_read : Z; db_write : Z }.
Definition reads (w : RuntimeDbWeight) (n : Z) : Weight :=
  from_parts (saturating_mul 64 (db_read w) n) 0.
Definition writes (w : RuntimeDbWeight) (n : Z) : Weight :=
  from_parts (saturating_mul 64 (db_write w) n) 0.
Definition reads_writes (w : RuntimeDbWeight) (r n : Z) : Weight :=
  weight_add (reads w r) (writes w n).

(** ** Results of dispatchables *)

Inductive Pays := PaysYes | PaysNo.

Record PostDispatchInfo := { actual_weight : option Weight; pays_fee : Pays }.

(** [DispatchErrorWithPostInfo]: an error of the pallet and the weight used. *)
Record ErrorWithPostInfo (E : Type) := { post_info : PostDispatchInfo; error : E }.
Arguments post_info {E} _.
Arguments error {E} _.
Arguments Build_ErrorWithPostInfo {E} _ _.

(** The error of a dispatchable: [BadOrigin], or one of the pallet's own. *)
Inductive dispatch_error (E : Type) :=
| BadOrigin
| ModuleError (e : E).
Arguments BadOrigin {E}.
Arguments ModuleError {E} e.

(** [err.into()] without post-dispatch information. *)
Definition no_post_info {E} (e : E) : ErrorWithPostInfo E :=
  {| post_info := {| actual_weight := None; pays_fee := PaysYes |}; error := e |}.

Definition pays_no (w : Weight) : PostDispatchInfo :=
  {| actual_weight := Some w; pays_fee := PaysNo |}.
Definition err_pays_no {E} (w : Weight) (e : E) : ErrorWithPostInfo E :=
  {| post_info := pays_no w; error := e |}.

(** ** Bounded collections *)

(** [BoundedVec::try_from]: fails when the vector is longer than the bound. *)
Definition bounded_try_from {A} (bound : Z) (l : list A) : option (list A) :=
  if (len l <=? bound) then Some l else None.
(** [BoundedVec::truncate_from] *)
Definition truncate_from {A} (bound : Z) (l : list A) : list A := take (Z.to_nat bound) l.

(** [BoundedBTreeSet::try_insert]: [Err] (here [None]) when the set is full and
    the element is new, otherwise whether the element was new. *)
Definition bounded_try_insert `{Countable A} (bound : Z) (x : A) (X : gset A)
    : option (bool * gset A) :=
  if decide (x ∈ X) then Some (false, X)
  else if (Z.of_nat (size X) <? bound) then Some (true, {[x]} ∪ X)
  else None.

(** ** Time units of the runtime *)

Definition MILLISECS_PER_BLOCK : Z := 6000.
Definition MINUTES : Z := 60000 / MILLISECS_PER_BLOCK.
Definition HOURS : Z := MINUTES * 60.
Definition DAYS : Z := HOURS * 24.

(** ** Lemmas *)

Definition weight_le (a b : Weight) : Prop :=
  (ref_time a <= ref_time b) /\ (proof_size a <= proof_size b).
Infix "⊑w" := weight_le (at level 70).

Definition weight_nonneg (a : Weight) : Prop :=
  (0 <= ref_time a) /\ (0 <= proof_size a).

#[export] Instance weight_le_preorder : PreOrder weight_le.
Proof. split; unfold weight_le; intros ?; [lia|]. intros ?? [] []; lia. Qed.

Lemma all_lte_spec a b : all_lte a b = true <-> a ⊑w b.
Proof. unfold all_lte, weight_le. rewrite andb_true_iff, !Z.leb_le. done. Qed.

#[export] Instance weight_add_mono : Proper (weight_le ==> weight_le ==> weight_le) weight_add.
Proof. intros [] [] [] [] [] []; unfold weight_add, weight_le, saturating_add in *; simpl in *; lia. Qed.

Lemma weight_le_max_l a b : a ⊑w weight_max a b.
Proof. unfold weight_le, weight_max; simpl; lia. Qed.
Lemma weight_le_max_r a b : b ⊑w weight_max a b.
Proof. unfold weight_le, weight_max; simpl; lia. Qed.

(** Saturating sums of non-negative weights saturate once, at the end. *)
Definition clamped (t p : Z) : Weight := from_parts (Z.min t (umax 64)) (Z.min p (umax 64)).

Lemma clamped_const t p : t <= umax 64 -> p <= umax 64 -> from_parts t p = clamped t p.
Proof. intros. unfold clamped. f_equal; lia. Qed.
Lemma clamped_mul t p n : weight_mul (from_parts t p) n = clamped (t * n) (p * n).
Proof. reflexivity. Qed.
Lemma clamped_reads db n : reads db n = clamped (db_read db * n) 0.
Proof. reflexivity. Qed.
Lemma clamped_writes db n : writes db n = clamped (db_write db * n) 0.
Proof. reflexivity. Qed.
Lemma clamped_add t1 p1 t2 p2 :
  0 <= t1 -> 0 <= p1 -> 0 <= t2 -> 0 <= p2 ->
  weight_add (clamped t1 p1) (clamped t2 p2) = clamped (t1 + t2) (p1 + p2).
Proof.
  intros. unfold weight_add, clamped, saturating_add. cbn [ref_time proof_size].
  assert (0 <= umax 64) by (unfold umax; lia). generalize dependent (umax 64). intros u ?.
  f_equal; lia.
Qed.
Lemma clamped_max t1 p1 t2 p2 :
  weight_max (clamped t1 p1) (clamped t2 p2) = clamped (Z.max t1 t2) (Z.max p1 p2).
Proof.
  unfold weight_max, clamped. cbn [ref_time proof_size]. generalize (umax 64). intros u.
  f_equal; lia.
Qed.
Lemma clamped_mono t1 p1 t2 p2 : t1 <= t2 -> p1 <= p2 -> clamped t1 p1 ⊑w clamped t2 p2.
Proof.
  intros. unfold weight_le, clamped. cbn [ref_time proof_size]. generalize (umax 64). lia.
Qed.

(** Compares two sums of constants, database costs and multiples. *)
Ltac weight_solve :=
  rewrite ?clamped_mul, ?clamped_reads, ?clamped_writes;
  repeat match goal with
  | |- context [from_parts ?t ?p] => rewrite (clamped_const t p) by (unfold umax; lia)
  end;
  rewrite ?clamped_add by lia; rewrite ?clamped_max; rewrite ?clamped_add by lia;
  apply clamped_mono; lia.

Lemma weight_le_max_add a b c d e :
  weight_nonneg e -> weight_le d (weight_max (weight_add a b) (weight_add c b)) ->
  d ⊑w weight_add (weight_max (weight_add a b) (weight_add c b)) e.
Proof.
  intros [] []. unfold weight_le, weight_add, weight_max, saturating_add in *.
  cbn [ref_time proof_size] in *. generalize dependent (umax 64). intros u ??. split; lia.
Qed.

Definition time_only (a : Weight) : Weight := from_parts (ref_time a) 0.

Lemma ref_time_le a b : time_only a ⊑w time_only b -> ref_time a <= ref_time b.
Proof. by intros []. Qed.
Lemma time_only_add a b : time_only (weight_add a b) = weight_add (time_only a) (time_only b).
Proof. reflexivity. Qed.
Lemma time_only_mul a n : time_only (weight_mul a n) = weight_mul (time_only a) n.
Proof. reflexivity. Qed.
Lemma time_only_reads db n : time_only (reads db n) = reads db n.
Proof. reflexivity. Qed.
Lemma time_only_writes db n : time_only (writes db n) = writes db n.
Proof. reflexivity. Qed.

Lemma bounded_try_insert_size `{Countable A} bound (x : A) X b Y :
  bounded_try_insert bound x X = Some (b, Y) ->
  Z.of_nat (size X) <= bound -> (Z.of_nat (size Y) <= bound).
Proof.
  unfold bounded_try_insert. intros Hins Hsz. case_decide; [by simplify_eq|].
  destruct (Z.ltb_spec (Z.of_nat (size X)) bound); simplify_eq.
  rewrite size_union by set_solver. rewrite size_singleton. lia.
Qed.

Lemma bounded_try_insert_elem `{Countable A} bound (x : A) X b Y :
  bounded_try_insert bound x X = Some (b, Y) -> Y = {[x]} ∪ X.
Proof. unfold bounded_try_insert. repeat case_match; intros; simplify_eq; set_solver. Qed.

Lemma bounded_try_insert_fresh `{Countable A} bound (x : A) X Y :
  bounded_try_insert bound x X = Some (true, Y) <->
  x ∉ X /\ (Z.of_nat (size X) < bound) /\ Y = {[x]} ∪ X.
Proof.
  unfold bounded_try_insert. case_decide; [naive_solver|].
  destruct (Z.ltb_spec (Z.of_nat (size X)) bound); naive_solver lia.
Qed.

Lemma bounded_try_insert_empty `{Countable A} bound (x : A) b Y :
  bounded_try_insert bound x ∅ = Some (b, Y) -> b = true.
Proof. unfold bounded_try_insert. repeat case_match; intros; simplify_eq; set_solver. Qed.

#[export] Hint Resolve weight_le_max_l weight_le_max_r : pallet.
