(* ===== verification/FederatedAuthority.v ===== *)
(** * Federated authority: motions approved by several bodies

    Models [src/pallets/federated-authority/src/lib.rs] (the motions, the calls
    [motion_approve], [motion_revoke] and [motion_close]), [types.rs] of the same
    crate (the authority bodies and the proportion) and the weights and constants
    that [src/runtime] gives the pallet. *)

From S2P Require Import Prelude Frame.

(** [AuthId], a [u32]: the index of the pallet that represents a body. *)
Definition AuthId := Z.

(** ** Authority bodies and proportions ([types.rs]) *)

Section Bodies.
Context {Origin : Type}.

(** [AuthorityBody<P, EnsureProportion>]: [P::index()] and
    [EnsureProportion::try_origin], which succeeds or gives the origin back. *)
Record AuthorityBody := { pallet_index : Z; try_origin : Origin -> bool }.

(** [AuthorityBody::ensure_from_bodies] *)
Definition ensure_from_body (b : AuthorityBody) (o : Origin) : option AuthId :=
  if try_origin b o then Some (pallet_index b) else None.

(** [ensure_from_bodies] of a tuple: the first body that accepts the origin. *)
Fixpoint ensure_from_bodies (bodies : list AuthorityBody) (o : Origin) : option AuthId :=
  match bodies with
  | [] => None
  | b :: bodies' =>
      match ensure_from_body b o with
      | Some auth_origin_info => Some auth_origin_info
      | None => ensure_from_bodies bodies' o
      end
  end.

(** [FederatedAuthorityOriginManager::try_origin] *)
Definition origin_manager_try_origin (bodies : list AuthorityBody) (o : Origin) : option AuthId :=
  ensure_from_bodies bodies o.
End Bodies.
Arguments AuthorityBody : clear implicits.

(** [FederatedAuthorityEnsureProportionAtLeast<N, D>::reached_proportion]: the
    products are [u32] and wrap around in a release build. *)
Definition reached_proportion_at_least (N D n d : Z) : bool :=
  (wrap 32 (N * d) <=? wrap 32 (n * D)).

(** Within the range of [u32] the test is the comparison of the two proportions. *)
Lemma proportion_no_overflow N D n d :
  in_u 32 (N * d) -> in_u 32 (n * D) ->
  reached_proportion_at_least N D n d = true <-> N * d <= n * D.
Proof.
  unfold reached_proportion_at_least, wrap, in_u, umax. intros ??.
  rewrite Z.leb_le, !Z.mod_small by lia. done.
Qed.

(** ** Weights *)

(** The trait [WeightInfo] of the pallet. *)
Record WeightInfo := {
  wi_motion_approve : Z -> Weight;
  wi_motion_approve_new : Weight;
  wi_motion_approve_ended : Weight;
  wi_motion_approve_already_approved : Z -> Weight;
  wi_motion_approve_exceeds_bounds : Weight;
  wi_motion_revoke : Z -> Weight;
  wi_motion_revoke_ended : Weight;
  wi_motion_revoke_not_found : Weight;
  wi_motion_revoke_approval_missing : Z -> Weight;
  wi_motion_revoke_remove : Weight;
  wi_motion_close_still_ongoing : Weight;
  wi_motion_close_expired : Weight;
  wi_motion_close_approved : Weight;
  wi_motion_close_not_found : Weight
}.

(** The runtime's measured weights. *)
Definition runtime_weights (db : RuntimeDbWeight) : WeightInfo :=
  let r1 := reads db 1 in
  let w1 := writes db 1 in
  let plus := weight_add in
  {| wi_motion_approve a :=
       plus (plus (plus (plus (plus (from_parts 18457553 0) (from_parts 0 3642))
         (weight_mul (from_parts 407452 0) a)) r1) w1) (weight_mul (from_parts 0 5) a);
     wi_motion_approve_new :=
       plus (plus (plus (from_parts 15612000 0) (from_parts 0 3579)) r1) w1;
     wi_motion_approve_ended := plus (plus (from_parts 13265000 0) (from_parts 0 3652)) r1;
     wi_motion_approve_already_approved a :=
       plus (plus (plus (plus (from_parts 13169560 0) (from_parts 0 3648))
         (weight_mul (from_parts 63064 0) a)) r1) (weight_mul (from_parts 0 4) a);
     wi_motion_approve_exceeds_bounds := plus (plus (from_parts 13186000 0) (from_parts 0 3656)) r1;
     wi_motion_revoke a :=
       plus (plus (plus (plus (from_parts 27087750 0) (from_parts 0 3648)) r1) w1)
         (weight_mul (from_parts 0 4) a);
     wi_motion_revoke_ended := plus (plus (from_parts 12413000 0) (from_parts 0 3656)) r1;
     wi_motion_revoke_not_found := plus (plus (from_parts 8436000 0) (from_parts 0 3579)) r1;
     wi_motion_revoke_approval_missing a :=
       plus (plus (plus (plus (from_parts 12356746 0) (from_parts 0 3648))
         (weight_mul (from_parts 5328 0) a)) r1) (weight_mul (from_parts 0 4) a);
     wi_motion_revoke_remove :=
       plus (plus (plus (from_parts 22233000 0) (from_parts 0 3652)) r1) w1;
     wi_motion_close_still_ongoing := plus (plus (from_parts 12597000 0) (from_parts 0 3652)) r1;
     wi_motion_close_expired :=
       plus (plus (plus (from_parts 21653000 0) (from_parts 0 3652)) r1) w1;
     wi_motion_close_approved :=
       plus (plus (plus (from_parts 25534000 0) (from_parts 0 3656)) r1) w1;
     wi_motion_close_not_found := plus (plus (from_parts 8727000 0) (from_parts 0 3579)) r1
  |}.

(** [MAX_NUM_BODIES] of the runtime: the technical committee and the council. *)
Definition MAX_NUM_BODIES : Z := 2.
(** [time_units] of the runtime, in blocks. *)
Definition MOTION_DURATION : Z := 5 * DAYS.

(** ** The pallet ([lib.rs]) *)

Section Pallet.
Context {Hash Call Origin AccountId World DispatchError : Type}.
Context `{Countable Hash} `{!Origins Origin AccountId}.

Record MotionInfo := { approvals : gset AuthId; ends_block : Z; call : Call }.

Inductive Error :=
| MotionAlreadyApproved
| MotionApprovalMissing
| MotionApprovalExceedsBounds
| MotionNotFound
| MotionNotEnded
| MotionHasEnded
| MotionWeightBoundTooLow.

(** [DispatchResult] of the enacted call. *)
Definition motion_result_t : Type := unit + DispatchError.

Inductive Event :=
| MotionApproved (motion_hash : Hash) (auth_id : AuthId)
| MotionDispatched (motion_hash : Hash) (motion_result : motion_result_t)
| MotionExpired (motion_hash : Hash)
| MotionRevoked (motion_hash : Hash) (auth_id : AuthId)
| MotionRemoved (motion_hash : Hash).

(** The storage map [Motions], the current block number, the events the pallet
    deposited so far, and the rest of the runtime's state. *)
Record State := {
  Motions : gmap Hash MotionInfo;
  block_number : Z;
  events : list Event;
  world : World
}.

Definition set_Motions (m : gmap Hash MotionInfo) (s : State) : State :=
  {| Motions := m; block_number := block_number s; events := events s; world := world s |}.
Definition add_event (e : Event) (s : State) : State :=
  {| Motions := Motions s; block_number := block_number s; events := events s ++ [e];
     world := world s |}.
Definition set_block_number (n : Z) (s : State) : State :=
  {| Motions := Motions s; block_number := n; events := events s; world := world s |}.

(** The trait [Config], with what the pallet uses of the runtime's calls: their
    hash, their declared weight, and their dispatch with the root origin. *)
Record Config := {
  MaxAuthorityBodies : Z;
  MotionDuration : Z;
  MotionApprovalProportion : Z -> Z -> bool;
  MotionApprovalOrigin : Origin -> option AuthId;
  MotionRevokeOrigin : Origin -> option AuthId;
  weight_info : WeightInfo;
  hash_of : Call -> Hash;
  call_weight : Call -> Weight;
  dispatch : Call -> State -> outcome DispatchError State
}.

Variable cfg : Config.

Definition Pallet (A : Type) := M State (ErrorWithPostInfo (dispatch_error Error)) A.

Definition deposit_event (e : Event) : Pallet unit := modify (add_event e).

Definition motion_remove (motion_hash : Hash) : Pallet unit :=
  do* modify (fun s => set_Motions (delete motion_hash (Motions s)) s) in
  deposit_event (MotionRemoved motion_hash).

Definition is_motion_approved (total_approvals : Z) : bool :=
  MotionApprovalProportion cfg total_approvals (MaxAuthorityBodies cfg).

(** [motion.approvals.len() as u32] *)
Definition approvals_len (m : MotionInfo) : Z := wrap 32 (Z.of_nat (size (approvals m))).

Definition has_ended (now : Z) (m : MotionInfo) : bool := (ends_block m <=? now).

(** [ensure_origin(origin)?] *)
Definition ensure_origin {A} (f : Origin -> option A) (o : Origin) : Pallet A :=
  ok_or (f o) (no_post_info BadOrigin).

(** [StorageMap::try_mutate]: the closure works on the stored option, which is
    written back when it returns [Ok]. *)
Definition try_mutate {E R} (f : option MotionInfo -> outcome E (R * option MotionInfo))
    (map_err : E -> ErrorWithPostInfo (dispatch_error Error)) (k : Hash) : Pallet R :=
  let* s := get in
  match f (Motions s !! k) with
  | Ok (r, Some v) => do* put (set_Motions (<[k := v]> (Motions s)) s) in ret r
  | Ok (r, None) => do* put (set_Motions (delete k (Motions s)) s) in ret r
  | Err e => throw (map_err e)
  | Panic => panic
  end.

(** The closure of [motion_approve]: whether the motion is new, and the number of
    approvals that decides the weight. *)
Definition approve_closure (now : Z) (auth_id : AuthId) (c : Call)
    (maybe_motion : option MotionInfo) : outcome (Error * Z) ((bool * Z) * option MotionInfo) :=
  match maybe_motion with
  | Some motion =>
      let total_approvals := approvals_len motion in
      if has_ended now motion then Err (MotionHasEnded, total_approvals)
      else match bounded_try_insert (MaxAuthorityBodies cfg) auth_id (approvals motion) with
           | Some (true, approvals') =>
               Ok ((false, total_approvals),
                   Some {| approvals := approvals'; ends_block := ends_block motion;
                           call := call motion |})
           | Some (false, _) => Err (MotionAlreadyApproved, total_approvals)
           | None => Err (MotionApprovalExceedsBounds, total_approvals)
           end
  | None =>
      match bounded_try_insert (MaxAuthorityBodies cfg) auth_id ∅ with
      | Some (_, approvals') =>
          let ends := saturating_add 32 now (MotionDuration cfg) in
          Ok ((true, 1), Some {| approvals := approvals'; ends_block := ends; call := c |})
      | None => Err (MotionApprovalExceedsBounds, 0)
      end
  end.

Definition approve_map_err (e : Error * Z) : ErrorWithPostInfo (dispatch_error Error) :=
  let '(err, total_approvals) := e in
  let wi := weight_info cfg in
  match err with
  | MotionHasEnded => err_pays_no (wi_motion_approve_ended wi) (ModuleError err)
  | MotionAlreadyApproved =>
      err_pays_no (wi_motion_approve_already_approved wi total_approvals) (ModuleError err)
  | MotionApprovalExceedsBounds =>
      err_pays_no (wi_motion_approve_exceeds_bounds wi) (ModuleError err)
  | _ => no_post_info (ModuleError err)
  end.

Definition motion_approve (origin : Origin) (c : Call) : Pallet PostDispatchInfo :=
  let* auth_id := ensure_origin (MotionApprovalOrigin cfg) origin in
  let motion_hash := hash_of cfg c in
  let* now := gets block_number in
  let* '(is_new, total_approvals) :=
    try_mutate (approve_closure now auth_id c) approve_map_err motion_hash in
  do* deposit_event (MotionApproved motion_hash auth_id) in
  let actual :=
    if is_new : bool then wi_motion_approve_new (weight_info cfg)
    else wi_motion_approve (weight_info cfg) total_approvals in
  ret (pays_no actual).

(** The closure of [motion_revoke]: the number of approvals after and before. *)
Definition revoke_closure (now : Z) (auth_id : AuthId)
    (maybe_motion : option MotionInfo) : outcome (Error * Z) ((Z * Z) * option MotionInfo) :=
  match maybe_motion with
  | None => Err (MotionNotFound, 0)
  | Some motion =>
      let initial_count := approvals_len motion in
      if has_ended now motion then Err (MotionHasEnded, initial_count)
      else if decide (auth_id ∈ approvals motion) then
        let motion' := {| approvals := approvals motion ∖ {[auth_id]};
                          ends_block := ends_block motion; call := call motion |} in
        Ok ((approvals_len motion', initial_count), Some motion')
      else Err (MotionApprovalMissing, initial_count)
  end.

Definition revoke_map_err (e : Error * Z) : ErrorWithPostInfo (dispatch_error Error) :=
  let '(err, n) := e in
  let wi := weight_info cfg in
  match err with
  | MotionNotFound => err_pays_no (wi_motion_revoke_not_found wi) (ModuleError err)
  | MotionHasEnded => err_pays_no (wi_motion_revoke_ended wi) (ModuleError err)
  | MotionApprovalMissing =>
      err_pays_no (wi_motion_revoke_approval_missing wi n) (ModuleError err)
  | _ => no_post_info (ModuleError err)
  end.

Definition motion_revoke (origin : Origin) (motion_hash : Hash) : Pallet PostDispatchInfo :=
  let* auth_id := ensure_origin (MotionRevokeOrigin cfg) origin in
  let* now := gets block_number in
  let* '(final_approvals, initial_approvals) :=
    try_mutate (revoke_closure now auth_id) revoke_map_err motion_hash in
  do* deposit_event (MotionRevoked motion_hash auth_id) in
  if final_approvals =? 0 then
    do* motion_remove motion_hash in
    ret (pays_no (wi_motion_revoke_remove (weight_info cfg)))
  else ret (pays_no (wi_motion_revoke (weight_info cfg) initial_approvals)).

(** [with_storage_layer(|| call.dispatch(Root))]: the layer is committed when the
    call succeeds and discarded when it fails. *)
Definition dispatch_in_layer (c : Call) : Pallet motion_result_t := fun s =>
  match dispatch cfg c s with
  | Ok s' => Ok (inl tt, s')
  | Err e => Ok (inr e, s)
  | Panic => Panic
  end.

Definition motion_close (origin : Origin) (motion_hash : Hash) (proposal_weight_bound : Weight)
    : Pallet PostDispatchInfo :=
  let wi := weight_info cfg in
  do* ensure_origin ensure_signed origin in
  let* s := get in
  let* motion := ok_or (Motions s !! motion_hash)
    (err_pays_no (wi_motion_close_not_found wi) (ModuleError MotionNotFound)) in
  let total_approvals := approvals_len motion in
  let ended := has_ended (block_number s) motion in
  if is_motion_approved total_approvals then
    let dispatch_weight := call_weight cfg (call motion) in
    do* ensure (all_lte dispatch_weight proposal_weight_bound)
      (err_pays_no (wi_motion_close_still_ongoing wi) (ModuleError MotionWeightBoundTooLow)) in
    let* motion_result := dispatch_in_layer (call motion) in
    do* deposit_event (MotionDispatched motion_hash motion_result) in
    do* motion_remove motion_hash in
    ret (pays_no (weight_add (wi_motion_close_approved wi) dispatch_weight))
  else
    do* ensure ended
      (err_pays_no (wi_motion_close_still_ongoing wi) (ModuleError MotionNotEnded)) in
    do* deposit_event (MotionExpired motion_hash) in
    do* motion_remove motion_hash in
    ret (pays_no (wi_motion_close_expired wi)).

(** The weights that the calls declare before they run. *)
Definition motion_approve_declared : Weight :=
  wi_motion_approve (weight_info cfg) (MaxAuthorityBodies cfg).
Definition motion_revoke_declared : Weight :=
  weight_max (wi_motion_revoke (weight_info cfg) (MaxAuthorityBodies cfg))
             (wi_motion_revoke_remove (weight_info cfg)).
Definition motion_close_declared (proposal_weight_bound : Weight) : Weight :=
  weight_add (weight_max (wi_motion_close_approved (weight_info cfg))
                         (wi_motion_close_expired (weight_info cfg)))
             proposal_weight_bound.

(** ** Transitions of the chain, as far as the pallet can see them *)

Inductive step : State -> State -> Prop :=
| step_approve o c s i s' : motion_approve o c s = Ok (i, s') -> step s s'
| step_revoke o h s i s' : motion_revoke o h s = Ok (i, s') -> step s s'
| step_close o h b s i s' : motion_close o h b s = Ok (i, s') -> step s s'
| step_next_block s n : block_number s < n -> step s (set_block_number n s).

Definition initial (s : State) : Prop := Motions s = ∅ /\ events s = [].

Inductive reachable : State -> Prop :=
| reachable_initial s : initial s -> reachable s
| reachable_step s s' : reachable s -> step s s' -> reachable s'.

(** The approvals that an observer of the events alone computes. *)
Definition replay_event (m : gmap Hash (gset AuthId)) (e : Event) : gmap Hash (gset AuthId) :=
  match e with
  | MotionApproved h a => <[h := {[a]} ∪ default ∅ (m !! h)]> m
  | MotionRevoked h a => <[h := default ∅ (m !! h) ∖ {[a]}]> m
  | MotionRemoved h => delete h m
  | MotionDispatched _ _ | MotionExpired _ => m
  end.
Definition replay (es : list Event) : gmap Hash (gset AuthId) := foldl replay_event ∅ es.

(** ** What the operations do *)

Lemma try_mutate_Ok {E R} (f : option MotionInfo -> outcome E (R * option MotionInfo)) g k s r s' :
  try_mutate f g k s = Ok (r, s') ->
  exists v, f (Motions s !! k) = Ok (r, v) /\
            s' = set_Motions (match v with
                              | Some m => <[k := m]> (Motions s)
                              | None => delete k (Motions s)
                              end) s.
Proof.
  unfold try_mutate. unfold_m. destruct (f (Motions s !! k)) as [[r' []]|e|]; naive_solver.
Qed.

Definition stored_approvals (s : State) (h : Hash) : gset AuthId :=
  default ∅ (approvals <$> Motions s !! h).

Lemma motion_approve_inv o c s i s' :
  motion_approve o c s = Ok (i, s') ->
  exists a m, MotionApprovalOrigin cfg o = Some a /\
    a ∉ stored_approvals s (hash_of cfg c) /\
    Z.of_nat (size (stored_approvals s (hash_of cfg c))) < MaxAuthorityBodies cfg /\
    approvals m = {[a]} ∪ stored_approvals s (hash_of cfg c) /\
    call m = default c (call <$> Motions s !! hash_of cfg c) /\
    s' = add_event (MotionApproved (hash_of cfg c) a)
           (set_Motions (<[hash_of cfg c := m]> (Motions s)) s).
Proof.
  unfold motion_approve, ensure_origin, stored_approvals. intros Hrun.
  destruct (MotionApprovalOrigin cfg o) as [a|] eqn:Ho; [|unfold_m; done].
  change (bind (ok_or (Some a) _) ?k s) with (k a s) in Hrun. cbv beta in Hrun.
  apply bind_Ok_inv in Hrun as (now & s1 & [= <- <-] & Hrun).
  apply bind_Ok_inv in Hrun as ([is_new n] & s1 & Hmut & Hrun).
  apply try_mutate_Ok in Hmut as (v & Hf & ->).
  unfold deposit_event in Hrun. unfold_m. simplify_eq.
  exists a. unfold approve_closure in Hf.
  destruct (Motions s !! hash_of cfg c) as [m|] eqn:Hm; simpl.
  - case_match; [done|].
    destruct (bounded_try_insert _ a (approvals m)) as [[[] X]|] eqn:Hins; simplify_eq.
    apply bounded_try_insert_fresh in Hins as (?&?&->).
    by eexists {| approvals := _; ends_block := _; call := _ |}.
  - destruct (bounded_try_insert _ a ∅) as [[b X]|] eqn:Hins; simplify_eq.
    assert (b = true) as -> by (by eapply bounded_try_insert_empty).
    apply bounded_try_insert_fresh in Hins as (?&?&->).
    by eexists {| approvals := _; ends_block := _; call := _ |}.
Qed.

Lemma motion_revoke_inv o h s i s' :
  motion_revoke o h s = Ok (i, s') ->
  exists a m m', MotionRevokeOrigin cfg o = Some a /\ Motions s !! h = Some m /\
    a ∈ approvals m /\ approvals m' = approvals m ∖ {[a]} /\ call m' = call m /\
    block_number s < ends_block m /\
    let s1 := add_event (MotionRevoked h a) (set_Motions (<[h := m']> (Motions s)) s) in
    s' = if approvals_len m' =? 0
         then add_event (MotionRemoved h) (set_Motions (delete h (Motions s)) s1) else s1.
Proof.
  unfold motion_revoke, ensure_origin. intros Hrun.
  destruct (MotionRevokeOrigin cfg o) as [a|] eqn:Ho; [|unfold_m; done].
  change (bind (ok_or (Some a) _) ?k s) with (k a s) in Hrun. cbv beta in Hrun.
  apply bind_Ok_inv in Hrun as (now & s1 & [= <- <-] & Hrun).
  apply bind_Ok_inv in Hrun as ([fin ini] & s1 & Hmut & Hrun).
  apply try_mutate_Ok in Hmut as (v & Hf & ->).
  unfold revoke_closure in Hf. destruct (Motions s !! h) as [m|] eqn:Hm; [|done].
  unfold has_ended in Hf. destruct (Z.leb_spec (ends_block m) (block_number s)); [done|].
  case_decide; simplify_eq.
  eexists a, m, {| approvals := _; ends_block := _; call := _ |}.
  do 6 (split; [done|]). cbn zeta.
  unfold motion_remove, deposit_event in Hrun. unfold_m.
  destruct (approvals_len _ =? 0) eqn:Hz; simplify_eq; [|done].
  unfold add_event, set_Motions; simpl. f_equal. by rewrite delete_insert_eq.
Qed.

(** What [motion_close] did when it succeeded: either it enacted the motion, or
    the motion had expired. *)
Definition enacted (h : Hash) (m : MotionInfo) (b : Weight) (s s' : State) : Prop :=
  is_motion_approved (approvals_len m) = true /\ all_lte (call_weight cfg (call m)) b = true /\
  exists r s1, dispatch_in_layer (call m) s = Ok (r, s1) /\
    s' = add_event (MotionRemoved h)
           (set_Motions (delete h (Motions s1)) (add_event (MotionDispatched h r) s1)).
Definition expired (h : Hash) (m : MotionInfo) (s s' : State) : Prop :=
  is_motion_approved (approvals_len m) = false /\ ends_block m <= block_number s /\
  s' = add_event (MotionRemoved h)
         (set_Motions (delete h (Motions s)) (add_event (MotionExpired h) s)).

Lemma motion_close_inv o h b s i s' :
  motion_close o h b s = Ok (i, s') ->
  exists m, Motions s !! h = Some m /\ (enacted h m b s s' \/ expired h m s s').
Proof.
  unfold motion_close, ensure_origin. intros Hrun.
  destruct (ensure_signed o) as [who|]; [|unfold_m; done].
  change (bind (ok_or (Some who) _) ?k s) with (k who s) in Hrun. cbv beta in Hrun.
  apply bind_Ok_inv in Hrun as (s0 & s1 & [= <- <-] & Hrun).
  destruct (Motions s !! h) as [m|] eqn:Hm; [|unfold_m; done].
  change (bind (ok_or (Some m) _) ?k s) with (k m s) in Hrun. cbv beta in Hrun.
  exists m. split; [done|].
  destruct (is_motion_approved (approvals_len m)) eqn:Happ.
  - left. split; [done|].
    destruct (all_lte _ b) eqn:Hb; [|unfold_m; done]. split; [done|].
    apply bind_Ok_inv in Hrun as ([] & s1 & [= <-] & Hrun).
    apply bind_Ok_inv in Hrun as (r & s1 & Hd & Hrun).
    exists r, s1. split; [done|].
    unfold motion_remove, deposit_event in Hrun. unfold_m. by simplify_eq.
  - right. split; [done|]. unfold has_ended in Hrun.
    destruct (Z.leb_spec (ends_block m) (block_number s)); [|unfold_m; done].
    unfold motion_remove, deposit_event in Hrun. unfold_m. by simplify_eq.
Qed.

(** ** The invariant of the reachable states *)

(** A stored motion lies under the hash of its call, has at least one approval and
    at most [MaxAuthorityBodies], each by a body that the approval origin names. *)
Definition motion_ok (h : Hash) (m : MotionInfo) : Prop :=
  h = hash_of cfg (call m) /\ approvals m <> ∅ /\
  Z.of_nat (size (approvals m)) <= MaxAuthorityBodies cfg /\
  forall a, a ∈ approvals m -> exists o, MotionApprovalOrigin cfg o = Some a.

(** The approvals [X] are enough, and each is by a body that the origin names. *)
Definition justified_by (X : gset AuthId) : Prop :=
  is_motion_approved (Z.of_nat (size X)) = true /\
  forall a, a ∈ X -> exists o, MotionApprovalOrigin cfg o = Some a.

(** Every dispatch in the log happened with enough approvals standing. *)
Definition dispatches_justified (es : list Event) : Prop :=
  forall l1 h r l2, es = l1 ++ MotionDispatched h r :: l2 ->
    justified_by (default ∅ (replay l1 !! h)).

Record inv (s : State) : Prop := {
  inv_motions : map_Forall motion_ok (Motions s);
  inv_replay : replay (events s) = approvals <$> Motions s;
  inv_dispatched : dispatches_justified (events s)
}.

Lemma replay_snoc es e : replay (es ++ [e]) = replay_event (replay es) e.
Proof. unfold replay. by rewrite foldl_app. Qed.

Lemma justified_snoc es e :
  dispatches_justified es ->
  (forall h r, e = MotionDispatched h r -> justified_by (default ∅ (replay es !! h))) ->
  dispatches_justified (es ++ [e]).
Proof.
  intros Hes He l1 h r l2 Heq. destruct l2 as [|x l2 _] using rev_ind.
  - apply app_inj_tail in Heq as [-> ->]. by eapply He.
  - rewrite app_comm_cons, app_assoc in Heq. apply app_inj_tail in Heq as [-> _]. by eapply Hes.
Qed.

Lemma justified_other es e :
  dispatches_justified es -> (forall h r, e <> MotionDispatched h r) ->
  dispatches_justified (es ++ [e]).
Proof. intros Hes He. apply justified_snoc; [done|]. intros h r ->. by destruct (He h r). Qed.

Hypothesis max_bodies_u32 : in_u 32 (MaxAuthorityBodies cfg).
(** The calls that motions enact do not write this pallet's storage and do not
    deposit its events. *)
Hypothesis dispatch_frame : forall c s s', dispatch cfg c s = Ok s' ->
  Motions s' = Motions s /\ events s' = events s.

Lemma dispatch_in_layer_frame c s r s' :
  dispatch_in_layer c s = Ok (r, s') -> Motions s' = Motions s /\ events s' = events s.
Proof.
  unfold dispatch_in_layer. destruct (dispatch cfg c s) eqn:Hd; intros; simplify_eq; [|done].
  by apply dispatch_frame in Hd.
Qed.

Lemma approvals_len_small h m :
  motion_ok h m -> approvals_len m = Z.of_nat (size (approvals m)).
Proof.
  intros (_ & _ & Hsz & _). unfold approvals_len, wrap, in_u, umax in *.
  apply Z.mod_small. lia.
Qed.

Lemma stored_approvals_ok s h a :
  map_Forall motion_ok (Motions s) -> a ∈ stored_approvals s h ->
  exists o, MotionApprovalOrigin cfg o = Some a.
Proof.
  unfold stored_approvals. intros Hall Ha. destruct (Motions s !! h) as [m|] eqn:Hm.
  - eapply Hall; [exact Hm|]. done.
  - simpl in Ha. set_solver.
Qed.

Lemma inv_approve o c s i s' : inv s -> motion_approve o c s = Ok (i, s') -> inv s'.
Proof.
  intros [Hm Hr Hd] (a & m & Ho & Hfresh & Hsz & Happ & Hcall & ->)%motion_approve_inv.
  split; simpl.
  - apply map_Forall_insert_2; [|done]. split_and!.
    + rewrite Hcall. destruct (Motions s !! hash_of cfg c) as [m0|] eqn:Hm0; [|done].
      by apply (Hm _ _ Hm0).
    + set_solver.
    + rewrite Happ, size_union, size_singleton by set_solver. lia.
    + rewrite Happ. intros b [->%elem_of_singleton|Hb]%elem_of_union; [by exists o|].
      by eapply stored_approvals_ok.
  - rewrite replay_snoc, Hr, fmap_insert. simpl. rewrite Happ, lookup_fmap. done.
  - by apply justified_other.
Qed.

Lemma inv_revoke o h s i s' : inv s -> motion_revoke o h s = Ok (i, s') -> inv s'.
Proof.
  intros [Hm Hr Hd] (a & m & m' & Ho & Hlk & Ha & Happ & Hcall & _ & ->)%motion_revoke_inv.
  pose proof (Hm _ _ Hlk) as (Hh & Hne & Hsz & Hids).
  assert (Hsz' : Z.of_nat (size (approvals m')) <= MaxAuthorityBodies cfg).
  { rewrite Happ. pose proof (subseteq_size (approvals m ∖ {[a]}) (approvals m)). set_solver by lia. }
  destruct (Z.eqb_spec (approvals_len m') 0) as [Hz|Hz].
  - split; simpl.
    + by apply map_Forall_delete.
    + rewrite !replay_snoc, Hr. simpl. by rewrite delete_insert_eq, fmap_delete.
    + apply justified_other; [|done]. by apply justified_other.
  - assert (approvals m' <> ∅).
    { intros He. apply Hz. unfold approvals_len. by rewrite He. }
    split; simpl.
    + apply map_Forall_insert_2; [|done]. unfold motion_ok. rewrite Hcall.
      split_and!; [done..|]. rewrite Happ. set_solver.
    + rewrite replay_snoc, Hr, fmap_insert. simpl. by rewrite lookup_fmap, Hlk, Happ.
    + by apply justified_other.
Qed.

Lemma inv_close o h b s i s' : inv s -> motion_close o h b s = Ok (i, s') -> inv s'.
Proof.
  intros [Hm Hr Hd] (m & Hlk & Hcase)%motion_close_inv. pose proof (Hm _ _ Hlk) as Hok.
  destruct Hcase as [(Happ & _ & r & s1 & Hdis & ->)|(_ & _ & ->)].
  - apply dispatch_in_layer_frame in Hdis as [HM HE].
    split; simpl; rewrite ?HM, ?HE.
    + by apply map_Forall_delete.
    + rewrite !replay_snoc, Hr. simpl. by rewrite fmap_delete.
    + apply justified_other; [|done]. apply justified_snoc; [done|].
      intros h' r' [= <- <-]. rewrite Hr, lookup_fmap, Hlk. unfold justified_by. simpl.
      rewrite <- (approvals_len_small h m Hok). split; [done|]. apply Hok.
  - split; simpl.
    + by apply map_Forall_delete.
    + rewrite !replay_snoc, Hr. simpl. by rewrite fmap_delete.
    + apply justified_other; [|done]. by apply justified_other.
Qed.

Lemma reachable_inv s : reachable s -> inv s.
Proof.
  induction 1 as [s [HM HE]|s s' _ IH Hstep].
  - split; rewrite ?HM, ?HE.
    + apply map_Forall_empty.
    + unfold replay. by rewrite fmap_empty.
    + intros [] ????; done.
  - destruct Hstep; eauto using inv_approve, inv_revoke, inv_close. by destruct IH.
Qed.

(** ** Properties *)

(** In every reachable state a stored motion lies under the hash of its call
    and has between one and [MaxAuthorityBodies] approvals, each by a body that
    the approval origin names; a motion whose last approval is revoked is gone. *)
Theorem reachable_motions_ok s h m : reachable s -> Motions s !! h = Some m -> motion_ok h m.
Proof. intros Hs Hm. exact (inv_motions s (reachable_inv s Hs) h m Hm). Qed.

(** C1: whenever a call was dispatched as root, the bodies that had approved its
    motion before that point of the log, and had not revoked, reached the
    required proportion. *)
Theorem dispatched_only_when_approved s l1 h r l2 :
  reachable s -> events s = l1 ++ MotionDispatched h r :: l2 ->
  justified_by (default ∅ (replay l1 !! h)).
Proof. intros Hs. exact (inv_dispatched s (reachable_inv s Hs) l1 h r l2). Qed.

(** An observer that folds the pallet's events alone has exactly the approvals
    that the storage holds. *)
Theorem replay_approvals s : reachable s -> replay (events s) = approvals <$> Motions s.
Proof. intros Hs. exact (inv_replay s (reachable_inv s Hs)). Qed.

(** For a signed origin and a stored motion, [motion_close] succeeds and removes
    the motion exactly when the motion is approved and its call fits the weight
    bound, or it is not approved and has ended, provided that the call's dispatch
    does not panic. *)
Theorem motion_close_succeeds_iff o who h b s m :
  ensure_signed o = Some who -> Motions s !! h = Some m -> motion_ok h m ->
  dispatch cfg (call m) s <> Panic ->
  (exists i s', motion_close o h b s = Ok (i, s') /\ Motions s' !! h = None) <->
  if is_motion_approved (Z.of_nat (size (approvals m)))
  then all_lte (call_weight cfg (call m)) b = true
  else ends_block m <= block_number s.
Proof.
  intros Ho Hm Hok Hpanic. rewrite <- (approvals_len_small h m Hok). split.
  - intros (i & s' & (m' & Hm' & Hcase)%motion_close_inv & _). simplify_eq.
    destruct Hcase as [(-> & ? & _)|(-> & ? & _)]; done.
  - intros Hc. unfold motion_close, ensure_origin. unfold_m. rewrite Ho, Hm.
    destruct (is_motion_approved (approvals_len m)).
    + rewrite Hc. unfold dispatch_in_layer, motion_remove, deposit_event. unfold_m.
      destruct (dispatch cfg (call m) s) eqn:Hd; [| |done].
      all: eexists _, _; split; [done|]; apply lookup_delete_eq.
    + unfold has_ended. apply Z.leb_le in Hc as ->.
      unfold motion_remove, deposit_event. unfold_m.
      eexists _, _; split; [done|]; apply lookup_delete_eq.
Qed.

(** When the dispatch of an approved motion fails, only the motion's removal
    and its two events remain of the call; the rest of the state is as before. *)
Theorem failed_dispatch_is_isolated o h b s i s' m e :
  motion_close o h b s = Ok (i, s') -> Motions s !! h = Some m ->
  is_motion_approved (approvals_len m) = true -> dispatch cfg (call m) s = Err e ->
  s' = {| Motions := delete h (Motions s); block_number := block_number s;
          events := events s ++ [MotionDispatched h (inr e); MotionRemoved h];
          world := world s |}.
Proof.
  intros (m' & Hm' & Hcase)%motion_close_inv Hm Happ Hd. simplify_eq.
  destruct Hcase as [(_ & _ & r & s1 & Hdis & ->)|(? & _)]; [|congruence].
  unfold dispatch_in_layer in Hdis. rewrite Hd in Hdis. simplify_eq.
  unfold add_event, set_Motions. simpl. by rewrite <- app_assoc.
Qed.
End Pallet.

(** ** The runtime's configuration *)

Section Runtime.
Context {Hash Call Origin AccountId World DispatchError : Type}.
Context `{Countable Hash} `{!Origins Origin AccountId}.

(** The index of the pallets [Council] and [TechnicalCommittee]. *)
Definition COUNCIL_INDEX : Z := 40.
Definition TECHNICAL_COMMITTEE_INDEX : Z := 42.

Variables (council_two_thirds technical_two_thirds : Origin -> bool).
Variable db : RuntimeDbWeight.
Variable hash : Call -> Hash.
Variable weight : Call -> Weight.
Variable disp : Call -> @State Hash Call World DispatchError _ _ ->
                outcome DispatchError (@State Hash Call World DispatchError _ _).

(** [(CouncilApproval, TechnicalCommitteeApproval)], also the revoke origin. *)
Definition runtime_bodies : list (AuthorityBody Origin) :=
  [ {| pallet_index := COUNCIL_INDEX; try_origin := council_two_thirds |};
    {| pallet_index := TECHNICAL_COMMITTEE_INDEX; try_origin := technical_two_thirds |} ].

(** [impl pallet_federated_authority::Config for Runtime] *)
Definition runtime_config : @Config Hash Call Origin World DispatchError _ _ :=
  {| MaxAuthorityBodies := MAX_NUM_BODIES;
     MotionDuration := MOTION_DURATION;
     MotionApprovalProportion := reached_proportion_at_least 1 1;
     MotionApprovalOrigin := origin_manager_try_origin runtime_bodies;
     MotionRevokeOrigin := origin_manager_try_origin runtime_bodies;
     weight_info := runtime_weights db;
     hash_of := hash;
     call_weight := weight;
     dispatch := disp |}.

Lemma runtime_approver o a :
  MotionApprovalOrigin runtime_config o = Some a ->
  a = COUNCIL_INDEX \/ a = TECHNICAL_COMMITTEE_INDEX.
Proof. simpl. unfold origin_manager_try_origin, ensure_from_body. simpl. repeat case_match; naive_solver. Qed.

Lemma justified_runtime X :
  justified_by runtime_config X -> X = {[COUNCIL_INDEX; TECHNICAL_COMMITTEE_INDEX]}.
Proof.
  intros [Hn Hids].
  assert (HX : X ⊆ {[COUNCIL_INDEX; TECHNICAL_COMMITTEE_INDEX]}).
  { intros a (o & Ho)%Hids. apply runtime_approver in Ho. set_solver. }
  pose proof (subseteq_size _ _ HX) as Hle.
  change (size {[COUNCIL_INDEX; TECHNICAL_COMMITTEE_INDEX]}) with 2%nat in Hle.
  apply proportion_no_overflow in Hn; simpl in *; unfold in_u, umax, MAX_NUM_BODIES in *; [|lia..].
  apply set_subseteq_size_eq; [done|].
  change (size {[COUNCIL_INDEX; TECHNICAL_COMMITTEE_INDEX]}) with 2%nat. lia.
Qed.

(** C4: with the runtime's configuration a call is dispatched as root only after
    both the council and the technical committee have approved it and neither has
    revoked. *)
Theorem runtime_dispatch_needs_both_bodies
    (frame : forall c s s', disp c s = Ok s' -> Motions s' = Motions s /\ events s' = events s)
    s l1 h r l2 :
  reachable runtime_config s -> events s = l1 ++ MotionDispatched h r :: l2 ->
  replay l1 !! h = Some {[COUNCIL_INDEX; TECHNICAL_COMMITTEE_INDEX]}.
Proof.
  intros Hs He.
  assert (Hj : justified_by runtime_config (default ∅ (replay l1 !! h))).
  { apply (inv_dispatched _ s) with r l2; [|done]. apply reachable_inv; [|done..]. done. }
  apply justified_runtime in Hj. by destruct (replay l1 !! h) eqn:E; simplify_eq/=.
Qed.

(** ** Declared and actual weights *)

(** The weight that a call reports, in success or in failure, satisfies [P]. *)
Definition reports {E S} (P : Weight -> Prop)
    (r : outcome (ErrorWithPostInfo E) (PostDispatchInfo * S)) : Prop :=
  match r with
  | Ok (i, _) => forall a, actual_weight i = Some a -> P a
  | Err e => forall a, actual_weight (post_info e) = Some a -> P a
  | Panic => True
  end.
Definition within (w : Weight) (a : Weight) : Prop := a ⊑w w.
Definition time_within (w : Weight) (a : Weight) : Prop := ref_time a <= ref_time w.

Ltac table_solve :=
  intros w [= <-]; unfold within;
  cbn [weight_info runtime_config runtime_weights MaxAuthorityBodies wi_motion_approve
       wi_motion_approve_new wi_motion_approve_ended wi_motion_approve_already_approved
       wi_motion_approve_exceeds_bounds wi_motion_revoke wi_motion_revoke_ended
       wi_motion_revoke_not_found wi_motion_revoke_approval_missing wi_motion_revoke_remove
       wi_motion_close_still_ongoing wi_motion_close_expired wi_motion_close_not_found
       wi_motion_close_approved];
  unfold MAX_NUM_BODIES; weight_solve.

(** The reference time alone: forget the proof sizes first. *)
Ltac time_solve :=
  intros w [= <-]; unfold time_within; apply ref_time_le;
  cbn [weight_info runtime_config runtime_weights MaxAuthorityBodies wi_motion_approve
       wi_motion_approve_new wi_motion_approve_ended wi_motion_approve_already_approved
       wi_motion_approve_exceeds_bounds];
  unfold MAX_NUM_BODIES; rewrite ?time_only_add, ?time_only_mul, ?time_only_reads,
    ?time_only_writes; unfold time_only; cbn [ref_time proof_size]; weight_solve.

Ltac close_solve :=
  intros w [= <-]; unfold within; apply weight_le_max_add; [done|];
  cbn [weight_info runtime_config runtime_weights wi_motion_close_still_ongoing
       wi_motion_close_expired wi_motion_close_not_found wi_motion_close_approved];
  weight_solve.

Hypothesis db_nonneg : 0 <= db_read db /\ 0 <= db_write db.

Lemma approvals_len_bounds h (m : @MotionInfo Call) :
  motion_ok runtime_config h m -> 0 <= approvals_len m <= 2.
Proof.
  intros Hok. rewrite (approvals_len_small runtime_config ltac:(done) h m Hok).
  destruct Hok as (_ & _ & Hsz & _). simpl in Hsz. unfold MAX_NUM_BODIES in Hsz. lia.
Qed.

Lemma motion_approve_weight o c s :
  map_Forall (motion_ok runtime_config) (Motions s) ->
  reports (time_within (motion_approve_declared runtime_config))
    (motion_approve runtime_config o c s).
Proof.
  intros Hok. unfold motion_approve, ensure_origin, motion_approve_declared. unfold_m.
  destruct (MotionApprovalOrigin _ o) as [a|]; [|done].
  unfold try_mutate, approve_closure, deposit_event. unfold_m.
  destruct (Motions s !! hash_of runtime_config c) as [m|] eqn:Hm.
  - pose proof (approvals_len_bounds _ _ (Hok _ _ Hm)).
    repeat case_match; simplify_eq; time_solve.
  - repeat case_match; simplify_eq; time_solve.
Qed.

Lemma motion_revoke_weight o h s :
  map_Forall (motion_ok runtime_config) (Motions s) ->
  reports (within (motion_revoke_declared runtime_config)) (motion_revoke runtime_config o h s).
Proof.
  intros Hok. unfold motion_revoke, ensure_origin, motion_revoke_declared. unfold_m.
  destruct (MotionRevokeOrigin _ o) as [a|]; [|done].
  unfold try_mutate, revoke_closure, deposit_event, motion_remove. unfold_m.
  destruct (Motions s !! h) as [m|] eqn:Hm.
  - pose proof (approvals_len_bounds _ _ (Hok _ _ Hm)). repeat case_match; simplify_eq; table_solve.
  - repeat case_match; simplify_eq; table_solve.
Qed.

Lemma motion_close_weight o h b s :
  weight_nonneg b ->
  reports (within (motion_close_declared runtime_config b)) (motion_close runtime_config o h b s).
Proof.
  intros [Hb1 Hb2]. unfold motion_close, ensure_origin, motion_close_declared. unfold_m.
  destruct (ensure_signed o) as [who|]; [|done].
  destruct (Motions s !! h) as [m|]; [|close_solve].
  destruct (is_motion_approved _ _).
  - destruct (all_lte _ b) eqn:Hlte; [|close_solve].
    apply all_lte_spec in Hlte.
    unfold dispatch_in_layer, deposit_event, motion_remove. unfold_m.
    destruct (dispatch _ _ s); simpl; [intros w [= <-]..|done].
    all: apply weight_add_mono; [apply weight_le_max_l|exact Hlte].
  - unfold deposit_event, motion_remove. unfold_m. destruct (has_ended _ m); close_solve.
Qed.

(** With the runtime's weights, every outcome of the three calls, errors
    included, reports a reference time within the one that the call declared, and
    for [motion_revoke] and [motion_close] a proof size within it too. *)
Theorem actual_weight_within_declared s o c h b :
  map_Forall (motion_ok runtime_config) (Motions s) -> weight_nonneg b ->
  reports (time_within (motion_approve_declared runtime_config))
    (motion_approve runtime_config o c s) /\
  reports (within (motion_revoke_declared runtime_config)) (motion_revoke runtime_config o h s) /\
  reports (within (motion_close_declared runtime_config b)) (motion_close runtime_config o h b s).
Proof. auto using motion_approve_weight, motion_revoke_weight, motion_close_weight. Qed.
End Runtime.

(** ** A run

    Calls are numbers with themselves as hash and weight; account 1 speaks for the
    council and account 2 for the technical committee; the dispatch of call 13
    fails and every other call counts itself in the world. *)
Module Example.
Definition St := @State Z Z Z unit _ _.
Definition disp (c : Z) (s : St) : outcome unit St :=
  if c =? 13 then Err tt
  else Ok {| Motions := Motions s; block_number := block_number s; events := events s;
             world := world s + 1 |}.
Definition db : RuntimeDbWeight := {| db_read := 8000000; db_write := 50000000 |}.
Definition cfg : @Config Z Z (RawOrigin Z) Z unit _ _ :=
  runtime_config (fun o => match o with Signed 1 => true | _ => false end)
                 (fun o => match o with Signed 2 => true | _ => false end)
                 db id (fun c => from_parts c 0) disp.
Definition s0 : St := {| Motions := ∅; block_number := 1; events := []; world := 0 |}.
Definition run {A} (m : M St (ErrorWithPostInfo (dispatch_error Error)) A) (s : St) : St :=
  match m s with Ok (_, s') => s' | _ => s end.
Definition s1 : St := run (motion_approve cfg (Signed 1) 7) s0.
Definition s2 : St := run (motion_approve cfg (Signed 2) 7) s1.
Definition s3 : St := run (motion_close cfg (Signed 9) 7 (from_parts 10 10)) s2.
Definition t1 : St := run (motion_approve cfg (Signed 1) 13) s0.
Definition t2 : St := run (motion_approve cfg (Signed 2) 13) t1.
Definition t3 : St := run (motion_close cfg (Signed 9) 13 (from_parts 20 0)) t2.
Definition m13 : @MotionInfo Z :=
  {| approvals := {[40; 42]}; ends_block := 72001; call := 13 |}.
Definition i13 : PostDispatchInfo :=
  pays_no (weight_add (wi_motion_close_approved (weight_info cfg)) (from_parts 13 0)).
End Example.

Lemma example_frame c s s' :
  dispatch Example.cfg c s = Ok s' -> Motions s' = Motions s /\ events s' = events s.
Proof. simpl. unfold Example.disp. case_match; intros; simplify_eq; done. Qed.

Lemma example_reachable_1 : reachable Example.cfg Example.s1.
Proof.
  eapply reachable_step; [by apply (reachable_initial _ Example.s0)|].
  eapply (step_approve _ (Signed 1) 7). vm_compute. reflexivity.
Qed.

Lemma example_reachable_3 : reachable Example.cfg Example.s3.
Proof.
  eapply reachable_step; [eapply reachable_step; [exact example_reachable_1|]|].
  - eapply (step_approve _ (Signed 2) 7). vm_compute. reflexivity.
  - eapply (step_close _ (Signed 9) 7 (from_parts 10 10)). vm_compute. reflexivity.
Qed.

Lemma example_motion : exists m, Motions Example.s1 !! 7 = Some m /\ approvals m = {[40]}.
Proof. eexists. split; vm_compute; reflexivity. Qed.

Lemma reachable_motions_ok_witness :
  exists m, Motions Example.s1 !! 7 = Some m /\ motion_ok Example.cfg 7 m.
Proof.
  destruct example_motion as (m & Hm & _). exists m. split; [exact Hm|].
  apply (reachable_motions_ok Example.cfg ltac:(done) example_frame Example.s1 7 m); [|exact Hm].
  exact example_reachable_1.
Defined.

Lemma dispatched_only_when_approved_witness : justified_by Example.cfg {[40; 42]}.
Proof.
  exact (dispatched_only_when_approved Example.cfg ltac:(done) example_frame Example.s3
    [MotionApproved 7 40; MotionApproved 7 42] 7 (inl tt) [MotionRemoved 7]
    example_reachable_3 eq_refl).
Defined.

Lemma replay_approvals_witness : replay (events Example.s1) = approvals <$> Motions Example.s1.
Proof. exact (replay_approvals Example.cfg ltac:(done) example_frame Example.s1 example_reachable_1). Defined.

Lemma example_m13_ok : motion_ok Example.cfg 13 Example.m13.
Proof.
  split_and!; [done|done|vm_compute; done|].
  intros a Ha. change (a ∈ ({[40; 42]} : gset Z)) in Ha.
  apply elem_of_union in Ha as [->%elem_of_singleton| ->%elem_of_singleton].
  - by exists (Signed 1).
  - by exists (Signed 2).
Qed.

Lemma motion_close_succeeds_iff_witness : exists i s',
  motion_close Example.cfg (Signed 9) 13 (from_parts 20 0) Example.t2 = Ok (i, s') /\
  Motions s' !! 13 = None.
Proof.
  apply (motion_close_succeeds_iff Example.cfg ltac:(done)
    (Signed 9) 9 13 (from_parts 20 0) Example.t2 Example.m13).
  - reflexivity.
  - vm_compute. reflexivity.
  - exact example_m13_ok.
  - discriminate.
  - vm_compute. reflexivity.
Defined.

Lemma failed_dispatch_is_isolated_witness : world Example.t3 = 0 /\ Motions Example.t3 = ∅ /\
  Example.t3 = {| Motions := delete 13 (Motions Example.t2); block_number := 1;
                  events := events Example.t2 ++ [MotionDispatched 13 (inr tt); MotionRemoved 13];
                  world := 0 |}.
Proof.
  split; [reflexivity|]. split; [reflexivity|].
  apply (failed_dispatch_is_isolated Example.cfg (Signed 9) 13 (from_parts 20 0) Example.t2
    Example.i13 Example.t3 Example.m13 tt); vm_compute; reflexivity.
Defined.

Lemma runtime_dispatch_needs_both_bodies_witness :
  @replay Z unit _ _ [MotionApproved 7 40; MotionApproved 7 42] !! 7 = Some ({[40; 42]} : gset Z).
Proof.
  exact (runtime_dispatch_needs_both_bodies _ _ Example.db id _ Example.disp example_frame
    Example.s3 [MotionApproved 7 40; MotionApproved 7 42] 7 (inl tt) [MotionRemoved 7]
    example_reachable_3 eq_refl).
Defined.

Lemma actual_weight_within_declared_witness :
  reports (time_within (motion_approve_declared Example.cfg))
    (motion_approve Example.cfg (Signed 1) 7 Example.s0).
Proof.
  eapply (actual_weight_within_declared _ _ Example.db id _ Example.disp ltac:(simpl; lia)
    Example.s0 (Signed 1) 7 7 weight_zero).
  - apply map_Forall_empty.
  - done.
Defined.

(** A third approval of a motion that both bodies approved fails, and reports four
    bytes of proof size more than the call declared. *)
Lemma already_approved_proof_size :
  exists e w, motion_approve Example.cfg (Signed 1) 7 Example.s2 = Err e /\
    error e = ModuleError MotionAlreadyApproved /\ actual_weight (post_info e) = Some w /\
    proof_size w = proof_size (motion_approve_declared Example.cfg) + 4.
Proof. eexists _, _. repeat split; vm_compute; reflexivity. Qed.
