(* ===== verification/ConsensusEngine.v ===== *)
(** * The change of consensus engine, from AURA to BABE

    Models [src/pallets/consensus-engine/src/lib.rs]: the states of the change, the
    two governance calls, the guard that [on_initialize] makes of the block's
    pre-runtime digests, and the migration of pallet-babe's storage at the flip.
    The storage of pallet-aura and pallet-babe that the pallet reads or writes is
    part of the state; how a digest payload decodes is a parameter. *)

From S2P Require Import Prelude Frame.

(** [ActiveEngine] of [src/primitives/consensus-engine]. *)
Inductive ActiveEngine := EngineAura | EngineBabe.

(** [enum State]: Aura, ArmedBabe, ScheduledFlip and Babe. *)
Inductive EngineSt := Aura | ArmedBabe | ScheduledFlip | Babe.

Definition active_engine_of (st : EngineSt) : ActiveEngine :=
  match st with
  | Aura | ArmedBabe | ScheduledFlip => EngineAura
  | Babe => EngineBabe
  end.

#[export] Instance EngineSt_eq_dec : EqDecision EngineSt.
Proof. solve_decision. Defined.

(** The engine identifiers [AURA_ENGINE_ID] and [BABE_ENGINE_ID], and all others. *)
Inductive EngineId := AURA_ENGINE_ID | BABE_ENGINE_ID | OtherEngine (id : Z).
#[export] Instance EngineId_eq_dec : EqDecision EngineId.
Proof. solve_decision. Defined.

(** [sp_consensus_babe::digests::PreDigest] *)
Inductive PreDigest :=
| Primary
| SecondaryPlain (authority_index slot : Z)
| SecondaryVRF.

Inductive Error := InvalidEngineState.

Section Pallet.
Context {Origin Payload Randomness EpochConfiguration : Type}.

(** A digest item: a pre-runtime item of an engine, or another kind of item. *)
Inductive DigestItem :=
| PreRuntime (id : EngineId) (payload : Payload)
| OtherItem.

(** [EngineState], the digest of the current block, and what the pallet reads and
    writes of pallet-aura and pallet-babe. *)
Record State := {
  EngineState : EngineSt;
  digest_logs : list DigestItem;
  aura_authorities_len : Z;
  aura_CurrentSlot : Z;
  babe_GenesisSlot : Z;
  babe_CurrentSlot : Z;
  babe_EpochIndex : Z;
  babe_Randomness : Randomness;
  babe_NextRandomness : Randomness;
  babe_EpochConfig : option EpochConfiguration;
  babe_authorities_len : Z
}.

Record Config := {
  GovernanceOrigin : Origin -> bool;
  EpochDuration : Z;
  EpochConfigurationValue : EpochConfiguration;
  BABE_GENESIS_RANDOMNESS : Randomness;
  on_initialize_weight : Weight;
  (** [as_aura_pre_digest] and [as_babe_pre_digest] on a payload of the engine. *)
  decode_aura : Payload -> option Z;
  decode_babe : Payload -> option PreDigest
}.

Variable cfg : Config.

Definition Pallet (A : Type) := M State (dispatch_error Error) A.

Definition set_engine (st : EngineSt) (s : State) : State :=
  {| EngineState := st; digest_logs := digest_logs s;
     aura_authorities_len := aura_authorities_len s; aura_CurrentSlot := aura_CurrentSlot s;
     babe_GenesisSlot := babe_GenesisSlot s; babe_CurrentSlot := babe_CurrentSlot s;
     babe_EpochIndex := babe_EpochIndex s; babe_Randomness := babe_Randomness s;
     babe_NextRandomness := babe_NextRandomness s; babe_EpochConfig := babe_EpochConfig s;
     babe_authorities_len := babe_authorities_len s |}.
Definition set_genesis_slot (slot : Z) (s : State) : State :=
  {| EngineState := EngineState s; digest_logs := digest_logs s;
     aura_authorities_len := aura_authorities_len s; aura_CurrentSlot := aura_CurrentSlot s;
     babe_GenesisSlot := slot; babe_CurrentSlot := babe_CurrentSlot s;
     babe_EpochIndex := babe_EpochIndex s; babe_Randomness := babe_Randomness s;
     babe_NextRandomness := babe_NextRandomness s; babe_EpochConfig := babe_EpochConfig s;
     babe_authorities_len := babe_authorities_len s |}.

(** [log.as_pre_runtime()] *)
Definition as_pre_runtime (log : DigestItem) : option (EngineId * Payload) :=
  match log with PreRuntime id p => Some (id, p) | OtherItem => None end.

(** [as_aura_pre_digest(log)] and [log.as_babe_pre_digest()] *)
Definition as_aura_pre_digest (log : DigestItem) : option Z :=
  match log with PreRuntime AURA_ENGINE_ID p => decode_aura cfg p | _ => None end.
Definition as_babe_pre_digest (log : DigestItem) : option PreDigest :=
  match log with PreRuntime BABE_ENGINE_ID p => decode_babe cfg p | _ => None end.

Definition has_pre_runtime_for (engine_id : EngineId) (logs : list DigestItem) : bool :=
  existsb (fun log => match as_pre_runtime log with
                      | Some (id, _) => bool_decide (id = engine_id)
                      | None => false
                      end) logs.

(** The loop of [has_aura_pre_digest_before_babe_pre_digest]; [n] is the number of
    AURA authorities. *)
Fixpoint digest_loop (n : Z) (aura_slot : option Z) (babe_ok : bool)
    (logs : list DigestItem) : bool :=
  match logs with
  | [] => babe_ok
  | log :: logs' =>
      match as_pre_runtime log with
      | None => digest_loop n aura_slot babe_ok logs'
      | Some (engine_id, _) =>
          if decide (engine_id = AURA_ENGINE_ID) then
            match as_aura_pre_digest log with
            | None => false
            | Some slot =>
                match aura_slot with
                | Some _ => false
                | None => digest_loop n (Some slot) babe_ok logs'
                end
            end
          else if decide (engine_id = BABE_ENGINE_ID) then
            if babe_ok then false
            else match as_babe_pre_digest log with
                 | None => false
                 | Some babe =>
                     match aura_slot with
                     | None => false
                     | Some slot =>
                         match babe with
                         | SecondaryPlain authority_index plain_slot =>
                             if negb (plain_slot =? slot) then false
                             else if n =? 0 then false
                             else if negb (authority_index =? wrap 32 (slot mod n)) then false
                             else digest_loop n aura_slot true logs'
                         | _ => false
                         end
                     end
                 end
          else digest_loop n aura_slot babe_ok logs'
      end
  end.

Definition has_aura_pre_digest_before_babe_pre_digest (s : State) : bool :=
  digest_loop (aura_authorities_len s) None false (digest_logs s).

Definition current_slot_from_aura_digest (s : State) : option Z :=
  head (omap as_aura_pre_digest (digest_logs s)).

(** [u64] arithmetic; the additions and the product wrap in a release build. *)
Definition is_last_slot_of_epoch (slot : Z) : bool :=
  let duration := Z.max (EpochDuration cfg) 1 in
  (wrap 64 (slot + 1) mod duration =? 0).

Definition next_epoch_start (slot : Z) : Z :=
  let duration := Z.max (EpochDuration cfg) 1 in
  wrap 64 (wrap 64 (slot / duration + 1) * duration).

(** The writes of [migrate_to_babe]. *)
Definition migrated (slot : Z) (s : State) : State :=
  {| EngineState := EngineState s; digest_logs := digest_logs s;
     aura_authorities_len := aura_authorities_len s; aura_CurrentSlot := aura_CurrentSlot s;
     babe_GenesisSlot := next_epoch_start slot; babe_CurrentSlot := slot; babe_EpochIndex := 0;
     babe_Randomness := BABE_GENESIS_RANDOMNESS cfg;
     babe_NextRandomness := BABE_GENESIS_RANDOMNESS cfg;
     babe_EpochConfig := match babe_EpochConfig s with
                         | None => Some (EpochConfigurationValue cfg)
                         | Some c => Some c
                         end;
     babe_authorities_len := babe_authorities_len s |}.

(** [migrate_to_babe] ends in [panic!("Issue #1742 adds BABE keys to the runtime")]. *)
Definition migrate_to_babe (slot : Z) : Pallet unit :=
  do* modify (migrated slot) in panic.

Definition on_initialize : Pallet Weight :=
  let* s := get in
  do* match EngineState s with
      | Aura => assert_ (negb (has_pre_runtime_for BABE_ENGINE_ID (digest_logs s)))
      | ArmedBabe => assert_ (has_aura_pre_digest_before_babe_pre_digest s)
      | ScheduledFlip =>
          do* assert_ (has_aura_pre_digest_before_babe_pre_digest s) in
          match current_slot_from_aura_digest s with
          | Some slot =>
              if is_last_slot_of_epoch slot then
                if babe_authorities_len s =? 0 then ret tt
                else do* migrate_to_babe slot in modify (set_engine Babe)
              else ret tt
          | None => ret tt
          end
      | Babe => assert_ (negb (has_pre_runtime_for AURA_ENGINE_ID (digest_logs s)))
      end in
  ret (on_initialize_weight cfg).

Definition set_sentinel_babe_genesis_slot : Pallet unit := modify (set_genesis_slot (umax 64)).

Definition arm_babe (origin : Origin) : Pallet unit :=
  do* ensure (GovernanceOrigin cfg origin) BadOrigin in
  let* s := get in
  do* ensure (bool_decide (EngineState s = Aura)) (ModuleError InvalidEngineState) in
  do* set_sentinel_babe_genesis_slot in
  modify (set_engine ArmedBabe).

Definition schedule_flip (origin : Origin) : Pallet unit :=
  do* ensure (GovernanceOrigin cfg origin) BadOrigin in
  let* s := get in
  do* ensure (bool_decide (EngineState s = ArmedBabe)) (ModuleError InvalidEngineState) in
  modify (set_engine ScheduledFlip).

Definition active_engine (s : State) : ActiveEngine := active_engine_of (EngineState s).

Definition should_emit_babe_preruntime_digest (s : State) : bool :=
  match EngineState s with ArmedBabe | ScheduledFlip => true | _ => false end.

Definition current_slot (s : State) : Z :=
  match active_engine s with
  | EngineAura => aura_CurrentSlot s
  | EngineBabe => babe_CurrentSlot s
  end.

(** [FindAuthor] and [OnTimestampSet]: delegate to the pallet of the active engine. *)
Definition find_author {A} (aura_find babe_find : A -> option Z) (digests : A) (s : State)
    : option Z :=
  match active_engine s with
  | EngineAura => aura_find digests
  | EngineBabe => babe_find digests
  end.
Definition on_timestamp_set {Moment} (aura_set babe_set : Moment -> State -> State)
    (moment : Moment) (s : State) : State :=
  match active_engine s with
  | EngineAura => aura_set moment s
  | EngineBabe => babe_set moment s
  end.

(** ** The digest guard *)

Definition is_engine_item (log : DigestItem) : bool :=
  match log with
  | PreRuntime AURA_ENGINE_ID _ | PreRuntime BABE_ENGINE_ID _ => true
  | _ => false
  end.

(** The pre-runtime items of the two engines, in order. *)
Definition engine_items (logs : list DigestItem) : list DigestItem :=
  List.filter is_engine_item logs.

(** What the guard is documented to accept: exactly one item of each engine, AURA
    first, both of which decode, the BABE one a secondary plain slot claim of the
    same slot by AURA's author of that slot. *)
Definition transition_digest (n : Z) (logs : list DigestItem) : Prop :=
  exists slot pa pb,
    engine_items logs = [PreRuntime AURA_ENGINE_ID pa; PreRuntime BABE_ENGINE_ID pb] /\
    decode_aura cfg pa = Some slot /\
    decode_babe cfg pb = Some (SecondaryPlain (wrap 32 (slot mod n)) slot) /\ n <> 0.

Lemma digest_loop_engine_items n a b logs :
  digest_loop n a b logs = digest_loop n a b (engine_items logs).
Proof.
  revert a b. induction logs as [|[[] p|] logs IH]; intros a b; simpl; try done.
  - destruct (decode_aura cfg p); [|done]. by destruct a.
  - destruct b; [done|]. destruct (decode_babe cfg p) as [[]|]; [done| |done..].
    destruct a; [|done]. by rewrite IH.
Qed.

Lemma engine_items_cons logs it l : engine_items logs = it :: l -> is_engine_item it = true.
Proof. intros H. assert (In it (engine_items logs)) as []%filter_In by (rewrite H; by left). done. Qed.

Lemma engine_items_idemp logs : engine_items (engine_items logs) = engine_items logs.
Proof.
  unfold engine_items. induction logs as [|x logs IH]; simpl; [done|].
  destruct (is_engine_item x) eqn:E; simpl; rewrite ?E, ?IH; done.
Qed.

Lemma digest_loop_done n slot l :
  Forall (fun it => is_engine_item it = true) l ->
  digest_loop n (Some slot) true l = true <-> l = [].
Proof.
  destruct 1 as [|[[] p|] l E]; simpl in *; try done. by destruct (decode_aura cfg p).
Qed.

Lemma digest_loop_after_aura n slot l :
  Forall (fun it => is_engine_item it = true) l ->
  digest_loop n (Some slot) false l = true <->
  exists pb, l = [PreRuntime BABE_ENGINE_ID pb] /\
    decode_babe cfg pb = Some (SecondaryPlain (wrap 32 (slot mod n)) slot) /\ n <> 0.
Proof.
  intros Hl. destruct Hl as [|[[] p|] l E Hl]; simpl in *; try done.
  - naive_solver.
  - destruct (decode_aura cfg p); naive_solver.
  - destruct (decode_babe cfg p) as [[|i sl|]|] eqn:Hd; try naive_solver.
    destruct (Z.eqb_spec sl slot) as [->|]; simpl; [|naive_solver].
    destruct (Z.eqb_spec n 0); [naive_solver|].
    destruct (Z.eqb_spec i (wrap 32 (slot mod n))) as [->|]; simpl; [|naive_solver].
    rewrite digest_loop_done by done. naive_solver.
Qed.

Lemma engine_items_Forall logs : Forall (fun it => is_engine_item it = true) (engine_items logs).
Proof. apply List.Forall_forall. by intros it []%filter_In. Qed.

Lemma digest_guard_spec s :
  has_aura_pre_digest_before_babe_pre_digest s = true <->
  transition_digest (aura_authorities_len s) (digest_logs s).
Proof.
  unfold has_aura_pre_digest_before_babe_pre_digest, transition_digest.
  rewrite digest_loop_engine_items.
  destruct (engine_items_Forall (digest_logs s)) as [|[[] p|] l E Hl]; simpl in *; try done.
  - naive_solver.
  - destruct (decode_aura cfg p) as [slot|] eqn:Hd; [|naive_solver].
    rewrite digest_loop_after_aura by done. naive_solver.
  - destruct (decode_babe cfg p); naive_solver.
Qed.

(** C39: the guard of the armed states accepts a block exactly when its digest has, among
    whatever items of other engines and kinds, exactly one pre-runtime item of AURA and one of
    BABE, in this order, both of which decode, the BABE one being a secondary plain claim of
    the same slot whose authority index is that slot modulo the number of AURA authorities, of
    which there is at least one. *)
Theorem digest_guard_iff s :
  has_aura_pre_digest_before_babe_pre_digest s = true <->
  transition_digest (aura_authorities_len s) (digest_logs s).
Proof. apply digest_guard_spec. Qed.

(** ** Epoch arithmetic *)

Definition duration : Z := Z.max (EpochDuration cfg) 1.

Lemma last_slot_iff slot : 0 <= slot -> slot + 1 <= umax 64 ->
  is_last_slot_of_epoch slot = true <-> (slot + 1) mod duration = 0.
Proof.
  unfold is_last_slot_of_epoch, wrap, umax. intros. fold duration.
  rewrite (Z.mod_small (slot + 1) (2 ^ 64)) by lia. apply Z.eqb_eq.
Qed.

Lemma next_epoch_start_eq slot : 0 <= slot -> slot + duration <= umax 64 ->
  next_epoch_start slot = (slot / duration + 1) * duration.
Proof.
  unfold next_epoch_start, wrap. fold duration. intros Hs Hd.
  assert (0 < duration) by (unfold duration; lia).
  assert (0 <= slot / duration <= slot) by (split; [by apply Z.div_pos|by apply Z.div_le_upper_bound; nia]).
  pose proof (Z.mul_div_le slot duration ltac:(lia)).
  unfold umax in *. rewrite (Z.mod_small (_ + 1)) by lia. apply Z.mod_small. nia.
Qed.

(** BABE's genesis slot is the first epoch boundary after the flip's slot; at
    the last slot of an epoch, the only place where the flip happens, it is the very
    next slot, so the epochs of BABE and of the sidechain stay aligned. *)
Theorem babe_genesis_is_aligned slot : 0 <= slot -> slot + duration <= umax 64 ->
  (next_epoch_start slot) mod duration = 0 /\ slot < next_epoch_start slot <= slot + duration /\
  (is_last_slot_of_epoch slot = true -> next_epoch_start slot = slot + 1).
Proof.
  intros Hs Hd. assert (0 < duration) by (unfold duration; lia).
  rewrite last_slot_iff by lia. rewrite next_epoch_start_eq by done.
  pose proof (Z.div_mod slot duration ltac:(lia)). pose proof (Z.mod_pos_bound slot duration ltac:(lia)).
  split; [by apply Z.mod_mul; lia|]. split; [nia|]. intros Hlast.
  apply Z.mod_divide in Hlast as [k Hk]; [|lia].
  assert (slot / duration = k - 1) as ->.
  { symmetry. apply (Z.div_unique_pos slot duration (k - 1) (duration - 1)); nia. }
  lia.
Qed.

(** ** The state machine *)

(** The writes of other pallets between this pallet's hooks and calls: the digest of
    the next block, session rotation, and pallet-babe's own hook, which initializes
    a genesis epoch only while [GenesisSlot] is zero. *)
Definition environment_step (s s' : State) : Prop :=
  EngineState s' = EngineState s /\
  (babe_GenesisSlot s <> 0 -> babe_GenesisSlot s' = babe_GenesisSlot s).

Inductive step : State -> State -> Prop :=
| step_initialize s w s' : on_initialize s = Ok (w, s') -> step s s'
| step_arm o s s' : arm_babe o s = Ok (tt, s') -> step s s'
| step_schedule o s s' : schedule_flip o s = Ok (tt, s') -> step s s'
| step_environment s s' : environment_step s s' -> step s s'.

Inductive reachable : State -> Prop :=
| reachable_initial s : EngineState s = Aura -> reachable s
| reachable_step s s' : reachable s -> step s s' -> reachable s'.

Lemma on_initialize_Ok s w s' : on_initialize s = Ok (w, s') -> s' = s.
Proof.
  unfold on_initialize, migrate_to_babe. unfold_m. intros H.
  repeat (case_match; simplify_eq; try done).
Qed.

Lemma arm_babe_Ok o s s' : arm_babe o s = Ok (tt, s') ->
  EngineState s = Aura /\ GovernanceOrigin cfg o = true /\
  s' = set_engine ArmedBabe (set_genesis_slot (umax 64) s).
Proof.
  unfold arm_babe, set_sentinel_babe_genesis_slot. unfold_m. intros H.
  destruct (GovernanceOrigin cfg o); [|done].
  destruct (bool_decide_reflect (EngineState s = Aura)); [|done]. by simplify_eq.
Qed.

Lemma schedule_flip_Ok o s s' : schedule_flip o s = Ok (tt, s') ->
  EngineState s = ArmedBabe /\ GovernanceOrigin cfg o = true /\ s' = set_engine ScheduledFlip s.
Proof.
  unfold schedule_flip. unfold_m. intros H.
  destruct (GovernanceOrigin cfg o); [|done].
  destruct (bool_decide_reflect (EngineState s = ArmedBabe)); [|done]. by simplify_eq.
Qed.

(** On every chain that started in state [Aura], a chain past arming has the
    sentinel in pallet-babe's [GenesisSlot], so pallet-babe never initializes a
    genesis epoch of its own, and the state [Babe] is never reached: the migration
    ends in a panic, so no block commits the flip. *)
Theorem flip_never_commits s : reachable s ->
  EngineState s <> Babe /\ (EngineState s <> Aura -> babe_GenesisSlot s = umax 64).
Proof.
  induction 1 as [s ->|s s' _ [IH1 IH2] Hstep]; [done|].
  destruct Hstep as [s w s' ->%on_initialize_Ok|o s s' (?&_&->)%arm_babe_Ok
    |o s s' (Hst&_&->)%schedule_flip_Ok|s s' [He Hg]]; simpl; [done|done| |].
  - split; [done|]. intros _. apply IH2. by rewrite Hst.
  - rewrite He. split; [done|]. intros Hne. rewrite Hg; [by apply IH2|].
    rewrite IH2 by done. done.
Qed.

(** A block is accepted by the hook exactly when: no BABE item before arming; the
    transition digest once armed; once scheduled, moreover, the block is not at the
    last slot of an epoch with BABE authorities in place, where it panics; no AURA
    item after the flip. An accepted block is left unchanged. *)
Theorem on_initialize_accepts_iff s :
  on_initialize s = Ok (on_initialize_weight cfg, s) <->
  match EngineState s with
  | Aura => has_pre_runtime_for BABE_ENGINE_ID (digest_logs s) = false
  | ArmedBabe => transition_digest (aura_authorities_len s) (digest_logs s)
  | ScheduledFlip =>
      transition_digest (aura_authorities_len s) (digest_logs s) /\
      (babe_authorities_len s <> 0 ->
       forall slot, current_slot_from_aura_digest s = Some slot -> is_last_slot_of_epoch slot = false)
  | Babe => has_pre_runtime_for AURA_ENGINE_ID (digest_logs s) = false
  end.
Proof.
  pose proof (digest_guard_spec s) as Hg. unfold on_initialize, migrate_to_babe. unfold_m.
  destruct (EngineState s).
  - by destruct (has_pre_runtime_for _ _).
  - rewrite <- Hg. by destruct (has_aura_pre_digest_before_babe_pre_digest s).
  - rewrite <- Hg. clear Hg.
    destruct (has_aura_pre_digest_before_babe_pre_digest s); [|by split; [|intros []]].
    destruct (current_slot_from_aura_digest s) as [slot|]; [|by split].
    destruct (is_last_slot_of_epoch slot) eqn:Hl.
    + destruct (Z.eqb_spec (babe_authorities_len s) 0) as [Hz|Hz]; [by split|].
      split; [done|]. intros [_ Hn]. specialize (Hn Hz slot eq_refl). congruence.
    + split; [|done]. intros _. split; [done|]. intros _ slot' [= <-]. done.
  - by destruct (has_pre_runtime_for _ _).
Qed.
End Pallet.

(** ** A run

    Payloads are pairs: the slot that an AURA payload or a BABE claim states, and the
    claimed authority. Epochs have 10 slots and there are 3 AURA authorities. *)
Module Example.
Definition cfg : @Config (RawOrigin Z) (Z * Z) unit unit :=
  {| GovernanceOrigin o := match o with Root => true | _ => false end;
     EpochDuration := 10; EpochConfigurationValue := tt; BABE_GENESIS_RANDOMNESS := tt;
     on_initialize_weight := weight_zero;
     decode_aura p := Some (fst p);
     decode_babe p := Some (SecondaryPlain (snd p) (fst p)) |}.
Definition block (st : EngineSt) (genesis : Z) (logs : list (@DigestItem (Z * Z)))
    : @State (Z * Z) unit unit :=
  {| EngineState := st; digest_logs := logs; aura_authorities_len := 3; aura_CurrentSlot := 18;
     babe_GenesisSlot := genesis; babe_CurrentSlot := 0; babe_EpochIndex := 0;
     babe_Randomness := tt; babe_NextRandomness := tt; babe_EpochConfig := None;
     babe_authorities_len := 3 |}.
Definition logs (slot : Z) : list (@DigestItem (Z * Z)) :=
  [OtherItem; PreRuntime AURA_ENGINE_ID (slot, 0); PreRuntime (OtherEngine 7) (0, 0);
   PreRuntime BABE_ENGINE_ID (slot, slot mod 3)].
End Example.

Lemma babe_genesis_is_aligned_witness : next_epoch_start Example.cfg 19 = 20 /\
  next_epoch_start Example.cfg 23 mod 10 = 0.
Proof.
  split.
  - apply (babe_genesis_is_aligned Example.cfg 19); vm_compute; congruence.
  - apply (babe_genesis_is_aligned Example.cfg 23); vm_compute; congruence.
Defined.

Lemma example_reachable : reachable Example.cfg (Example.block ScheduledFlip (umax 64) []).
Proof.
  apply (reachable_step _ (Example.block ArmedBabe (umax 64) [])).
  - apply (reachable_step _ (Example.block Aura 0 [])); [by apply reachable_initial|].
    by apply (step_arm _ Root).
  - by apply (step_schedule _ Root).
Qed.

Lemma flip_never_commits_witness :
  babe_GenesisSlot (Example.block ScheduledFlip (umax 64) []) = umax 64.
Proof. apply (flip_never_commits Example.cfg _ example_reachable). discriminate. Defined.

(** The last block of an epoch panics, the others are accepted. *)
Lemma example_flip_block_panics :
  on_initialize Example.cfg (Example.block ScheduledFlip (umax 64) (Example.logs 19)) = Panic /\
  on_initialize Example.cfg (Example.block ScheduledFlip (umax 64) (Example.logs 18)) <> Panic.
Proof. by split. Qed.
