(* ===== verification/Selection.v ===== *)
(** * Committee selection

    Models [src/partner-chains/toolkit/committee-selection/selection/src]: the
    weighted random selection ([weighted_random.rs]), the selection with guaranteed
    seats that the runtime uses ([ariadne_v2.rs]) and the original Ariadne weights
    ([ariadne.rs]).  The ChaCha20 generator is a parameter; a computation that uses
    it threads the generator as the state of the monad, and panics where the Rust
    code does.  Weights are [u128], seat numbers [u16]. *)

From stdpp Require Import sorting.
From S2P Require Import Prelude Frame.
From stdpp Require Import list.
Open Scope Z_scope.

(** What the selection uses of [ChaCha20Rng] and [rand]. *)
Class ChaCha (Rng Seed : Type) := {
  from_seed : Seed -> Rng;
  get_seed : Rng -> Seed;
  (** [rng.random_range(0..n)], for a non-empty range *)
  random_range : Z -> Rng -> Z * Rng;
  (** [slice.shuffle(rng)] *)
  shuffle : forall A, list A -> Rng -> list A * Rng
}.
Arguments shuffle {Rng Seed _ A} _ _.

(** What their documentation promises. *)
Class ChaChaLaws (Rng Seed : Type) `{ChaCha Rng Seed} := {
  random_range_bounds (n : Z) (r : Rng) : 0 < n -> 0 <= fst (random_range n r) < n;
  shuffle_permutes A (l : list A) (r : Rng) : Permutation (fst (shuffle l r)) l
}.

(** [Ord] of pairs of a candidate and its weight: lexicographic. *)
Definition pair_le {T} (leT : T -> T -> Prop) (x y : T * Z) : Prop :=
  (leT (fst x) (fst y) /\ fst x <> fst y) \/ (fst x = fst y /\ snd x <= snd y).

#[export] Instance pair_le_dec {T} `{EqDecision T} (leT : T -> T -> Prop) `{!RelDecision leT} :
  RelDecision (pair_le leT).
Proof. intros x y. unfold pair_le. apply _. Defined.

Section Selection.
Context {Rng Seed : Type} `{!ChaCha Rng Seed}.
Context {T : Type} `{EqDecision T}.
Context (leT : T -> T -> Prop) `{!RelDecision leT}.

Definition Sel (A : Type) := M Rng Empty_set A.

Definition total_weight (cs : list (T * Z)) : Z := wrap 128 (sumZ (snd <$> cs)).

(** [u128] division and remainder panic on zero. *)
Definition checked_div_rem (a b : Z) : option (Z * Z) :=
  if b =? 0 then None else Some (a / b, a mod b).

(** ** [weighted_random.rs] *)

(** The loop of [select_with_weight]: the index of the first candidate whose
    cumulative weight exceeds the number. *)
Fixpoint cumulative_index (index : nat) (cumulative_weight : Z) (random_number : Z)
    (cs : list (T * Z)) : option nat :=
  match cs with
  | [] => None
  | (_, weight) :: cs' =>
      let cumulative_weight := wrap 128 (cumulative_weight + weight) in
      if random_number <? cumulative_weight then Some index
      else cumulative_index (S index) cumulative_weight random_number cs'
  end.

(** [random_range] panics on the empty range; the loop panics when it finds nobody. *)
Definition select_with_weight (cs : list (T * Z)) (total : Z) : Sel nat :=
  do* assert_ (0 <? total) in
  let* random_number := (fun r => Ok (random_range total r)) in
  expect (cumulative_index 0 0 random_number cs).

(** The loop that fills the committee; [seats] is how many are missing. *)
Fixpoint fill_committee (cs : list (T * Z)) (total : Z) (seats : nat) (committee : list T)
    : Sel (list T) :=
  match seats with
  | O => ret committee
  | S seats' =>
      match cs with
      | [] => ret committee
      | _ :: _ =>
          let* selected_index := select_with_weight cs total in
          let* selected := expect (fst <$> cs !! selected_index) in
          fill_committee cs total seats' (committee ++ [selected])
      end
  end.

(** [weighted_random::select_authorities]; it makes its own generator, so it leaves
    the caller's alone. *)
Definition weighted_random_select (cs : list (T * Z)) (seed : Seed) (size : Z)
    : Sel (option (list T)) := fun rng =>
  match fill_committee cs (total_weight cs) (Z.to_nat size) [] (from_seed seed) with
  | Ok (committee, _) => Ok (if size <=? len committee then Some committee else None, rng)
  | Err e => Err e
  | Panic => Panic
  end.

(** ** [ariadne_v2.rs] *)

Definition SelectGuaranteedResult : Type := list T * list (T * Z).

(** The filter and map of [select_guaranteed]. *)
Definition scaled_candidates (cs : list (T * Z)) (n : Z) : list (T * Z) :=
  (fun '(c, weight) => (c, wrap 128 (weight * n))) <$> filter (fun x => 0 < snd x) cs.

(** Its loop: [usize] has 32 bits in the runtime. *)
Fixpoint guaranteed_loop (threshold : Z) (scaled : list (T * Z)) (acc : SelectGuaranteedResult)
    : Sel SelectGuaranteedResult :=
  match scaled with
  | [] => ret acc
  | (c, weight) :: scaled' =>
      let* '(guaranteed, remaining_weight) := expect (checked_div_rem weight threshold) in
      do* assert_ (guaranteed <=? umax 32) in
      let '(selected, remaining) := acc in
      guaranteed_loop threshold scaled'
        (selected ++ replicate (Z.to_nat guaranteed) c,
         if 0 <? remaining_weight then remaining ++ [(c, remaining_weight)] else remaining)
  end.

Definition select_guaranteed (cs : list (T * Z)) (n : Z) : Sel SelectGuaranteedResult :=
  guaranteed_loop (total_weight cs) (scaled_candidates cs n) ([], []).

Definition select_remaining (cs : list (T * Z)) (n : Z) : Sel (list T) :=
  let* rng := get in
  let* chosen := weighted_random_select cs (get_seed rng) n in
  ret (default [] chosen).

Definition weighted_with_guaranteed_assignment (cs : list (T * Z)) (n : Z) : Sel (list T) :=
  if bool_decide (cs = []) || (n =? 0) then ret []
  else
    let* '(selected, remaining) := select_guaranteed (merge_sort (pair_le leT) cs) n in
    do* assert_ (len selected <=? umax 16) in
    let* rest := select_remaining remaining (wrap 16 (n - len selected)) in
    ret (selected ++ rest).

(** [ariadne_v2::select_authorities] *)
Definition select_authorities_v2 (registered_seats permissioned_seats : Z)
    (registered_candidates : list (T * Z)) (permissioned_candidates : list T) (seed : Seed)
    : outcome Empty_set (option (list T)) :=
  let seats_total := wrap 16 (permissioned_seats + registered_seats) in
  let permissioned := (fun c => (c, 1)) <$> permissioned_candidates in
  let select : Sel (list T) :=
    match registered_candidates, permissioned with
    | _ :: _, _ :: _ =>
        let* registered_selected :=
          weighted_with_guaranteed_assignment registered_candidates registered_seats in
        let* permissioned_selected :=
          weighted_with_guaranteed_assignment permissioned permissioned_seats in
        ret (registered_selected ++ permissioned_selected)
    | [], _ => weighted_with_guaranteed_assignment permissioned seats_total
    | _ :: _, [] => weighted_with_guaranteed_assignment registered_candidates seats_total
    end in
  let run : Sel (list T) :=
    let* selected := select in
    (fun rng => Ok (shuffle selected rng)) in
  match run (from_seed seed) with
  | Ok (selected, _) =>
      Ok (if bool_decide (selected = []) && (0 <? seats_total) then None else Some selected)
  | Err e => Err e
  | Panic => Panic
  end.

(** ** [ariadne.rs] *)

Definition trustless_candidates_with_weights (trustless_candidates : list (T * Z))
    (num_trustless_candidates permissioned_candidates_count : Z) : list (T * Z) :=
  let weight_factor :=
    if 0 <? permissioned_candidates_count
    then wrap 128 (num_trustless_candidates * permissioned_candidates_count) else 1 in
  (fun '(c, weight) => (c, wrap 128 (weight * weight_factor))) <$> trustless_candidates.

Definition permissioned_candidates_with_weights (permissioned_candidates : list T)
    (num_permissioned_candidates num_trustless_candidates total_stake : Z) : list (T * Z) :=
  let weight :=
    if (0 <? total_stake) && (0 <? num_trustless_candidates)
    then wrap 128 (num_permissioned_candidates * total_stake) else 1 in
  (fun c => (c, weight)) <$> permissioned_candidates.

(** The candidates of [ariadne::select_authorities] with their weights, sorted. *)
Definition ariadne_candidates (num_trustless num_permissioned : Z)
    (trustless_candidates : list (T * Z)) (permissioned_candidates : list T) : list (T * Z) :=
  merge_sort (pair_le leT)
    (trustless_candidates_with_weights trustless_candidates num_trustless
       (len permissioned_candidates) ++
     permissioned_candidates_with_weights permissioned_candidates num_permissioned
       num_trustless (total_weight trustless_candidates)).

(** [ariadne::select_authorities] *)
Definition select_authorities_v1 (num_trustless num_permissioned : Z)
    (trustless_candidates : list (T * Z)) (permissioned_candidates : list T) (seed : Seed)
    : outcome Empty_set (option (list T)) :=
  let committee_size := wrap 16 (num_trustless + num_permissioned) in
  match weighted_random_select
          (ariadne_candidates num_trustless num_permissioned
             trustless_candidates permissioned_candidates)
          seed committee_size (from_seed seed) with
  | Ok (committee, _) => Ok committee
  | Err e => Err e
  | Panic => Panic
  end.

(** ** Specification *)

(** The weights of the candidates before position [i]. *)
Definition weight_before (cs : list (T * Z)) (i : nat) : Z := sumZ (snd <$> take i cs).

Definition weights (cs : list (T * Z)) : Z := sumZ (snd <$> cs).

Definition count (c : T) (l : list T) : Z := len (filter (fun x => x = c) l).

(** What [n] seats among weighted candidates promise: all of them are given, to
    candidates of positive weight, and nobody gets less than the integer part of the
    expected number of seats. *)
Record fair_seats (cs : list (T * Z)) (n : Z) (seats : list T) : Prop := {
  fair_len : len seats = n;
  fair_floor c w : (c, w) ∈ cs -> n * w / weights cs <= count c seats;
  fair_members c : c ∈ seats -> exists w, (c, w) ∈ cs /\ 0 < w
}.

(** Weights that the code can add and scale by [n] without overflow. *)
Record scalable (cs : list (T * Z)) (n : Z) : Prop := {
  scalable_nonneg : Forall (fun x => 0 <= snd x) cs;
  scalable_pos : 0 < weights cs;
  scalable_fits : weights cs <= umax 128 /\ n * weights cs <= umax 128
}.
End Selection.

(** ** Lemmas *)

Section Weights.
Context {T : Type} `{EqDecision T}.
Implicit Types cs : list (T * Z).

Lemma weights_cons x cs : weights (x :: cs) = snd x + weights cs.
Proof. done. Qed.

Lemma weights_nonneg cs : Forall (fun x => 0 <= snd x) cs -> 0 <= weights cs.
Proof. intros H. apply sumZ_nonneg. rewrite Forall_fmap. exact H. Qed.

Lemma weights_app cs1 cs2 : weights (cs1 ++ cs2) = weights cs1 + weights cs2.
Proof. unfold weights. rewrite fmap_app. apply sumZ_app. Qed.

Lemma weights_filter_pos cs : Forall (fun x => 0 <= snd x) cs ->
  weights (filter (fun x => 0 < snd x) cs) = weights cs.
Proof.
  induction 1 as [|x cs Hx Hcs IH]; [done|].
  rewrite filter_cons, weights_cons. case_decide.
  - rewrite weights_cons. lia.
  - lia.
Qed.

#[export] Instance weights_perm : Proper (Permutation ==> eq) (@weights T).
Proof. intros cs1 cs2 H. unfold weights. by rewrite H. Qed.

Lemma total_weight_eq cs : Forall (fun x => 0 <= snd x) cs -> weights cs <= umax 128 ->
  total_weight cs = weights cs.
Proof.
  intros H1 H2. unfold total_weight. apply wrap_small.
  split; [by apply weights_nonneg|done].
Qed.

Lemma count_app c (l1 l2 : list T) : count c (l1 ++ l2) = count c l1 + count c l2.
Proof. unfold count, len. rewrite filter_app, length_app. lia. Qed.

Lemma count_nonneg c (l : list T) : 0 <= count c l.
Proof. unfold count, len. lia. Qed.

Lemma count_replicate (c : T) n : count c (replicate n c) = Z.of_nat n.
Proof.
  unfold count, len. f_equal. induction n as [|n IH]; [done|]. simpl.
  rewrite filter_cons_True by done. simpl. by rewrite IH.
Qed.

#[export] Instance count_perm c : Proper (Permutation ==> eq) (@count T _ c).
Proof. intros l1 l2 H. unfold count, len. by rewrite H. Qed.

(** The loop of the random choice finds the candidate whose interval of cumulative
    weights holds the number. *)
Lemma cumulative_index_spec cs i0 cum r :
  Forall (fun x => 0 <= snd x) cs -> 0 <= cum -> cum + weights cs <= umax 128 ->
  cum <= r < cum + weights cs ->
  exists i c w, cumulative_index i0 cum r cs = Some (i0 + i)%nat /\ cs !! i = Some (c, w) /\
    cum + weight_before cs i <= r < cum + weight_before cs i + w.
Proof.
  intros Hcs. revert i0 cum.
  induction Hcs as [|[c w] cs Hw Hcs IH]; intros i0 cum Hcum Hfit Hr.
  { unfold weights in Hr. simpl in Hr. lia. }
  rewrite weights_cons in *. simpl in Hw, Hfit, Hr. pose proof (weights_nonneg cs Hcs).
  simpl. rewrite wrap_small by (unfold in_u; lia).
  destruct (Z.ltb_spec r (cum + w)) as [Hlt|Hge].
  - exists 0%nat, c, w. change (weight_before ((c, w) :: cs) 0) with 0.
    replace (i0 + 0)%nat with i0 by lia. split_and!; [done..|lia|lia].
  - destruct (IH (S i0) (cum + w)) as (i & c' & w' & Hi & Hl & Hb); [lia..|].
    exists (S i), c', w'. rewrite Hi.
    change (weight_before ((c, w) :: cs) (S i)) with (w + weight_before cs i).
    replace (i0 + S i)%nat with (S i0 + i)%nat by lia. split_and!; [done..|lia|lia].
Qed.

Lemma weight_before_S cs i c w : cs !! i = Some (c, w) ->
  weight_before cs (S i) = weight_before cs i + w.
Proof.
  intros H. unfold weight_before. erewrite take_S_r by done.
  rewrite fmap_app, sumZ_app. simpl. lia.
Qed.

Lemma weight_before_mono cs i j : Forall (fun x => 0 <= snd x) cs -> (i <= j)%nat ->
  weight_before cs i <= weight_before cs j.
Proof.
  intros Hcs Hij. unfold weight_before.
  replace (take i cs) with (take i (take j cs)) by (rewrite take_take; f_equal; lia).
  rewrite <- (take_drop i (take j cs)) at 2. rewrite fmap_app, sumZ_app.
  assert (0 <= sumZ (snd <$> drop i (take j cs))); [|lia].
  apply sumZ_nonneg. rewrite Forall_fmap. apply Forall_drop, Forall_take. exact Hcs.
Qed.
End Weights.

Section Random.
Context {Rng Seed : Type} `{!ChaCha Rng Seed, !ChaChaLaws Rng Seed}.
Context {T : Type} `{EqDecision T}.
Implicit Types cs : list (T * Z).

(** A list of [k] seats given to candidates of positive weight. *)
Definition picks (cs : list (T * Z)) (k : nat) (l : list T) : Prop :=
  length l = k /\ forall c, c ∈ l -> exists w, (c, w) ∈ cs /\ 0 < w.

Lemma select_with_weight_Ok cs (r : Rng) :
  Forall (fun x => 0 <= snd x) cs -> 0 < weights cs <= umax 128 ->
  exists i c w r', select_with_weight cs (weights cs) r = Ok (i, r') /\
    cs !! i = Some (c, w) /\ 0 < w.
Proof.
  intros Hcs Hw. pose proof (random_range_bounds (weights cs) r ltac:(lia)) as Hr.
  destruct (cumulative_index_spec cs 0 0 (fst (random_range (weights cs) r)))
    as (i & c & w & Hi & Hl & Hb); [done|lia..|].
  exists i, c, w, (snd (random_range (weights cs) r)).
  unfold select_with_weight. unfold_m. destruct (Z.ltb_spec 0 (weights cs)); [|lia].
  destruct (random_range (weights cs) r) as [x r']. simpl in *. rewrite Hi.
  split_and!; [done..|lia].
Qed.

Lemma fill_committee_Ok cs k committee (r : Rng) :
  Forall (fun x => 0 <= snd x) cs -> 0 < weights cs <= umax 128 ->
  exists l r', fill_committee cs (weights cs) k committee r = Ok (committee ++ l, r') /\
    picks cs k l.
Proof.
  intros Hcs Hw. revert committee r. induction k as [|k IH]; intros committee r.
  { exists [], r. rewrite app_nil_r. split; [done|]. split; [done|]. set_solver. }
  destruct (select_with_weight_Ok cs r Hcs Hw) as (i & c & w & r1 & Hs & Hi & Hpos).
  destruct (IH (committee ++ [c]) r1) as (l & r' & Hf & Hl & Hm).
  exists (c :: l), r'. split.
  - destruct cs as [|x cs]; [done|]. cbn [fill_committee]. unfold bind at 1. rewrite Hs, Hi.
    simpl. unfold_m. rewrite Hf, <- app_assoc. done.
  - split; [simpl; lia|]. intros c' [->|Hc']%elem_of_cons; [|by apply Hm].
    exists w. split; [|done]. by eapply list_elem_of_lookup_2.
Qed.

Lemma weighted_random_select_Ok cs seed size (r : Rng) :
  Forall (fun x => 0 <= snd x) cs -> 0 < weights cs <= umax 128 -> 0 <= size ->
  exists l, weighted_random_select cs seed size r = Ok (Some l, r) /\ picks cs (Z.to_nat size) l.
Proof.
  intros Hcs Hw Hs. unfold weighted_random_select.
  rewrite total_weight_eq by (done || lia).
  destruct (fill_committee_Ok cs (Z.to_nat size) [] (from_seed seed) Hcs Hw)
    as (l & r' & -> & Hl & Hm).
  exists l. simpl. unfold len. rewrite Hl.
  destruct (Z.leb_spec size (Z.of_nat (Z.to_nat size))); [|lia]. done.
Qed.

Lemma weighted_random_select_nil seed size (r : Rng) : 0 <= size ->
  weighted_random_select (T:=T) [] seed size r = Ok (if size =? 0 then Some [] else None, r).
Proof.
  intros Hs. unfold weighted_random_select, len.
  assert (forall k r', fill_committee (T:=T) [] (total_weight []) k [] r' = Ok ([], r')) as ->.
  { by intros []. }
  change (Z.of_nat (length [])) with 0.
  destruct (Z.leb_spec size 0), (Z.eqb_spec size 0); (done || lia).
Qed.

Lemma select_remaining_Ok cs n (r : Rng) :
  Forall (fun x => 0 < snd x) cs -> weights cs <= umax 128 -> 0 <= n -> (cs = [] -> n = 0) ->
  exists l, select_remaining cs n r = Ok (l, r) /\ picks cs (Z.to_nat n) l.
Proof.
  intros Hcs Hw Hn Hnil. unfold select_remaining. unfold_m.
  destruct cs as [|x cs'].
  - rewrite Hnil, weighted_random_select_nil by (done || lia). exists []. split; [done|].
    split; [done|]. set_solver.
  - destruct (weighted_random_select_Ok (x :: cs') (get_seed r) n r) as (l & -> & Hl); [| |done|].
    + eapply Forall_impl; [exact Hcs|]. simpl. lia.
    + split; [|done]. rewrite weights_cons. apply Forall_cons in Hcs as [Hx Hcs].
      assert (0 <= weights cs'); [|lia]. apply weights_nonneg.
      eapply Forall_impl; [exact Hcs|]. simpl. lia.
    + by exists l.
Qed.
End Random.

Section Guaranteed.
Context {Rng : Type} {T : Type} `{EqDecision T}.
Implicit Types cs : list (T * Z).

(** The seats and the remaining weights that [guaranteed_loop] accumulates. *)
Definition seats_of (threshold : Z) (scaled : list (T * Z)) : list T :=
  scaled ≫= (fun '(c, w) => replicate (Z.to_nat (w / threshold)) c).
Definition leftovers (threshold : Z) (scaled : list (T * Z)) : list (T * Z) :=
  filter (fun x => 0 < snd x) ((fun '(c, w) => (c, w mod threshold)) <$> scaled).

Lemma guaranteed_loop_Ok W scaled sel rem (r : Rng) :
  0 < W -> Forall (fun x => 0 <= snd x <= W * umax 16) scaled ->
  guaranteed_loop W scaled (sel, rem) r =
    Ok ((sel ++ seats_of W scaled, rem ++ leftovers W scaled), r).
Proof.
  intros HW Hs. revert sel rem. induction Hs as [|[c w] scaled Hw Hs IH]; intros sel rem.
  { unfold seats_of, leftovers. simpl. by rewrite !app_nil_r. }
  simpl in Hw. simpl. unfold checked_div_rem.
  destruct (Z.eqb_spec W 0); [lia|]. unfold_m.
  assert (w / W <= umax 16) by (apply Z.div_le_upper_bound; lia).
  assert (umax 16 <= umax 32) by (vm_compute; done).
  destruct (Z.leb_spec (w / W) (umax 32)); [|lia].
  rewrite IH. unfold leftovers. rewrite fmap_cons, filter_cons. simpl.
  destruct (Z.ltb_spec 0 (w mod W)); case_decide; try lia.
  - by rewrite <- !app_assoc.
  - by rewrite <- !app_assoc.
Qed.

Lemma seats_leftovers W scaled : 0 < W -> Forall (fun x => 0 <= snd x) scaled ->
  weights scaled = W * len (seats_of W scaled) + weights (leftovers W scaled).
Proof.
  intros HW. induction 1 as [|[c w] scaled Hw Hs IH]; [unfold weights, len; simpl; lia|].
  simpl in Hw. rewrite weights_cons, IH. unfold seats_of, leftovers, len.
  rewrite bind_cons, length_app, length_replicate, fmap_cons, filter_cons. simpl.
  pose proof (Z.div_pos w W Hw HW). pose proof (Z.mod_pos_bound w W HW).
  pose proof (Z.div_mod w W ltac:(lia)).
  case_decide; [rewrite weights_cons; simpl|]; fold (leftovers W scaled); nia.
Qed.

Lemma seats_of_count W scaled c w : 0 < W -> (c, w) ∈ scaled ->
  Forall (fun x => 0 <= snd x) scaled -> w / W <= count c (seats_of W scaled).
Proof.
  intros HW Hin Hs. induction Hs as [|[c' w'] scaled Hw Hs IH]; [by apply not_elem_of_nil in Hin|].
  unfold seats_of. rewrite bind_cons, count_app. simpl in Hw.
  apply elem_of_cons in Hin as [[= -> ->]|Hin].
  - rewrite count_replicate. pose proof (count_nonneg c' (seats_of W scaled)).
    pose proof (Z.div_pos w' W Hw HW). fold (seats_of W scaled). lia.
  - pose proof (count_nonneg c (replicate (Z.to_nat (w' / W)) c')).
    specialize (IH Hin). fold (seats_of W scaled). lia.
Qed.

Lemma seats_of_members W scaled c : c ∈ seats_of W scaled -> exists w, (c, w) ∈ scaled.
Proof.
  unfold seats_of. intros ([c' w] & Hc & Hin)%list_elem_of_bind.
  apply elem_of_replicate in Hc as [-> _]. eauto.
Qed.

Lemma leftovers_members W scaled c w : (c, w) ∈ leftovers W scaled -> exists w', (c, w') ∈ scaled.
Proof.
  unfold leftovers. intros [_ ([c' w'] & [= -> ->] & Hin)%list_elem_of_fmap]%list_elem_of_filter.
  eauto.
Qed.
End Guaranteed.

Section Fair.
Context {Rng Seed : Type} `{!ChaCha Rng Seed, !ChaChaLaws Rng Seed}.
Context {T : Type} `{EqDecision T} (leT : T -> T -> Prop) `{!RelDecision leT}.
Implicit Types cs : list (T * Z).

Lemma scalable_perm cs1 cs2 n : Permutation cs1 cs2 -> scalable cs1 n -> scalable cs2 n.
Proof. intros Hp [H1 H2 H3]. split; by rewrite <- Hp. Qed.

Lemma fair_seats_perm cs1 cs2 n seats :
  Permutation cs1 cs2 -> fair_seats cs1 n seats -> fair_seats cs2 n seats.
Proof.
  intros Hp [H1 H2 H3]. split; [done| |].
  - intros c w. rewrite <- Hp. apply H2.
  - intros c Hc. setoid_rewrite <- Hp. by apply H3.
Qed.

Lemma weight_le_weights cs c w : Forall (fun x => 0 <= snd x) cs -> (c, w) ∈ cs ->
  0 <= w <= weights cs.
Proof.
  intros Hcs Hin. split.
  - rewrite Forall_forall in Hcs. apply (Hcs _ Hin).
  - apply sumZ_elem_le; [by rewrite Forall_fmap|].
    apply list_elem_of_fmap. by exists (c, w).
Qed.

Lemma scaled_candidates_eq cs n : scalable cs n -> 0 <= n ->
  scaled_candidates cs n = (fun '(c, w) => (c, w * n)) <$> filter (fun x => 0 < snd x) cs.
Proof.
  intros [Hcs Hpos [_ Hfit]] Hn. unfold scaled_candidates. apply Forall_fmap_ext_1.
  apply Forall_forall. intros [c w] [_ Hin]%list_elem_of_filter.
  apply weight_le_weights in Hin; [|done]. rewrite wrap_small; [done|]. unfold in_u. nia.
Qed.

Lemma weights_scaled cs n : weights ((fun '(c, w) => (c, w * n)) <$> cs) = weights cs * n.
Proof. induction cs as [|[c w] cs IH]; [done|]. rewrite fmap_cons, !weights_cons, IH. simpl. lia. Qed.

Lemma scaled_bounds cs n : scalable cs n -> in_u 16 n ->
  weights (scaled_candidates cs n) = weights cs * n /\
  Forall (fun x => 0 <= snd x <= weights cs * umax 16) (scaled_candidates cs n).
Proof.
  intros Hsc [Hn0 Hn]. rewrite scaled_candidates_eq by done. destruct Hsc as [Hcs Hpos Hfit].
  rewrite weights_scaled, weights_filter_pos by done. split; [done|].
  apply Forall_forall. intros x ([c w] & -> & [_ Hin]%list_elem_of_filter)%list_elem_of_fmap.
  apply weight_le_weights in Hin; [|done]. simpl. nia.
Qed.

Lemma scaled_members cs n c w : scalable cs n -> 0 <= n -> (c, w) ∈ scaled_candidates cs n ->
  exists w', (c, w') ∈ cs /\ 0 < w'.
Proof.
  intros Hsc Hn. rewrite scaled_candidates_eq by done.
  intros ([c' w'] & [= -> ->] & [Hp Hin]%list_elem_of_filter)%list_elem_of_fmap. eauto.
Qed.

Lemma leftovers_pos W scaled : Forall (fun x : T * Z => 0 < snd x) (leftovers W scaled).
Proof. apply Forall_forall. by intros x [Hx _]%list_elem_of_filter. Qed.

(** How the guaranteed seats and the remaining weights share out [n] seats. *)
Lemma guaranteed_share cs n : scalable cs n -> in_u 16 n ->
  let scaled := scaled_candidates cs n in
  let g := len (seats_of (weights cs) scaled) in
  0 <= g <= n /\ weights (leftovers (weights cs) scaled) = weights cs * (n - g) /\
  (leftovers (weights cs) scaled = [] -> g = n).
Proof.
  intros Hsc Hn scaled g. destruct (scaled_bounds cs n Hsc Hn) as [Hw Hb].
  pose proof (seats_leftovers (weights cs) scaled (scalable_pos _ _ Hsc)) as Hs.
  fold scaled in Hw, Hb.
  assert (Forall (fun x => 0 <= snd x) scaled) as Hnn.
  { eapply Forall_impl; [exact Hb|]. simpl. lia. }
  specialize (Hs Hnn). fold g in Hs. rewrite Hw in Hs. destruct Hsc as [Hcs Hpos Hfit].
  assert (0 <= weights (leftovers (weights cs) scaled)).
  { apply weights_nonneg. eapply Forall_impl; [apply leftovers_pos|]. simpl. lia. }
  assert (0 <= g) by (unfold g, len; lia). split_and!; [done|nia|nia|].
  intros Hnil. rewrite Hnil in Hs. change (weights []) with 0 in Hs. nia.
Qed.

Lemma fair_from_shares cs n rest : scalable cs n -> in_u 16 n ->
  let g := seats_of (weights cs) (scaled_candidates cs n) in
  picks (leftovers (weights cs) (scaled_candidates cs n)) (Z.to_nat (n - len g)) rest ->
  fair_seats cs n (g ++ rest).
Proof.
  intros Hsc Hn g [Hlen Hm]. destruct (guaranteed_share cs n Hsc Hn) as (Hg & _ & _).
  fold g in Hg. split.
  - unfold len in *. rewrite length_app, Hlen. lia.
  - intros c w Hin. rewrite count_app. pose proof (count_nonneg c rest).
    destruct (weight_le_weights cs c w (scalable_nonneg _ _ Hsc) Hin) as [Hw _].
    pose proof (scalable_pos _ _ Hsc). pose proof (count_nonneg c g).
    destruct (decide (w = 0)) as [->|Hz]; [rewrite Z.mul_0_r, Z.div_0_l; lia|].
    assert (w * n / weights cs <= count c g); [|rewrite (Z.mul_comm n w); lia].
    apply seats_of_count; [done| |].
    + rewrite scaled_candidates_eq by (done || apply Hn). apply list_elem_of_fmap.
      exists (c, w). split; [done|]. apply list_elem_of_filter. split; [simpl; lia|done].
    + eapply Forall_impl; [apply (scaled_bounds cs n Hsc Hn)|]. simpl. lia.
  - intros c [Hc|Hc]%elem_of_app.
    + apply seats_of_members in Hc as [w Hc]. eapply scaled_members; eauto. apply Hn.
    + apply Hm in Hc as (w & Hc & _). apply leftovers_members in Hc as [w' Hc].
      eapply scaled_members; eauto. apply Hn.
Qed.

Lemma scalable_nonempty cs n : scalable cs n -> cs <> [].
Proof. intros [_ H _] ->. unfold weights in H. simpl in H. lia. Qed.

Lemma assignment_fair cs n (r : Rng) : scalable cs n -> in_u 16 n ->
  exists seats, weighted_with_guaranteed_assignment leT cs n r = Ok (seats, r) /\
    fair_seats cs n seats.
Proof.
  intros Hsc Hn. unfold weighted_with_guaranteed_assignment.
  rewrite bool_decide_false by (by eapply scalable_nonempty). simpl.
  destruct (Z.eqb_spec n 0) as [->|Hnz].
  { exists []. split; [done|]. split; [done| |set_solver]. intros c w _.
    rewrite Z.mul_0_l, Z.div_0_l by (pose proof (scalable_pos _ _ Hsc); lia). done. }
  pose proof (merge_sort_Permutation (pair_le leT) cs) as Hp.
  assert (scalable (merge_sort (pair_le leT) cs) n) as Hsc' by (by eapply scalable_perm).
  revert Hp Hsc'. generalize (merge_sort (pair_le leT) cs). intros cs' Hp Hsc'.
  destruct (scaled_bounds cs' n Hsc' Hn) as [_ Hb].
  destruct (guaranteed_share cs' n Hsc' Hn) as (Hg & Hl & Hnil).
  destruct Hsc' as [Hcs' Hpos [Hfit Hfitn]] eqn:E.
  unfold select_guaranteed. rewrite total_weight_eq by done. unfold bind at 1.
  rewrite guaranteed_loop_Ok by done. simpl.
  set (g := seats_of (weights cs') (scaled_candidates cs' n)) in *.
  unfold_m. destruct Hn as [Hn0 Hn]. destruct (Z.leb_spec (len g) (umax 16)); [|lia].
  rewrite wrap_small by (unfold in_u; lia).
  destruct (select_remaining_Ok (leftovers (weights cs') (scaled_candidates cs' n))
              (n - len g) r) as (rest & -> & Hrest).
  - apply leftovers_pos.
  - rewrite Hl. nia.
  - lia.
  - intros H'. specialize (Hnil H'). lia.
  - exists (g ++ rest). split; [done|]. eapply fair_seats_perm; [exact Hp|].
    apply fair_from_shares; done.
Qed.
End Fair.

Section Order.
Context {T : Type} `{EqDecision T} (leT : T -> T -> Prop) `{!RelDecision leT, !TotalOrder leT}.

#[export] Instance pair_le_antisymm : AntiSymm (=) (pair_le leT).
Proof.
  intros [x a] [y b] [[H1 H2]|[H1 H2]] [[H3 H4]|[H3 H4]]; simpl in *; subst; try done.
  - destruct H2. by apply (anti_symm leT).
  - f_equal. lia.
Qed.

#[export] Instance pair_le_transitive : Transitive (pair_le leT).
Proof.
  intros [x a] [y b] [z c] [[H1 H2]|[H1 H2]] [[H3 H4]|[H3 H4]]; simpl in *; subst.
  - left. split; [by trans y|]. simpl. intros ->. apply H4. by apply (anti_symm leT).
  - by left.
  - by left.
  - right. simpl. split; [done|lia].
Qed.

#[export] Instance pair_le_total : Total (pair_le leT).
Proof.
  intros [x a] [y b]. unfold pair_le. simpl. destruct (decide (x = y)) as [->|Hne].
  - destruct (Z.le_ge_cases a b); [left|right]; by right.
  - destruct (total leT x y); [left|right]; left; naive_solver.
Qed.

(** Sorting forgets the order of its input. *)
Lemma merge_sort_canonical (l1 l2 : list (T * Z)) : Permutation l1 l2 ->
  merge_sort (pair_le leT) l1 = merge_sort (pair_le leT) l2.
Proof.
  intros Hp. apply (StronglySorted_unique (pair_le leT)).
  - apply StronglySorted_merge_sort; apply _.
  - apply StronglySorted_merge_sort; apply _.
  - by rewrite !merge_sort_Permutation.
Qed.
End Order.

(** ** Properties *)

Section Properties.
Context {Rng Seed : Type} `{!ChaCha Rng Seed, !ChaChaLaws Rng Seed}.
Context {T : Type} `{EqDecision T} (leT : T -> T -> Prop) `{!RelDecision leT, !TotalOrder leT}.

(** Candidates all of weight one. *)
Definition unit_weights (cs : list T) : list (T * Z) := (fun c => (c, 1)) <$> cs.

Lemma weights_unit cs : weights (unit_weights cs) = len cs.
Proof.
  induction cs as [|c cs IH]; [done|]. unfold unit_weights in *. rewrite fmap_cons, weights_cons.
  rewrite IH. unfold len. simpl. lia.
Qed.

Lemma unit_scalable cs n : cs <> [] -> in_u 16 n -> len cs <= umax 32 ->
  scalable (unit_weights cs) n.
Proof.
  intros Hne [Hn0 Hn] Hlen. split; rewrite ?weights_unit.
  - apply Forall_fmap, Forall_true. done.
  - destruct cs; [done|]. unfold len. simpl. lia.
  - assert (0 <= len cs) by (unfold len; lia).
    change (umax 16) with 65535 in Hn. change (umax 32) with 4294967295 in Hlen.
    change (umax 128) with (2 ^ 128 - 1). split; nia.
Qed.

Lemma shuffled_Ok (m : Sel (list T)) seed seats r (total : Z) (P : Prop) :
  m (from_seed (Rng:=Rng) (Seed:=Seed) seed) = Ok (seats, r) -> len seats = total -> P ->
  exists committee,
    match (let* selected := m in (fun rng => Ok (shuffle selected rng))) (from_seed seed) with
    | Ok (selected, _) =>
        Ok (if bool_decide (selected = []) && (0 <? total) then None else Some selected)
    | Err e => Err e
    | Panic => Panic
    end = Ok (Some committee) /\ Permutation committee seats /\ P.
Proof.
  intros Hm Hlen HP. unfold bind. rewrite Hm. exists (fst (shuffle seats r)).
  pose proof (shuffle_permutes _ seats r) as Hp.
  destruct (shuffle seats r) as [committee r'] eqn:E. simpl in *. split; [|done].
  destruct (bool_decide_reflect (committee = [])) as [->|]; [|done].
  apply Permutation_nil_l in Hp. subst. simpl. done.
Qed.

Lemma committee_of_two_groups r p registered permissioned seed :
  0 <= r -> 0 <= p -> r + p <= umax 16 -> permissioned <> [] ->
  len permissioned <= umax 32 -> scalable registered r ->
  exists reg perm committee,
    select_authorities_v2 (Rng:=Rng) leT r p registered permissioned seed = Ok (Some committee) /\
    Permutation committee (reg ++ perm) /\
    fair_seats registered r reg /\ fair_seats (unit_weights permissioned) p perm.
Proof.
  intros Hr Hp Hrp Hne Hlen Hreg. unfold select_authorities_v2.
  rewrite wrap_small by (unfold in_u; lia).
  assert (in_u 16 r /\ in_u 16 p) as [Hr16 Hp16] by (unfold in_u; lia).
  pose proof (unit_scalable permissioned p Hne Hp16 Hlen) as Hperm.
  destruct (assignment_fair leT registered r (from_seed seed) Hreg Hr16) as (reg & Hs1 & Hf1).
  destruct (assignment_fair leT (unit_weights permissioned) p (from_seed seed) Hperm Hp16)
    as (perm & Hs2 & Hf2).
  pose proof (scalable_nonempty _ _ Hreg). pose proof (scalable_nonempty _ _ Hperm).
  fold (unit_weights permissioned).
  destruct registered as [|x registered]; [done|]. destruct (unit_weights permissioned); [done|].
  exists reg, perm. eapply shuffled_Ok; [| |done].
  - unfold bind. rewrite Hs1, Hs2. done.
  - pose proof (fair_len _ _ _ Hf1). pose proof (fair_len _ _ _ Hf2).
    unfold len in *. rewrite length_app. lia.
Qed.

(** C6: with candidates in both groups the committee has exactly the registered
    seats and the permissioned seats of the D-parameter, each group shares its seats
    fairly (nobody below the integer part of the expected number, only candidates of
    positive weight), and the selection always returns. *)
Theorem committee_respects_d_parameter r p registered permissioned seed :
  0 <= r -> 0 <= p -> r + p <= umax 16 -> permissioned <> [] ->
  len permissioned <= umax 32 -> scalable registered r ->
  exists reg perm committee,
    select_authorities_v2 (Rng:=Rng) leT r p registered permissioned seed = Ok (Some committee) /\
    Permutation committee (reg ++ perm) /\
    fair_seats registered r reg /\ fair_seats (unit_weights permissioned) p perm.
Proof. apply committee_of_two_groups. Qed.

(** When a group has no candidates the other one fills all the seats, fairly;
    without any candidate there is a committee only when no seat is to be filled. *)
Theorem committee_of_one_group r p registered permissioned seed :
  0 <= r -> 0 <= p -> r + p <= umax 16 ->
  (permissioned <> [] -> len permissioned <= umax 32 ->
   exists seats committee,
     select_authorities_v2 (Rng:=Rng) leT r p [] permissioned seed = Ok (Some committee) /\
     Permutation committee seats /\ fair_seats (unit_weights permissioned) (r + p) seats) /\
  (scalable registered (r + p) ->
   exists seats committee,
     select_authorities_v2 (Rng:=Rng) leT r p registered [] seed = Ok (Some committee) /\
     Permutation committee seats /\ fair_seats registered (r + p) seats) /\
  select_authorities_v2 (Rng:=Rng) leT r p [] [] seed =
    Ok (if 0 <? r + p then None else Some []).
Proof.
  intros Hr Hp Hrp. assert (in_u 16 (p + r)) as H16 by (unfold in_u; lia).
  unfold select_authorities_v2. rewrite wrap_small, (Z.add_comm r p) by done. split_and!.
  - intros Hne Hlen. pose proof (unit_scalable permissioned (p + r) Hne H16 Hlen) as Hperm.
    destruct (assignment_fair leT _ (p + r) (from_seed seed) Hperm H16) as (seats & Hs & Hf).
    exists seats. eapply shuffled_Ok; [exact Hs|by apply fair_len in Hf|done].
  - intros Hreg.
    destruct (assignment_fair leT _ (p + r) (from_seed seed) Hreg H16) as (seats & Hs & Hf).
    pose proof (scalable_nonempty _ _ Hreg). destruct registered as [|x registered]; [done|].
    exists seats. eapply shuffled_Ok; [exact Hs|by apply fair_len in Hf|done].
  - simpl. unfold bind, weighted_with_guaranteed_assignment, ret. simpl.
    pose proof (shuffle_permutes T [] (from_seed (Rng:=Rng) seed)) as Hsh.
    destruct (shuffle [] (from_seed (Rng:=Rng) seed)) as [l r']. simpl in Hsh.
    apply Permutation_nil_r in Hsh. subst. done.
Qed.

Lemma scalable_mono (cs : list (T * Z)) n m : 0 <= n <= m -> scalable cs m -> scalable cs n.
Proof. intros Hn [Hc Hp [Hf1 Hf2]]. split; [done|done|]. split; [done|nia]. Qed.

(** What the callers rely on: the selection returns, fails only without candidates, and
    fills all seats with candidates. *)
Lemma selection_returns r p registered permissioned seed :
  0 <= r -> 0 <= p -> r + p <= umax 16 -> len permissioned <= umax 32 ->
  (registered = [] \/ scalable registered (r + p)) ->
  exists o, select_authorities_v2 (Rng:=Rng) leT r p registered permissioned seed = Ok o /\
    (o = None <-> registered = [] /\ permissioned = [] /\ 0 < r + p) /\
    (forall committee, o = Some committee -> len committee = r + p /\
       forall c, c ∈ committee -> (exists w, (c, w) ∈ registered /\ 0 < w) \/ c ∈ permissioned).
Proof.
  intros Hr Hp Hrp Hlen Hreg. destruct (committee_of_one_group r p registered permissioned seed) as (Hone & Htwo & Hnone);
    [done..|].
  assert (Hunit : forall c w, (c, w) ∈ unit_weights permissioned -> c ∈ permissioned).
  { intros c w (c' & [= -> _] & Hin)%list_elem_of_fmap. done. }
  destruct (decide (permissioned = [])) as [->|Hne], Hreg as [->|Hreg].
  - rewrite Hnone. eexists. split; [done|]. destruct (Z.ltb_spec 0 (r + p)); split; try done.
    + split; [|naive_solver lia]. done.
    + intros committee [= <-]. split; [unfold len; simpl; lia|]. intros c Hc. by apply not_elem_of_nil in Hc.
  - destruct (Htwo Hreg) as (seats & committee & -> & Hperm & Hfair). eexists. split; [done|].
    pose proof (scalable_nonempty _ _ Hreg). split; [naive_solver|]. intros ? [= <-].
    split; [unfold len; rewrite Hperm; by apply fair_len in Hfair|].
    intros c. rewrite Hperm. intros (w & ? & ?)%(fair_members _ _ _ Hfair). left. eauto.
  - destruct (Hone Hne Hlen) as (seats & committee & -> & Hperm & Hfair). eexists. split; [done|].
    split; [naive_solver|]. intros ? [= <-]. split; [unfold len; rewrite Hperm; by apply fair_len in Hfair|].
    intros c. rewrite Hperm. intros (w & ? & ?)%(fair_members _ _ _ Hfair). right. eauto.
  - destruct (committee_of_two_groups r p registered permissioned seed) as (reg & perm & committee & -> & Hperm & Hf1 & Hf2);
      [done..|apply (scalable_mono _ _ (r + p)); [lia|done]|]. eexists. split; [done|].
    split; [naive_solver|]. intros ? [= <-]. split.
    + apply fair_len in Hf1, Hf2. unfold len in *. rewrite Hperm, length_app. lia.
    + intros c. rewrite Hperm, elem_of_app.
      intros [(w & ? & ?)%(fair_members _ _ _ Hf1)|(w & ? & ?)%(fair_members _ _ _ Hf2)]; [left|right]; eauto.
Qed.

Lemma assignment_perm cs1 cs2 n (r : Rng) : Permutation cs1 cs2 ->
  weighted_with_guaranteed_assignment leT cs1 n r = weighted_with_guaranteed_assignment leT cs2 n r.
Proof.
  intros Hp. unfold weighted_with_guaranteed_assignment.
  rewrite (merge_sort_canonical leT cs1 cs2 Hp).
  assert (cs1 = [] <-> cs2 = []) as Hnil.
  { split; intros ->; [by apply Permutation_nil_l in Hp|by apply Permutation_nil_r in Hp]. }
  by rewrite (bool_decide_ext _ _ Hnil).
Qed.

Lemma ariadne_candidates_perm t p reg1 reg2 perm1 perm2 :
  Permutation reg1 reg2 -> Permutation perm1 perm2 ->
  ariadne_candidates leT t p reg1 perm1 = ariadne_candidates leT t p reg2 perm2.
Proof.
  intros Hr Hp. unfold ariadne_candidates. apply (merge_sort_canonical leT).
  unfold trustless_candidates_with_weights, permissioned_candidates_with_weights.
  assert (len perm1 = len perm2) as -> by (unfold len; by rewrite Hp).
  assert (total_weight reg1 = total_weight reg2) as -> by (unfold total_weight; by rewrite Hr).
  by rewrite Hr, Hp.
Qed.

Lemma select_v2_perm r p reg1 reg2 perm1 perm2 seed :
  Permutation reg1 reg2 -> Permutation perm1 perm2 ->
  select_authorities_v2 (Rng:=Rng) leT r p reg1 perm1 seed =
    select_authorities_v2 (Rng:=Rng) leT r p reg2 perm2 seed.
Proof.
  intros Hr Hp. pose proof (fmap_Permutation (fun c => (c, 1)) _ _ Hp) as Hp'.
  unfold select_authorities_v2. unfold bind.
  destruct reg1 as [|x1 reg1], reg2 as [|x2 reg2];
    try (apply Permutation_length in Hr; done);
    revert Hp'; generalize ((fun c => (c, 1)) <$> perm1), ((fun c => (c, 1)) <$> perm2);
    intros [|y1 ps1] [|y2 ps2] Hp'; try (apply Permutation_length in Hp'; done).
  + by rewrite (assignment_perm _ _ _ _ Hp').
  + by rewrite (assignment_perm _ _ _ _ Hr).
  + rewrite (assignment_perm _ _ _ _ Hr).
    destruct (weighted_with_guaranteed_assignment leT (x2 :: reg2) r (from_seed seed))
      as [[l1 r1]| |]; [|done..].
    by rewrite (assignment_perm _ _ _ _ Hp').
Qed.

(** The committee does not depend on the order in which the candidates are
    given, for both selection algorithms: nodes that observe the same candidates in
    different orders select the same committee. *)
Theorem selection_ignores_candidate_order r p reg1 reg2 perm1 perm2 seed :
  Permutation reg1 reg2 -> Permutation perm1 perm2 ->
  select_authorities_v2 (Rng:=Rng) leT r p reg1 perm1 seed =
    select_authorities_v2 (Rng:=Rng) leT r p reg2 perm2 seed /\
  select_authorities_v1 (Rng:=Rng) leT r p reg1 perm1 seed =
    select_authorities_v1 (Rng:=Rng) leT r p reg2 perm2 seed.
Proof.
  intros Hr Hp. split; [by apply select_v2_perm|].
  unfold select_authorities_v1. by rewrite (ariadne_candidates_perm r p _ _ _ _ Hr Hp).
Qed.

(** The weighted choice is proportional: a candidate is chosen by exactly those
    random numbers, out of [0 .. total - 1], that lie in an interval whose length is
    the candidate's weight. *)
Theorem choice_is_proportional (cs : list (T * Z)) x i c w :
  Forall (fun y => 0 <= snd y) cs -> weights cs <= umax 128 -> 0 <= x < weights cs ->
  cs !! i = Some (c, w) ->
  cumulative_index 0 0 x cs = Some i <-> weight_before cs i <= x < weight_before cs i + w.
Proof.
  intros Hcs Hfit Hx Hi.
  destruct (cumulative_index_spec cs 0 0 x) as (j & c' & w' & Hj & Hl & Hb); [done|lia..|].
  rewrite Hj. simpl. split.
  - intros [= ->]. simplify_eq. lia.
  - intros Hb'. f_equal.
    pose proof (weight_before_S cs i c w Hi). pose proof (weight_before_S cs j c' w' Hl).
    destruct (lt_eq_lt_dec i j) as [[Hlt|?]|Hlt]; [|done|].
    + pose proof (weight_before_mono cs (S i) j Hcs ltac:(lia)). lia.
    + pose proof (weight_before_mono cs (S j) i Hcs ltac:(lia)). lia.
Qed.

Lemma trustless_weights (cs : list (T * Z)) t n : Forall (fun y => 0 <= snd y) cs ->
  0 < n -> 0 < t -> t * n * weights cs <= umax 128 -> 0 < weights cs ->
  trustless_candidates_with_weights cs t n = (fun '(c, w) => (c, w * (t * n))) <$> cs.
Proof.
  intros Hcs Hn Ht Hfit Hpos. unfold trustless_candidates_with_weights.
  destruct (Z.ltb_spec 0 n); [|lia]. rewrite (wrap_small _ (t * n)) by (unfold in_u; nia).
  apply Forall_fmap_ext_1, Forall_forall. intros [c w] Hin.
  apply weight_le_weights in Hin; [|done]. rewrite wrap_small; [done|]. unfold in_u.
  split; [nia|]. transitivity (t * n * weights cs); [|done]. nia.
Qed.

Lemma weights_const (cs : list T) k : weights ((fun c => (c, k)) <$> cs) = len cs * k.
Proof.
  induction cs as [|c cs IH]; [done|]. rewrite fmap_cons, weights_cons, IH.
  unfold len. simpl. lia.
Qed.

(** The original Ariadne weights give the two groups total weights in the ratio
    of the D-parameter, [registered : permissioned = t : p], and the selection returns a
    committee of [t + p] seats, all held by candidates of positive weight. *)
Theorem ariadne_v1_ratio t p registered (permissioned : list T) seed :
  0 < t -> 0 < p -> t + p <= umax 16 -> permissioned <> [] ->
  Forall (fun y => 0 <= snd y) registered -> 0 < weights registered ->
  (t + p) * len permissioned * weights registered <= umax 128 ->
  let wt := trustless_candidates_with_weights registered t (len permissioned) in
  let wp := permissioned_candidates_with_weights permissioned p t (total_weight registered) in
  p * weights wt = t * weights wp /\
  exists committee,
    select_authorities_v1 (Rng:=Rng) leT t p registered permissioned seed = Ok (Some committee) /\
    picks (wt ++ wp) (Z.to_nat (t + p)) committee.
Proof.
  intros Ht Hp Htp Hne Hreg Hpos Hfit wt wp. set (n := len permissioned) in *.
  assert (0 < n) as Hn by (unfold n, len; destruct permissioned; simpl; [done|lia]).
  assert (t * n * weights registered <= umax 128 /\ p * weights registered <= umax 128 /\
          weights registered <= umax 128) as (Hf1 & Hf2 & Hf3).
  { rewrite <- Z.mul_assoc in Hfit. rewrite <- Z.mul_assoc.
    assert (weights registered <= n * weights registered) by nia.
    assert (p * weights registered <= p * (n * weights registered)) by nia.
    split_and!; nia. }
  assert (wt = (fun '(c, w) => (c, w * (t * n))) <$> registered) as Ewt
    by (by apply trustless_weights).
  assert (wp = (fun c => (c, p * weights registered)) <$> permissioned) as Ewp.
  { unfold wp, permissioned_candidates_with_weights. rewrite total_weight_eq by done.
    destruct (Z.ltb_spec 0 (weights registered)); [|lia]. destruct (Z.ltb_spec 0 t); [|lia].
    simpl. rewrite wrap_small; [done|]. unfold in_u. nia. }
  assert (weights wt = weights registered * (t * n)) as Hwt by (rewrite Ewt; apply weights_scaled).
  assert (weights wp = n * (p * weights registered)) as Hwp by (rewrite Ewp; apply weights_const).
  split; [rewrite Hwt, Hwp; ring|].
  pose proof (merge_sort_Permutation (pair_le leT) (wt ++ wp)) as Hperm.
  unfold select_authorities_v1, ariadne_candidates. fold n. fold wt wp.
  rewrite wrap_small by (unfold in_u; lia).
  destruct (weighted_random_select_Ok (merge_sort (pair_le leT) (wt ++ wp)) seed (t + p)
              (from_seed (Rng:=Rng) seed)) as (l & -> & Hl & Hm).
  - rewrite Hperm, Ewt, Ewp. apply Forall_app. split; apply Forall_fmap.
    + eapply Forall_impl; [exact Hreg|]. intros [c w] Hw. simpl in *. nia.
    + apply Forall_true. intros c. simpl. nia.
  - rewrite Hperm, weights_app, Hwt, Hwp. nia.
  - lia.
  - exists l. split; [done|]. split; [done|]. intros c Hc.
    setoid_rewrite <- Hperm. by apply Hm.
Qed.
End Properties.

(** ** A concrete instance *)

Module Example.
(** A generator that counts: [(seed, numbers drawn)]. *)
#[export] Instance counting : ChaCha (Z * Z) Z := {
  from_seed seed := (seed, 0);
  get_seed rng := fst rng;
  random_range n rng := ((fst rng + snd rng) mod n, (fst rng, snd rng + 1));
  shuffle A l rng := (rev l, rng)
}.

#[export] Instance counting_laws : ChaChaLaws (Z * Z) Z.
Proof.
  split.
  - intros n r Hn. simpl. by apply Z.mod_pos_bound.
  - intros A l r. simpl. symmetry. apply Permutation_rev.
Qed.

#[export] Instance Z_le_total_order : TotalOrder Z.le.
Proof.
  split; [apply _|]. intros x y. unfold strict.
  destruct (Z.lt_trichotomy x y) as [|[|]]; [left|right; left|right; right]; lia.
Qed.

Definition registered : list (Z * Z) := [(10, 200); (11, 100); (12, 0); (13, 100)].
Definition permissioned : list Z := [20; 21].
Lemma registered_scalable n : 0 <= n <= 8 -> scalable registered n.
Proof.
  intros Hn. split; change (weights registered) with 400.
  - unfold registered. repeat constructor; simpl; lia.
  - lia.
  - change (umax 128) with (2 ^ 128 - 1). lia.
Qed.

(** The selection on the concrete candidates, evaluated. *)
Lemma committee_value :
  select_authorities_v2 (Rng:=Z*Z) Z.le 5 3 registered permissioned 7 =
    Ok (Some [21; 21; 20; 10; 13; 11; 10; 10]).
Proof. vm_compute. reflexivity. Qed.
End Example.
Import Example.

Lemma committee_respects_d_parameter_witness :
  exists reg perm committee,
    select_authorities_v2 (Rng:=Z*Z) Z.le 5 3 registered permissioned 7 =
      Ok (Some committee) /\
    Permutation committee (reg ++ perm) /\
    fair_seats registered 5 reg /\ fair_seats (unit_weights permissioned) 3 perm.
Proof.
  apply (committee_respects_d_parameter Z.le 5 3 registered permissioned 7).
  - lia.
  - lia.
  - vm_compute. discriminate.
  - discriminate.
  - vm_compute. discriminate.
  - apply registered_scalable. lia.
Defined.

Lemma committee_of_one_group_witness :
  exists seats committee,
    select_authorities_v2 (Rng:=Z*Z) Z.le 5 3 registered [] 7 = Ok (Some committee) /\
    Permutation committee seats /\ fair_seats registered 8 seats.
Proof.
  destruct (committee_of_one_group (Rng:=Z*Z) Z.le 5 3 registered [20] 7)
    as (_ & H & _).
  - lia.
  - lia.
  - vm_compute. discriminate.
  - apply H. apply registered_scalable. lia.
Defined.

Lemma selection_ignores_candidate_order_witness :
  select_authorities_v2 (Rng:=Z*Z) Z.le 5 3 [(10, 200); (11, 100)] [20; 21] 7 =
    select_authorities_v2 (Rng:=Z*Z) Z.le 5 3 [(11, 100); (10, 200)] [21; 20] 7.
Proof.
  apply (selection_ignores_candidate_order (Rng:=Z*Z) Z.le 5 3
           [(10, 200); (11, 100)] [(11, 100); (10, 200)] [20; 21] [21; 20] 7);
    apply Permutation_swap.
Defined.

Lemma choice_is_proportional_witness :
  cumulative_index 0 0 250 registered = Some 1%nat <->
  weight_before registered 1 <= 250 < weight_before registered 1 + 100.
Proof.
  apply (choice_is_proportional registered 250 1 11 100).
  - unfold registered. repeat constructor; simpl; lia.
  - vm_compute. discriminate.
  - vm_compute. split; [discriminate|reflexivity].
  - reflexivity.
Defined.

Lemma ariadne_v1_ratio_witness :
  exists committee,
    select_authorities_v1 (Rng:=Z*Z) Z.le 5 3 registered permissioned 7 =
      Ok (Some committee) /\ length committee = 8%nat.
Proof.
  destruct (ariadne_v1_ratio (Rng:=Z*Z) Z.le 5 3 registered permissioned 7)
    as (_ & committee & Hc & Hl & _).
  - lia.
  - lia.
  - vm_compute. discriminate.
  - discriminate.
  - unfold registered. repeat constructor; simpl; lia.
  - vm_compute. reflexivity.
  - vm_compute. discriminate.
  - exists committee. split; [exact Hc|exact Hl].
Defined.
