(* ===== verification/Throttle.v ===== *)
(** * Throttling of signed transactions

    Models [src/pallets/throttle/src]: the storage of [lib.rs], the transaction
    extension [CheckThrottle] of [check_throttle.rs], the migration
    [migrations/v1.rs], and the runtime's configuration of the pallet.  A transaction
    of a block passes [validate] and then [prepare]; the property of interest is how
    much an account can get through in a given number of blocks. *)

From S2P Require Import Prelude Frame.

Record UsageStats := { bytes_used : Z; txs_used : Z; window_start : Z }.

(** [UsageStats::default()] *)
Definition default_usage : UsageStats := {| bytes_used := 0; txs_used := 0; window_start := 0 |}.

Record Config := { MaxBytes : Z; MaxTxs : Z; WindowSize : Z; DbWeight : RuntimeDbWeight }.

Inductive InvalidTransaction := ExhaustsResources.

Section Throttle.
Context {AccountId Origin : Type} `{Countable AccountId} `{!Origins Origin AccountId}.
Variable cfg : Config.

Record State := {
  AccountUsage : gmap AccountId UsageStats;
  block_number : Z (* frame_system *)
}.

(** [AccountUsage::get], a [ValueQuery] *)
Definition usage (s : State) (who : AccountId) : UsageStats :=
  default default_usage (AccountUsage s !! who).

Definition expired (current_block : Z) (u : UsageStats) : bool :=
  WindowSize cfg <=? saturating_sub current_block (window_start u).

(** [CheckThrottle::validate], up to its constant [ValidTransaction] and the origin it
    hands back *)
Definition validate (origin : Origin) (length : Z) : M State InvalidTransaction (option AccountId) :=
  match ensure_signed origin with
  | None => ret None
  | Some who =>
      let* current_block := gets block_number in
      let* u := gets (fun s => usage s who) in
      let '(effective_bytes, effective_txs) :=
        if expired current_block u then (0, 0) else (bytes_used u, txs_used u) in
      let new_bytes := saturating_add 64 effective_bytes length in
      do* ensure (negb (MaxBytes cfg <? new_bytes)) ExhaustsResources in
      let new_txs := saturating_add 64 effective_txs 1 in
      do* ensure (negb (MaxTxs cfg <? new_txs)) ExhaustsResources in
      ret (Some who)
  end.

(** The closure that [prepare] applies to the stored usage. *)
Definition record_usage (current_block length : Z) (u : UsageStats) : UsageStats :=
  let u :=
    if expired current_block u
    then {| bytes_used := 0; txs_used := 0; window_start := current_block |} else u in
  {| bytes_used := saturating_add 64 (bytes_used u) length;
     txs_used := saturating_add 64 (txs_used u) 1;
     window_start := window_start u |}.

(** [CheckThrottle::prepare] *)
Definition prepare (val : option AccountId) (length : Z) : M State InvalidTransaction unit :=
  match val with
  | None => ret tt
  | Some who =>
      let* current_block := gets block_number in
      modify (fun s =>
        {| AccountUsage := <[who := record_usage current_block length (usage s who)]> (AccountUsage s);
           block_number := block_number s |})
  end.

(** [CheckThrottle::weight] *)
Definition weight : Weight := reads_writes (DbWeight cfg) 2 1.

(** The extension around a transaction of a block. *)
Definition check_throttle (origin : Origin) (length : Z) : M State InvalidTransaction unit :=
  let* val := validate origin length in
  prepare val length.

(** ** Traces

    The accepted signed transactions of a chain, newest first. *)
Record Accepted := { acc_block : Z; acc_who : AccountId; acc_length : Z }.

Inductive trace : State -> list Accepted -> Prop :=
| trace_genesis s : AccountUsage s = ∅ -> 0 <= block_number s -> trace s []
| trace_next_block s log : trace s log ->
    trace {| AccountUsage := AccountUsage s; block_number := block_number s + 1 |} log
| trace_unsigned s log origin length s' : trace s log ->
    ensure_signed origin = None -> check_throttle origin length s = Ok (tt, s') -> trace s' log
| trace_signed s log origin who length s' : trace s log ->
    ensure_signed origin = Some who -> in_u 32 length ->
    check_throttle origin length s = Ok (tt, s') ->
    trace s' ({| acc_block := block_number s; acc_who := who; acc_length := length |} :: log).

(** What [who] got through in the blocks from [lo] to before [hi], measured by [m]:
    the bytes or the number of the transactions. *)
Definition metered (m : Accepted -> Z) (who : AccountId) (lo hi : Z) (log : list Accepted) : Z :=
  sumZ (m <$> filter (fun t => acc_who t = who /\ lo <= acc_block t < hi) log).
End Throttle.
Arguments State AccountId {_ _}.
Arguments Accepted AccountId : clear implicits.

(** [migrations/v1.rs]: [AccountUsage::clear(u32::MAX, None)] removes every entry,
    whatever its encoding. *)
Definition on_runtime_upgrade {AccountId Legacy} `{Countable AccountId} (cfg : Config)
    (old : gmap AccountId Legacy) : Weight * gmap AccountId UsageStats :=
  (reads_writes (DbWeight cfg) (Z.of_nat (size old)) (Z.of_nat (size old)), ∅).

(** The configuration of [runtime/src/lib.rs]. *)
Definition runtime_config (db : RuntimeDbWeight) : Config :=
  {| MaxBytes := 10 * 1024 * 1024; MaxTxs := 100; WindowSize := HOURS; DbWeight := db |}.

(** ** Lemmas *)

Section Metered.
Context {AccountId : Type} `{Countable AccountId}.
Implicit Types (log : list (Accepted AccountId)) (m : Accepted AccountId -> Z).

Lemma metered_cons m who lo hi t log :
  metered m who lo hi (t :: log) =
  (if decide (acc_who t = who /\ lo <= acc_block t < hi) then m t else 0) + metered m who lo hi log.
Proof. unfold metered. rewrite filter_cons. by case_decide. Qed.

Lemma metered_split m who lo mid hi log : lo <= mid <= hi ->
  metered m who lo hi log = metered m who lo mid log + metered m who mid hi log.
Proof.
  intros Hm. induction log as [|t log IH]; [done|].
  rewrite !metered_cons, IH. repeat case_decide; intuition lia.
Qed.

Lemma metered_nonneg m who lo hi log : Forall (fun t => 0 <= m t) log -> 0 <= metered m who lo hi log.
Proof.
  induction 1; [done|]. rewrite metered_cons. case_decide; lia.
Qed.

Lemma metered_empty m who lo hi log : hi <= lo -> metered m who lo hi log = 0.
Proof.
  intros Hle. induction log as [|t log IH]; [done|].
  rewrite metered_cons, IH. case_decide; lia.
Qed.

Lemma metered_mono m who lo hi lo' hi' log : Forall (fun t => 0 <= m t) log ->
  lo' <= lo -> hi <= hi' -> metered m who lo hi log <= metered m who lo' hi' log.
Proof.
  intros Hpos Hlo Hhi. destruct (Z.le_gt_cases hi lo).
  { rewrite metered_empty by done. by apply metered_nonneg. }
  rewrite (metered_split m who lo' lo hi'), (metered_split m who lo hi hi') by lia.
  pose proof (metered_nonneg m who lo' lo log Hpos).
  pose proof (metered_nonneg m who hi hi' log Hpos). lia.
Qed.

(** Nothing is metered after the last block. *)
Lemma metered_after m who now lo hi log :
  Forall (fun t => acc_block t <= now) log -> now < lo -> metered m who lo hi log = 0.
Proof.
  intros Hlog Hlo. induction Hlog as [|t log Ht Hlog IH]; [done|].
  rewrite metered_cons, IH. case_decide; lia.
Qed.

Lemma metered_other m who lo hi t log : acc_who t <> who ->
  metered m who lo hi (t :: log) = metered m who lo hi log.
Proof. intros Hne. rewrite metered_cons. case_decide; naive_solver. Qed.
End Metered.

(** The windows of one account, for one meter: [limit] bounds [used], which counts the
    window that starts at [ws]; the window before it is over. *)
Section Windows.
Context {AccountId : Type} `{Countable AccountId}.
Variables (m : Accepted AccountId -> Z) (who : AccountId) (W limit : Z).

Record windows (now ws used : Z) (log : list (Accepted AccountId)) : Prop := {
  win_now : ws <= now;
  win_pos : Forall (fun t => 0 <= m t) log;
  win_past : Forall (fun t => acc_block t <= now) log;
  win_end : Forall (fun t => acc_who t = who -> acc_block t < ws + W) log;
  win_used hi : now < hi -> metered m who ws hi log = used;
  win_limit : used <= limit;
  win_before : metered m who (ws - W) ws log <= limit;
  win_any b : metered m who b (b + W) log <= 2 * limit
}.

Lemma windows_next now ws used log : windows now ws used log -> windows (now + 1) ws used log.
Proof.
  intros [H1 H2 H3 H8 H4 H5 H6 H7]. split; [lia|done| |done|auto with lia|done..].
  eapply Forall_impl; [exact H3|]. simpl. lia.
Qed.

(** The window before [ws] and the window from [ws] bound any window. *)
Lemma any_window now ws used log b :
  0 < W -> Forall (fun t => 0 <= m t) log -> ws <= now -> 
  metered m who ws (Z.max (now + 1) (b + W)) log = used -> used <= limit ->
  metered m who (ws - W) ws log <= limit -> ws < b + W ->
  metered m who b (b + W) log <= 2 * limit.
Proof.
  intros HW Hpos Hws Hu Hl Hb Hlt.
  assert (0 <= limit) by (pose proof (metered_nonneg m who (ws - W) ws log Hpos); lia).
  destruct (Z.le_gt_cases ws b).
  - transitivity (metered m who ws (Z.max (now + 1) (b + W)) log); [|lia].
    apply metered_mono; [done|lia..].
  - rewrite (metered_split m who b ws (b + W)) by lia.
    pose proof (metered_mono m who b ws (ws - W) ws log Hpos ltac:(lia) ltac:(lia)).
    pose proof (metered_mono m who ws (b + W) ws (Z.max (now + 1) (b + W)) log Hpos
                  ltac:(lia) ltac:(lia)). lia.
Qed.

(** A transaction of another account changes nothing. *)
Lemma windows_other now ws used log t : acc_who t <> who -> acc_block t = now -> 0 <= m t ->
  windows now ws used log -> windows now ws used (t :: log).
Proof.
  intros Hne Hb Hm [H1 H2 H3 H8 H4 H5 H6 H7].
  split; [done|by constructor|constructor; [lia|done]|by constructor|..];
    intros; rewrite ?metered_other by done; auto.
Qed.

(** The window of a reset: the old one is over. *)
Lemma windows_reset now ws used log : 0 < W -> ws + W <= now -> 0 <= limit ->
  windows now ws used log -> windows now now 0 log.
Proof.
  intros HW Hexp Hl [H1 H2 H3 H8 H4 H5 H6 H7]. split; [lia|done|done| | |done| |done].
  - eapply Forall_impl; [exact H8|]. simpl. intros t Ht Hw. specialize (Ht Hw). lia.
  - intros hi Hhi. clear -H8 Hexp. induction H8 as [|t log Ht Hlog IH]; [done|].
    rewrite metered_cons, IH. case_decide; intuition lia.
  - transitivity (metered m who ws (now + 1) log); [|rewrite H4; lia].
    apply metered_mono; [done|lia..].
Qed.

(** A transaction in the current window. *)
Lemma windows_add now ws used log t : 0 < W -> acc_who t = who -> acc_block t = now ->
  0 <= m t -> now < ws + W -> used + m t <= limit -> windows now ws used log ->
  windows now ws (used + m t) (t :: log).
Proof.
  intros HW Hwho Hb Hm Hend Hlim [H1 H2 H3 H8 H4 H5 H6 H7].
  assert (Hin : forall lo hi, lo <= now < hi ->
            metered m who lo hi (t :: log) = m t + metered m who lo hi log).
  { intros lo hi Hr. rewrite metered_cons. case_decide as Hd; [done|]. destruct Hd. subst. done. }
  assert (Hout : forall lo hi, now < lo \/ hi <= now ->
            metered m who lo hi (t :: log) = metered m who lo hi log).
  { intros lo hi Hr. rewrite metered_cons. case_decide as Hd; [|done]. subst. lia. }
  assert (Hpos : Forall (fun t => 0 <= m t) (t :: log)) by (by constructor).
  assert (Hu : forall hi, now < hi -> metered m who ws hi (t :: log) = used + m t).
  { intros hi Hhi. rewrite Hin by lia. rewrite H4 by done. lia. }
  assert (Hbf : metered m who (ws - W) ws (t :: log) <= limit) by (rewrite Hout by lia; done).
  split; [done|done|constructor; [lia|done]|constructor; [lia|done]|done|done|done|].
  intros b. destruct (Z.le_gt_cases (b + W) ws).
  - rewrite Hout by lia. done.
  - eapply any_window; [done|done|exact H1|apply Hu; lia|done|done|lia].
Qed.
End Windows.

Section Properties.
Context {AccountId Origin : Type} `{Countable AccountId} `{!Origins Origin AccountId}.
Variable cfg : Config.

(** Limits below the saturation point of their counters. *)
Record config_ok : Prop := {
  window_pos : 0 < WindowSize cfg;
  bytes_bound : 0 <= MaxBytes cfg < umax 64;
  txs_bound : 0 <= MaxTxs cfg < umax 64
}.

(** The counters that count: those of the stored window, unless it has expired. *)
Definition effective (now : Z) (u : UsageStats) : Z * Z :=
  if expired cfg now u then (0, 0) else (bytes_used u, txs_used u).

Definition counted (s : State AccountId) (who : AccountId) (length : Z) : State AccountId :=
  {| AccountUsage :=
       <[who := record_usage cfg (block_number s) length (usage s who)]> (AccountUsage s);
     block_number := block_number s |}.

Lemma check_throttle_signed origin who length s : config_ok -> ensure_signed origin = Some who ->
  check_throttle cfg origin length s =
    let '(bytes, txs) := effective (block_number s) (usage s who) in
    if (bytes + length <=? MaxBytes cfg) && (txs + 1 <=? MaxTxs cfg)
    then Ok (tt, counted s who length) else Err ExhaustsResources.
Proof.
  intros [HW [Hb1 Hb2] [Ht1 Ht2]] Ho. unfold check_throttle, validate, effective. rewrite Ho.
  unfold_m. destruct (if expired _ _ _ then _ else _) as [bytes txs].
  unfold saturating_add.
  destruct (Z.ltb_spec (MaxBytes cfg) ((bytes + length) `min` umax 64)),
    (Z.leb_spec (bytes + length) (MaxBytes cfg)); try lia; [done|]. simpl.
  destruct (Z.ltb_spec (MaxTxs cfg) ((txs + 1) `min` umax 64)),
    (Z.leb_spec (txs + 1) (MaxTxs cfg)); try lia; done.
Qed.

Lemma check_throttle_unsigned origin length s : ensure_signed origin = None ->
  check_throttle cfg origin length s = Ok (tt, s).
Proof. intros Ho. unfold check_throttle, validate. by rewrite Ho. Qed.

Lemma usage_counted s who length who' :
  usage (counted s who length) who' =
  if decide (who' = who) then record_usage cfg (block_number s) length (usage s who) else usage s who'.
Proof.
  unfold usage at 1. unfold counted. simpl. case_decide as Hd.
  - subst. by rewrite lookup_insert_eq.
  - by rewrite lookup_insert_ne.
Qed.

(** The two meters. *)
Definition bytes_of (t : Accepted AccountId) : Z := acc_length t.
Definition one_each (_ : Accepted AccountId) : Z := 1.

Definition inv (s : State AccountId) (log : list (Accepted AccountId)) : Prop :=
  0 <= block_number s /\ forall who,
    let u := usage s who in
    windows bytes_of who (WindowSize cfg) (MaxBytes cfg) (block_number s) (window_start u) (bytes_used u) log /\
    windows one_each who (WindowSize cfg) (MaxTxs cfg) (block_number s) (window_start u) (txs_used u) log.

Lemma expired_spec now u : config_ok ->
  expired cfg now u = true <-> window_start u + WindowSize cfg <= now.
Proof. intros [HW _ _]. unfold expired, saturating_sub. rewrite Z.leb_le. lia. Qed.

(** One meter over an accepted transaction. *)
Lemma windows_accept (m : Accepted AccountId -> Z) who limit now u used t log :
  config_ok -> 0 <= limit -> acc_who t = who -> acc_block t = now -> 0 <= m t ->
  (if expired cfg now u then 0 else used) + m t <= limit ->
  windows m who (WindowSize cfg) limit now (window_start u) used log ->
  windows m who (WindowSize cfg) limit now (if expired cfg now u then now else window_start u)
    ((if expired cfg now u then 0 else used) + m t) (t :: log).
Proof.
  intros Hc Hl Hw Hb Hm Hlim Hwin. pose proof (window_pos Hc) as HW.
  pose proof (expired_spec now u Hc) as He. destruct (expired cfg now u).
  - apply windows_add; [done..|lia|done|].
    eapply windows_reset; [done| |done|exact Hwin]. by apply He.
  - apply windows_add; [done..| |done|done].
    apply Z.nle_gt. intros Hle. by apply He in Hle.
Qed.

Lemma record_usage_eq now length u :
  let '(bytes, txs) := effective now u in
  bytes + length <= MaxBytes cfg -> txs + 1 <= MaxTxs cfg -> config_ok ->
  record_usage cfg now length u =
    {| bytes_used := (if expired cfg now u then 0 else bytes_used u) + length;
       txs_used := (if expired cfg now u then 0 else txs_used u) + 1;
       window_start := if expired cfg now u then now else window_start u |}.
Proof.
  unfold effective, record_usage, saturating_add. destruct (expired cfg now u); simpl;
    intros Hb Ht [_ Hb' Ht']; f_equal; lia.
Qed.

Lemma inv_signed s log origin who length s' : config_ok -> inv s log ->
  ensure_signed origin = Some who -> in_u 32 length ->
  check_throttle cfg origin length s = Ok (tt, s') ->
  inv s' ({| acc_block := block_number s; acc_who := who; acc_length := length |} :: log).
Proof.
  intros Hc [Hnow Hinv] Ho [Hl0 Hl] Hrun. rewrite (check_throttle_signed _ who) in Hrun by done.
  pose proof (record_usage_eq (block_number s) length (usage s who)) as Hu.
  destruct (effective _ _) as [bytes txs] eqn:He.
  destruct (Z.leb_spec (bytes + length) (MaxBytes cfg)); [|done].
  destruct (Z.leb_spec (txs + 1) (MaxTxs cfg)); [|done]. simpl in Hrun. simplify_eq.
  specialize (Hu ltac:(done) ltac:(done) Hc). split; [done|]. intros who'.
  rewrite usage_counted. simpl. destruct (Hinv who') as [Hwb Hwt]. case_decide as Hd.
  - subst who'. rewrite Hu. cbn [bytes_used txs_used window_start].
    set (t := {| acc_block := block_number s; acc_who := who; acc_length := length |}).
    unfold effective in He. split.
    + apply (windows_accept bytes_of who _ _ _ _ t); try done; [apply Hc|].
      unfold bytes_of. simpl. by destruct (expired _ _ _); simplify_eq.
    + apply (windows_accept one_each who _ _ _ _ t); try done; [apply Hc|].
      unfold one_each. by destruct (expired _ _ _); simplify_eq.
  - split; apply windows_other; done.
Qed.

Lemma trace_inv s log : config_ok -> trace cfg (Origin:=Origin) s log -> inv s log.
Proof.
  intros Hc. induction 1 as [s He Hn|s log _ IH|s log o l s' _ IH Ho Hrun|s log o who l s' _ IH Ho Hl Hrun].
  - split; [done|]. intros who. unfold usage. rewrite He, lookup_empty. simpl.
    destruct Hc as [HW Hb Ht].
    split; split; try constructor; unfold metered; simpl; intros; lia.
  - destruct IH as [Hn IH]. split; [simpl; lia|]. intros who. destruct (IH who) as [Hb Ht].
    split; by apply windows_next.
  - rewrite check_throttle_unsigned in Hrun by done. by simplify_eq.
  - by eapply inv_signed.
Qed.

(** C40: whatever an account submits, in any [WindowSize] consecutive blocks at most
    twice [MaxBytes] bytes and twice [MaxTxs] transactions of it are accepted. *)
Theorem throttled_in_any_window s log who b :
  config_ok -> trace cfg (Origin:=Origin) s log ->
  metered bytes_of who b (b + WindowSize cfg) log <= 2 * MaxBytes cfg /\
  metered one_each who b (b + WindowSize cfg) log <= 2 * MaxTxs cfg.
Proof.
  intros Hc Htr. destruct (trace_inv s log Hc Htr) as [_ Hinv].
  destruct (Hinv who) as [Hb Ht]. split; [apply (win_any _ _ _ _ _ _ _ _ Hb)|].
  apply (win_any _ _ _ _ _ _ _ _ Ht).
Qed.

(** A transaction of a signed origin is accepted exactly when, together with what
    its account got through in the account's current window, it respects both limits;
    the current window starts at the stored block, or now when that window is over. *)
Theorem accepted_iff_within_window s log origin who length :
  config_ok -> trace cfg (Origin:=Origin) s log -> ensure_signed origin = Some who ->
  let now := block_number s in
  let start := if expired cfg now (usage s who) then now else window_start (usage s who) in
  (exists s', check_throttle cfg origin length s = Ok (tt, s')) <->
  metered bytes_of who start (now + 1) log + length <= MaxBytes cfg /\
  metered one_each who start (now + 1) log + 1 <= MaxTxs cfg.
Proof.
  intros Hc Htr Ho now start. destruct (trace_inv s log Hc Htr) as [_ Hinv].
  destruct (Hinv who) as [Hb Ht]. fold now in Hb, Ht.
  rewrite (check_throttle_signed _ who) by done. unfold effective. fold now.
  assert (metered bytes_of who start (now + 1) log =
            (if expired cfg now (usage s who) then 0 else bytes_used (usage s who)) /\
          metered one_each who start (now + 1) log =
            (if expired cfg now (usage s who) then 0 else txs_used (usage s who))) as [-> ->].
  { unfold start. pose proof (expired_spec now (usage s who) Hc) as He.
    destruct (expired cfg now (usage s who)).
    - destruct Hc as [HW HB HT]. assert (window_start (usage s who) + WindowSize cfg <= now)
        by (by apply He).
      split; eapply win_used;
        [by eapply (windows_reset _ _ _ (MaxBytes cfg)); [| |apply HB|exact Hb]|lia
        |by eapply (windows_reset _ _ _ (MaxTxs cfg)); [| |apply HT|exact Ht]|lia].
    - split; eapply win_used; [exact Hb|lia|exact Ht|lia]. }
  destruct (if expired cfg now (usage s who) then (0, 0) else _) as [bytes txs] eqn:E.
  replace (if expired cfg now (usage s who) then 0 else bytes_used _) with bytes
    by (destruct (expired _ _ _); by simplify_eq).
  replace (if expired cfg now (usage s who) then 0 else txs_used _) with txs
    by (destruct (expired _ _ _); by simplify_eq).
  rewrite <- !Z.leb_le.
  destruct (bytes + length <=? MaxBytes cfg), (txs + 1 <=? MaxTxs cfg); simpl; naive_solver.
Qed.
End Properties.

(** The runtime's limits satisfy the hypotheses; its window is an hour of blocks. *)
Lemma runtime_config_ok db : config_ok (runtime_config db) /\ WindowSize (runtime_config db) = DAYS / 24.
Proof. split; [split; vm_compute; intuition discriminate|reflexivity]. Qed.

(** ** A concrete instance: ten bytes or two transactions in four blocks. *)

Module Example.
Definition cfg : Config :=
  {| MaxBytes := 10; MaxTxs := 2; WindowSize := 4; DbWeight := {| db_read := 1; db_write := 2 |} |}.

Lemma cfg_ok : config_ok cfg.
Proof. split; vm_compute; intuition discriminate. Qed.

Definition at_block (n : Z) (u : gmap Z UsageStats) : State Z :=
  {| AccountUsage := u; block_number := n |}.

Definition accepted (b : Z) : Accepted Z := {| acc_block := b; acc_who := 1; acc_length := 5 |}.

Lemma submit n u s' log : trace cfg (Origin:=RawOrigin Z) (at_block n u) log ->
  check_throttle cfg (Signed 1) 5 (at_block n u) = Ok (tt, s') ->
  trace cfg (Origin:=RawOrigin Z) s' (accepted n :: log).
Proof.
  intros Ht Hrun. apply (trace_signed cfg (at_block n u) log (Signed 1) 1 5 s'); [done..| |done].
  vm_compute. intuition discriminate.
Qed.

(** Two transactions in the last block of a window, two in the first of the next. *)
Definition end_state : State Z :=
  at_block 4 {[ 1 := {| bytes_used := 10; txs_used := 2; window_start := 4 |} ]}.
Definition end_log : list (Accepted Z) := [accepted 4; accepted 4; accepted 3; accepted 3].

Lemma four_in_two_blocks : trace cfg (Origin:=RawOrigin Z) end_state end_log.
Proof.
  assert (trace cfg (Origin:=RawOrigin Z) (at_block 3 ∅) []) as H0 by (by apply trace_genesis).
  eapply submit in H0; [|vm_compute; reflexivity].
  eapply (submit 3) in H0; [|vm_compute; reflexivity].
  apply trace_next_block in H0.
  eapply (submit 4) in H0; [|vm_compute; reflexivity].
  eapply (submit 4) in H0; [|vm_compute; reflexivity].
  exact H0.
Qed.
End Example.

(** The window is not a rolling one: a chain accepts four transactions of one
    account in two consecutive blocks, although its limit is two transactions in four
    blocks (and as many bytes), because the counters restart at the window's end. *)
Theorem limit_doubles_across_windows :
  trace Example.cfg (Origin:=RawOrigin Z) Example.end_state Example.end_log /\
  metered one_each 1 3 5 Example.end_log = 2 * MaxTxs Example.cfg /\
  metered bytes_of 1 3 5 Example.end_log = 2 * MaxBytes Example.cfg.
Proof. split; [exact Example.four_in_two_blocks|]. split; vm_compute; reflexivity. Qed.

Lemma throttled_in_any_window_witness :
  metered bytes_of 1 1 5 Example.end_log <= 20 /\ metered one_each 1 1 5 Example.end_log <= 4.
Proof.
  apply (throttled_in_any_window Example.cfg Example.end_state Example.end_log 1 1).
  - exact Example.cfg_ok.
  - exact Example.four_in_two_blocks.
Defined.

Lemma accepted_iff_within_window_witness :
  (exists s', check_throttle Example.cfg (Signed 1) 5 Example.end_state = Ok (tt, s')) <->
  10 + 5 <= 10 /\ 2 + 1 <= 2.
Proof.
  apply (accepted_iff_within_window Example.cfg Example.end_state Example.end_log (Signed 1) 1 5).
  - exact Example.cfg_ok.
  - exact Example.four_in_two_blocks.
  - reflexivity.
Defined.
