(* ===== verification/Governance.v ===== *)
(** * Membership of the governance bodies

    Models [src/runtime/common/src/governance.rs]: the handler that keeps the
    [sufficients] counter of the members' accounts in step with a body's membership,
    the default vote, and the handler through which the observation pallet resets the
    members of a [pallet_membership] instance.  The latter implements the interface
    [Membership], against which the observation pallet is verified.  The pallets of
    the Polkadot SDK (membership, collective, system) are parameters. *)

From stdpp Require Import sorting.
From S2P Require Import Prelude Frame.

(** What the observation pallet uses of a body: [SortedMembers::sorted_members] and
    [ChangeMembers::set_members_sorted(new, old)]. *)
Class Membership (H AccountId : Type) := {
  sorted_members : H -> list AccountId;
  set_members_sorted : list AccountId -> list AccountId -> H -> H
}.

(** A body of at most [max] members takes over a list in the order [leA]. *)
Class MembershipLaws (H AccountId : Type) `{Membership H AccountId}
    (leA : AccountId -> AccountId -> Prop) (max : Z) := {
  set_then_sorted new (old : list AccountId) h :
    len new <= max -> StronglySorted leA new -> sorted_members (set_members_sorted new old h) = new
}.

(** ** [MembershipObservationHandler] over an instance of [pallet_membership] *)

Section Observation.
Context {AccountId PM : Type}.
(** [Members::get] *)
Context (pm_members : PM -> list AccountId).
(** [Call::reset_members { members }] dispatched with [RawOrigin::None]; the layer of
    a failing dispatch is discarded *)
Context (pm_reset_members : list AccountId -> PM -> option PM).
(** [ChangeMembers::compute_members_diff_sorted(new, old)] *)
Context (members_diff : list AccountId -> list AccountId -> list AccountId * list AccountId).

(** The result of the dispatch is ignored. *)
Definition change_members_sorted_observation
    (_incoming _outgoing sorted_new : list AccountId) (h : PM) : PM :=
  default h (pm_reset_members sorted_new h).

Definition sorted_members_observation (h : PM) : list AccountId := pm_members h.

Definition count_observation (h : PM) : Z := len (pm_members h).

#[export] Instance observation_handler : Membership PM AccountId := {
  sorted_members := sorted_members_observation;
  set_members_sorted new old h :=
    let '(incoming, outgoing) := members_diff new old in
    change_members_sorted_observation incoming outgoing new h
}.

Context (leA : AccountId -> AccountId -> Prop) (MaxMembers : Z).
(** [pallet_membership] accepts any list of at most [MaxMembers] from its reset origin,
    which is [EnsureNone], and stores it sorted. *)
Hypothesis pm_reset_ok : forall l h, len l <= MaxMembers -> StronglySorted leA l ->
  exists h', pm_reset_members l h = Some h' /\ pm_members h' = l.

#[export] Instance observation_handler_laws : MembershipLaws PM AccountId leA MaxMembers.
Proof.
  split. intros new old h Hlen Hs. simpl. destruct (members_diff new old) as [incoming outgoing].
  unfold change_members_sorted_observation, sorted_members_observation.
  destruct (pm_reset_ok new h Hlen Hs) as (h' & -> & Hm). exact Hm.
Qed.
End Observation.

(** ** [MembershipHandler]: the [sufficients] of the members *)

(** [AlwaysNo::default_vote] *)
Definition default_vote (_prime_vote : option bool) (_yes_votes _no_votes _len : Z) : bool := false.

Section Prime.
Context {AccountId P Sys : Type}.
(** [P]'s [set_prime] and [get_prime] *)
Context (p_set_prime : option AccountId -> P -> P) (p_get_prime : P -> option AccountId).

Definition set_prime (prime : option AccountId) (s : P * Sys) : P * Sys :=
  (p_set_prime prime (fst s), snd s).

Definition get_prime (s : P * Sys) : option AccountId := p_get_prime (fst s).

End Prime.

Section Sufficients.
Context {AccountId P Sys : Type}.
(** [P]'s own [initialize_members] and [change_members_sorted] *)
Context (p_initialize : list AccountId -> P -> P).
Context (p_change : list AccountId -> list AccountId -> list AccountId -> P -> P).
(** [frame_system::inc_sufficients] and [dec_sufficients] *)
Context (inc_sufficients dec_sufficients : AccountId -> Sys -> Sys).
Definition initialize_members (members : list AccountId) (s : P * Sys) : P * Sys :=
  let p := p_initialize members (fst s) in
  (p, foldl (fun sys who => inc_sufficients who sys) (snd s) members).

Definition change_members_sorted (incoming outgoing new : list AccountId) (s : P * Sys) : P * Sys :=
  let p := p_change incoming outgoing new (fst s) in
  let sys := foldl (fun sys who => inc_sufficients who sys) (snd s) incoming in
  (p, foldl (fun sys who => dec_sufficients who sys) sys outgoing).

Context `{EqDecision AccountId}.
(** The counter of an account, a [u32]; the two operations change it by one. *)
Context (sufficients : Sys -> AccountId -> Z).
Hypothesis inc_spec : forall who sys a, sufficients sys who < umax 32 ->
  sufficients (inc_sufficients who sys) a = sufficients sys a + (if decide (a = who) then 1 else 0).
Hypothesis dec_spec : forall who sys a, 0 < sufficients sys who ->
  sufficients (dec_sufficients who sys) a = sufficients sys a - (if decide (a = who) then 1 else 0).

(** The body contributes one reference for each of its members, on top of [base]. *)
Definition referenced (base : AccountId -> Z) (members : list AccountId) (sys : Sys) : Prop :=
  forall a, sufficients sys a = base a + (if decide (a ∈ members) then 1 else 0).

Lemma inc_all l sys a : NoDup l -> (forall x, x ∈ l -> sufficients sys x < umax 32) ->
  sufficients (foldl (fun sys who => inc_sufficients who sys) sys l) a =
  sufficients sys a + (if decide (a ∈ l) then 1 else 0).
Proof.
  intros Hnd. revert sys. induction Hnd as [|x l Hx Hnd IH]; intros sys Hmax; cbn [foldl].
  { rewrite decide_False by apply not_elem_of_nil. lia. }
  assert (sufficients sys x < umax 32) by (apply Hmax; set_solver).
  rewrite IH; [rewrite inc_spec by done; repeat case_decide; set_solver by lia|].
  intros y Hy. rewrite inc_spec by done.
  assert (sufficients sys y < umax 32) by (apply Hmax; set_solver). destruct (decide (y = x)) as [->|]; [done|lia].
Qed.

Lemma dec_all l sys a : NoDup l -> (forall x, x ∈ l -> 0 < sufficients sys x) ->
  sufficients (foldl (fun sys who => dec_sufficients who sys) sys l) a =
  sufficients sys a - (if decide (a ∈ l) then 1 else 0).
Proof.
  intros Hnd. revert sys. induction Hnd as [|x l Hx Hnd IH]; intros sys Hpos; cbn [foldl].
  { rewrite decide_False by apply not_elem_of_nil. lia. }
  assert (0 < sufficients sys x) by (apply Hpos; set_solver).
  rewrite IH; [rewrite dec_spec by done; repeat case_decide; set_solver by lia|].
  intros y Hy. rewrite dec_spec by done.
  assert (0 < sufficients sys y) by (apply Hpos; set_solver). destruct (decide (y = x)) as [->|]; [done|lia].
Qed.

(** The difference of two memberships. *)
Record is_diff (old new incoming outgoing : list AccountId) : Prop := {
  diff_incoming a : a ∈ incoming <-> a ∈ new /\ a ∉ old;
  diff_outgoing a : a ∈ outgoing <-> a ∈ old /\ a ∉ new;
  diff_nodup : NoDup incoming /\ NoDup outgoing
}.

(** A body holds exactly one [sufficients] reference on the account of each of
    its members, from its initialization on and through every change of membership:
    members that join gain it and members that leave lose it, so no account is reaped
    while it is a member and none is kept alive by a past membership. *)
Theorem one_reference_per_member base :
  (forall a, 0 <= base a < umax 32 - 1) ->
  (forall members p sys, NoDup members -> (forall a, sufficients sys a = base a) ->
     referenced base members (snd (initialize_members members (p, sys)))) /\
  (forall old new incoming outgoing p sys, is_diff old new incoming outgoing ->
     referenced base old sys ->
     referenced base new (snd (change_members_sorted incoming outgoing new (p, sys)))).
Proof.
  intros Hbase. split.
  - intros members p sys Hnd Hs a. simpl. rewrite inc_all; [by rewrite Hs|done|].
    intros x _. rewrite Hs. specialize (Hbase x). lia.
  - intros old new incoming outgoing p sys [Hin Hout [Hnd1 Hnd2]] Href a. simpl.
    assert (Hinc : forall x, sufficients (foldl (fun sys who => inc_sufficients who sys) sys incoming) x
              = sufficients sys x + (if decide (x ∈ incoming) then 1 else 0)).
    { intros x. apply inc_all; [done|]. intros y _. rewrite Href. specialize (Hbase y).
      case_decide; lia. }
    rewrite dec_all; [|done|].
    + rewrite Hinc, Href. specialize (Hin a). specialize (Hout a). repeat case_decide; intuition lia.
    + intros x Hx. rewrite Hinc, Href. specialize (Hbase x). apply Hout in Hx as [Hx _].
      repeat case_decide; (done || lia).
Qed.
End Sufficients.

(** A [frame_system] that only counts, on two accounts. *)
Module Example.
Definition Sys := (Z -> Z).
Definition inc (who : Z) (sys : Sys) : Sys := fun a => if decide (a = who) then sys a + 1 else sys a.
Definition dec (who : Z) (sys : Sys) : Sys := fun a => if decide (a = who) then sys a - 1 else sys a.
End Example.

Lemma one_reference_per_member_witness :
  referenced (fun (sys : Example.Sys) a => sys a) (fun _ => 0) [2; 3]
    (snd (change_members_sorted (fun _ _ _ (p : unit) => p) Example.inc Example.dec
            [3] [1] [2; 3] (tt, fun a => if decide (a ∈ [1; 2]) then 1 else 0))).
Proof.
  eapply (one_reference_per_member (fun _ (p : unit) => p) (fun _ _ _ (p : unit) => p)
           Example.inc Example.dec (fun (sys : Example.Sys) a => sys a)).
  - intros who sys a _. unfold Example.inc. case_decide; lia.
  - intros who sys a _. unfold Example.dec. case_decide; lia.
  - intros a. change (umax 32) with 4294967295. lia.
  - instantiate (1 := [1; 2]). split.
    + intros a. set_unfold. lia.
    + intros a. set_unfold. lia.
    + split; apply NoDup_singleton.
  - intros a. reflexivity.
Defined.
