(* ===== verification/FederatedAuthorityObservation.v ===== *)
(** * Observation of the governance bodies on Cardano

    Models [src/pallets/federated-authority-observation/src/lib.rs] and the data of
    [src/primitives/federated-authority-observation/src/lib.rs]: the inherent
    [reset_members], which brings the members of the council and of the technical
    committee in line with what was observed on the main chain, how the inherent is
    created and checked, the calls that set addresses and policies, the hooks and the
    genesis.  The memberships themselves are reached through the interface
    [Membership]. *)

From stdpp Require Import sorting.
From S2P Require Import Prelude Frame Governance.

(** The trait [WeightInfo] of the pallet, as far as [reset_members] uses it. *)
Record WeightInfo := {
  w_reset_members : Z -> Z -> Weight;
  w_reset_members_none : Z -> Z -> Weight;
  w_reset_members_only_council : Z -> Z -> Weight;
  w_reset_members_only_technical_committee : Z -> Z -> Weight
}.

Record Config := {
  CouncilMaxMembers : Z;
  TechnicalCommitteeMaxMembers : Z;
  Weights : WeightInfo;
  DbWeight : RuntimeDbWeight
}.

Inductive Error := EmptyMembers | DuplicatedMembers | InherentAlreadyExecuted.

Inductive InherentError :=
| DecodeFailed | CouncilMembersMismatch | TechnicalCommitteeMembersMismatch | TooManyMembers.

Section Pallet.
Context {AccountId Origin Key Member Address PolicyId McBlockHash H : Type}.
Context `{Countable AccountId} `{EqDecision Member} `{!Origins Origin AccountId}.
Context (leA : AccountId -> AccountId -> Prop) `{!RelDecision leA}.
Context `{!Membership H AccountId}.
Variable cfg : Config.
(** [T::AccountId::decode] on the bytes of a key *)
Variable decode_account : Key -> option AccountId.

Inductive Event :=
| CouncilMembersReset (members : list AccountId) (members_mainchain : list Member)
| TechnicalCommitteeMembersReset (members : list AccountId) (members_mainchain : list Member).

Record State := {
  MainChainCouncilAddress : Address;
  MainChainCouncilPolicyId : PolicyId;
  MainChainTechnicalCommitteeAddress : Address;
  MainChainTechnicalCommitteePolicyId : PolicyId;
  CouncilMainchainMembers : list Member;
  TechnicalCommitteeMainchainMembers : list Member;
  InherentExecutedThisBlock : bool;
  council : H; (* the storage behind [T::CouncilMembershipHandler] *)
  technical_committee : H;
  events : list Event (* newest last *)
}.

Definition PalletM (A : Type) := M State (dispatch_error Error) A.

Definition set_council h m e s :=
  {| MainChainCouncilAddress := MainChainCouncilAddress s;
     MainChainCouncilPolicyId := MainChainCouncilPolicyId s;
     MainChainTechnicalCommitteeAddress := MainChainTechnicalCommitteeAddress s;
     MainChainTechnicalCommitteePolicyId := MainChainTechnicalCommitteePolicyId s;
     CouncilMainchainMembers := m;
     TechnicalCommitteeMainchainMembers := TechnicalCommitteeMainchainMembers s;
     InherentExecutedThisBlock := InherentExecutedThisBlock s;
     council := h; technical_committee := technical_committee s; events := events s ++ e |}.

Definition set_technical_committee h m e s :=
  {| MainChainCouncilAddress := MainChainCouncilAddress s;
     MainChainCouncilPolicyId := MainChainCouncilPolicyId s;
     MainChainTechnicalCommitteeAddress := MainChainTechnicalCommitteeAddress s;
     MainChainTechnicalCommitteePolicyId := MainChainTechnicalCommitteePolicyId s;
     CouncilMainchainMembers := CouncilMainchainMembers s;
     TechnicalCommitteeMainchainMembers := m;
     InherentExecutedThisBlock := InherentExecutedThisBlock s;
     council := council s; technical_committee := h; events := events s ++ e |}.

Definition set_executed b s :=
  {| MainChainCouncilAddress := MainChainCouncilAddress s;
     MainChainCouncilPolicyId := MainChainCouncilPolicyId s;
     MainChainTechnicalCommitteeAddress := MainChainTechnicalCommitteeAddress s;
     MainChainTechnicalCommitteePolicyId := MainChainTechnicalCommitteePolicyId s;
     CouncilMainchainMembers := CouncilMainchainMembers s;
     TechnicalCommitteeMainchainMembers := TechnicalCommitteeMainchainMembers s;
     InherentExecutedThisBlock := b;
     council := council s; technical_committee := technical_committee s; events := events s |}.

Definition set_addresses ca cp ta tp s :=
  {| MainChainCouncilAddress := ca; MainChainCouncilPolicyId := cp;
     MainChainTechnicalCommitteeAddress := ta; MainChainTechnicalCommitteePolicyId := tp;
     CouncilMainchainMembers := CouncilMainchainMembers s;
     TechnicalCommitteeMainchainMembers := TechnicalCommitteeMainchainMembers s;
     InherentExecutedThisBlock := InherentExecutedThisBlock s;
     council := council s; technical_committee := technical_committee s; events := events s |}.

(** ** Genesis and hooks *)

Record GenesisConfig := {
  council_address : Address; council_policy_id : PolicyId;
  technical_committee_address : Address; technical_committee_policy_id : PolicyId;
  council_members_mainchain : list Member;
  technical_committee_members_mainchain : list Member
}.

(** [BuildGenesisConfig::build] *)
Definition build (g : GenesisConfig) : PalletM unit :=
  do* modify (set_addresses (council_address g) (council_policy_id g)
                (technical_committee_address g) (technical_committee_policy_id g)) in
  let* cm := expect (bounded_try_from (CouncilMaxMembers cfg) (council_members_mainchain g)) in
  do* modify (fun s => set_council (council s) cm [] s) in
  let* tm := expect (bounded_try_from (TechnicalCommitteeMaxMembers cfg)
                       (technical_committee_members_mainchain g)) in
  modify (fun s => set_technical_committee (technical_committee s) tm [] s).

Definition on_initialize : Weight := writes (DbWeight cfg) 1.
Definition on_finalize : PalletM unit := modify (set_executed false).

(** ** [reset_members] *)

(** [sort_by(|a, b| a.0.cmp(&b.0))], a stable sort *)
Definition account_le (x y : AccountId * Member) : Prop := leA (fst x) (fst y).
#[local] Instance account_le_dec : RelDecision account_le :=
  fun x y => decide (leA (fst x) (fst y)).
Definition sort_pairs (l : list (AccountId * Member)) : list (AccountId * Member) :=
  merge_sort account_le l.

Definition has_duplicated_members (members : list (AccountId * Member)) : bool :=
  negb (Nat.eqb (size (list_to_set (fst <$> members) : gset AccountId)) (length members)).

(** The changes of one body: the handler and the stored main chain members after them,
    and whether the members, or the main chain members, have changed. The code has this
    sequence once for each body. *)
Definition body_changes (max : Z) (members : list AccountId) (mainchain_members : list Member)
    (h : H) (stored : list Member) : PalletM (H * list Member * bool) :=
  let current_members := sorted_members h in
  let members_have_changed := bool_decide (current_members <> members) in
  let h' := if members_have_changed then set_members_sorted members current_members h else h in
  let mainchain_members_have_changed := bool_decide (stored <> mainchain_members) in
  let* bound := expect (bounded_try_from max mainchain_members) in
  let stored' := if mainchain_members_have_changed then bound else stored in
  ret (h', stored', members_have_changed || mainchain_members_have_changed).

(** The state change phase of [reset_members], on the sorted pairs. *)
Definition state_changes (council_pairs tc_pairs : list (AccountId * Member))
    : PalletM PostDispatchInfo :=
  let council_members := fst <$> council_pairs in
  let council_mainchain_members := snd <$> council_pairs in
  let tc_members := fst <$> tc_pairs in
  let tc_mainchain_members := snd <$> tc_pairs in
  let council_len := len council_members in
  let tc_len := len tc_members in
  let* s := get in
  let* '(h, m, council_has_changed) :=
    body_changes (CouncilMaxMembers cfg) council_members council_mainchain_members
      (council s) (CouncilMainchainMembers s) in
  do* modify (set_council h m
    (if council_has_changed then [CouncilMembersReset council_members council_mainchain_members]
     else [])) in
  let w1 :=
    if council_has_changed
    then weight_add weight_zero (w_reset_members_only_council (Weights cfg) council_len tc_len)
    else weight_zero in
  let* s := get in
  let* '(h, m, tc_has_changed) :=
    body_changes (TechnicalCommitteeMaxMembers cfg) tc_members tc_mainchain_members
      (technical_committee s) (TechnicalCommitteeMainchainMembers s) in
  do* modify (set_technical_committee h m
    (if tc_has_changed then [TechnicalCommitteeMembersReset tc_members tc_mainchain_members]
     else [])) in
  let w2 :=
    if tc_has_changed
    then weight_add w1 (w_reset_members_only_technical_committee (Weights cfg) council_len tc_len)
    else w1 in
  ret (pays_no
    (if negb council_has_changed && negb tc_has_changed
     then w_reset_members_none (Weights cfg) council_len tc_len else w2)).

(** A list with a duplicated member is logged, and goes on. *)
Definition reset_members (origin : Origin)
    (council_authorities technical_committee_authorities : list (AccountId * Member))
    : PalletM PostDispatchInfo :=
  do* ok_or (ensure_none origin) BadOrigin in
  let* executed := gets InherentExecutedThisBlock in
  do* ensure (negb executed) (ModuleError InherentAlreadyExecuted) in
  do* modify (set_executed true) in
  let council_pairs := sort_pairs council_authorities in
  let council_members := fst <$> council_pairs in
  let council_mainchain_members := snd <$> council_pairs in
  let tc_pairs := sort_pairs technical_committee_authorities in
  let tc_members := fst <$> tc_pairs in
  let tc_mainchain_members := snd <$> tc_pairs in
  let early_return :=
    ret (pays_no (w_reset_members_none (Weights cfg) (len council_members) (len tc_members))) in
  if bool_decide (council_members = []) then early_return
  else if bool_decide (council_mainchain_members = []) then early_return
  else if bool_decide (tc_members = []) then early_return
  else if bool_decide (tc_mainchain_members = []) then early_return
  else state_changes council_pairs tc_pairs.

(** ** The calls of the root origin *)

Definition set_council_address (origin : Origin) (address : Address) : PalletM unit :=
  do* ok_or (ensure_root origin) BadOrigin in
  modify (fun s => set_addresses address (MainChainCouncilPolicyId s)
    (MainChainTechnicalCommitteeAddress s) (MainChainTechnicalCommitteePolicyId s) s).

Definition set_technical_committee_address (origin : Origin) (address : Address) : PalletM unit :=
  do* ok_or (ensure_root origin) BadOrigin in
  modify (fun s => set_addresses (MainChainCouncilAddress s) (MainChainCouncilPolicyId s)
    address (MainChainTechnicalCommitteePolicyId s) s).

Definition set_council_policy_id (origin : Origin) (policy_id : PolicyId) : PalletM unit :=
  do* ok_or (ensure_root origin) BadOrigin in
  modify (fun s => set_addresses (MainChainCouncilAddress s) policy_id
    (MainChainTechnicalCommitteeAddress s) (MainChainTechnicalCommitteePolicyId s) s).

Definition set_technical_committee_policy_id (origin : Origin) (policy_id : PolicyId)
    : PalletM unit :=
  do* ok_or (ensure_root origin) BadOrigin in
  modify (fun s => set_addresses (MainChainCouncilAddress s) (MainChainCouncilPolicyId s)
    (MainChainTechnicalCommitteeAddress s) policy_id s).

(** ** The inherent *)

Record AuthoritiesData := { authorities : list (Key * Member); round : Z }.

Record FederatedAuthorityData := {
  council_authorities : AuthoritiesData;
  technical_committee_authorities : AuthoritiesData;
  mc_block_hash : McBlockHash
}.

Inductive Call :=
| Call_reset_members (council_authorities technical_committee_authorities : list (AccountId * Member))
| Call_other.

(** What [InherentData::get_data] gives under the pallet's identifier: bytes that do
    not decode, nothing, or the data. *)
Definition InherentData := outcome unit (option FederatedAuthorityData).

Definition get_data_from_inherent_data (data : InherentData)
    : outcome InherentError (option FederatedAuthorityData) :=
  match data with Ok d => Ok d | _ => Err DecodeFailed end.

Definition decode_auth_members (max : Z) (auth_data : list (Key * Member))
    : outcome InherentError (list (AccountId * Member)) :=
  match mapM (fun '(key, m) => a ← decode_account key; Some (a, m)) auth_data with
  | None => Err DecodeFailed
  | Some members =>
      match bounded_try_from max members with
      | Some members => Ok members
      | None => Err TooManyMembers
      end
  end.

Definition create_inherent (data : InherentData) : option Call :=
  match get_data_from_inherent_data data with
  | Ok (Some fed_auth_data) =>
      match decode_auth_members (CouncilMaxMembers cfg)
              (authorities (council_authorities fed_auth_data)) with
      | Ok ca =>
          match decode_auth_members (TechnicalCommitteeMaxMembers cfg)
                  (authorities (technical_committee_authorities fed_auth_data)) with
          | Ok ta =>
              let has_empty_members := bool_decide (ca = []) || bool_decide (ta = []) in
              let has_duplicated := has_duplicated_members ca || has_duplicated_members ta in
              if negb has_empty_members && negb has_duplicated
              then Some (Call_reset_members ca ta) else None
          | _ => None
          end
      | _ => None
      end
  | _ => None
  end.

Definition is_inherent (call : Call) : bool :=
  match call with Call_reset_members _ _ => true | Call_other => false end.

Definition check_inherent (call : Call) (data : InherentData) : outcome InherentError unit :=
  match get_data_from_inherent_data data with
  | Ok (Some fed_auth_data) =>
      match decode_auth_members (CouncilMaxMembers cfg)
              (authorities (council_authorities fed_auth_data)) with
      | Ok ca =>
          match decode_auth_members (TechnicalCommitteeMaxMembers cfg)
                  (authorities (technical_committee_authorities fed_auth_data)) with
          | Ok ta =>
              match call with
              | Call_reset_members expected_ca expected_ta =>
                  if bool_decide (ca <> expected_ca) then Err CouncilMembersMismatch
                  else if bool_decide (ta <> expected_ta) then Err TechnicalCommitteeMembersMismatch
                  else Ok tt
              | Call_other => Ok tt
              end
          | Err e => Err e
          | Panic => Panic
          end
      | Err e => Err e
      | Panic => Panic
      end
  | Ok None => Ok tt
  | Err e => Err e
  | Panic => Panic
  end.

(** ** Lemmas *)

Lemma sort_pairs_perm l : Permutation (sort_pairs l) l.
Proof. apply merge_sort_Permutation. Qed.

Lemma sort_pairs_nil l : l <> [] -> sort_pairs l <> [].
Proof.
  intros Hl Hs. apply Hl. pose proof (sort_pairs_perm l) as Hp. rewrite Hs in Hp.
  by apply Permutation_nil_l in Hp.
Qed.

Lemma sort_pairs_len l : len (sort_pairs l) = len l.
Proof. unfold len. by rewrite (sort_pairs_perm l). Qed.

Lemma len_fmap {A B} (f : A -> B) l : len (f <$> l) = len l.
Proof. unfold len. by rewrite length_fmap. Qed.

Lemma zip_pairs (l : list (AccountId * Member)) : zip (fst <$> l) (snd <$> l) = l.
Proof. induction l as [|[a m] l IH]; [done|]. simpl. by f_equal. Qed.

Lemma has_duplicated_members_spec l :
  has_duplicated_members l = false <-> NoDup (fst <$> l).
Proof.
  unfold has_duplicated_members. rewrite negb_false_iff, Nat.eqb_eq.
  rewrite <- (length_fmap fst l). generalize (fst <$> l). clear l. intros l. split.
  - induction l as [|a l IH]; [constructor|]. simpl. intros Hs.
    destruct (decide (a ∈ l)) as [Hin|Hnin].
    + exfalso. replace ({[a]} ∪ list_to_set l) with (list_to_set l : gset AccountId) in Hs by set_solver.
      assert (size (list_to_set l : gset AccountId) <= length l)%nat; [|lia].
      clear. induction l as [|b l IH]; [done|]. simpl.
      pose proof (size_union_alt {[b]} (list_to_set l : gset AccountId)).
      rewrite size_singleton in *.
      assert (size ((list_to_set l : gset AccountId) ∖ {[b]}) <= size (list_to_set l : gset AccountId))%nat
        by (apply subseteq_size; set_solver). lia.
    + rewrite size_union, size_singleton in Hs by set_solver. constructor; [done|]. apply IH. lia.
  - intros Hnd. by apply size_list_to_set.
Qed.

Lemma decode_auth_members_Ok max l l' : decode_auth_members max l = Ok l' -> len l' <= max.
Proof.
  unfold decode_auth_members, bounded_try_from.
  destruct (mapM _ l) as [l1|]; [|done]. destruct (Z.leb_spec (len l1) max); naive_solver.
Qed.

(** What the changes of a body amount to. *)
Definition new_handler (members : list AccountId) (h : H) : H :=
  if bool_decide (sorted_members h <> members)
  then set_members_sorted members (sorted_members h) h else h.
Definition has_changed (members : list AccountId) (mainchain : list Member)
    (h : H) (stored : list Member) : bool :=
  bool_decide (sorted_members h <> members) || bool_decide (stored <> mainchain).

Lemma body_changes_Ok max members mainchain h stored s : len mainchain <= max ->
  body_changes max members mainchain h stored s =
  Ok ((new_handler members h, mainchain, has_changed members mainchain h stored), s).
Proof.
  intros Hlen. unfold body_changes, bounded_try_from. unfold_m.
  destruct (Z.leb_spec (len mainchain) max); [|lia].
  unfold new_handler, has_changed.
  destruct (bool_decide_reflect (stored <> mainchain)) as [|Heq]; [done|].
  apply dec_stable in Heq. by rewrite Heq.
Qed.

(** The state and the weight after a reset of two non-empty lists. *)
Section Reset.
Variables (ca ta : list (AccountId * Member)) (s : State).
Let cp := sort_pairs ca.
Let tp := sort_pairs ta.

Definition council_changed : bool :=
  has_changed (fst <$> cp) (snd <$> cp) (council s) (CouncilMainchainMembers s).
Definition tc_changed : bool :=
  has_changed (fst <$> tp) (snd <$> tp) (technical_committee s) (TechnicalCommitteeMainchainMembers s).

Definition after_reset : State :=
  set_technical_committee (new_handler (fst <$> tp) (technical_committee s)) (snd <$> tp)
    (if tc_changed then [TechnicalCommitteeMembersReset (fst <$> tp) (snd <$> tp)] else [])
    (set_council (new_handler (fst <$> cp) (council s)) (snd <$> cp)
       (if council_changed then [CouncilMembersReset (fst <$> cp) (snd <$> cp)] else [])
       (set_executed true s)).

Definition none_weight : Weight := w_reset_members_none (Weights cfg) (len ca) (len ta).

Definition reset_weight : Weight :=
  if negb council_changed && negb tc_changed then none_weight
  else
    let w1 := if council_changed
              then weight_add weight_zero (w_reset_members_only_council (Weights cfg) (len ca) (len ta))
              else weight_zero in
    if tc_changed
    then weight_add w1 (w_reset_members_only_technical_committee (Weights cfg) (len ca) (len ta))
    else w1.

Lemma reset_members_nonempty o :
  ensure_none o = Some tt -> InherentExecutedThisBlock s = false -> ca <> [] -> ta <> [] ->
  len ca <= CouncilMaxMembers cfg -> len ta <= TechnicalCommitteeMaxMembers cfg ->
  reset_members o ca ta s = Ok (pays_no reset_weight, after_reset).
Proof.
  intros Ho Hx Hca Hta Hcl Htl. unfold reset_members. rewrite Ho.
  apply sort_pairs_nil in Hca, Hta. fold cp in Hca |- *. fold tp in Hta |- *.
  assert (forall B (f : AccountId * Member -> B) l, l <> [] -> f <$> l <> []) as Hf
    by (intros B f [|x l]; done).
  unfold bind at 1 2 3 4. simpl. rewrite Hx. simpl.
  rewrite !bool_decide_false by auto. unfold state_changes.
  rewrite !len_fmap. unfold cp, tp. rewrite !sort_pairs_len. fold cp tp.
  unfold bind at 1 2. simpl.
  rewrite body_changes_Ok by (rewrite len_fmap; unfold cp; by rewrite sort_pairs_len).
  unfold bind at 1. simpl. unfold bind at 1. simpl. unfold bind at 1.
  rewrite body_changes_Ok by (rewrite len_fmap; unfold tp; by rewrite sort_pairs_len).
  done.
Qed.
End Reset.

Lemma reset_members_empty ca ta o s :
  ensure_none o = Some tt -> InherentExecutedThisBlock s = false -> ca = [] \/ ta = [] ->
  reset_members o ca ta s = Ok (pays_no (none_weight ca ta), set_executed true s).
Proof.
  intros Ho Hx He. unfold reset_members. rewrite Ho. unfold bind at 1 2 3 4. simpl. rewrite Hx. simpl.
  rewrite !len_fmap, !sort_pairs_len. destruct He as [-> | ->].
  - done.
  - change (sort_pairs []) with (@nil (AccountId * Member)). simpl.
    repeat case_bool_decide; done.
Qed.

(** What a created inherent tells of its data *)
Lemma create_inherent_inv data call : create_inherent data = Some call ->
  exists d ca ta, data = Ok (Some d) /\ call = Call_reset_members ca ta /\
    decode_auth_members (CouncilMaxMembers cfg) (authorities (council_authorities d)) = Ok ca /\
    decode_auth_members (TechnicalCommitteeMaxMembers cfg) (authorities (technical_committee_authorities d)) = Ok ta /\
    ca <> [] /\ ta <> [] /\ NoDup (fst <$> ca) /\ NoDup (fst <$> ta).
Proof.
  unfold create_inherent, get_data_from_inherent_data. intros Hc. destruct data as [[d|]| |]; [|done..].
  destruct (decode_auth_members (CouncilMaxMembers cfg) _) as [ca| |] eqn:Hca; [|done..].
  destruct (decode_auth_members (TechnicalCommitteeMaxMembers cfg) _) as [ta| |] eqn:Hta; [|done..].
  destruct (bool_decide_reflect (ca = [])) as [|Hce]; [done|].
  destruct (bool_decide_reflect (ta = [])) as [|Hte]; [done|].
  destruct (has_duplicated_members ca) eqn:Hdc; [done|].
  destruct (has_duplicated_members ta) eqn:Hdt; [done|]. simplify_eq/=.
  apply has_duplicated_members_spec in Hdc, Hdt. by exists d, ca, ta.
Qed.

(** ** Properties *)

Context `{!TotalOrder leA}.
Context {council_laws : MembershipLaws H AccountId leA (CouncilMaxMembers cfg)}.
Context {tc_laws : MembershipLaws H AccountId leA (TechnicalCommitteeMaxMembers cfg)}.

#[local] Instance account_le_transitive : Transitive account_le.
Proof. intros x y z. unfold account_le. apply (transitivity (R:=leA)). Qed.
#[local] Instance account_le_total : Total account_le.
Proof. intros x y. unfold account_le. apply (total leA). Qed.

Lemma sort_pairs_sorted l : StronglySorted leA (fst <$> sort_pairs l).
Proof.
  assert (StronglySorted account_le (sort_pairs l)) as Hs
    by (apply StronglySorted_merge_sort; apply _).
  induction Hs as [|x l' Hs IH Hx]; [constructor|]. simpl. constructor; [done|].
  apply Forall_fmap. exact Hx.
Qed.

Lemma sort_pairs_canonical l1 l2 : NoDup (fst <$> l1) -> Permutation l1 l2 ->
  sort_pairs l1 = sort_pairs l2.
Proof.
  intros Hnd Hp. apply (StronglySorted_unique_strong account_le).
  - intros [a m] [b n] H1 H2 H3 H4. rewrite sort_pairs_perm in H1, H2.
    unfold account_le in *. simpl in *. assert (a = b) as -> by (by apply (anti_symm leA)).
    rewrite <- Hp in H2. apply list_elem_of_lookup in H1 as [i Hi], H2 as [j Hj].
    assert (i = j) as ->; [|congruence].
    eapply (NoDup_lookup (fst <$> l1)); [done| |]; rewrite list_lookup_fmap; rewrite ?Hi, ?Hj; done.
  - apply StronglySorted_merge_sort; apply _.
  - apply StronglySorted_merge_sort; apply _.
  - by rewrite !sort_pairs_perm.
Qed.

Lemma new_handler_members max l h : MembershipLaws H AccountId leA max -> len l <= max ->
  sorted_members (new_handler (fst <$> sort_pairs l) h) = fst <$> sort_pairs l.
Proof.
  intros Hl Hlen. unfold new_handler.
  destruct (bool_decide_reflect (sorted_members h <> fst <$> sort_pairs l)) as [Hne|Heq].
  - apply (set_then_sorted (max:=max)); [by rewrite len_fmap, sort_pairs_len|].
    apply sort_pairs_sorted.
  - by apply dec_stable in Heq.
Qed.

(** C29: after the inherent has run on non-empty lists, each body has exactly the
    observed members, in the order of their accounts, and the stored main chain
    identifier at each position is the one observed for that very account. *)
Theorem membership_follows_observation o ca ta s :
  ensure_none o = Some tt -> InherentExecutedThisBlock s = false -> ca <> [] -> ta <> [] ->
  len ca <= CouncilMaxMembers cfg -> len ta <= TechnicalCommitteeMaxMembers cfg ->
  exists post s', reset_members o ca ta s = Ok (post, s') /\
    InherentExecutedThisBlock s' = true /\
    Permutation (zip (sorted_members (council s')) (CouncilMainchainMembers s')) ca /\
    StronglySorted leA (sorted_members (council s')) /\
    Permutation (zip (sorted_members (technical_committee s'))
                     (TechnicalCommitteeMainchainMembers s')) ta /\
    StronglySorted leA (sorted_members (technical_committee s')).
Proof.
  intros Ho Hx Hca Hta Hcl Htl. eexists _, _. split; [by apply reset_members_nonempty|].
  simpl. rewrite (new_handler_members (CouncilMaxMembers cfg)) by done.
  rewrite (new_handler_members (TechnicalCommitteeMaxMembers cfg)) by done.
  rewrite !zip_pairs. split_and!; auto using sort_pairs_perm, sort_pairs_sorted.
Qed.

(** Observing the same members again, in any order, is a no-op: the next block's
    inherent changes nothing, emits no event and is charged as such. *)
Theorem repeated_observation_is_noop o ca ta ca' ta' s post s' :
  ensure_none o = Some tt -> ca <> [] -> ta <> [] ->
  len ca <= CouncilMaxMembers cfg -> len ta <= TechnicalCommitteeMaxMembers cfg ->
  NoDup (fst <$> ca) -> NoDup (fst <$> ta) -> Permutation ca ca' -> Permutation ta ta' ->
  reset_members o ca ta s = Ok (post, s') ->
  reset_members o ca' ta' (set_executed false s') =
    Ok (pays_no (w_reset_members_none (Weights cfg) (len ca) (len ta)), s').
Proof.
  intros Ho Hca Hta Hcl Htl Hnc Hnt Hpc Hpt Hrun.
  assert (InherentExecutedThisBlock s = false) as Hx.
  { destruct (InherentExecutedThisBlock s) eqn:E; [|done]. unfold reset_members in Hrun.
    rewrite Ho in Hrun. unfold_m. rewrite E in Hrun. done. }
  rewrite reset_members_nonempty in Hrun by done. simplify_eq.
  assert (len ca' = len ca /\ len ta' = len ta) as [Ec Et].
  { unfold len. by rewrite Hpc, Hpt. }
  rewrite reset_members_nonempty; [|done|done| | |lia|lia].
  - unfold reset_weight, none_weight, after_reset, council_changed, tc_changed, has_changed. simpl.
    rewrite <- (sort_pairs_canonical ca ca'), <- (sort_pairs_canonical ta ta') by done.
    rewrite (new_handler_members (CouncilMaxMembers cfg)) by done.
    rewrite (new_handler_members (TechnicalCommitteeMaxMembers cfg)) by done.
    rewrite !bool_decide_false by auto. simpl. rewrite Ec, Et.
    unfold set_technical_committee, set_council, new_handler. simpl.
    rewrite !app_nil_r. do 2 f_equal.
    rewrite (bool_decide_false (sorted_members (if bool_decide (sorted_members (council s) <> _) then _ else _) <> _)).
    + rewrite (bool_decide_false (sorted_members (if bool_decide (sorted_members (technical_committee s) <> _) then _ else _) <> _)); [done|].
      intros Hne. apply Hne. by apply (new_handler_members (TechnicalCommitteeMaxMembers cfg)).
    + intros Hne. apply Hne. by apply (new_handler_members (CouncilMaxMembers cfg)).
  - intros ->. by apply Permutation_nil_r in Hpc.
  - intros ->. by apply Permutation_nil_r in Hpt.
Qed.

(** A block author's inherent is accepted by every node with the same main chain
    data, and nothing else is: it names no account twice in a body, the check accepts
    exactly its two lists, and executed as the first inherent of a block it succeeds and
    installs them. *)
Theorem proposed_inherent_is_accepted data call o s :
  create_inherent data = Some call -> ensure_none o = Some tt ->
  InherentExecutedThisBlock s = false ->
  is_inherent call = true /\
  exists ca ta, call = Call_reset_members ca ta /\ NoDup (fst <$> ca) /\ NoDup (fst <$> ta) /\
    (forall ca' ta', check_inherent (Call_reset_members ca' ta') data = Ok tt <-> ca' = ca /\ ta' = ta) /\
    exists post s', reset_members o ca ta s = Ok (post, s') /\
      sorted_members (council s') = fst <$> sort_pairs ca /\
      sorted_members (technical_committee s') = fst <$> sort_pairs ta.
Proof.
  intros (d & ca & ta & -> & -> & Hca & Hta & Hce & Hte & Hdc & Hdt)%create_inherent_inv Ho Hx.
  split; [done|]. exists ca, ta. split_and!; [done..| |].
  - intros ca' ta'. unfold check_inherent. simpl. rewrite Hca, Hta. repeat case_bool_decide; naive_solver.
  - apply decode_auth_members_Ok in Hca, Hta. eexists _, _. split; [by apply reset_members_nonempty|]. simpl. split.
    + by apply (new_handler_members (CouncilMaxMembers cfg)).
    + by apply (new_handler_members (TechnicalCommitteeMaxMembers cfg)).
Qed.
End Pallet.
Arguments State AccountId Member Address PolicyId H : clear implicits.

(** ** A concrete instance: accounts and identifiers are numbers, a body is the list of
    its members. *)

Module Example.
#[export] Instance list_body : Membership (list Z) Z := {
  sorted_members h := h;
  set_members_sorted new _ _ := new
}.
#[export] Instance list_body_laws max : MembershipLaws (list Z) Z Z.le max.
Proof. split. done. Qed.
#[export] Instance Z_le_order : TotalOrder Z.le.
Proof.
  split; [apply _|]. intros x y. unfold strict.
  destruct (Z.lt_trichotomy x y) as [|[|]]; [left|right; left|right; right]; lia.
Qed.

Definition cfg : Config :=
  {| CouncilMaxMembers := 3; TechnicalCommitteeMaxMembers := 3;
     Weights := {| w_reset_members _ _ := from_parts 10 0;
                   w_reset_members_none _ _ := from_parts 1 0;
                   w_reset_members_only_council _ _ := from_parts 4 0;
                   w_reset_members_only_technical_committee _ _ := from_parts 5 0 |};
     DbWeight := {| db_read := 1; db_write := 2 |} |}.

Definition s0 : State Z Z Z Z (list Z) :=
  {| MainChainCouncilAddress := 0; MainChainCouncilPolicyId := 0;
     MainChainTechnicalCommitteeAddress := 0; MainChainTechnicalCommitteePolicyId := 0;
     CouncilMainchainMembers := []; TechnicalCommitteeMainchainMembers := [];
     InherentExecutedThisBlock := false; council := []; technical_committee := []; events := [] |}.

Definition ca : list (Z * Z) := [(2, 20); (1, 10)].
Definition ta : list (Z * Z) := [(7, 70)].
Definition s1 : State Z Z Z Z (list Z) :=
  {| MainChainCouncilAddress := 0; MainChainCouncilPolicyId := 0;
     MainChainTechnicalCommitteeAddress := 0; MainChainTechnicalCommitteePolicyId := 0;
     CouncilMainchainMembers := [10; 20]; TechnicalCommitteeMainchainMembers := [70];
     InherentExecutedThisBlock := true; council := [1; 2]; technical_committee := [7];
     events := [CouncilMembersReset [1; 2] [10; 20]; TechnicalCommitteeMembersReset [7] [70]] |}.

Definition run (ca ta : list (Z * Z)) (s : State Z Z Z Z (list Z)) :=
  reset_members (Origin:=RawOrigin Z) Z.le cfg NoneOrigin ca ta s.

Lemma first_reset : run ca ta s0 = Ok (pays_no (from_parts 9 0), s1).
Proof. vm_compute. reflexivity. Qed.

(** A list that names an account twice is logged and applied all the same. *)
Lemma duplicates_are_applied :
  exists post s', run [(1, 10); (1, 11)] ta s0 = Ok (post, s') /\ council s' = [1; 1].
Proof. eexists _, _. split; vm_compute; reflexivity. Qed.

Definition data : InherentData (Key:=Z) (Member:=Z) (McBlockHash:=Z) :=
  Ok (Some {| council_authorities := {| authorities := ca; round := 0 |};
              technical_committee_authorities := {| authorities := ta; round := 0 |};
              mc_block_hash := 5 |}).
End Example.
Import Example.

Lemma membership_follows_observation_witness :
  exists post s', Example.run ca ta s0 = Ok (post, s') /\
    Permutation (zip (sorted_members (council s')) (CouncilMainchainMembers s')) ca.
Proof.
  destruct (membership_follows_observation (Origin:=RawOrigin Z) Z.le cfg NoneOrigin ca ta s0)
    as (post & s' & Hr & _ & Hp & _).
  - reflexivity.
  - reflexivity.
  - discriminate.
  - discriminate.
  - vm_compute. discriminate.
  - vm_compute. discriminate.
  - exists post, s'. split; [exact Hr|exact Hp].
Defined.

Lemma repeated_observation_is_noop_witness :
  Example.run [(1, 10); (2, 20)] ta (set_executed false s1) =
    Ok (pays_no (from_parts 1 0), s1).
Proof.
  apply (repeated_observation_is_noop (Origin:=RawOrigin Z) Z.le cfg NoneOrigin ca ta
           [(1, 10); (2, 20)] ta s0 (pays_no (from_parts 9 0)) s1).
  - reflexivity.
  - discriminate.
  - discriminate.
  - vm_compute. discriminate.
  - vm_compute. discriminate.
  - apply (bool_decide_unpack _). vm_compute. reflexivity.
  - apply (bool_decide_unpack _). vm_compute. reflexivity.
  - apply Permutation_swap.
  - reflexivity.
  - exact first_reset.
Defined.

Lemma proposed_inherent_is_accepted_witness :
  exists ca ta, create_inherent cfg (fun k => Some k) data = Some (Call_reset_members ca ta) /\
    NoDup (fst <$> ca) /\ NoDup (fst <$> ta).
Proof.
  destruct (proposed_inherent_is_accepted (Origin:=RawOrigin Z) Z.le cfg (fun k => Some k) data
              (Call_reset_members ca ta) NoneOrigin s0) as (_ & ca' & ta' & E & H1 & H2 & _).
  - vm_compute. reflexivity.
  - reflexivity.
  - reflexivity.
  - exists ca', ta'. split_and!; [|exact H1|exact H2]. rewrite <- E. vm_compute. reflexivity.
Defined.
