(* ===== verification/CNightPrimitives.v ===== *)
(** * Data of the cNIGHT observation

    Models [src/primitives/cnight-observation/src/lib.rs]: positions on Cardano, the
    observed UTXOs and the order in which validators put them.  Hashes are lists of
    bytes, compared lexicographically as Rust compares arrays. *)

From stdpp Require Import sorting.
From S2P Require Import Prelude.

Definition McTxHash := list Z.
Definition CARDANO_BECH32_ADDRESS_MAX_LENGTH : Z := 108.
Definition CNIGHT_POLICY_ID_LENGTH : Z := 28.
Definition CARDANO_ASSET_NAME_MAX_LENGTH : Z := 32.

(** [UtxoId]: the creating transaction and the index of the output in it. *)
Definition UtxoId : Type := McTxHash * Z.

Record CardanoPosition := {
  block_hash : McTxHash;
  block_number : Z; (* u32 *)
  block_timestamp : Z; (* TimestampUnixMillis, i64 *)
  tx_index_in_block : Z (* u32 *)
}.

(** [PartialOrd for CardanoPosition] *)
Definition position_cmp (p q : CardanoPosition) : comparison :=
  match Z.compare (block_number p) (block_number q) with
  | Eq => Z.compare (tx_index_in_block p) (tx_index_in_block q)
  | ord => ord
  end.

(** [p >= q] *)
Definition position_ge (p q : CardanoPosition) : bool :=
  match position_cmp p q with Lt => false | _ => true end.

Definition increment (p : CardanoPosition) : CardanoPosition :=
  {| block_hash := block_hash p; block_number := block_number p;
     block_timestamp := block_timestamp p;
     tx_index_in_block := wrap 32 (tx_index_in_block p + 1) |}.

Definition min_for_block (n : Z) : CardanoPosition :=
  {| block_hash := replicate 32 0; block_number := n; block_timestamp := 0; tx_index_in_block := 0 |}.

(** The index is [i32::MAX]. *)
Definition max_for_block (n : Z) : CardanoPosition :=
  {| block_hash := replicate 32 0; block_number := n; block_timestamp := 0;
     tx_index_in_block := 2 ^ 31 - 1 |}.

Section Utxos.
Context {Address DustKey : Type}.

Record RegistrationData := { reg_reward_address : Address; reg_dust_public_key : DustKey }.
Record DeregistrationData := { dereg_reward_address : Address; dereg_dust_public_key : DustKey }.
Record CreateData := {
  create_value : Z; create_owner : Address; create_tx_hash : McTxHash; create_tx_index : Z }.
Record SpendData := {
  spend_value : Z; spend_owner : Address; spend_tx_hash : McTxHash; spend_tx_index : Z;
  spending_tx_hash : McTxHash }.

Inductive ObservedUtxoData :=
| Registration (d : RegistrationData)
| Deregistration (d : DeregistrationData)
| AssetCreate (d : CreateData)
| AssetSpend (d : SpendData).

Record ObservedUtxoHeader := {
  tx_position : CardanoPosition;
  tx_hash : McTxHash;
  utxo_tx_hash : McTxHash;
  utxo_index : Z (* u16 *)
}.

Record ObservedUtxo := { header : ObservedUtxoHeader; data : ObservedUtxoData }.
End Utxos.
Arguments RegistrationData : clear implicits.
Arguments DeregistrationData : clear implicits.
Arguments CreateData : clear implicits.
Arguments SpendData : clear implicits.
Arguments ObservedUtxoData : clear implicits.
Arguments ObservedUtxo : clear implicits.

#[export] Instance position_eq_dec : EqDecision CardanoPosition.
Proof. solve_decision. Defined.
#[export] Instance header_eq_dec : EqDecision ObservedUtxoHeader.
Proof. solve_decision. Defined.
#[export] Instance registration_eq_dec `{EqDecision A, EqDecision K} : EqDecision (RegistrationData A K).
Proof. solve_decision. Defined.
#[export] Instance deregistration_eq_dec `{EqDecision A, EqDecision K} : EqDecision (DeregistrationData A K).
Proof. solve_decision. Defined.
#[export] Instance create_eq_dec `{EqDecision A} : EqDecision (CreateData A).
Proof. solve_decision. Defined.
#[export] Instance spend_eq_dec `{EqDecision A} : EqDecision (SpendData A).
Proof. solve_decision. Defined.
#[export] Instance utxo_data_eq_dec `{EqDecision A, EqDecision K} : EqDecision (ObservedUtxoData A K).
Proof. solve_decision. Defined.
#[export] Instance utxo_eq_dec `{EqDecision A, EqDecision K} : EqDecision (ObservedUtxo A K).
Proof. solve_decision. Defined.

(** [ObservedUtxoHeader::is_create] *)
Definition is_create (h : ObservedUtxoHeader) : bool := bool_decide (tx_hash h = utxo_tx_hash h).

(** Comparison of byte arrays. *)
Fixpoint bytes_cmp (a b : list Z) : comparison :=
  match a, b with
  | [], [] => Eq
  | [], _ :: _ => Lt
  | _ :: _, [] => Gt
  | x :: a', y :: b' => match Z.compare x y with Eq => bytes_cmp a' b' | ord => ord end
  end.

(** [PartialOrd for ObservedUtxoHeader] *)
Definition header_cmp (a b : ObservedUtxoHeader) : comparison :=
  match position_cmp (tx_position a) (tx_position b) with
  | Eq =>
      if is_create a && negb (is_create b) then Lt
      else if negb (is_create a) && is_create b then Gt
      else
        match bytes_cmp (utxo_tx_hash a) (utxo_tx_hash b) with
        | Eq => Z.compare (utxo_index a) (utxo_index b)
        | ord => ord
        end
  | ord => ord
  end.

(** [Ord for ObservedUtxo] *)
Definition utxo_cmp {A K} (a b : ObservedUtxo A K) : comparison := header_cmp (header a) (header b).

(** ** The order

    A comparison function is lawful when it is antisymmetric as a function, its [Lt] is
    transitive, and its [Eq] is a congruence for it. *)
Class LawfulCmp {A} (cmp : A -> A -> comparison) := {
  cmp_flip a b : cmp b a = CompOpp (cmp a b);
  cmp_trans a b c o : cmp a b = o -> cmp b c = o -> cmp a c = o;
  cmp_eq_l a b c : cmp a b = Eq -> cmp a c = cmp b c
}.

(** Lexicographic composition, the pattern of all the orders of this file. *)
Definition lex {A} (c1 c2 : A -> A -> comparison) (a b : A) : comparison :=
  match c1 a b with Eq => c2 a b | ord => ord end.

#[export] Instance Z_cmp_lawful {A} (f : A -> Z) : LawfulCmp (fun a b => Z.compare (f a) (f b)).
Proof.
  split.
  - intros a b. apply Z.compare_antisym.
  - intros a b c []; rewrite ?Z.compare_eq_iff, ?Z.compare_lt_iff, ?Z.compare_gt_iff; lia.
  - intros a b c ->%Z.compare_eq_iff. done.
Qed.

#[export] Instance lex_lawful {A} (c1 c2 : A -> A -> comparison) :
  LawfulCmp c1 -> LawfulCmp c2 -> LawfulCmp (lex c1 c2).
Proof.
  intros [F1 T1 E1] [F2 T2 E2]. unfold lex. split.
  - intros a b. rewrite (F1 a b). destruct (c1 a b); simpl; auto.
  - intros a b c o. destruct (c1 a b) eqn:H1.
    + rewrite (E1 a b c H1). destruct (c1 b c) eqn:H2; [by apply T2|..].
      * intros _ <-. done.
      * intros _ <-. done.
    + intros <- H. destruct (c1 b c) eqn:H2; [|by rewrite (T1 a b c Lt)|done].
      assert (c1 c b = Eq) as H3 by (rewrite F1, H2; done).
      rewrite (F1 c a), (E1 c b a H3), (F1 a b), H1. done.
    + intros <- H. destruct (c1 b c) eqn:H2; [|done|by rewrite (T1 a b c Gt)].
      assert (c1 c b = Eq) as H3 by (rewrite F1, H2; done).
      rewrite (F1 c a), (E1 c b a H3), (F1 a b), H1. done.
  - intros a b c H. destruct (c1 a b) eqn:H1; [|done..]. rewrite (E1 a b c H1).
    destruct (c1 b c); [by apply E2|done..].
Qed.

Lemma bytes_cmp_eq a b : bytes_cmp a b = Eq <-> a = b.
Proof.
  revert b. induction a as [|x a IH]; intros [|y b]; simpl; [done..|].
  destruct (Z.compare_spec x y) as [->| |]; [rewrite IH; naive_solver|split; intros; [done|]..].
  - simplify_eq. lia.
  - simplify_eq. lia.
Qed.

Lemma bytes_cmp_flip a b : bytes_cmp b a = CompOpp (bytes_cmp a b).
Proof.
  revert b. induction a as [|x a IH]; intros [|y b]; simpl; [done..|].
  rewrite (Z.compare_antisym x y). destruct (x ?= y); simpl; auto.
Qed.

Lemma bytes_cmp_trans a b c o : bytes_cmp a b = o -> bytes_cmp b c = o -> bytes_cmp a c = o.
Proof.
  revert b c. induction a as [|x a IH]; intros [|y b] [|z c]; simpl; try (intros <-; done); try done.
  destruct (Z.compare_spec x y) as [->|Hxy|Hxy], (Z.compare_spec y z) as [->|Hyz|Hyz];
    try (intros <-; done); try (intros <- <-; done); eauto.
  - rewrite (proj2 (Z.compare_lt_iff x z)) by lia. intros <-. done.
  - rewrite (proj2 (Z.compare_lt_iff x z)) by lia. done.
  - rewrite (proj2 (Z.compare_gt_iff x z)) by lia. done.
  - rewrite (proj2 (Z.compare_gt_iff x z)) by lia. intros <-. done.
Qed.

#[export] Instance bytes_cmp_lawful {A} (f : A -> list Z) : LawfulCmp (fun a b => bytes_cmp (f a) (f b)).
Proof.
  split.
  - intros a b. apply bytes_cmp_flip.
  - intros a b c o. apply bytes_cmp_trans.
  - intros a b c ->%bytes_cmp_eq. done.
Qed.

(** Creations before spends. *)
Definition create_rank (h : ObservedUtxoHeader) : Z := if is_create h then 0 else 1.

Lemma header_cmp_lex a b : header_cmp a b =
  lex (fun a b => Z.compare (block_number (tx_position a)) (block_number (tx_position b)))
  (lex (fun a b => Z.compare (tx_index_in_block (tx_position a)) (tx_index_in_block (tx_position b)))
  (lex (fun a b => Z.compare (create_rank a) (create_rank b))
  (lex (fun a b => bytes_cmp (utxo_tx_hash a) (utxo_tx_hash b))
       (fun a b => Z.compare (utxo_index a) (utxo_index b))))) a b.
Proof.
  unfold header_cmp, lex, position_cmp, create_rank.
  destruct (block_number _ ?= _); [|done..]. destruct (tx_index_in_block _ ?= _); [|done..].
  by destruct (is_create a), (is_create b).
Qed.

#[export] Instance header_cmp_lawful : LawfulCmp header_cmp.
Proof.
  assert (forall c1 c2 : ObservedUtxoHeader -> ObservedUtxoHeader -> comparison,
    (forall a b, c1 a b = c2 a b) -> LawfulCmp c2 -> LawfulCmp c1) as Hext.
  { intros c1 c2 He [F Tr E]. split; intros *; rewrite !He; [apply F|apply Tr|apply E]. }
  eapply Hext; [apply header_cmp_lex|]. repeat apply lex_lawful; apply _.
Qed.

Lemma header_cmp_eq a b : header_cmp a b = Eq <->
  block_number (tx_position a) = block_number (tx_position b) /\
  tx_index_in_block (tx_position a) = tx_index_in_block (tx_position b) /\
  is_create a = is_create b /\ utxo_tx_hash a = utxo_tx_hash b /\ utxo_index a = utxo_index b.
Proof.
  rewrite header_cmp_lex. unfold lex, create_rank.
  rewrite <- !Z.compare_eq_iff, <- bytes_cmp_eq.
  destruct (block_number _ ?= _); [|naive_solver..].
  destruct (tx_index_in_block _ ?= _); [|naive_solver..].
  destruct (is_create a), (is_create b); simpl; try naive_solver;
    destruct (bytes_cmp _ _); naive_solver.
Qed.

Definition utxo_le {A K} (a b : ObservedUtxo A K) : Prop := utxo_cmp a b <> Gt.

(** The key under which a UTXO is ordered. *)
Definition order_key {A K} (u : ObservedUtxo A K) : Z * Z * bool * UtxoId :=
  let h := header u in
  (block_number (tx_position h), tx_index_in_block (tx_position h), is_create h,
   (utxo_tx_hash h, utxo_index h)).

Lemma utxo_le_antisym {A K} (a b : ObservedUtxo A K) :
  utxo_le a b -> utxo_le b a -> order_key a = order_key b.
Proof.
  unfold utxo_le, utxo_cmp, order_key. rewrite (cmp_flip (header a) (header b)).
  destruct (header_cmp (header a) (header b)) eqn:E; simpl; try done.
  apply header_cmp_eq in E as (-> & -> & -> & -> & ->). done.
Qed.

#[export] Instance utxo_le_trans {A K} : Transitive (@utxo_le A K).
Proof.
  intros a b c. unfold utxo_le, utxo_cmp.
  generalize (header a), (header b), (header c). clear. intros a b c H1 H2 H3.
  assert (header_cmp c a = Lt) as H4 by (rewrite cmp_flip, H3; done).
  destruct (header_cmp a b) eqn:E1; [|clear H1|done].
  - rewrite (cmp_eq_l a b c E1) in H3. done.
  - apply H2. rewrite (cmp_flip c b). by rewrite (cmp_trans c a b Lt).
Qed.

#[export] Instance utxo_le_total {A K} : Total (@utxo_le A K).
Proof.
  intros a b. unfold utxo_le, utxo_cmp. rewrite (cmp_flip (header a) (header b)).
  destruct (header_cmp _ _); naive_solver.
Qed.

#[export] Instance comparison_eq_dec : EqDecision comparison.
Proof. solve_decision. Defined.
#[export] Instance utxo_le_dec {A K} : RelDecision (@utxo_le A K).
Proof. intros a b. unfold utxo_le. apply _. Defined.

(** The order in which validators put the observed UTXOs is canonical: whatever
    order they fetched them in, two validators that observe the same UTXOs, with
    pairwise different keys, present the same list in the inherent. *)
Theorem observed_order_is_canonical {A K} (l1 l2 : list (ObservedUtxo A K)) :
  Permutation l1 l2 -> NoDup (order_key <$> l1) ->
  StronglySorted utxo_le l1 -> StronglySorted utxo_le l2 -> l1 = l2.
Proof.
  intros Hp Hnd H1 H2. apply (StronglySorted_unique_strong utxo_le); [|done..].
  intros a b Ha Hb Hab Hba. rewrite <- Hp in Hb.
  pose proof (utxo_le_antisym a b Hab Hba) as Hk.
  apply list_elem_of_lookup in Ha as [i Hi], Hb as [j Hj].
  assert (i = j) as ->; [|congruence].
  eapply (NoDup_lookup (order_key <$> l1)); [done| |]; rewrite list_lookup_fmap, ?Hi, ?Hj; [done|].
  simpl. by f_equal.
Qed.

Module Example.
Definition utxo (block index : Z) (creating : bool) (h : Z) : ObservedUtxo Z Z :=
  {| header := {| tx_position := {| block_hash := [0]; block_number := block;
                                    block_timestamp := 0; tx_index_in_block := index |};
                  tx_hash := if creating then [h] else [0]; utxo_tx_hash := [h]; utxo_index := 0 |};
     data := Registration {| reg_reward_address := 1; reg_dust_public_key := 2 |} |}.
Definition l := [utxo 1 0 true 9; utxo 1 0 false 3; utxo 2 0 true 1].
End Example.

Lemma observed_order_is_canonical_witness :
  Example.l = merge_sort utxo_le (reverse Example.l).
Proof.
  apply (observed_order_is_canonical Example.l (merge_sort utxo_le (reverse Example.l))).
  - by rewrite merge_sort_Permutation, reverse_Permutation.
  - apply (bool_decide_unpack _). vm_compute. reflexivity.
  - repeat constructor; vm_compute; discriminate.
  - apply StronglySorted_merge_sort; apply _.
Defined.
