(* ===== verification/CNightObservation.v ===== *)
(** * Observation of cNIGHT on Cardano

    Models [src/pallets/cnight-observation/src/lib.rs]: registrations of Cardano reward
    addresses for DUST, creations and spends of cNIGHT UTXOs, the inherent
    [process_tokens] that brings them on chain and sends one system transaction to the
    ledger, the creation and check of the inherent, the hooks, the root calls and the
    genesis ([config.rs]).  The ledger API, the hash function and the executor of system
    transactions are parameters. *)

From S2P Require Import Prelude Frame CNightPrimitives.

Definition INITIAL_CARDANO_BLOCK_WINDOW_SIZE : Z := 1000.
Definition DEFAULT_CARDANO_TX_CAPACITY_PER_BLOCK : Z := 200.
Definition UTXO_PER_TX_OVERESTIMATE : Z := 64.
Definition MAX_UTXO_COUNT : Z := DEFAULT_CARDANO_TX_CAPACITY_PER_BLOCK * UTXO_PER_TX_OVERESTIMATE.
Definition STORAGE_VERSION : Z := 1.

(** [UtxoActionType], cast to [u8] *)
Inductive UtxoActionType := Create | Destroy.
Definition action_u8 (a : UtxoActionType) : Z := match a with Create => 0 | Destroy => 1 end.

(** The errors of the pallet that it returns itself; it also passes on those of the
    executor. *)
Inductive Error :=
| MaxCardanoAddrLengthExceeded | NonAsciiAssetName | InherentAlreadyExecuted
| CardanoPositionRegression | TooManyUtxos.

Inductive CallError (XE : Type) :=
| PalletError (e : dispatch_error Error)
| ExecutorError (e : XE).
Arguments PalletError {XE} e.
Arguments ExecutorError {XE} e.

Inductive InherentError := Missing | Other | DecodeFailed.

(** [SubstrateWeight::process_tokens] *)
Definition process_tokens_weight (db : RuntimeDbWeight) (n : Z) : Weight :=
  weight_add (weight_add (weight_add (weight_add (weight_add
    (from_parts 15000000 1500)
    (weight_mul (from_parts 5000000 200) n))
    (reads db 2))
    (reads db (saturating_mul 64 2 n)))
    (writes db 2))
    (writes db (saturating_mul 64 1 n)).

(** [u16::to_be_bytes] *)
Definition u16_to_be_bytes (x : Z) : list Z := [x / 256; x mod 256].
(** [b"asset_create"] *)
Definition ASSET_CREATE : list Z := [97; 115; 115; 101; 116; 95; 99; 114; 101; 97; 116; 101].

Section Pallet.
Context {Origin AccountId Address DustKey H256 Bytes Tx LedgerHash XE L : Type}.
Context `{Countable Address} `{EqDecision DustKey} `{Countable H256} `{!Origins Origin AccountId}.

(** The arguments of the ledger's constructor of one event. *)
Record DustEvent := {
  ev_value : Z; ev_key : DustKey; ev_time : Z; ev_action : UtxoActionType; ev_nonce : H256 }.

Record Config := {
  (** [T::Hashing::hash] *)
  hash : list Z -> H256;
  (** [LedgerApi::construct_cnight_generates_dust_event] *)
  construct_event : DustEvent -> option Bytes;
  (** [LedgerApi::construct_cnight_generates_dust_system_tx] *)
  construct_system_tx : list Bytes -> option Tx;
  (** [MidnightSystemTransactionExecutor::execute_system_transaction] *)
  execute_system_transaction : Tx -> L -> outcome XE (LedgerHash * L);
  process_tokens_w : Z -> Weight;
  DbWeight : RuntimeDbWeight
}.
Variable cfg : Config.

Record MappingEntry := {
  entry_reward_address : Address; entry_dust_public_key : DustKey; entry_utxo_id : UtxoId }.

Inductive Event :=
| EvRegistration (cardano_reward_address : Address) (dust_public_key : DustKey)
| EvDeregistration (cardano_reward_address : Address) (dust_public_key : DustKey)
| EvMappingAdded (e : MappingEntry)
| EvMappingRemoved (e : MappingEntry)
| EvSystemTransactionApplied (block_hash : list Z) (tx_index_in_block : Z) (h : LedgerHash).

(** The values that only genesis and root calls write. *)
Record Parameters := {
  MainChainMappingValidatorAddress : list Z;
  MainChainAuthTokenAssetName : list Z;
  CNightIdentifier : list Z * list Z;
  CardanoBlockWindowSize : Z;
  CardanoTxCapacityPerBlock : Z
}.

Record State := {
  params : Parameters;
  Mapping : gmap Address (gmap UtxoId DustKey); (* rows of the double map by first key *)
  UtxoOwners : gmap H256 DustKey;
  NextCardanoPosition : CardanoPosition;
  InherentExecutedThisBlock : bool;
  on_chain_storage_version : Z;
  ledger : L;
  events : list Event (* newest last *)
}.

Definition PalletM (A : Type) := M State (CallError XE) A.

Definition set_params p s :=
  {| params := p; Mapping := Mapping s; UtxoOwners := UtxoOwners s;
     NextCardanoPosition := NextCardanoPosition s;
     InherentExecutedThisBlock := InherentExecutedThisBlock s;
     on_chain_storage_version := on_chain_storage_version s; ledger := ledger s; events := events s |}.
Definition set_executed b s :=
  {| params := params s; Mapping := Mapping s; UtxoOwners := UtxoOwners s;
     NextCardanoPosition := NextCardanoPosition s; InherentExecutedThisBlock := b;
     on_chain_storage_version := on_chain_storage_version s; ledger := ledger s; events := events s |}.
Definition set_owners o s :=
  {| params := params s; Mapping := Mapping s; UtxoOwners := o;
     NextCardanoPosition := NextCardanoPosition s;
     InherentExecutedThisBlock := InherentExecutedThisBlock s;
     on_chain_storage_version := on_chain_storage_version s; ledger := ledger s; events := events s |}.
Definition set_position p s :=
  {| params := params s; Mapping := Mapping s; UtxoOwners := UtxoOwners s;
     NextCardanoPosition := p; InherentExecutedThisBlock := InherentExecutedThisBlock s;
     on_chain_storage_version := on_chain_storage_version s; ledger := ledger s; events := events s |}.
Definition set_ledger l s :=
  {| params := params s; Mapping := Mapping s; UtxoOwners := UtxoOwners s;
     NextCardanoPosition := NextCardanoPosition s;
     InherentExecutedThisBlock := InherentExecutedThisBlock s;
     on_chain_storage_version := on_chain_storage_version s; ledger := l; events := events s |}.
Definition set_mapping_and_events m e s :=
  {| params := params s; Mapping := m; UtxoOwners := UtxoOwners s;
     NextCardanoPosition := NextCardanoPosition s;
     InherentExecutedThisBlock := InherentExecutedThisBlock s;
     on_chain_storage_version := on_chain_storage_version s; ledger := ledger s; events := e |}.
(** [deposit_event] *)
Definition deposit (e : Event) s := set_mapping_and_events (Mapping s) (events s ++ [e]) s.

(** ** Registrations *)

(** The rows of [Mapping] under an address. *)
Definition rows (s : State) (addr : Address) : gmap UtxoId DustKey := default ∅ (Mapping s !! addr).
(** [Mapping::insert] and [Mapping::remove] *)
Definition set_rows (addr : Address) (r : gmap UtxoId DustKey) (s : State) : State :=
  set_mapping_and_events (<[addr := r]> (Mapping s)) (events s) s.

(** [unique_dust_key]: the iterator yields one value and no second. *)
Definition unique_key (r : gmap UtxoId DustKey) : option DustKey :=
  match map_to_list r with [(_, only)] => Some only | _ => None end.
Definition unique_dust_key (s : State) (addr : Address) : option DustKey := unique_key (rows s addr).

Definition get_registration (s : State) (wallet : Address) : option DustKey := unique_dust_key s wallet.
Definition is_registered (s : State) (utxo_holder : Address) : bool :=
  match unique_dust_key s utxo_holder with Some _ => true | None => false end.

Definition utxo_id_of (h : ObservedUtxoHeader) : UtxoId := (utxo_tx_hash h, utxo_index h).

Definition handle_registration (h : ObservedUtxoHeader) (d : RegistrationData Address DustKey)
    (s : State) : State :=
  let addr := reg_reward_address d in
  let dust_public_key := reg_dust_public_key d in
  let utxo_id := utxo_id_of h in
  let previous_dust_key := unique_dust_key s addr in
  let s := set_rows addr (<[utxo_id := dust_public_key]> (rows s addr)) s in
  let new_dust_key := unique_dust_key s addr in
  let s :=
    match previous_dust_key, new_dust_key with
    | None, Some sole_dust_key => deposit (EvRegistration addr sole_dust_key) s
    | Some prev_dust_key, None => deposit (EvDeregistration addr prev_dust_key) s
    | _, _ => s
    end in
  deposit (EvMappingAdded {| entry_reward_address := addr; entry_dust_public_key := dust_public_key;
                             entry_utxo_id := utxo_id |}) s.

Definition handle_registration_removal (h : ObservedUtxoHeader)
    (d : DeregistrationData Address DustKey) (s : State) : State :=
  let addr := dereg_reward_address d in
  let dust_public_key := dereg_dust_public_key d in
  let utxo_id := utxo_id_of h in
  let reg_entry := {| entry_reward_address := addr; entry_dust_public_key := dust_public_key;
                      entry_utxo_id := utxo_id |} in
  let previous_dust_key := unique_dust_key s addr in
  let s := set_rows addr (delete utxo_id (rows s addr)) s in
  let new_dust_key := unique_dust_key s addr in
  let s :=
    match previous_dust_key, new_dust_key with
    | None, Some sole_dust_key => deposit (EvRegistration addr sole_dust_key) s
    | Some _, None => deposit (EvDeregistration addr dust_public_key) s
    | _, _ => s
    end in
  deposit (EvMappingRemoved reg_entry) s.

(** ** Creations and spends *)

Definition utxo_nonce (tx_hash : McTxHash) (tx_index : Z) : H256 :=
  hash cfg (ASSET_CREATE ++ tx_hash ++ u16_to_be_bytes tx_index).

Definition handle_create (cur_time : Z) (d : CreateData Address) (s : State) : option Bytes * State :=
  match get_registration s (create_owner d) with
  | None => (None, s)
  | Some dust_public_key =>
      let nonce := utxo_nonce (create_tx_hash d) (create_tx_index d) in
      match construct_event cfg
              {| ev_value := create_value d; ev_key := dust_public_key; ev_time := cur_time;
                 ev_action := Create; ev_nonce := nonce |} with
      | Some event_bytes => (Some event_bytes, set_owners (<[nonce := dust_public_key]> (UtxoOwners s)) s)
      | None => (None, s)
      end
  end.

Definition handle_spend (cur_time : Z) (d : SpendData Address) (s : State) : option Bytes * State :=
  let nonce := utxo_nonce (spend_tx_hash d) (spend_tx_index d) in
  match UtxoOwners s !! nonce with
  | None => (None, s)
  | Some dust_public_key =>
      let s := set_owners (delete nonce (UtxoOwners s)) s in
      match construct_event cfg
              {| ev_value := spend_value d; ev_key := dust_public_key; ev_time := cur_time;
                 ev_action := Destroy; ev_nonce := nonce |} with
      | Some event_bytes => (Some event_bytes, s)
      | None => (None, s)
      end
  end.

(** ** [process_tokens] *)

(** The body of its loop. The time stamp is an [i64] cast to [u64]. *)
Definition process_utxo (u : ObservedUtxo Address DustKey) (acc : list Bytes * State)
    : list Bytes * State :=
  let '(evs, s) := acc in
  let now := wrap 64 (block_timestamp (tx_position (header u))) / 1000 in
  let push (r : option Bytes * State) :=
    match r with (Some e, s') => (evs ++ [e], s') | (None, s') => (evs, s') end in
  match data u with
  | Registration d => (evs, handle_registration (header u) d s)
  | Deregistration d => (evs, handle_registration_removal (header u) d s)
  | AssetCreate d => push (handle_create now d s)
  | AssetSpend d => push (handle_spend now d s)
  end.

Definition process_utxos (utxos : list (ObservedUtxo Address DustKey)) (s : State)
    : list Bytes * State :=
  foldl (fun acc u => process_utxo u acc) ([], s) utxos.

Definition utxo_limit (s : State) : Z :=
  saturating_mul 32 (CardanoTxCapacityPerBlock (params s)) UTXO_PER_TX_OVERESTIMATE.

(** The declared weight. *)
Definition process_tokens_declared (s : State) : Weight := process_tokens_w cfg (utxo_limit s).

(** The system transaction at the end of the call. *)
Definition send_events (next_cardano_position : CardanoPosition) (evs : list Bytes) : PalletM unit :=
  match evs with
  | [] => ret tt
  | _ :: _ =>
      match construct_system_tx cfg evs with
      | None => ret tt
      | Some midnight_system_tx =>
          let* s := get in
          match execute_system_transaction cfg midnight_system_tx (ledger s) with
          | Ok (system_transaction_hash, l) =>
              do* put (set_ledger l s) in
              modify (deposit (EvSystemTransactionApplied (block_hash next_cardano_position)
                                 (tx_index_in_block next_cardano_position) system_transaction_hash))
          | Err e => throw (ExecutorError e)
          | Panic => panic
          end
      end
  end.

Definition process_tokens (origin : Origin) (utxos : list (ObservedUtxo Address DustKey))
    (next_cardano_position : CardanoPosition) : PalletM PostDispatchInfo :=
  do* ok_or (ensure_none origin) (PalletError BadOrigin) in
  let utxo_count := wrap 32 (len utxos) in
  let* limit := gets utxo_limit in
  do* ensure (utxo_count <=? limit) (PalletError (ModuleError TooManyUtxos)) in
  let* executed := gets InherentExecutedThisBlock in
  do* ensure (negb executed) (PalletError (ModuleError InherentAlreadyExecuted)) in
  do* modify (set_executed true) in
  let* version := gets on_chain_storage_version in
  if version <? STORAGE_VERSION
  then ret (pays_no (reads_writes (DbWeight cfg) 2 1))
  else
    let* prev := gets NextCardanoPosition in
    do* ensure (position_ge next_cardano_position prev)
          (PalletError (ModuleError CardanoPositionRegression)) in
    let* s := get in
    let '(evs, s') := process_utxos utxos s in
    do* put (set_position next_cardano_position s') in
    do* send_events next_cardano_position evs in
    ret (pays_no (process_tokens_w cfg utxo_count)).

(** ** Root calls *)

Definition set_mapping_validator_contract_address (origin : Origin) (address : list Z) : PalletM unit :=
  do* ok_or (ensure_root origin) (PalletError BadOrigin) in
  let* bounded := ok_or (bounded_try_from CARDANO_BECH32_ADDRESS_MAX_LENGTH address)
                    (PalletError (ModuleError MaxCardanoAddrLengthExceeded)) in
  modify (fun s => set_params
    {| MainChainMappingValidatorAddress := bounded;
       MainChainAuthTokenAssetName := MainChainAuthTokenAssetName (params s);
       CNightIdentifier := CNightIdentifier (params s);
       CardanoBlockWindowSize := CardanoBlockWindowSize (params s);
       CardanoTxCapacityPerBlock := CardanoTxCapacityPerBlock (params s) |} s).

Definition is_ascii (l : list Z) : bool := forallb (fun b => b <? 128) l.

Definition set_cnight_identifier (origin : Origin) (policy_id asset_name : list Z) : PalletM unit :=
  do* ok_or (ensure_root origin) (PalletError BadOrigin) in
  do* ensure (is_ascii asset_name) (PalletError (ModuleError NonAsciiAssetName)) in
  modify (fun s => set_params
    {| MainChainMappingValidatorAddress := MainChainMappingValidatorAddress (params s);
       MainChainAuthTokenAssetName := MainChainAuthTokenAssetName (params s);
       CNightIdentifier := (truncate_from CNIGHT_POLICY_ID_LENGTH policy_id, asset_name);
       CardanoBlockWindowSize := CardanoBlockWindowSize (params s);
       CardanoTxCapacityPerBlock := CardanoTxCapacityPerBlock (params s) |} s).

Definition set_auth_token_asset_name (origin : Origin) (asset_name : list Z) : PalletM unit :=
  do* ok_or (ensure_root origin) (PalletError BadOrigin) in
  do* ensure (is_ascii asset_name) (PalletError (ModuleError NonAsciiAssetName)) in
  modify (fun s => set_params
    {| MainChainMappingValidatorAddress := MainChainMappingValidatorAddress (params s);
       MainChainAuthTokenAssetName := asset_name;
       CNightIdentifier := CNightIdentifier (params s);
       CardanoBlockWindowSize := CardanoBlockWindowSize (params s);
       CardanoTxCapacityPerBlock := CardanoTxCapacityPerBlock (params s) |} s).

(** ** Hooks *)

Definition on_initialize : Weight := writes (DbWeight cfg) 1.
Definition on_finalize : PalletM unit := modify (set_executed false).

(** ** The inherent *)

Record MidnightObservationTokenMovement := {
  mv_utxos : list (ObservedUtxo Address DustKey); mv_next_cardano_position : CardanoPosition }.

Inductive Call :=
| Call_process_tokens (utxos : list (ObservedUtxo Address DustKey)) (next : CardanoPosition)
| Call_other.

(** What [InherentData::get_data] gives: undecodable bytes, nothing, or the data. *)
Definition InherentData := outcome unit (option MidnightObservationTokenMovement).

Definition get_data_from_inherent_data (d : InherentData)
    : outcome InherentError (option MidnightObservationTokenMovement) :=
  match d with Ok x => Ok x | _ => Err DecodeFailed end.

Definition create_inherent (d : InherentData) : option Call :=
  match get_data_from_inherent_data d with
  | Ok (Some m) => Some (Call_process_tokens (mv_utxos m) (mv_next_cardano_position m))
  | _ => None
  end.

Definition check_inherent (call : Call) (d : InherentData) : outcome InherentError unit :=
  match call with
  | Call_other => Ok tt
  | Call_process_tokens utxos next =>
      match get_data_from_inherent_data d with
      | Ok (Some parsed) =>
          if bool_decide (mv_utxos parsed <> utxos) ||
             bool_decide (mv_next_cardano_position parsed <> next)
          then Err Other else Ok tt
      | Ok None => Err Other
      | Err e => Err e
      | Panic => Panic
      end
  end.

Definition is_inherent (call : Call) : bool :=
  match call with Call_process_tokens _ _ => true | Call_other => false end.

Definition is_inherent_required (d : InherentData) : outcome InherentError (option InherentError) :=
  match get_data_from_inherent_data d with
  | Ok (Some _) => Ok (Some Missing)
  | Ok None => Ok None
  | Err e => Err e
  | Panic => Panic
  end.

(** ** Genesis *)

Record MappingEntryGenesis := {
  g_utxo_tx_hash : McTxHash; g_utxo_index : Z; g_dust_public_key : DustKey }.

Record CNightGenesis := {
  mapping_validator_address : list Z; auth_token_asset_name : list Z;
  cnight_policy_id : list Z; cnight_asset_name : list Z;
  mappings : list (Address * list MappingEntryGenesis); (* a BTreeMap, in its order *)
  utxo_owners : list (H256 * DustKey);
  next_cardano_position : CardanoPosition
}.

Definition genesis_mapping (addr : Address) (e : MappingEntryGenesis) (s : State) : State :=
  set_rows addr (<[(g_utxo_tx_hash e, g_utxo_index e) := g_dust_public_key e]> (rows s addr)) s.

Definition build (g : CNightGenesis) : PalletM unit :=
  let* addr := expect (bounded_try_from CARDANO_BECH32_ADDRESS_MAX_LENGTH (mapping_validator_address g)) in
  let* pid := expect (bounded_try_from CNIGHT_POLICY_ID_LENGTH (cnight_policy_id g)) in
  let* name := expect (bounded_try_from CARDANO_ASSET_NAME_MAX_LENGTH (cnight_asset_name g)) in
  let* token := expect (bounded_try_from CARDANO_ASSET_NAME_MAX_LENGTH (auth_token_asset_name g)) in
  do* modify (fun s => set_params
    {| MainChainMappingValidatorAddress := addr; MainChainAuthTokenAssetName := token;
       CNightIdentifier := (pid, name);
       CardanoBlockWindowSize := CardanoBlockWindowSize (params s);
       CardanoTxCapacityPerBlock := CardanoTxCapacityPerBlock (params s) |} s) in
  do* for_each (fun '(addr, entries) =>
        for_each (fun e => modify (genesis_mapping addr e)) entries) (mappings g) in
  do* for_each (fun '(k, v) => modify (fun s => set_owners (<[k := v]> (UtxoOwners s)) s))
        (utxo_owners g) in
  modify (set_position (next_cardano_position g)).

(** ** Registrations as seen through the events *)

(** How an observer of the chain updates its view of the valid registrations. *)
Definition apply_event (view : Address -> option DustKey) (e : Event) : Address -> option DustKey :=
  fun addr =>
    match e with
    | EvRegistration a k => if decide (addr = a) then Some k else view addr
    | EvDeregistration a _ => if decide (addr = a) then None else view addr
    | _ => view addr
    end.

(** The observer that has seen the events since [s] knows the registrations of [s']. *)
Definition observed (s s' : State) : Prop :=
  exists new, events s' = events s ++ new /\
    forall addr, foldl apply_event (unique_dust_key s) new addr = unique_dust_key s' addr.

Lemma unique_key_Some r k : unique_key r = Some k <-> exists i, r = {[ i := k ]}.
Proof.
  unfold unique_key. split.
  - destruct (map_to_list r) as [|[i k'] []] eqn:E; [done| |done]. intros [= ->].
    exists i. rewrite <- (list_to_map_to_list r), E. simpl. done.
  - intros [i ->]. by rewrite map_to_list_singleton.
Qed.

Lemma unique_key_insert r i k : r !! i = None ->
  unique_key (<[i := k]> r) = if decide (r = ∅) then Some k else None.
Proof.
  intros Hi. case_decide as Hr.
  - subst. apply unique_key_Some. exists i. apply insert_empty.
  - destruct (unique_key (<[i:=k]> r)) as [k'|] eqn:E; [|done].
    apply unique_key_Some in E as [j Ej]. destruct Hr. apply map_eq. intros x.
    rewrite lookup_empty. destruct (decide (x = i)) as [->|Hne]; [done|].
    assert (<[i:=k]> r !! x = ({[j:=k']} : gmap UtxoId DustKey) !! x) as Hx by (by rewrite Ej).
    assert (<[i:=k]> r !! i = ({[j:=k']} : gmap UtxoId DustKey) !! i) as Hi' by (by rewrite Ej).
    rewrite lookup_insert_eq in Hi'. symmetry in Hi'. apply lookup_singleton_Some in Hi' as [<- _].
    rewrite lookup_insert_ne, lookup_singleton_ne in Hx by done. done.
Qed.

Lemma unique_key_delete r i k : unique_key r = Some k ->
  unique_key (delete i r) = if decide (r !! i = None) then Some k else None.
Proof.
  intros [j ->]%unique_key_Some. destruct (decide (i = j)) as [->|Hne].
  - rewrite delete_singleton_eq, decide_False; [done|]. by rewrite lookup_singleton_eq.
  - rewrite delete_singleton_ne, decide_True by (done || by rewrite lookup_singleton_ne).
    apply unique_key_Some. by exists j.
Qed.

Lemma observed_refl s s' : events s' = events s -> Mapping s' = Mapping s -> observed s s'.
Proof.
  intros He Hm. exists []. rewrite app_nil_r. split; [done|]. intros addr. simpl.
  unfold unique_dust_key, rows. by rewrite Hm.
Qed.

Lemma observed_trans s1 s2 s3 : observed s1 s2 -> observed s2 s3 -> observed s1 s3.
Proof.
  intros (n1 & E1 & V1) (n2 & E2 & V2). exists (n1 ++ n2). split.
  - by rewrite E2, E1, <- app_assoc.
  - intros addr. rewrite foldl_app, <- V2.
    assert (Hext : forall l v w, (forall a, v a = w a) -> forall a, foldl apply_event v l a = foldl apply_event w l a).
    { intros l. induction l as [|e l IH]; intros v w Hvw a; simpl; [done|]. apply IH.
      intros b. destruct e; simpl; by rewrite ?Hvw. }
    by apply Hext.
Qed.

(** The event that a change of the rows of an address from [r] to [r'] deposits. *)
Lemma observed_rows s s' addr r' (d : option Event) (e : Event) :
  (forall v a, apply_event v e a = v a) ->
  match unique_dust_key s addr, unique_key r' with
  | None, Some k => d = Some (EvRegistration addr k)
  | Some _, None => exists k, d = Some (EvDeregistration addr k)
  | x, y => d = None /\ x = y
  end ->
  Mapping s' = <[addr := r']> (Mapping s) ->
  events s' = events s ++ option_list d ++ [e] -> observed s s'.
Proof.
  intros He Hd Hm Hev. exists (option_list d ++ [e]). split; [done|]. intros a.
  rewrite foldl_app. cbn [foldl]. rewrite He.
  assert (unique_dust_key s' a = if decide (a = addr) then unique_key r' else unique_dust_key s a) as ->.
  { unfold unique_dust_key, rows. rewrite Hm. case_decide as Hx.
    - subst. by rewrite lookup_insert_eq.
    - by rewrite lookup_insert_ne. }
  destruct (unique_dust_key s addr) as [k|] eqn:E1, (unique_key r') as [k'|] eqn:E2.
  - destruct Hd as [-> Hd]. simpl. case_decide; congruence.
  - destruct Hd as [k' ->]. simpl. by case_decide.
  - subst. simpl. by case_decide.
  - destruct Hd as [-> _]. simpl. case_decide; congruence.
Qed.

Lemma handle_registration_observed h d s :
  rows s (reg_reward_address d) !! utxo_id_of h = None -> observed s (handle_registration h d s).
Proof.
  intros Hf. set (addr := reg_reward_address d) in *.
  set (r' := <[utxo_id_of h := reg_dust_public_key d]> (rows s addr)).
  assert (Hnew : unique_dust_key (set_rows addr r' s) addr = unique_key r').
  { unfold unique_dust_key, rows. simpl. by rewrite lookup_insert_eq. }
  pose proof (unique_key_insert (rows s addr) (utxo_id_of h) (reg_dust_public_key d) Hf) as Hu.
  fold r' in Hu.
  eapply (observed_rows _ _ addr r'
            (match unique_dust_key s addr, unique_key r' with
             | None, Some k => Some (EvRegistration addr k)
             | Some k, None => Some (EvDeregistration addr k)
             | _, _ => None end)).
  - intros v a. instantiate (1 := EvMappingAdded _). done.
  - unfold unique_dust_key. destruct (unique_key (rows s addr)) as [k|] eqn:E, (unique_key r') as [k'|]; eauto.
    apply unique_key_Some in E as [i Hi]. rewrite decide_False in Hu; [done|].
    rewrite Hi. apply insert_non_empty.
  - unfold handle_registration. fold addr r'. rewrite Hnew.
    by destruct (unique_dust_key s addr), (unique_key r').
  - unfold handle_registration. fold addr r'. rewrite Hnew.
    destruct (unique_dust_key s addr), (unique_key r'); simpl; by rewrite <- ?app_assoc.
Qed.

Lemma handle_removal_observed h d s : observed s (handle_registration_removal h d s).
Proof.
  set (addr := dereg_reward_address d) in *. set (r' := delete (utxo_id_of h) (rows s addr)).
  assert (Hnew : unique_dust_key (set_rows addr r' s) addr = unique_key r').
  { unfold unique_dust_key, rows. simpl. by rewrite lookup_insert_eq. }
  eapply (observed_rows _ _ addr r'
            (match unique_dust_key s addr, unique_key r' with
             | None, Some k => Some (EvRegistration addr k)
             | Some _, None => Some (EvDeregistration addr (dereg_dust_public_key d))
             | _, _ => None end)).
  - intros v a. instantiate (1 := EvMappingRemoved _). done.
  - unfold unique_dust_key. destruct (unique_key (rows s addr)) as [k|] eqn:E, (unique_key r') as [k'|] eqn:E'; eauto.
    split; [done|]. unfold r' in E'. rewrite (unique_key_delete _ _ k E) in E'.
    by case_decide; simplify_eq.
  - unfold handle_registration_removal. fold addr r'. rewrite Hnew.
    by destruct (unique_dust_key s addr), (unique_key r').
  - unfold handle_registration_removal. fold addr r'. rewrite Hnew.
    destruct (unique_dust_key s addr), (unique_key r'); simpl; by rewrite <- ?app_assoc.
Qed.

(** ** The loop *)

(** One step of the loop on its own. *)
Definition step_utxo (u : ObservedUtxo Address DustKey) (s : State) : list Bytes * State :=
  process_utxo u ([], s).

Lemma process_utxo_acc u evs s :
  process_utxo u (evs, s) = (evs ++ fst (step_utxo u s), snd (step_utxo u s)).
Proof.
  unfold step_utxo, process_utxo. destruct (data u) as [d|d|d|d]; simpl; rewrite ?app_nil_r; [done..| |].
  - destruct (handle_create _ d s) as [[e|] s']; simpl; by rewrite ?app_nil_r.
  - destruct (handle_spend _ d s) as [[e|] s']; simpl; by rewrite ?app_nil_r.
Qed.

Lemma process_utxos_acc us evs s :
  foldl (fun acc u => process_utxo u acc) (evs, s) us =
  (evs ++ fst (process_utxos us s), snd (process_utxos us s)).
Proof.
  revert evs s. induction us as [|v us IH]; intros evs s.
  - unfold process_utxos. simpl. by rewrite app_nil_r.
  - unfold process_utxos. cbn [foldl]. rewrite !process_utxo_acc, !IH. simpl.
    by rewrite app_assoc.
Qed.

Lemma process_utxos_cons u us s :
  process_utxos (u :: us) s =
  (fst (step_utxo u s) ++ fst (process_utxos us (snd (step_utxo u s))),
   snd (process_utxos us (snd (step_utxo u s)))).
Proof.
  unfold process_utxos at 1. cbn [foldl]. by rewrite process_utxo_acc, process_utxos_acc.
Qed.

(** A reflexive and transitive relation kept by every step is kept by the loop. *)
Lemma process_utxos_rel (R : State -> State -> Prop) us s :
  Reflexive R -> Transitive R -> (forall u s, R s (snd (step_utxo u s))) ->
  R s (snd (process_utxos us s)).
Proof.
  intros Hr Ht Hs. revert s. induction us as [|u us IH]; intros s; [done|].
  rewrite process_utxos_cons. simpl. etrans; [apply Hs|apply IH].
Qed.

(** What the handlers leave alone. *)
Definition same_frame (s s' : State) : Prop :=
  params s' = params s /\ NextCardanoPosition s' = NextCardanoPosition s /\
  InherentExecutedThisBlock s' = InherentExecutedThisBlock s /\
  on_chain_storage_version s' = on_chain_storage_version s /\ ledger s' = ledger s.

Lemma step_utxo_frame u s : same_frame s (snd (step_utxo u s)).
Proof.
  unfold step_utxo, process_utxo, handle_registration, handle_registration_removal,
    handle_create, handle_spend, same_frame.
  destruct (data u); simpl; repeat (case_match; simpl); simplify_eq/=; done.
Qed.

Lemma process_utxos_frame us s : same_frame s (snd (process_utxos us s)).
Proof.
  apply process_utxos_rel; [by intros ?| |apply step_utxo_frame].
  intros s1 s2 s3. unfold same_frame. naive_solver congruence.
Qed.

Definition reg_id (u : ObservedUtxo Address DustKey) : option (Address * UtxoId) :=
  match data u with
  | Registration d => Some (reg_reward_address d, utxo_id_of (header u))
  | _ => None
  end.

(** Every UTXO registers at most once: no registration of the list repeats another one,
    or one that is stored. *)
Definition fresh_registrations (us : list (ObservedUtxo Address DustKey)) (s : State) : Prop :=
  NoDup (omap reg_id us) /\ forall a i, (a, i) ∈ omap reg_id us -> rows s a !! i = None.

Lemma rows_deposit e s : rows (deposit e s) = rows s.
Proof. done. Qed.

Lemma step_utxo_rows u s a i : rows s a !! i = None -> reg_id u <> Some (a, i) ->
  rows (snd (step_utxo u s)) a !! i = None.
Proof.
  intros Hr Hid. unfold step_utxo, process_utxo, reg_id in *.
  destruct (data u) as [d|d|d|d]; simpl.
  - unfold handle_registration. rewrite rows_deposit.
    set (r' := <[_ := _]> (rows s (reg_reward_address d))).
    assert (rows (set_rows (reg_reward_address d) r' s) a !! i = None); [|by repeat case_match].
    unfold rows at 1. simpl. destruct (decide (a = reg_reward_address d)) as [->|Hne].
    + rewrite lookup_insert_eq. simpl. unfold r'. rewrite lookup_insert_ne; congruence.
    + by rewrite lookup_insert_ne.
  - unfold handle_registration_removal. rewrite rows_deposit.
    set (r' := delete _ (rows s (dereg_reward_address d))).
    assert (rows (set_rows (dereg_reward_address d) r' s) a !! i = None); [|by repeat case_match].
    unfold rows at 1. simpl. destruct (decide (a = dereg_reward_address d)) as [->|Hne].
    + rewrite lookup_insert_eq. simpl. unfold r'. apply lookup_delete_None. by right.
    + by rewrite lookup_insert_ne.
  - unfold handle_create. by repeat case_match; simplify_eq/=.
  - unfold handle_spend. by repeat case_match; simplify_eq/=.
Qed.

Lemma step_utxo_observed u s :
  (forall a i, reg_id u = Some (a, i) -> rows s a !! i = None) -> observed s (snd (step_utxo u s)).
Proof.
  unfold step_utxo, process_utxo, reg_id. intros Hf. destruct (data u) as [d|d|d|d]; simpl.
  - apply handle_registration_observed. by apply Hf.
  - apply handle_removal_observed.
  - unfold handle_create. repeat case_match; simplify_eq/=; by apply observed_refl.
  - unfold handle_spend. repeat case_match; simplify_eq/=; by apply observed_refl.
Qed.

Lemma process_utxos_observed us s : fresh_registrations us s -> observed s (snd (process_utxos us s)).
Proof.
  revert s. induction us as [|u us IH]; intros s [Hnd Hf]; [by apply observed_refl|].
  rewrite process_utxos_cons. simpl in *. eapply observed_trans; [apply step_utxo_observed|apply IH].
  - intros a i E. apply Hf. rewrite E. apply list_elem_of_here.
  - destruct (reg_id u) as [[a0 i0]|] eqn:E; simpl in *.
    + apply NoDup_cons in Hnd as [Hni Hnd]. split; [done|]. intros a i Hin.
      apply step_utxo_rows; [apply Hf; by apply list_elem_of_further|]. rewrite E. by intros [= -> ->].
    + split; [done|]. intros a i Hin. apply step_utxo_rows; [by apply Hf|by rewrite E].
Qed.

(** ** The call *)

(** The events, if any, that the end of the call adds. *)
Lemma send_events_inv p evs s s' : send_events p evs s = Ok (tt, s') ->
  exists e, events s' = events s ++ option_list e /\
    (forall v x a, e = Some x -> apply_event v x a = v a) /\
    Mapping s' = Mapping s /\ UtxoOwners s' = UtxoOwners s /\ params s' = params s /\
    NextCardanoPosition s' = NextCardanoPosition s /\
    InherentExecutedThisBlock s' = InherentExecutedThisBlock s /\
    on_chain_storage_version s' = on_chain_storage_version s.
Proof.
  intros Hr. unfold send_events in Hr. unfold_m. destruct evs as [|b evs].
  { simplify_eq. exists None. rewrite app_nil_r. done. }
  destruct (construct_system_tx cfg (b :: evs)) as [tx|].
  - destruct (execute_system_transaction cfg tx (ledger s)) as [[h l]| |]; simplify_eq/=.
    eexists (Some _). simpl. split_and!; try done. by intros ??? [= <-].
  - simplify_eq. exists None. rewrite app_nil_r. done.
Qed.

Lemma process_tokens_inv o us p s post s' : process_tokens o us p s = Ok (post, s') ->
  ensure_none o = Some tt /\ wrap 32 (len us) <= utxo_limit s /\
  InherentExecutedThisBlock s = false /\
  ((on_chain_storage_version s < STORAGE_VERSION /\ s' = set_executed true s /\
    post = pays_no (reads_writes (DbWeight cfg) 2 1)) \/
   (STORAGE_VERSION <= on_chain_storage_version s /\
    position_ge p (NextCardanoPosition s) = true /\
    post = pays_no (process_tokens_w cfg (wrap 32 (len us))) /\
    send_events p (fst (process_utxos us (set_executed true s)))
      (set_position p (snd (process_utxos us (set_executed true s)))) = Ok (tt, s'))).
Proof.
  unfold process_tokens. intros Hr. destruct (ensure_none o) as [[]|] eqn:Ho; [|done].
  unfold bind at 1 in Hr. simpl in Hr. unfold bind at 1 in Hr. simpl in Hr.
  destruct (Z.leb_spec (wrap 32 (len us)) (utxo_limit s)); [|done].
  unfold bind at 1 2 3 in Hr. simpl in Hr.
  destruct (InherentExecutedThisBlock s) eqn:Hx; [done|]. simpl in Hr.
  unfold bind at 1 2 in Hr. simpl in Hr.
  split_and!; [done..|].
  destruct (Z.ltb_spec (on_chain_storage_version s) STORAGE_VERSION).
  - left. unfold ret in Hr. by simplify_eq.
  - right. unfold bind at 1 2 in Hr. simpl in Hr.
    destruct (position_ge p (NextCardanoPosition s)); [|done]. simpl in Hr.
    unfold bind at 1 in Hr. simpl in Hr.
    destruct (process_utxos us (set_executed true s)) as [evs s1] eqn:Hp.
    unfold bind at 1 in Hr. simpl in Hr.
    apply bind_Ok_inv in Hr as ([] & s2 & Hs & Hr). unfold ret in Hr. by simplify_eq.
Qed.

(** The tables that the observed UTXOs are kept in *)
Definition tables (s : State) : gmap Address (gmap UtxoId DustKey) * gmap H256 DustKey := (Mapping s, UtxoOwners s).

Lemma step_utxo_tables u s s' : tables s = tables s' -> tables (snd (step_utxo u s)) = tables (snd (step_utxo u s')).
Proof.
  intros [= Hm Ho]. unfold step_utxo, process_utxo, tables. destruct (data u) as [d|d|d|d]; simpl.
  - unfold handle_registration, rows. rewrite <- Hm. repeat case_match; simpl; unfold rows; by rewrite <- ?Hm, <- ?Ho.
  - unfold handle_registration_removal, rows. rewrite <- Hm. repeat case_match; simpl; unfold rows; by rewrite <- ?Hm, <- ?Ho.
  - unfold handle_create, get_registration, unique_dust_key, rows. rewrite <- Hm. repeat case_match; simplify_eq/=; by rewrite <- ?Hm, <- ?Ho.
  - unfold handle_spend. rewrite <- Ho. repeat case_match; simplify_eq/=; by rewrite <- ?Hm, <- ?Ho.
Qed.

Lemma process_utxos_tables us s s' : tables s = tables s' ->
  tables (snd (process_utxos us s)) = tables (snd (process_utxos us s')).
Proof.
  revert s s'. induction us as [|u us IH]; intros s s' Hs; [done|]. rewrite !process_utxos_cons. simpl.
  by apply IH, step_utxo_tables.
Qed.

Lemma process_utxos_app us vs s :
  snd (process_utxos (us ++ vs) s) = snd (process_utxos vs (snd (process_utxos us s))).
Proof. unfold process_utxos at 1. rewrite foldl_app, process_utxos_acc. by rewrite process_utxos_acc. Qed.

Lemma send_events_result p evs s : (forall tx l, execute_system_transaction cfg tx l <> Panic) ->
  match send_events p evs s with Ok _ => True | Err (ExecutorError _) => True | _ => False end.
Proof.
  intros Hx. unfold send_events. unfold_m. destruct evs as [|b evs]; [done|]. destruct (construct_system_tx cfg (b :: evs)) as [tx|]; [|done].
  specialize (Hx tx (ledger s)). by destruct (execute_system_transaction cfg tx (ledger s)) as [[h l]| |].
Qed.

(** A call that passes the checks fails only if the executor does. *)
Lemma process_tokens_result o us p s : (forall tx l, execute_system_transaction cfg tx l <> Panic) ->
  ensure_none o = Some tt -> wrap 32 (len us) <= utxo_limit s -> InherentExecutedThisBlock s = false ->
  STORAGE_VERSION <= on_chain_storage_version s -> position_ge p (NextCardanoPosition s) = true ->
  match process_tokens o us p s with Ok _ => True | Err (ExecutorError _) => True | _ => False end.
Proof.
  intros Hx Ho Hl He Hv Hp. unfold process_tokens. rewrite Ho. unfold bind at 1. simpl. unfold bind at 1. simpl.
  rewrite (proj2 (Z.leb_le _ _) Hl). unfold bind at 1 2 3. simpl. rewrite He. simpl. unfold bind at 1 2. simpl.
  rewrite (proj2 (Z.ltb_ge _ _) Hv). unfold bind at 1 2. simpl. rewrite Hp. simpl. unfold bind at 1. simpl.
  destruct (process_utxos us (set_executed true s)) as [evs s1]. unfold bind at 1. simpl.
  pose proof (send_events_result p evs (set_position p s1) Hx) as Hs. unfold bind.
  by destruct (send_events p evs (set_position p s1)) as [[[] s2]|e|].
Qed.

(** What a call that succeeds leaves *)
Lemma process_tokens_state o us p s post s' : STORAGE_VERSION <= on_chain_storage_version s ->
  process_tokens o us p s = Ok (post, s') ->
  tables s' = tables (snd (process_utxos us s)) /\ NextCardanoPosition s' = p /\ params s' = params s /\
  on_chain_storage_version s' = on_chain_storage_version s.
Proof.
  intros Hv (_ & _ & _ & [(? & _)|(_ & _ & _ & Hs)])%process_tokens_inv; [lia|].
  apply send_events_inv in Hs as (e & _ & _ & Hm & Ho & Hpar & Hn & _ & Hver). simpl in *.
  destruct (process_utxos_frame us (set_executed true s)) as (Hf1 & _ & _ & Hf2 & _). simpl in *.
  split; [|split; [done|split; congruence]]. trans (tables (snd (process_utxos us (set_executed true s)))).
  - unfold tables. by rewrite Hm, Ho.
  - by apply process_utxos_tables.
Qed.

Lemma set_executed_fresh us b s : fresh_registrations us s -> fresh_registrations us (set_executed b s).
Proof. done. Qed.

Lemma process_tokens_observed o us p s post s' : fresh_registrations us s ->
  process_tokens o us p s = Ok (post, s') -> observed s s'.
Proof.
  intros Hf (_ & _ & _ & [(_ & -> & _) | (_ & _ & _ & Hs)])%process_tokens_inv.
  { by apply observed_refl. }
  apply send_events_inv in Hs as (e & He & Hview & Hm & _). simpl in He, Hm.
  eapply observed_trans; [apply (observed_refl s (set_executed true s)); done|].
  eapply observed_trans; [apply (process_utxos_observed us); by apply set_executed_fresh|].
  exists (option_list e). split; [done|]. intros addr.
  assert (unique_dust_key s' addr = unique_dust_key (snd (process_utxos us (set_executed true s))) addr) as ->.
  { unfold unique_dust_key, rows. by rewrite Hm. }
  destruct e as [x|]; simpl; [by apply Hview|done].
Qed.

(** ** Creations and spends *)

(** A sequence of ledger events is paired, for the UTXOs whose creation is known at its
    beginning, when each destruction names a UTXO that is known at that point, with the
    key of its creation. *)
Fixpoint paired (known : gmap H256 DustKey) (l : list DustEvent) : Prop :=
  match l with
  | [] => True
  | e :: l' =>
      match ev_action e with
      | Create => paired (<[ev_nonce e := ev_key e]> known) l'
      | Destroy => known !! ev_nonce e = Some (ev_key e) /\ paired (delete (ev_nonce e) known) l'
      end
  end.

Lemma mapM_app_Some {A B} (f : A -> option B) l1 l2 k1 k2 :
  mapM f l1 = Some k1 -> mapM f l2 = Some k2 -> mapM f (l1 ++ l2) = Some (k1 ++ k2).
Proof. rewrite !mapM_Some. apply Forall2_app. Qed.

Lemma step_utxo_paired u s known : UtxoOwners s ⊆ known ->
  exists l known', mapM (construct_event cfg) l = Some (fst (step_utxo u s)) /\
    UtxoOwners (snd (step_utxo u s)) ⊆ known' /\
    forall l', paired known' l' -> paired known (l ++ l').
Proof.
  intros Hk. unfold step_utxo, process_utxo. destruct (data u) as [d|d|d|d].
  - exists [], known. split_and!; [done| |done]. simpl. unfold handle_registration.
    by repeat case_match.
  - exists [], known. split_and!; [done| |done]. simpl. unfold handle_registration_removal.
    by repeat case_match.
  - unfold handle_create. destruct (get_registration s (create_owner d)) as [k|]; [|by exists [], known].
    destruct (construct_event cfg _) as [b|] eqn:E; [|by exists [], known].
    eexists [_], _. split_and!; [by simpl; rewrite E| |by simpl]. simpl.
    by apply insert_mono.
  - unfold handle_spend. destruct (UtxoOwners s !! _) as [k|] eqn:Ho; [|by exists [], known].
    destruct (construct_event cfg _) as [b|] eqn:E.
    + eexists [_], _. split_and!; [by simpl; rewrite E| |].
      * simpl. by apply delete_mono.
      * simpl. intros l' Hl'. split; [|done]. by eapply lookup_weaken.
    + exists [], known. split_and!; [done| |done]. simpl. etrans; [apply delete_subseteq|done].
Qed.

Lemma process_utxos_paired us s known : UtxoOwners s ⊆ known ->
  exists l known', mapM (construct_event cfg) l = Some (fst (process_utxos us s)) /\
    UtxoOwners (snd (process_utxos us s)) ⊆ known' /\
    forall l', paired known' l' -> paired known (l ++ l').
Proof.
  revert s known. induction us as [|u us IH]; intros s known Hk; [by exists [], known|].
  rewrite process_utxos_cons. simpl.
  destruct (step_utxo_paired u s known Hk) as (l1 & known1 & H1 & H2 & H3).
  destruct (IH (snd (step_utxo u s)) known1 H2) as (l2 & known2 & H4 & H5 & H6).
  exists (l1 ++ l2), known2. split_and!; [by apply mapM_app_Some|done|].
  intros l' Hl'. rewrite <- app_assoc. by apply H3, H6.
Qed.

(** ** The life of the chain *)

(** The events that an inherent has the ledger execute: none while the storage is being
    migrated, and none if the ledger cannot build the system transaction. *)
Definition sent_events (us : list (ObservedUtxo Address DustKey)) (s : State) : list Bytes :=
  if on_chain_storage_version s <? STORAGE_VERSION then []
  else
    let evs := fst (process_utxos us (set_executed true s)) in
    match construct_system_tx cfg evs with Some _ => evs | None => [] end.

(** Everything else that changes the storage of the pallet after genesis: the hook, the
    calls of root, the other pallets that change the ledger, and an upgrade of the
    runtime, which may move mappings and raise the storage version. *)
Inductive other_step : State -> State -> Prop :=
| other_finalize s s' : on_finalize s = Ok (tt, s') -> other_step s s'
| other_address o a s s' : set_mapping_validator_contract_address o a s = Ok (tt, s') -> other_step s s'
| other_identifier o a b s s' : set_cnight_identifier o a b s = Ok (tt, s') -> other_step s s'
| other_token o a s s' : set_auth_token_asset_name o a s = Ok (tt, s') -> other_step s s'
| other_ledger l s : other_step s (set_ledger l s)
| other_upgrade s s' : UtxoOwners s' = UtxoOwners s -> other_step s s'.

(** The owners after genesis are those that it lists. *)
Lemma build_owners g s s' : UtxoOwners s = ∅ -> build g s = Ok (tt, s') ->
  forall nonce key, UtxoOwners s' !! nonce = Some key -> (nonce, key) ∈ utxo_owners g.
Proof.
  set (listed := fun t : State => forall nonce key, UtxoOwners t !! nonce = Some key -> (nonce, key) ∈ utxo_owners g).
  intros He Hb. change (listed s').
  assert (listed s) as Hs by (intros nonce key; by rewrite He, lookup_empty). clear He.
  unfold build in Hb. do 4 apply bind_expect_inv in Hb as (? & _ & Hb).
  apply bind_Ok_inv in Hb as ([] & s1 & [= <-] & Hb). apply bind_Ok_inv in Hb as ([] & s2 & Hm & Hb).
  apply bind_Ok_inv in Hb as ([] & s3 & Ho & [= <-]).
  assert (listed s2) as H2.
  { revert Hm. apply (for_each_inv _ listed); [|exact Hs]. intros [addr entries] t1 t2 _ Ht.
    apply (for_each_inv _ listed); [|exact Ht]. intros e t3 t4 _ Ht3 [= <-]. exact Ht3. }
  cut (listed s3); [done|]. revert Ho. apply (for_each_inv _ listed); [|exact H2].
  intros [k v] t1 t2 Hin Ht [= <-] nonce key. simpl.
  intros [[<- <-]|[_ Hl]]%lookup_insert_Some; [done|by apply Ht].
Qed.

(** [history s sent s']: the chain goes from [s] to [s'], and its inherents have the
    ledger execute the events [sent], in this order. *)
Inductive history : State -> list Bytes -> State -> Prop :=
| history_nil s : history s [] s
| history_process o us p s post s1 sent s2 :
    process_tokens o us p s = Ok (post, s1) -> history s1 sent s2 -> history s (sent_events us s ++ sent) s2
| history_other s s1 sent s2 : other_step s s1 -> history s1 sent s2 -> history s sent s2.

(** What the ledger executes in an inherent is the transaction of these events. *)
Lemma process_tokens_ledger o us p s post s' : process_tokens o us p s = Ok (post, s') ->
  (sent_events us s = [] /\ ledger s' = ledger s) \/
  exists tx h, construct_system_tx cfg (sent_events us s) = Some tx /\
    execute_system_transaction cfg tx (ledger s) = Ok (h, ledger s').
Proof.
  unfold sent_events.
  intros (_ & _ & _ & [(Hv & -> & _)|(Hv & _ & _ & Hs)])%process_tokens_inv.
  - left. by rewrite (proj2 (Z.ltb_lt _ _) Hv).
  - rewrite (proj2 (Z.ltb_ge _ _) Hv).
    assert (ledger (snd (process_utxos us (set_executed true s))) = ledger s) as Hl.
    { destruct (process_utxos_frame us (set_executed true s)) as (_ & _ & _ & _ & Hl). by rewrite Hl. }
    cbv zeta. revert Hs. generalize (snd (process_utxos us (set_executed true s))) Hl.
    generalize (fst (process_utxos us (set_executed true s))). intros evs s1 Hl1 Hs.
    unfold send_events in Hs. unfold_m. destruct evs as [|b evs].
    { left. simplify_eq/=. split; [by case_match|done]. }
    destruct (construct_system_tx cfg (b :: evs)) as [tx|] eqn:Htx; [|left; by simplify_eq/=].
    simpl in Hs. rewrite Hl1 in Hs. right. exists tx.
    destruct (execute_system_transaction cfg tx (ledger s)) as [[h l]| |]; simplify_eq/=. by exists h.
Qed.

Lemma process_tokens_owners o us p s post s' : process_tokens o us p s = Ok (post, s') ->
  UtxoOwners s' = if on_chain_storage_version s <? STORAGE_VERSION then UtxoOwners s
                  else UtxoOwners (snd (process_utxos us (set_executed true s))).
Proof.
  intros (_ & _ & _ & [(Hv & -> & _)|(Hv & _ & _ & Hs)])%process_tokens_inv.
  - by rewrite (proj2 (Z.ltb_lt _ _) Hv).
  - rewrite (proj2 (Z.ltb_ge _ _) Hv). by apply send_events_inv in Hs as (_ & _ & _ & _ & -> & _).
Qed.

Lemma other_step_owners s s' : other_step s s' -> UtxoOwners s' = UtxoOwners s.
Proof.
  destruct 1 as [s s' Hr|o a s s' Hr|o a b s s' Hr|o a s s' Hr|l s|s s' Hr]; [|..|done|done].
  - unfold on_finalize, modify in Hr. by simplify_eq.
  - unfold set_mapping_validator_contract_address in Hr. unfold_m. by repeat case_match; simplify_eq/=.
  - unfold set_cnight_identifier in Hr. unfold_m. by repeat case_match; simplify_eq/=.
  - unfold set_auth_token_asset_name in Hr. unfold_m. by repeat case_match; simplify_eq/=.
Qed.

Lemma history_paired s sent s' : (forall evs, construct_system_tx cfg evs <> None) ->
  history s sent s' -> forall known, UtxoOwners s ⊆ known ->
  exists l, mapM (construct_event cfg) l = Some sent /\ paired known l.
Proof.
  intros Hc Hh. induction Hh as [s|o us p s post s1 sent s2 Hp _ IH|s s1 sent s2 Ho _ IH]; intros known Hk.
  - by exists [].
  - apply process_tokens_owners in Hp. unfold sent_events.
    destruct (on_chain_storage_version s <? STORAGE_VERSION); [apply IH; by rewrite Hp|].
    destruct (process_utxos_paired us (set_executed true s) known Hk) as (l1 & known1 & H1 & H2 & H3).
    destruct (IH known1) as (l2 & H4 & H5); [by rewrite Hp|].
    exists (l1 ++ l2). split; [|by apply H3]. cbv zeta.
    destruct (construct_system_tx cfg _) eqn:Htx; [by apply mapM_app_Some|by apply Hc in Htx].
  - apply IH. by rewrite (other_step_owners _ _ Ho).
Qed.

(** ** Properties *)

(** C25: the events of the pallet tell the valid registrations: an observer that updates
    its view by the [Registration] and [Deregistration] events knows, after every
    inherent, exactly which reward address has a unique DUST key and which one, provided
    every UTXO registers at most once. *)
Theorem events_tell_registrations o us p s post s' :
  fresh_registrations us s -> process_tokens o us p s = Ok (post, s') ->
  exists new, events s' = events s ++ new /\
    forall addr, foldl apply_event (unique_dust_key s) new addr = unique_dust_key s' addr.
Proof. apply process_tokens_observed. Qed.

(** C27: over the whole life of a chain, from its genesis and through any inherents, calls
    and upgrades, the events that the ledger is given to execute are paired: a destruction
    is only executed for a UTXO that the genesis lists or whose creation was executed
    before, that is not destroyed since, and with the DUST key that it had there.  The
    ledger is assumed to build a transaction from any list of events: the pallet keeps the
    owners of creations that it could not send. *)
Theorem destructions_match_creations g s00 s0 sent s :
  (forall evs, construct_system_tx cfg evs <> None) ->
  UtxoOwners s00 = ∅ -> build g s00 = Ok (tt, s0) -> history s0 sent s ->
  (exists l known, mapM (construct_event cfg) l = Some sent /\ paired known l /\
     forall nonce key, known !! nonce = Some key -> (nonce, key) ∈ utxo_owners g) /\
  (forall o us p s1 post s2, process_tokens o us p s1 = Ok (post, s2) ->
     (sent_events us s1 = [] /\ ledger s2 = ledger s1) \/
     exists tx h, construct_system_tx cfg (sent_events us s1) = Some tx /\
       execute_system_transaction cfg tx (ledger s1) = Ok (h, ledger s2)).
Proof.
  intros Hc He Hb Hh. split; [|apply process_tokens_ledger].
  destruct (history_paired _ _ _ Hc Hh (UtxoOwners s0) (reflexivity _)) as (l & Hl & Hp).
  exists l, (UtxoOwners s0). split_and!; [done..|]. by apply (build_owners _ _ _ He Hb).
Qed.

(** A creation is sent exactly for an owner with one registration, with its key,
    and the later spend of the same output is sent with that key and forgets it, whatever
    happened to the registration in between. *)
Theorem create_then_spend t d s b s1 :
  handle_create t d s = (Some b, s1) ->
  let nonce := utxo_nonce (create_tx_hash d) (create_tx_index d) in
  exists i k, rows s (create_owner d) = {[ i := k ]} /\
    construct_event cfg {| ev_value := create_value d; ev_key := k; ev_time := t;
                           ev_action := Create; ev_nonce := nonce |} = Some b /\
    forall t' d' s2, UtxoOwners s2 = UtxoOwners s1 ->
      spend_tx_hash d' = create_tx_hash d -> spend_tx_index d' = create_tx_index d ->
      fst (handle_spend t' d' s2) =
        construct_event cfg {| ev_value := spend_value d'; ev_key := k; ev_time := t';
                               ev_action := Destroy; ev_nonce := nonce |} /\
      UtxoOwners (snd (handle_spend t' d' s2)) = delete nonce (UtxoOwners s).
Proof.
  intros Hc nonce. unfold handle_create, get_registration, unique_dust_key in Hc. fold nonce in Hc.
  destruct (unique_key _) as [k|] eqn:Hu; [|done].
  apply unique_key_Some in Hu as [i Hi]. destruct (construct_event cfg _) as [b'|] eqn:E; [|done].
  simplify_eq. exists i, k. split; [done|]. split; [exact E|]. intros t' d' s2 Ho Hh Hx. simpl in Ho.
  unfold handle_spend. rewrite Hh, Hx. fold nonce. rewrite Ho. rewrite lookup_insert_eq. simpl.
  rewrite delete_insert_eq.
  destruct (construct_event cfg {| ev_value := spend_value d'; ev_key := k; ev_time := t';
                                   ev_action := Destroy; ev_nonce := nonce |}); split; reflexivity.
Qed.

(** Everything that changes the pallet's storage after genesis, with the ledger changing
    freely in between. *)
Inductive step : State -> State -> Prop :=
| step_process o us p s post s' : process_tokens o us p s = Ok (post, s') -> step s s'
| step_finalize s s' : on_finalize s = Ok (tt, s') -> step s s'
| step_address o a s s' : set_mapping_validator_contract_address o a s = Ok (tt, s') -> step s s'
| step_identifier o a b s s' : set_cnight_identifier o a b s = Ok (tt, s') -> step s s'
| step_token o a s s' : set_auth_token_asset_name o a s = Ok (tt, s') -> step s s'
| step_ledger l s : step s (set_ledger l s).

Lemma position_ge_spec p q : position_ge p q = true <->
  block_number q < block_number p \/
  (block_number q = block_number p /\ tx_index_in_block q <= tx_index_in_block p).
Proof.
  unfold position_ge, position_cmp. destruct (Z.compare_spec (block_number p) (block_number q)).
  - destruct (Z.compare_spec (tx_index_in_block p) (tx_index_in_block q)); split; intros; (done || lia).
  - split; intros; (done || lia).
  - split; intros; (done || lia).
Qed.

Lemma step_position s s' : step s s' ->
  position_ge (NextCardanoPosition s') (NextCardanoPosition s) = true.
Proof.
  assert (forall p, position_ge p p = true) as Hrefl by (intros; apply position_ge_spec; lia).
  destruct 1 as [o us p s post s' Hr|s s' Hr|o a s s' Hr|o a b s s' Hr|o a s s' Hr|l s].
  - apply process_tokens_inv in Hr as (_ & _ & _ & [(_ & -> & _)|(_ & Hp & _ & Hs)]); [apply Hrefl|].
    apply send_events_inv in Hs as (_ & _ & _ & _ & _ & _ & -> & _). done.
  - unfold on_finalize, modify in Hr. simplify_eq. apply Hrefl.
  - unfold set_mapping_validator_contract_address in Hr. unfold_m. repeat case_match; simplify_eq/=; apply Hrefl.
  - unfold set_cnight_identifier in Hr. unfold_m. repeat case_match; simplify_eq/=; apply Hrefl.
  - unfold set_auth_token_asset_name in Hr. unfold_m. repeat case_match; simplify_eq/=; apply Hrefl.
  - apply Hrefl.
Qed.

(** Over the whole life of the chain the position from which Cardano is read next
    never goes back, so no observed transaction is processed twice from an earlier
    position; and a second inherent of the same block is refused. *)
Theorem position_never_regresses s s' : rtc step s s' ->
  position_ge (NextCardanoPosition s') (NextCardanoPosition s) = true /\
  (forall o us p post s2 o' us' p', process_tokens o us p s' = Ok (post, s2) ->
     exists e, process_tokens o' us' p' s2 = Err e).
Proof.
  intros Hr. split.
  - induction Hr as [s|s1 s2 s3 H12 _ IH]; [apply position_ge_spec; lia|].
    apply step_position in H12. rewrite position_ge_spec in *. lia.
  - intros o us p post s2 o' us' p' Hp.
    assert (InherentExecutedThisBlock s2 = true) as Hx.
    { apply process_tokens_inv in Hp as (_ & _ & _ & [(_ & -> & _)|(_ & _ & _ & Hs)]); [done|].
      apply send_events_inv in Hs as (_ & _ & _ & _ & _ & _ & _ & -> & _). simpl.
      destruct (process_utxos_frame us (set_executed true s')) as (_ & _ & -> & _). done. }
    unfold process_tokens. destruct (ensure_none o'); [|by eexists]. unfold_m.
    destruct (_ <=? _); [|by eexists]. rewrite Hx. by eexists.
Qed.

(** The inherent that an author creates is accepted by every node with the same
    data, and any other list or position is refused; it is required exactly when there
    is data. *)
Theorem cnight_inherent_agrees d call :
  create_inherent d = Some call ->
  is_inherent call = true /\ is_inherent_required d = Ok (Some Missing) /\
  forall us p, check_inherent (Call_process_tokens us p) d = Ok tt <-> Call_process_tokens us p = call.
Proof.
  unfold create_inherent, is_inherent_required, check_inherent.
  destruct (get_data_from_inherent_data d) as [[m|]| |]; [|done..]. intros [= <-].
  split_and!; [done..|]. intros us p. repeat case_bool_decide; simpl; naive_solver.
Qed.

Lemma process_tokens_weight_eq db n : 0 <= db_read db -> 0 <= db_write db -> 0 <= n <= umax 32 ->
  process_tokens_weight db n =
  clamped (15000000 + 5000000 * n + db_read db * 2 + db_read db * (2 * n) + db_write db * 2 +
           db_write db * (1 * n)) (1500 + 200 * n).
Proof.
  intros Hr Hw Hn. unfold process_tokens_weight, saturating_mul.
  change (umax 32) with 4294967295 in Hn.
  rewrite !Z.min_l by (change (umax 64) with 18446744073709551615; lia).
  rewrite (clamped_const 15000000 1500) by (vm_compute; done).
  rewrite clamped_mul, !clamped_reads, !clamped_writes.
  rewrite !clamped_add by nia. f_equal; lia.
Qed.

(** With the weights of the runtime, the weight that the inherent reports is within
    the weight declared for it, also when it is skipped during a migration. *)
Theorem cnight_weight_within_declared o us p s post s' :
  process_tokens_w cfg = process_tokens_weight (DbWeight cfg) ->
  0 <= db_read (DbWeight cfg) -> 0 <= db_write (DbWeight cfg) ->
  0 <= CardanoTxCapacityPerBlock (params s) ->
  process_tokens o us p s = Ok (post, s') ->
  exists w, actual_weight post = Some w /\ w ⊑w process_tokens_declared s.
Proof.
  intros Hw Hr1 Hr2 Hcap Hp. unfold process_tokens_declared. rewrite Hw.
  assert (0 <= utxo_limit s <= umax 32) as Hl.
  { unfold utxo_limit, saturating_mul, UTXO_PER_TX_OVERESTIMATE.
    change (umax 32) with 4294967295. lia. }
  assert (0 <= wrap 32 (len us)) as Hu by (apply Z.mod_pos_bound; done).
  apply process_tokens_inv in Hp as (_ & Hc & _ & [(_ & _ & ->)|(_ & _ & -> & _)]);
    eexists; (split; [reflexivity|]).
  - rewrite process_tokens_weight_eq by done. unfold reads_writes.
    rewrite clamped_reads, clamped_writes, clamped_add by nia. apply clamped_mono; nia.
  - rewrite Hw, !process_tokens_weight_eq by (done || lia). apply clamped_mono; nia.
Qed.
End Pallet.
Arguments State Address DustKey H256 LedgerHash L {_ _ _ _}.

(** ** A concrete instance: every name is a number, the hash adds bytes up, the ledger
    counts the events it is sent. *)

Module Example.

Definition cfg : Config (DustKey:=Z) (H256:=Z) (Bytes:=Z) (Tx:=Z) (LedgerHash:=Z) (XE:=Z) (L:=Z) :=
  {| hash l := foldr (fun b acc => b + 256 * acc) 0 l;
     construct_event e := Some (ev_value e);
     construct_system_tx l := Some (len l);
     execute_system_transaction tx l := Ok (7, l + tx);
     process_tokens_w := process_tokens_weight {| db_read := 10; db_write := 20 |};
     DbWeight := {| db_read := 10; db_write := 20 |} |}.

Definition pos (block index : Z) : CardanoPosition :=
  {| block_hash := [0]; block_number := block; block_timestamp := 5000; tx_index_in_block := index |}.

Definition s0 : State Z Z Z Z Z :=
  {| params := {| MainChainMappingValidatorAddress := []; MainChainAuthTokenAssetName := [];
                  CNightIdentifier := ([], []); CardanoBlockWindowSize := 1000;
                  CardanoTxCapacityPerBlock := 200 |};
     Mapping := ∅; UtxoOwners := ∅; NextCardanoPosition := pos 1 0;
     InherentExecutedThisBlock := false; on_chain_storage_version := 1; ledger := 0; events := [] |}.

Definition head (block : Z) (h : Z) : ObservedUtxoHeader :=
  {| tx_position := pos block 0; tx_hash := [h]; utxo_tx_hash := [h]; utxo_index := 0 |}.

(** Address 1 registers key 42, then creates an output worth 100. *)
Definition create : CreateData Z :=
  {| create_value := 100; create_owner := 1; create_tx_hash := [9]; create_tx_index := 3 |}.
Definition utxos : list (ObservedUtxo Z Z) :=
  [{| header := head 1 8; data := Registration {| reg_reward_address := 1; reg_dust_public_key := 42 |} |};
   {| header := head 2 9; data := AssetCreate create |}].

Definition run := process_tokens cfg (Origin:=RawOrigin Z) NoneOrigin utxos (pos 3 0) s0.

Lemma fresh : fresh_registrations utxos s0.
Proof.
  split; [apply NoDup_singleton|]. intros a i _. unfold rows. simpl. by rewrite lookup_empty.
Qed.

(** The state after the inherent, by evaluation. *)
Definition s1 : State Z Z Z Z Z := match run with Ok (_, s) => s | _ => s0 end.
Definition post : PostDispatchInfo :=
  match run with Ok (p, _) => p | _ => {| actual_weight := None; pays_fee := PaysYes |} end.

Lemma run_Ok : run = Ok (post, s1).
Proof. vm_compute. reflexivity. Qed.

Lemma registered : unique_dust_key s1 1 = Some 42 /\ ledger s1 = 1.
Proof. vm_compute. split; reflexivity. Qed.

Definition movement : InherentData (Address:=Z) (DustKey:=Z) :=
  Ok (Some {| mv_utxos := utxos; mv_next_cardano_position := pos 3 0 |}).

(** A chain whose genesis lists one output: after the inherent above, a second one spends
    the output that was created, and the one of the genesis. *)
Definition genesis : CNightGenesis (Address:=Z) (DustKey:=Z) (H256:=Z) :=
  {| mapping_validator_address := []; auth_token_asset_name := []; cnight_policy_id := []; cnight_asset_name := [];
     mappings := []; utxo_owners := [(utxo_nonce cfg [7] 0, 41)]; next_cardano_position := pos 1 0 |}.
Definition built : State Z Z Z Z Z := match build (XE:=Z) genesis s0 with Ok (_, s) => s | _ => s0 end.

Definition spend (h index value : Z) : SpendData Z :=
  {| spend_value := value; spend_owner := 1; spend_tx_hash := [h]; spend_tx_index := index; spending_tx_hash := [10] |}.
Definition spends : list (ObservedUtxo Z Z) :=
  [{| header := head 4 10; data := AssetSpend (spend 9 3 100) |}; {| header := head 4 11; data := AssetSpend (spend 7 0 60) |}].

Definition after (us : list (ObservedUtxo Z Z)) (p : CardanoPosition) (s : State Z Z Z Z Z) : State Z Z Z Z Z :=
  match process_tokens cfg (Origin:=RawOrigin Z) NoneOrigin us p s with Ok (_, s') => s' | _ => s end.
Definition c1 := after utxos (pos 3 0) built.
Definition c2 := set_executed false c1.
Definition c3 := after spends (pos 5 0) c2.

Lemma two_inherents : history cfg (Origin:=RawOrigin Z) built [100; 100; 60] c3.
Proof.
  apply (history_process cfg NoneOrigin utxos (pos 3 0) built post c1 [100; 60]); [vm_compute; reflexivity|].
  apply (history_other cfg c1 c2); [by apply other_finalize|].
  apply (history_process cfg NoneOrigin spends (pos 5 0) c2 post c3 []); [vm_compute; reflexivity|].
  apply history_nil.
Qed.
End Example.
Import Example.

Lemma destructions_match_creations_witness :
  exists l known, mapM (construct_event Example.cfg) l = Some [100; 100; 60] /\ paired known l /\
    forall nonce key, known !! nonce = Some key -> (nonce, key) ∈ utxo_owners genesis.
Proof.
  apply (destructions_match_creations Example.cfg (Origin:=RawOrigin Z) genesis s0 built [100; 100; 60] c3).
  - done.
  - reflexivity.
  - reflexivity.
  - exact Example.two_inherents.
Defined.

Lemma events_tell_registrations_witness :
  exists new, events s1 = events s0 ++ new /\
    forall addr, foldl apply_event (unique_dust_key s0) new addr = unique_dust_key s1 addr.
Proof.
  apply (events_tell_registrations Example.cfg (Origin:=RawOrigin Z) NoneOrigin utxos (pos 3 0)
           s0 Example.post s1).
  - exact Example.fresh.
  - exact Example.run_Ok.
Defined.

Lemma create_then_spend_witness :
  exists i k, rows s1 1 = {[ i := k ]}.
Proof.
  destruct (create_then_spend Example.cfg 5 create s1 100
              (snd (handle_create Example.cfg 5 create s1))) as (i & k & Hr & _).
  - vm_compute. reflexivity.
  - exists i, k. exact Hr.
Defined.

Lemma position_never_regresses_witness :
  position_ge (NextCardanoPosition s1) (NextCardanoPosition s0) = true.
Proof.
  apply (position_never_regresses Example.cfg (Origin:=RawOrigin Z) s0 s1).
  apply rtc_once. eapply step_process. exact Example.run_Ok.
Defined.

Lemma cnight_inherent_agrees_witness :
  is_inherent_required movement = Ok (Some Missing).
Proof.
  apply (cnight_inherent_agrees movement (Call_process_tokens utxos (pos 3 0))).
  reflexivity.
Defined.

Lemma cnight_weight_within_declared_witness :
  exists w, actual_weight Example.post = Some w /\ w ⊑w process_tokens_declared Example.cfg s0.
Proof.
  apply (cnight_weight_within_declared Example.cfg (Origin:=RawOrigin Z) NoneOrigin utxos (pos 3 0)
           s0 Example.post s1).
  - reflexivity.
  - vm_compute. discriminate.
  - vm_compute. discriminate.
  - vm_compute. discriminate.
  - exact Example.run_Ok.
Defined.
