(* ===== verification/CNightMigration.v ===== *)
(** * The migration of the cNIGHT mappings

    Models [src/pallets/cnight-observation/src/migrations/v1.rs]: the multi-block
    migration that drains the old storage [Mappings], a list of entries for each reward
    address, into the double map [Mapping], row by row and as far as the weight of a
    block allows.  While it runs [process_tokens] leaves the storage alone (see
    [process_tokens] in [CNightObservation]).  Storage maps are iterated in the order of
    their hashed keys. *)

From stdpp Require Import sorting.
From S2P Require Import Prelude Frame CNightPrimitives CNightObservation.

Definition MAX_ENTRIES_PER_ADDR : Z := 100.

(** [WeightMeter::try_consume], on what is left of the meter *)
Definition try_consume (required remaining : Weight) : option Weight :=
  if all_lte required remaining
  then Some (from_parts (ref_time remaining - ref_time required) (proof_size remaining - proof_size required))
  else None.

Inductive SteppedMigrationError := InsufficientWeight (required : Weight).

Section Migration.
Context {Address DustKey : Type} `{Countable Address}.
(** The hashed storage key of an address, as a number *)
Variable hashed : Address -> Z.
Variable DbWeight : RuntimeDbWeight.

#[local] Notation Entry := (MappingEntry (Address:=Address) (DustKey:=DustKey)).

(** The storage that the migration reads and writes. *)
Record Storage := {
  Mappings : gmap Address (list Entry); (* v0 *)
  Mapping1 : gmap Address (gmap UtxoId DustKey); (* v1 *)
  storage_version : Z
}.

Definition rows1 (st : Storage) (a : Address) : gmap UtxoId DustKey := default ∅ (Mapping1 st !! a).

Definition required : Weight := reads_writes DbWeight 1 (1 + MAX_ENTRIES_PER_ADDR).

Definition hashed_le (x y : Address * list Entry) : Prop := hashed (fst x) <= hashed (fst y).
#[local] Instance hashed_le_dec : RelDecision hashed_le :=
  fun x y => decide (hashed (fst x) <= hashed (fst y)).

(** [iter_from(hashed_key_for(last_key))], or [iter()], and its [next()] *)
Definition after (cursor : option Address) (x : Address * list Entry) : Prop :=
  match cursor with None => True | Some last_key => hashed last_key < hashed (fst x) end.
#[local] Instance after_dec cursor x : Decision (after cursor x).
Proof. unfold after. destruct cursor; apply _. Defined.
Definition next_row (cursor : option Address) (st : Storage) : option (Address * list Entry) :=
  head (merge_sort hashed_le (filter (after cursor) (map_to_list (Mappings st)))).

Definition insert_entry (r : gmap UtxoId DustKey) (e : Entry) : gmap UtxoId DustKey :=
  <[entry_utxo_id e := entry_dust_public_key e]> r.

(** The row is removed and each entry inserted. *)
Definition migrate_row (addr : Address) (entries : list Entry) (st : Storage) : Storage :=
  {| Mappings := delete addr (Mappings st);
     Mapping1 := <[addr := foldl insert_entry (rows1 st addr) entries]> (Mapping1 st);
     storage_version := storage_version st |}.

Definition finish (st : Storage) : Storage :=
  {| Mappings := Mappings st; Mapping1 := Mapping1 st; storage_version := 1 |}.

(** The loop of [step]; every round but the last removes a row, so the number of rows
    plus one is enough fuel. *)
Fixpoint migrate_loop (fuel : nat) (cursor : option Address) (remaining : Weight) (st : Storage)
    : option Address * Storage :=
  match fuel with
  | O => (cursor, st)
  | S fuel' =>
      match try_consume required remaining with
      | None => (cursor, st)
      | Some remaining' =>
          match next_row cursor st with
          | Some (addr, entries) =>
              migrate_loop fuel' (Some addr) remaining' (migrate_row addr entries st)
          | None => (None, finish st)
          end
      end
  end.

(** [SteppedMigration::step] *)
Definition migration_step (cursor : option Address) (meter : Weight) (st : Storage)
    : outcome SteppedMigrationError (option Address * Storage) :=
  if negb (all_lte required meter) then Err (InsufficientWeight required)
  else Ok (migrate_loop (S (size (Mappings st))) cursor meter st).

(** The blocks of a migration: one step in each, with the weight that is left in it,
    until a step returns no cursor. *)
Fixpoint run_steps (meters : list Weight) (cursor : option Address) (st : Storage) : option Storage :=
  match meters with
  | [] => None
  | meter :: meters' =>
      match migration_step cursor meter st with
      | Ok (None, st') => Some st'
      | Ok (Some c, st') => run_steps meters' (Some c) st'
      | _ => None
      end
  end.

(** ** Lemmas *)

Hypothesis hashed_inj : forall a b, hashed a = hashed b -> a = b.

(** What the mapping of an address amounts to, migrated or not. *)
Definition view (st : Storage) (a : Address) : gmap UtxoId DustKey :=
  foldl insert_entry (rows1 st a) (default [] (Mappings st !! a)).

(** All rows that are left come after the cursor. *)
Definition ahead (cursor : option Address) (st : Storage) : Prop :=
  forall a l, Mappings st !! a = Some l -> after cursor (a, l).

#[local] Instance hashed_le_total : Total hashed_le.
Proof. intros x y. unfold hashed_le. lia. Qed.
#[local] Instance hashed_le_trans : Transitive hashed_le.
Proof. intros x y z. unfold hashed_le. lia. Qed.

Lemma filter_ahead cursor st : ahead cursor st ->
  filter (after cursor) (map_to_list (Mappings st)) = map_to_list (Mappings st).
Proof.
  intros Ha. assert (Forall (after cursor) (map_to_list (Mappings st))) as Hf.
  { apply Forall_forall. intros [a l] Hin. apply elem_of_map_to_list in Hin. by apply Ha. }
  induction Hf as [|x l Hx Hf IH]; [done|]. rewrite filter_cons_True by done. by f_equal.
Qed.

Lemma next_row_None cursor st : ahead cursor st -> next_row cursor st = None -> Mappings st = ∅.
Proof.
  intros Ha Hn. unfold next_row in Hn. rewrite (filter_ahead _ _ Ha) in Hn.
  apply head_None in Hn. apply map_to_list_empty_iff.
  apply Permutation_nil_r. by rewrite <- Hn, merge_sort_Permutation.
Qed.

Lemma next_row_Some cursor st addr entries : ahead cursor st ->
  next_row cursor st = Some (addr, entries) ->
  Mappings st !! addr = Some entries /\ ahead (Some addr) (migrate_row addr entries st).
Proof.
  intros Ha Hn. unfold next_row in Hn. rewrite (filter_ahead _ _ Ha) in Hn.
  apply head_Some in Hn as [rest Hs].
  assert (StronglySorted hashed_le (merge_sort hashed_le (map_to_list (Mappings st)))) as Hsorted
    by (apply StronglySorted_merge_sort; apply _).
  pose proof (merge_sort_Permutation hashed_le (map_to_list (Mappings st))) as Hp.
  rewrite Hs in Hsorted, Hp. apply StronglySorted_inv in Hsorted as [_ Hmin].
  assert (Mappings st !! addr = Some entries) as Hrow.
  { apply elem_of_map_to_list. rewrite <- Hp. apply list_elem_of_here. }
  split; [done|]. intros b l Hb. simpl in Hb |- *.
  apply lookup_delete_Some in Hb as [Hne Hb].
  apply elem_of_map_to_list in Hb. rewrite <- Hp in Hb.
  apply elem_of_cons in Hb as [[= -> _]|Hb]; [done|].
  rewrite Forall_forall in Hmin. apply Hmin in Hb. unfold hashed_le in Hb. simpl in Hb.
  assert (hashed addr <> hashed b) by (intros He; by apply Hne, hashed_inj). lia.
Qed.

Lemma migrate_row_view addr entries st a : Mappings st !! addr = Some entries ->
  view (migrate_row addr entries st) a = view st a.
Proof.
  intros Hr. unfold view, rows1. simpl. destruct (decide (a = addr)) as [->|Hne].
  - rewrite lookup_delete_eq, lookup_insert_eq, Hr. done.
  - by rewrite lookup_delete_ne, lookup_insert_ne.
Qed.

Lemma migrate_row_size addr entries st : Mappings st !! addr = Some entries ->
  size (Mappings st) = S (size (Mappings (migrate_row addr entries st))).
Proof.
  intros Hr. simpl. rewrite map_size_delete, Hr.
  destruct (size (Mappings st)) eqn:E; [|done].
  apply map_size_empty_inv in E. rewrite E, lookup_empty in Hr. done.
Qed.

(** What a round of the loop keeps: the mapping that every address amounts to, and that
    the rows left come after the cursor. *)
Record progress (st0 : Storage) (cursor : option Address) (st : Storage) : Prop := {
  progress_view a : view st a = view st0 a;
  progress_ahead : ahead cursor st
}.

Lemma progress_row st0 cursor st addr entries : progress st0 cursor st ->
  next_row cursor st = Some (addr, entries) ->
  progress st0 (Some addr) (migrate_row addr entries st) /\
  size (Mappings st) = S (size (Mappings (migrate_row addr entries st))).
Proof.
  intros [Hv Ha] Hn. apply next_row_Some in Hn as [Hr Ha']; [|done]. split.
  - split; [|done]. intros a. by rewrite migrate_row_view.
  - by apply migrate_row_size.
Qed.

Lemma migrate_loop_spec st0 fuel cursor remaining st :
  progress st0 cursor st -> (size (Mappings st) < fuel)%nat ->
  match migrate_loop fuel cursor remaining st with
  | (None, st') =>
      (cursor = None /\ st' = st /\ try_consume required remaining = None) \/
      (Mappings st' = ∅ /\ storage_version st' = 1 /\ forall a, rows1 st' a = view st0 a)
  | (Some c, st') =>
      progress st0 (Some c) st' /\
      (size (Mappings st') < size (Mappings st) \/
       (st' = st /\ try_consume required remaining = None))%nat
  end.
Proof.
  revert cursor remaining st. induction fuel as [|fuel IH]; intros cursor remaining st Hp Hf; [lia|].
  simpl. destruct (try_consume required remaining) as [remaining'|] eqn:Hc.
  - destruct (next_row cursor st) as [[addr entries]|] eqn:Hn.
    + destruct (progress_row st0 cursor st addr entries Hp Hn) as [Hp' Hs].
      specialize (IH (Some addr) remaining' (migrate_row addr entries st) Hp' ltac:(lia)).
      destruct (migrate_loop _ _ _ _) as [[c|] st'].
      * destruct IH as [IH1 IH2]. split; [done|]. left. destruct IH2 as [|[-> _]]; lia.
      * destruct IH as [(? & _)|IH]; [done|]. by right.
    + right. destruct Hp as [Hv Ha]. apply next_row_None in Hn; [|done].
      simpl. split_and!; [done..|]. intros a. rewrite <- Hv. unfold view. by rewrite Hn, lookup_empty.
  - destruct cursor; [|by left]. split; [done|by right].
Qed.

Lemma try_consume_enough meter : all_lte required meter = true ->
  exists r, try_consume required meter = Some r.
Proof. intros Ha. unfold try_consume. rewrite Ha. eauto. Qed.

(** C38: the migration finishes and loses nothing: when every block has the weight of
    one row left, it is done after at most as many blocks as there were rows, and one
    more; then the old storage is empty, the version is the new one, and the new storage
    holds under every address what it held before and exactly the entries of the old
    row. *)
Theorem migration_moves_all_rows st meters :
  Forall (fun meter => all_lte required meter = true) meters ->
  (size (Mappings st) < length meters)%nat ->
  exists st', run_steps meters None st = Some st' /\
    Mappings st' = ∅ /\ storage_version st' = 1 /\
    forall a, rows1 st' a = foldl insert_entry (rows1 st a) (default [] (Mappings st !! a)).
Proof.
  intros Hm Hlen.
  assert (progress st None st) as Hp by (split; [done|]; intros a l _; done).
  revert Hp Hlen. generalize (None : option Address). generalize st at 2 3 4 as st1.
  induction Hm as [|meter meters Hmeter Hm IH]; intros st1 cursor Hp Hlen; [simpl in Hlen; lia|].
  simpl. unfold migration_step. rewrite Hmeter. cbn [negb].
  destruct (try_consume_enough meter Hmeter) as [r Hr].
  pose proof (migrate_loop_spec st (S (size (Mappings st1))) cursor meter st1 Hp ltac:(lia)) as Hl.
  destruct (migrate_loop _ _ _ _) as [[c|] st'].
  - destruct Hl as [Hp' [Hlt|[_ Hx]]]; [|congruence]. apply IH; [done|]. simpl in Hlen. lia.
  - destruct Hl as [(_ & _ & Hx)|Hl]; [congruence|]. by exists st'.
Qed.
End Migration.

Module Example.
Definition entry (a k i : Z) : MappingEntry (Address:=Z) (DustKey:=Z) :=
  {| entry_reward_address := a; entry_dust_public_key := k; entry_utxo_id := ([i], 0) |}.
Definition st : Storage (Address:=Z) (DustKey:=Z) :=
  {| Mappings := {[ 1 := [entry 1 10 5; entry 1 11 6]; 2 := [entry 2 20 7] ]};
     Mapping1 := ∅; storage_version := 0 |}.
Definition db : RuntimeDbWeight := {| db_read := 1; db_write := 2 |}.
Definition meters : list Weight := replicate 3 (from_parts 300 0).

(** Two blocks move a row each, the third finds nothing more. *)
Lemma migrated_value :
  (fun st => (storage_version st, rows1 st 1 !! ([6], 0))) <$> run_steps (fun a => a) db meters None st
  = Some (1, Some 11).
Proof. vm_compute. reflexivity. Qed.
End Example.

Lemma migration_moves_all_rows_witness :
  exists st', run_steps (fun a => a) Example.db Example.meters None Example.st = Some st' /\
    Mappings st' = ∅.
Proof.
  destruct (migration_moves_all_rows (fun a => a) Example.db (fun a b H => H) Example.st Example.meters)
    as (st' & Hr & He & _).
  - repeat constructor.
  - vm_compute. lia.
  - exists st'. split; [exact Hr|exact He].
Defined.
