(* ===== verification/PartnerChainsBridge.v ===== *)
(** * The token bridge: incoming transfers

    Models [src/partner-chains/toolkit/bridge/pallet/src/lib.rs] and the types of
    [src/partner-chains/toolkit/bridge/primitives/src/lib.rs]: the inherent that hands
    the transfers observed on Cardano to the chain's handler, its creation and check, the
    data checkpoint and the governance call.  The handler is the interface
    [TransferHandler]; [C2mBridge] implements it. *)

From S2P Require Import Prelude Frame.

Section Primitives.
Context {McTxHash McBlockNumber Recipient : Type}.

Inductive TransferRecipient :=
| Address (recipient : Recipient)
| Reserve
| Invalid.

Record BridgeTransferV1 := {
  mc_tx_hash : McTxHash;
  amount : Z; (* u64 *)
  recipient : TransferRecipient
}.

(** [BridgeTransferV1::new_invalid] *)
Definition new_invalid (h : McTxHash) (a : Z) : BridgeTransferV1 :=
  {| mc_tx_hash := h; amount := a; recipient := Invalid |}.

Inductive BridgeDataCheckpoint :=
| CheckpointTx (h : McTxHash)
| CheckpointBlock (n : McBlockNumber).

Record TokenBridgeTransfersV1 := {
  transfers : list BridgeTransferV1;
  data_checkpoint : BridgeDataCheckpoint
}.
End Primitives.
Arguments TransferRecipient : clear implicits.
Arguments BridgeTransferV1 : clear implicits.
Arguments BridgeDataCheckpoint : clear implicits.
Arguments TokenBridgeTransfersV1 : clear implicits.

#[export] Instance recipient_eq_dec `{EqDecision R} : EqDecision (TransferRecipient R).
Proof. solve_decision. Defined.
#[export] Instance transfer_eq_dec `{EqDecision McTxHash, EqDecision R} :
  EqDecision (BridgeTransferV1 McTxHash R).
Proof. solve_decision. Defined.
#[export] Instance checkpoint_eq_dec `{EqDecision McTxHash, EqDecision BlockNumber} :
  EqDecision (BridgeDataCheckpoint McTxHash BlockNumber).
Proof. solve_decision. Defined.

Inductive InherentError := InherentRequired | InherentNotExpected | IncorrectInherent.

(** The trait [TransferHandler]: no errors, by its contract; it may still panic. *)
Class TransferHandler (H McTxHash Recipient : Type) := {
  handle_incoming_transfer : BridgeTransferV1 McTxHash Recipient -> M H Empty_set unit
}.

(** [TransferHandler for ()] *)
Definition unit_handler {McTxHash Recipient} : TransferHandler unit McTxHash Recipient :=
  {| handle_incoming_transfer _ := ret tt |}.

(** What a handler keeps its promise by: it returns, whatever the transfer. *)
Class TotalHandler (H McTxHash Recipient : Type) `{TransferHandler H McTxHash Recipient} := {
  handler_returns t h : exists h', handle_incoming_transfer t h = Ok (tt, h')
}.

Inductive Error := InherentAlreadyExecuted.
Definition PALLET_VERSION : Z := 1.

Section Pallet.
Context {Origin AccountId McTxHash McBlockNumber Recipient Scripts H : Type}.
Context `{EqDecision McTxHash, EqDecision McBlockNumber, EqDecision Recipient}.
Context `{!Origins Origin AccountId} `{!TransferHandler H McTxHash Recipient}.

Record Config := {
  (** [T::GovernanceOrigin::ensure_origin] *)
  governance_origin : Origin -> bool;
  MaxTransfersPerBlock : Z;
  DbWeight : RuntimeDbWeight
}.
Variable cfg : Config.

#[local] Notation Transfer := (BridgeTransferV1 McTxHash Recipient).
#[local] Notation Checkpoint := (BridgeDataCheckpoint McTxHash McBlockNumber).

Record State := {
  MainChainScriptsConfiguration : option Scripts;
  DataCheckpoint : option Checkpoint;
  InherentExecutedThisBlock : bool;
  handler : H (* the storage behind [T::TransferHandler] *)
}.

Definition PalletM (A : Type) := M State (dispatch_error Error) A.

Definition set_executed b s :=
  {| MainChainScriptsConfiguration := MainChainScriptsConfiguration s;
     DataCheckpoint := DataCheckpoint s; InherentExecutedThisBlock := b; handler := handler s |}.
Definition set_checkpoint c s :=
  {| MainChainScriptsConfiguration := MainChainScriptsConfiguration s;
     DataCheckpoint := Some c; InherentExecutedThisBlock := InherentExecutedThisBlock s;
     handler := handler s |}.
Definition set_handler h s :=
  {| MainChainScriptsConfiguration := MainChainScriptsConfiguration s;
     DataCheckpoint := DataCheckpoint s;
     InherentExecutedThisBlock := InherentExecutedThisBlock s; handler := h |}.
Definition set_scripts m s :=
  {| MainChainScriptsConfiguration := m; DataCheckpoint := DataCheckpoint s;
     InherentExecutedThisBlock := InherentExecutedThisBlock s; handler := handler s |}.

(** [GenesisConfig::build] *)
Definition build (main_chain_scripts : option Scripts) (initial_checkpoint : option McTxHash)
    : PalletM unit :=
  do* modify (set_scripts main_chain_scripts) in
  modify (fun s =>
    {| MainChainScriptsConfiguration := MainChainScriptsConfiguration s;
       DataCheckpoint := CheckpointTx <$> initial_checkpoint;
       InherentExecutedThisBlock := InherentExecutedThisBlock s; handler := handler s |}).

Definition on_initialize : Weight := writes (DbWeight cfg) 1.
Definition on_finalize : PalletM unit := modify (set_executed false).

(** A call of the handler on its own storage. *)
Definition call_handler (t : Transfer) : PalletM unit := fun s =>
  match handle_incoming_transfer t (handler s) with
  | Ok (_, h) => Ok (tt, set_handler h s)
  | Err e => match e with end
  | Panic => Panic
  end.

Definition handle_transfers (origin : Origin) (ts : list Transfer) (checkpoint : Checkpoint)
    : PalletM unit :=
  do* ok_or (ensure_none origin) BadOrigin in
  let* executed := gets InherentExecutedThisBlock in
  do* ensure (negb executed) (ModuleError InherentAlreadyExecuted) in
  do* modify (set_executed true) in
  do* for_each call_handler ts in
  modify (set_checkpoint checkpoint).

Definition set_main_chain_scripts (origin : Origin) (new_scripts : Scripts) (checkpoint : Checkpoint)
    : PalletM unit :=
  do* ensure (governance_origin cfg origin) BadOrigin in
  do* modify (set_scripts (Some new_scripts)) in
  modify (set_checkpoint checkpoint).

Inductive Call :=
| Call_handle_transfers (ts : list Transfer) (checkpoint : Checkpoint)
| Call_set_main_chain_scripts (new_scripts : Scripts) (checkpoint : Checkpoint).

(** [InherentData::get_data]: [None] for undecodable bytes. *)
Definition InherentData : Type := option (option (TokenBridgeTransfersV1 McTxHash McBlockNumber Recipient)).

(** Undecodable bytes panic. *)
Definition decode_inherent_data (d : InherentData)
    : outcome InherentError (option (TokenBridgeTransfersV1 McTxHash McBlockNumber Recipient)) :=
  match d with Some x => Ok x | None => Panic end.

Definition create_inherent (d : InherentData) : outcome InherentError (option Call) :=
  match decode_inherent_data d with
  | Ok (Some data) =>
      match bounded_try_from (MaxTransfersPerBlock cfg) (transfers data) with
      | Some ts => Ok (Some (Call_handle_transfers ts (data_checkpoint data)))
      | None => Panic
      end
  | Ok None => Ok None
  | Err e => Err e
  | Panic => Panic
  end.

Context `{!EqDecision Scripts}.
#[export] Instance call_eq_dec : EqDecision Call.
Proof. solve_decision. Defined.

Definition check_inherent (call : Call) (d : InherentData) : outcome InherentError unit :=
  match create_inherent d with
  | Ok (Some expected_call) =>
      if bool_decide (call <> expected_call) then Err IncorrectInherent else Ok tt
  | Ok None => Err InherentNotExpected
  | Err e => Err e
  | Panic => Panic
  end.

Definition is_inherent (call : Call) : bool :=
  match call with Call_handle_transfers _ _ => true | _ => false end.

Definition is_inherent_required (d : InherentData) : outcome InherentError (option InherentError) :=
  match decode_inherent_data d with
  | Ok None => Ok None
  | Ok (Some _) => Ok (Some InherentRequired)
  | Err e => Err e
  | Panic => Panic
  end.

Definition get_pallet_version : Z := PALLET_VERSION.
Definition get_main_chain_scripts (s : State) : option Scripts := MainChainScriptsConfiguration s.
Definition get_max_transfers_per_block : Z := MaxTransfersPerBlock cfg.
Definition get_data_checkpoint (s : State) : option Checkpoint := DataCheckpoint s.

(** ** Lemmas *)

(** The handler run over a list of transfers. *)
Definition handle_all (ts : list Transfer) : M H Empty_set unit := for_each handle_incoming_transfer ts.

Lemma for_each_call_handler ts s :
  for_each call_handler ts s =
  match handle_all ts (handler s) with
  | Ok (_, h) => Ok (tt, set_handler h s)
  | Err e => match e with end
  | Panic => Panic
  end.
Proof.
  revert s. induction ts as [|t ts IH]; intros s.
  - simpl. unfold ret. by destruct s.
  - unfold handle_all. cbn [for_each]. unfold bind, call_handler at 1.
    destruct (handle_incoming_transfer t (handler s)) as [[[] h]|[]|]; [|done].
    rewrite IH. simpl. unfold handle_all.
    by destruct (for_each handle_incoming_transfer ts h) as [[[] h']|[]|].
Qed.

Lemma handle_transfers_eq o ts c s :
  handle_transfers o ts c s =
  match ensure_none o with
  | None => Err BadOrigin
  | Some _ =>
      if InherentExecutedThisBlock s then Err (ModuleError InherentAlreadyExecuted)
      else match handle_all ts (handler s) with
           | Ok (_, h) => Ok (tt, set_checkpoint c (set_handler h (set_executed true s)))
           | Err e => match e with end
           | Panic => Panic
           end
  end.
Proof.
  unfold handle_transfers. destruct (ensure_none o); [|done]. unfold bind at 1. simpl.
  unfold bind at 1 2 3. simpl. destruct (InherentExecutedThisBlock s); [done|]. simpl.
  unfold bind at 1. simpl. unfold bind. rewrite for_each_call_handler. simpl.
  by destruct (handle_all ts (handler s)) as [[[] h]|[]|].
Qed.

Lemma handle_all_total `{!TotalHandler H McTxHash Recipient} ts h : exists h', handle_all ts h = Ok (tt, h').
Proof. apply for_each_total. intros. apply handler_returns. Qed.

Lemma handle_all_app ts1 ts2 h h1 : handle_all ts1 h = Ok (tt, h1) -> handle_all (ts1 ++ ts2) h = handle_all ts2 h1.
Proof. intros H1. unfold handle_all in *. rewrite for_each_app. by rewrite (bind_Ok _ _ _ _ _ H1). Qed.

(** The inherent runs the chain's handler exactly once on every transfer, in the
    order of the list, and records the checkpoint; it is refused for any origin but the
    inherent's and for the second time in a block; with a handler that keeps its contract
    it fails in no other way. *)
Theorem transfers_handled_once `{!TotalHandler H McTxHash Recipient} o ts c s :
  handle_transfers o ts c s =
  match ensure_none o with
  | None => Err BadOrigin
  | Some _ =>
      if InherentExecutedThisBlock s then Err (ModuleError InherentAlreadyExecuted)
      else match handle_all ts (handler s) with
           | Ok (_, h) => Ok (tt, set_checkpoint c (set_handler h (set_executed true s)))
           | Err e => match e with end
           | Panic => Panic
           end
  end /\ exists h, handle_all ts (handler s) = Ok (tt, h).
Proof. split; [apply handle_transfers_eq|apply handle_all_total]. Qed.

(** Nodes agree on the inherent: a call is accepted exactly when it is the one
    created from the same data; the call is required exactly when there is data; and
    creation and check panic only for undecodable data or more transfers than a block
    takes. *)
Theorem bridge_inherent_agrees d call :
  (check_inherent call d = Ok tt <-> create_inherent d = Ok (Some call)) /\
  (create_inherent d = Ok None <-> is_inherent_required d = Ok None) /\
  (create_inherent d = Panic <->
   d = None \/ exists x, d = Some (Some x) /\ MaxTransfersPerBlock cfg < len (transfers x)) /\
  (create_inherent d = Ok (Some call) -> is_inherent call = true).
Proof.
  unfold check_inherent, create_inherent, is_inherent_required, bounded_try_from.
  destruct d as [[x|]|]; simpl.
  - destruct (Z.leb_spec (len (transfers x)) (MaxTransfersPerBlock cfg)).
    + split_and!; [|done| |naive_solver].
      * case_bool_decide; naive_solver.
      * split; [done|]. intros [?|(y & [= <-] & ?)]; [done|lia].
    + split_and!; [done|done| |done]. split; [eauto|done].
  - split_and!; [done|done| |done]. split; [done|]. naive_solver.
  - split_and!; [done|done| |done]. split; [by left|done].
Qed.
End Pallet.

Module Example.
(** A handler that adds amounts up. *)
#[export] Instance adding : TransferHandler Z Z Z :=
  {| handle_incoming_transfer t := modify (fun total => total + amount t) |}.
#[export] Instance adding_total : TotalHandler Z Z Z.
Proof. split. intros t h. by eexists. Qed.

Definition s0 : State (McTxHash:=Z) (McBlockNumber:=Z) (Scripts:=Z) (H:=Z) :=
  {| MainChainScriptsConfiguration := None; DataCheckpoint := None;
     InherentExecutedThisBlock := false; handler := 0 |}.
Definition ts : list (BridgeTransferV1 Z Z) := [new_invalid 1 5; new_invalid 2 7].
End Example.

Import Example.

Lemma transfers_handled_once_witness :
  exists h, handle_all Example.ts (handler Example.s0) = Ok (tt, h).
Proof.
  apply (transfers_handled_once (Origin:=RawOrigin Z) NoneOrigin Example.ts (CheckpointTx 2) Example.s0).
Defined.
