(* ===== verification/C2mBridge.v ===== *)
(** * The cNIGHT bridge: what happens to a transfer

    Models [src/pallets/c2m-bridge/src/lib.rs], the handler of the transfers that the
    token bridge hands over: small transfers are collected and flushed to the treasury,
    transfers to the reserve, to users approved by governance, and to nobody are turned
    into system transactions of the ledger.  The ledger API, the executor of system
    transactions and the hash function are parameters. *)

From S2P Require Import Prelude Frame PartnerChainsBridge.

Definition MAX_APPROVALS_PER_BATCH : Z := 32.

Record SubminimalTransfersState := { count : Z; sum : Z }.
Definition no_transfers : SubminimalTransfersState := {| count := 0; sum := 0 |}.

(** [b"midnight:bridge-transfer-nonce:"] *)
Definition NONCE_PREFIX : list Z :=
  [109; 105; 100; 110; 105; 103; 104; 116; 58; 98; 114; 105; 100; 103; 101; 45; 116; 114; 97; 110;
   115; 102; 101; 114; 45; 110; 111; 110; 99; 101; 58].

Section Pallet.
Context {Origin McTxHash Recipient Hash256 Tx XE L : Type}.
Context `{Countable McTxHash}.

#[local] Notation Transfer := (BridgeTransferV1 McTxHash Recipient).

Record Config := {
  (** [MidnightSystemTransactionExecutor::execute_system_transaction] *)
  execute_system_transaction : Tx -> L -> outcome XE (Hash256 * L);
  (** [MinBridgeAmountProvider::get_c_to_m_bridge_min_amount], from the ledger *)
  get_c_to_m_bridge_min_amount : L -> option Z;
  (** the constructors of [LedgerApi] *)
  construct_unlock_to_treasury : Z -> option Tx;
  construct_distribute_reserve : Z -> option Tx;
  construct_distribute_night : Z -> Recipient -> Hash256 -> option Tx;
  (** [blake2_256] *)
  blake2_256 : list Z -> Hash256;
  governance_origin : Origin -> bool
}.
Variable cfg : Config.

Inductive Event :=
| UserTransfer (h : McTxHash) (amount : Z) (recipient : Recipient) (midnight_tx_hash : Hash256)
| ReserveTransfer (h : McTxHash) (amount : Z) (midnight_tx_hash : Hash256)
| InvalidTransfer (h : McTxHash) (amount : Z) (midnight_tx_hash : Hash256)
| UnapprovedTransfer (h : McTxHash) (amount : Z) (recipient : Recipient) (midnight_tx_hash : Hash256)
| SubminimalFlushTransfer (amount : Z) (n : Z) (midnight_tx_hash : Hash256).

Record State := {
  SubminimalTransfersConfiguration : Z; (* subminimal_transfers_flush_threshold *)
  SubminimalTransfers : SubminimalTransfersState;
  TransferCounter : Z; (* u32 *)
  ApprovedMcTxHashes : gset McTxHash;
  parent_hash : list Z; (* frame_system *)
  ledger : L;
  events : list Event (* newest last *)
}.

Definition set_threshold t s :=
  {| SubminimalTransfersConfiguration := t; SubminimalTransfers := SubminimalTransfers s;
     TransferCounter := TransferCounter s; ApprovedMcTxHashes := ApprovedMcTxHashes s;
     parent_hash := parent_hash s; ledger := ledger s; events := events s |}.
Definition set_subminimal x s :=
  {| SubminimalTransfersConfiguration := SubminimalTransfersConfiguration s; SubminimalTransfers := x;
     TransferCounter := TransferCounter s; ApprovedMcTxHashes := ApprovedMcTxHashes s;
     parent_hash := parent_hash s; ledger := ledger s; events := events s |}.
Definition set_counter c s :=
  {| SubminimalTransfersConfiguration := SubminimalTransfersConfiguration s;
     SubminimalTransfers := SubminimalTransfers s; TransferCounter := c;
     ApprovedMcTxHashes := ApprovedMcTxHashes s; parent_hash := parent_hash s; ledger := ledger s;
     events := events s |}.
Definition set_approved a s :=
  {| SubminimalTransfersConfiguration := SubminimalTransfersConfiguration s;
     SubminimalTransfers := SubminimalTransfers s; TransferCounter := TransferCounter s;
     ApprovedMcTxHashes := a; parent_hash := parent_hash s; ledger := ledger s; events := events s |}.
Definition applied l e s :=
  {| SubminimalTransfersConfiguration := SubminimalTransfersConfiguration s;
     SubminimalTransfers := SubminimalTransfers s; TransferCounter := TransferCounter s;
     ApprovedMcTxHashes := ApprovedMcTxHashes s; parent_hash := parent_hash s; ledger := l;
     events := events s ++ [e] |}.

(** ** Genesis, hook and governance calls *)

Definition build (threshold : Z) (approved_txs : list McTxHash) (s : State) : State :=
  foldl (fun s h => set_approved (ApprovedMcTxHashes s ∪ {[h]}) s) (set_threshold threshold s) approved_txs.

Definition on_finalize (s : State) : State := set_counter 0 s.

Definition PalletM (A : Type) := M State (dispatch_error Empty_set) A.

Definition set_subminimal_transfers_config (origin : Origin) (threshold : Z) : PalletM unit :=
  do* ensure (governance_origin cfg origin) BadOrigin in
  modify (set_threshold threshold).

Definition add_approved_mc_tx_hashes (origin : Origin) (hashes : list McTxHash) : PalletM unit :=
  do* ensure (governance_origin cfg origin) BadOrigin in
  for_each (fun h => modify (fun s => set_approved (ApprovedMcTxHashes s ∪ {[h]}) s)) hashes.

Definition get_subminimal_transfers_config (s : State) : Z := SubminimalTransfersConfiguration s.
Definition get_approved_mc_tx_hashes (s : State) : list McTxHash := elements (ApprovedMcTxHashes s).

(** ** Handling a transfer *)

Definition HandlerM (A : Type) := M State Empty_set A.

(** The counter is a [u32] and wraps around. *)
Definition generate_nonce : HandlerM Hash256 :=
  let* s := get in
  let counter := TransferCounter s in
  do* put (set_counter (wrap 32 (counter + 1)) s) in
  ret (blake2_256 cfg (NONCE_PREFIX ++ parent_hash s ++ u32_to_le_bytes counter)).

(** A construction or an execution that fails is logged. *)
Definition execute_serialized_tx (result : option Tx) (make_event : Hash256 -> Event) : HandlerM unit :=
  match result with
  | None => ret tt
  | Some serialized_tx =>
      let* s := get in
      match execute_system_transaction cfg serialized_tx (ledger s) with
      | Ok (tx_hash, l) => put (applied l (make_event tx_hash) s)
      | Err _ => ret tt
      | Panic => panic
      end
  end.

Definition handle_subminimal_transfer (t : Transfer) : HandlerM unit :=
  let* s := get in
  let total := saturating_add 64 (sum (SubminimalTransfers s)) (amount t) in
  let n := saturating_add 32 (count (SubminimalTransfers s)) 1 in
  if SubminimalTransfersConfiguration s <? total
  then
    do* execute_serialized_tx (construct_unlock_to_treasury cfg total)
          (fun h => SubminimalFlushTransfer total n h) in
    modify (set_subminimal no_transfers)
  else modify (set_subminimal {| count := n; sum := total |}).

Definition handle_invalid_transfer (h : McTxHash) (a : Z) : HandlerM unit :=
  execute_serialized_tx (construct_unlock_to_treasury cfg a) (fun x => InvalidTransfer h a x).

Definition handle_reserve_transfer (h : McTxHash) (a : Z) : HandlerM unit :=
  execute_serialized_tx (construct_distribute_reserve cfg a) (fun x => ReserveTransfer h a x).

(** The approval is taken before the transaction is executed. *)
Definition handle_user_transfer (h : McTxHash) (a : Z) (r : Recipient) : HandlerM unit :=
  let* s := get in
  if bool_decide (h ∈ ApprovedMcTxHashes s)
  then
    do* put (set_approved (ApprovedMcTxHashes s ∖ {[h]}) s) in
    let* nonce := generate_nonce in
    execute_serialized_tx (construct_distribute_night cfg a r nonce) (fun x => UserTransfer h a r x)
  else
    execute_serialized_tx (construct_unlock_to_treasury cfg a) (fun x => UnapprovedTransfer h a r x).

Definition handle_regular_transfer (t : Transfer) : HandlerM unit :=
  match recipient t with
  | Invalid => handle_invalid_transfer (mc_tx_hash t) (amount t)
  | Reserve => handle_reserve_transfer (mc_tx_hash t) (amount t)
  | Address r => handle_user_transfer (mc_tx_hash t) (amount t) r
  end.

(** [TransferHandler for Pallet<T>] *)
Definition handle_transfer (t : Transfer) : HandlerM unit :=
  let* s := get in
  match get_c_to_m_bridge_min_amount cfg (ledger s) with
  | Some min_amount =>
      if amount t <? min_amount then handle_subminimal_transfer t else handle_regular_transfer t
  | None => handle_regular_transfer t
  end.

#[export] Instance c2m_handler : TransferHandler State McTxHash Recipient :=
  {| handle_incoming_transfer := handle_transfer |}.

(** ** Lemmas *)

(** The executor of the runtime returns. *)
Hypothesis executor_returns : forall tx l, execute_system_transaction cfg tx l <> Panic.

(** What an event accounts for. *)
Definition event_amount (e : Event) : Z :=
  match e with
  | UserTransfer _ a _ _ | ReserveTransfer _ a _ | InvalidTransfer _ a _
  | UnapprovedTransfer _ a _ _ | SubminimalFlushTransfer a _ _ => a
  end.

(** All that was ever credited, and what waits for the next flush. *)
Definition accounted (s : State) : Z := sumZ (event_amount <$> events s) + sum (SubminimalTransfers s).

(** The transfers to users that were credited. *)
Definition user_hash (e : Event) : option McTxHash :=
  match e with UserTransfer h _ _ _ => Some h | _ => None end.

(** A ledger on which everything the bridge does succeeds. *)
Record ledger_ok : Prop := {
  treasury_ok a : is_Some (construct_unlock_to_treasury cfg a);
  reserve_ok a : is_Some (construct_distribute_reserve cfg a);
  night_ok a r n : is_Some (construct_distribute_night cfg a r n);
  execute_ok tx l : exists h l', execute_system_transaction cfg tx l = Ok (h, l')
}.

(** An execution leaves the state alone, or applies its one event. *)
Lemma execute_cases result mk s :
  (execute_serialized_tx result mk s = Ok (tt, s) /\ (ledger_ok -> result = None)) \/
  exists l h, execute_serialized_tx result mk s = Ok (tt, applied l (mk h) s).
Proof.
  unfold execute_serialized_tx. unfold_m. destruct result as [tx|]; [|by left].
  pose proof (executor_returns tx (ledger s)) as Hp.
  destruct (execute_system_transaction cfg tx (ledger s)) as [[h l]|e|] eqn:E; [|left|done].
  - right. by exists l, h.
  - split; [done|]. intros Hok. destruct (execute_ok Hok tx (ledger s)) as (h & l & E'). congruence.
Qed.

Lemma accounted_applied l e s : accounted (applied l e s) = accounted s + event_amount e.
Proof. unfold accounted. simpl. rewrite fmap_app, sumZ_app. simpl. lia. Qed.

(** What one transfer can do. *)
Record handled (t : Transfer) (s s' : State) : Prop := {
  handled_event : exists new, events s' = events s ++ option_list new /\
    forall e h, new = Some e -> user_hash e = Some h ->
      h = mc_tx_hash t /\ h ∈ ApprovedMcTxHashes s /\ h ∉ ApprovedMcTxHashes s';
  handled_approved : ApprovedMcTxHashes s' ⊆ ApprovedMcTxHashes s;
  handled_sum : 0 <= sum (SubminimalTransfers s') <= sum (SubminimalTransfers s) + amount t;
  handled_at_most : accounted s' <= accounted s + amount t;
  handled_exactly : ledger_ok -> sum (SubminimalTransfers s) + amount t <= umax 64 ->
    accounted s' = accounted s + amount t
}.

(** An execution that does not touch the collected transfers, of an event that is not a
    credit to a user. *)
Lemma execute_handled t result mk s :
  0 <= amount t -> 0 <= sum (SubminimalTransfers s) ->
  (forall h, event_amount (mk h) = amount t /\ user_hash (mk h) = None) ->
  (ledger_ok -> is_Some result) ->
  exists s', execute_serialized_tx result mk s = Ok (tt, s') /\ handled t s s'.
Proof.
  intros Ha Hs Hmk Hres. destruct (execute_cases result mk s) as [[-> Hnone]|(l & h & ->)].
  - exists s. split; [done|]. split; [exists None; by rewrite app_nil_r|done|lia|lia|].
    intros Hok _. specialize (Hnone Hok). destruct (Hres Hok). congruence.
  - exists (applied l (mk h) s). split; [done|]. destruct (Hmk h) as [Hm Hu].
    split; rewrite ?accounted_applied; simpl; [|done|lia..].
    exists (Some (mk h)). split; [done|]. intros e h' [= <-]. congruence.
Qed.

Lemma subminimal_handled t s : 0 <= amount t -> 0 <= sum (SubminimalTransfers s) ->
  exists s', handle_subminimal_transfer t s = Ok (tt, s') /\ handled t s s'.
Proof.
  intros Ha Hs. unfold handle_subminimal_transfer. unfold bind at 1. simpl.
  set (total := saturating_add 64 _ _). set (n := saturating_add 32 _ _).
  assert (0 <= total <= sum (SubminimalTransfers s) + amount t /\
          (sum (SubminimalTransfers s) + amount t <= umax 64 ->
           total = sum (SubminimalTransfers s) + amount t)) as [Htot Hexact].
  { unfold total, saturating_add. assert (0 <= umax 64) by done. lia. }
  destruct (SubminimalTransfersConfiguration s <? total).
  - unfold bind at 1.
    destruct (execute_cases (construct_unlock_to_treasury cfg total)
                (fun h => SubminimalFlushTransfer total n h) s) as [[-> Hnone]|(l & h & ->)]; simpl;
      eexists; (split; [reflexivity|]).
    + split; unfold accounted; simpl; [exists None; by rewrite app_nil_r|done|lia|lia|].
      intros Hok _. destruct (treasury_ok Hok total). specialize (Hnone Hok). congruence.
    + split; unfold accounted; simpl; rewrite ?fmap_app, ?sumZ_app; simpl; [|done|lia|lia|].
      * eexists (Some _). split; [reflexivity|]. intros e h' [= <-]. done.
      * intros _ Hb. rewrite (Hexact Hb). lia.
  - eexists. split; [reflexivity|]. split; unfold accounted; simpl; [exists None; by rewrite app_nil_r|done|lia|lia|].
    intros _ Hb. rewrite (Hexact Hb). lia.
Qed.

Lemma user_handled t r s : 0 <= amount t -> 0 <= sum (SubminimalTransfers s) ->
  exists s', handle_user_transfer (mc_tx_hash t) (amount t) r s = Ok (tt, s') /\ handled t s s'.
Proof.
  intros Ha Hs. unfold handle_user_transfer. unfold bind at 1. simpl.
  destruct (bool_decide_reflect (mc_tx_hash t ∈ ApprovedMcTxHashes s)) as [Hin|Hni].
  - unfold generate_nonce. unfold_m.
    set (s1 := set_counter _ _). set (nonce := blake2_256 cfg _).
    destruct (execute_cases (construct_distribute_night cfg (amount t) r nonce)
      (fun x => UserTransfer (mc_tx_hash t) (amount t) r x) s1) as [[-> Hnone]|(l & h & ->)];
      eexists; (split; [reflexivity|]).
    + split; unfold accounted; simpl; [exists None; by rewrite app_nil_r|set_solver|lia|lia|].
      intros Hok _. destruct (night_ok Hok (amount t) r nonce). specialize (Hnone Hok). congruence.
    + split; unfold accounted; simpl; rewrite ?fmap_app, ?sumZ_app; simpl; [|set_solver|lia..].
      eexists (Some _). split; [reflexivity|]. intros e h' [= <-] [= <-]. set_solver.
  - apply execute_handled; [done..|by intros|]. intros Hok. apply treasury_ok, Hok.
Qed.

Lemma transfer_handled t s : 0 <= amount t -> 0 <= sum (SubminimalTransfers s) ->
  exists s', handle_transfer t s = Ok (tt, s') /\ handled t s s'.
Proof.
  intros Ha Hs.
  assert (exists s', handle_regular_transfer t s = Ok (tt, s') /\ handled t s s') as Hreg.
  { unfold handle_regular_transfer. destruct (recipient t) as [r| |].
    - by apply user_handled.
    - apply execute_handled; [done..|by intros|]. intros Hok. apply reserve_ok, Hok.
    - apply execute_handled; [done..|by intros|]. intros Hok. apply treasury_ok, Hok. }
  unfold handle_transfer. unfold bind at 1. simpl.
  destruct (get_c_to_m_bridge_min_amount cfg (ledger s)) as [m|]; [|done].
  destruct (amount t <? m); [by apply subminimal_handled|done].
Qed.

Lemma execute_returns result mk s : exists s', execute_serialized_tx result mk s = Ok (tt, s').
Proof. destruct (execute_cases result mk s) as [[-> _]|(l & h & ->)]; eauto. Qed.

(** The handler keeps the contract of the interface. *)
#[export] Instance c2m_total : TotalHandler State McTxHash Recipient.
Proof.
  split. intros t s. simpl. unfold handle_transfer. unfold bind at 1. simpl.
  assert (exists s', handle_regular_transfer t s = Ok (tt, s')) as Hreg.
  { unfold handle_regular_transfer, handle_invalid_transfer, handle_reserve_transfer, handle_user_transfer.
    destruct (recipient t) as [r| |]; [|apply execute_returns..].
    unfold bind at 1. simpl. case_bool_decide; [|apply execute_returns].
    unfold bind at 1. simpl. unfold bind at 1. simpl. apply execute_returns. }
  destruct (get_c_to_m_bridge_min_amount cfg (ledger s)) as [m|]; [|done].
  destruct (amount t <? m); [|done]. unfold handle_subminimal_transfer. unfold bind at 1. simpl.
  destruct (_ <? _); [|by eexists].
  edestruct execute_returns as [s' E]. unfold bind at 1. rewrite E. by eexists.
Qed.

(** ** Properties *)

Lemma handle_all_cons t ts s s1 : handle_transfer t s = Ok (tt, s1) ->
  handle_all (t :: ts) s = handle_all ts s1.
Proof. intros E. unfold handle_all. cbn [for_each]. unfold bind. simpl. by rewrite E. Qed.

(** C21: the bridge creates no money: whatever the ledger does, the handler returns, and
    what is credited to users, reserve and treasury, together with what waits to be
    flushed, grows by at most what was transferred. *)
Theorem bridge_never_inflates ts s :
  Forall (fun t => 0 <= amount t) ts -> 0 <= sum (SubminimalTransfers s) ->
  exists s', handle_all ts s = Ok (tt, s') /\
    accounted s' <= accounted s + sumZ (amount <$> ts).
Proof.
  intros Hts. revert s. induction Hts as [|t ts Ha Hts IH]; intros s Hs.
  { exists s. split; [done|]. simpl. lia. }
  destruct (transfer_handled t s Ha Hs) as (s1 & E & Hh). rewrite (handle_all_cons t ts s s1 E).
  destruct Hh as [_ _ Hsum Hle _]. destruct (IH s1) as (s' & E' & Hle'); [lia|].
  exists s'. split; [done|]. rewrite fmap_cons, sumZ_cons. lia.
Qed.

(** On a ledger that executes the bridge's transactions no money is lost either:
    credits and the collected small transfers grow by exactly what was transferred. *)
Theorem bridge_conserves_amounts ts s :
  ledger_ok -> Forall (fun t => 0 <= amount t) ts -> 0 <= sum (SubminimalTransfers s) ->
  sum (SubminimalTransfers s) + sumZ (amount <$> ts) <= umax 64 ->
  exists s', handle_all ts s = Ok (tt, s') /\
    accounted s' = accounted s + sumZ (amount <$> ts).
Proof.
  intros Hok Hts. revert s. induction Hts as [|t ts Ha Hts IH]; intros s Hs Hb.
  { exists s. split; [done|]. simpl. lia. }
  destruct (transfer_handled t s Ha Hs) as (s1 & E & Hh). rewrite (handle_all_cons t ts s s1 E).
  destruct Hh as [_ _ Hsum _ Heq]. rewrite fmap_cons, sumZ_cons in Hb |- *.
  assert (0 <= sumZ (amount <$> ts)) by (apply sumZ_nonneg; by rewrite Forall_fmap).
  destruct (IH s1) as (s' & E' & Heq'); [lia..|].
  exists s'. split; [done|]. rewrite Heq', Heq; [lia|done|lia].
Qed.

(** C22: a user is credited only for a transfer that governance has approved, and every
    approval is used at most once: the credited transactions are pairwise different, were
    all approved at the start, and are no longer approved at the end. *)
Theorem credits_need_fresh_approvals ts s s' :
  Forall (fun t => 0 <= amount t) ts -> 0 <= sum (SubminimalTransfers s) ->
  handle_all ts s = Ok (tt, s') ->
  exists new, events s' = events s ++ new /\ NoDup (omap user_hash new) /\
    forall h, h ∈ omap user_hash new -> h ∈ ApprovedMcTxHashes s /\ h ∉ ApprovedMcTxHashes s'.
Proof.
  intros Hts Hs Hrun.
  enough (ApprovedMcTxHashes s' ⊆ ApprovedMcTxHashes s /\
    exists new, events s' = events s ++ new /\ NoDup (omap user_hash new) /\
      forall h, h ∈ omap user_hash new -> h ∈ ApprovedMcTxHashes s /\ h ∉ ApprovedMcTxHashes s') by tauto.
  revert s Hs Hrun. induction Hts as [|t ts Ha Hts IH]; intros s Hs Hrun.
  { unfold handle_all in Hrun. simpl in Hrun. unfold ret in Hrun. simplify_eq. split; [done|].
    exists []. rewrite app_nil_r. split_and!; [done|constructor|]. simpl. set_solver. }
  destruct (transfer_handled t s Ha Hs) as (s1 & E & Hh). rewrite (handle_all_cons t ts s s1 E) in Hrun.
  destruct Hh as [(e & He & Huser) Happ Hsum _ _].
  destruct (IH s1 ltac:(lia) Hrun) as (Hsub & new & Hev & Hnd & Hnew). split; [set_solver|].
  exists (option_list e ++ new). split; [by rewrite Hev, He, <- app_assoc|].
  destruct e as [e|]; simpl; [|split; [done|set_solver]].
  destruct (user_hash e) as [h|] eqn:Eu; simpl; [|split; [done|set_solver]].
  destruct (Huser e h eq_refl Eu) as (_ & Hin & Hout). split.
  - constructor; [|done]. intros Hh. apply Hnew in Hh as [Hh _]. done.
  - intros h' [->|Hh']%elem_of_cons; [set_solver|]. apply Hnew in Hh' as [? ?]. set_solver.
Qed.
End Pallet.

(** ** A concrete instance: the ledger is what it has paid out, and knows the smallest
    amount of a transfer. *)

Module Example.
Definition cfg : Config (Origin:=RawOrigin Z) (Recipient:=Z) (Hash256:=Z) (Tx:=Z) (XE:=Z) (L:=Z) :=
  {| execute_system_transaction tx l := Ok (tx, l + tx);
     get_c_to_m_bridge_min_amount _ := Some 10;
     construct_unlock_to_treasury a := Some a;
     construct_distribute_reserve a := Some a;
     construct_distribute_night a _ _ := Some a;
     blake2_256 := len;
     governance_origin _ := true |}.

Lemma returns tx l : execute_system_transaction cfg tx l <> Panic.
Proof. discriminate. Qed.

Lemma ok : ledger_ok cfg.
Proof. split; simpl; eauto. Qed.

(** Transaction 1 is approved; 5 is too little, and is collected. *)
Definition s0 : State (McTxHash:=Z) (Recipient:=Z) (Hash256:=Z) (L:=Z) :=
  {| SubminimalTransfersConfiguration := 100; SubminimalTransfers := no_transfers;
     TransferCounter := 0; ApprovedMcTxHashes := {[1]}; parent_hash := [7]; ledger := 0; events := [] |}.

Definition ts : list (BridgeTransferV1 Z Z) :=
  [{| mc_tx_hash := 1; amount := 50; recipient := Address 77 |};
   {| mc_tx_hash := 1; amount := 60; recipient := Address 77 |};
   {| mc_tx_hash := 2; amount := 5; recipient := Address 78 |};
   {| mc_tx_hash := 3; amount := 20; recipient := Reserve |}].

#[export] Instance handler :
  TransferHandler (State (McTxHash:=Z) (Recipient:=Z) (Hash256:=Z) (L:=Z)) Z Z := c2m_handler cfg.

(** The second transfer of the approved transaction goes to the treasury. *)
Lemma events_value :
  (fun x => events (snd x)) <$> match handle_all ts s0 with Ok x => Some x | _ => None end =
  Some [UserTransfer 1 50 77 50; UnapprovedTransfer 1 60 77 60; ReserveTransfer 3 20 20].
Proof. vm_compute. reflexivity. Qed.

Definition s1 : State (McTxHash:=Z) (Recipient:=Z) (Hash256:=Z) (L:=Z) :=
  match handle_all ts s0 with Ok (_, s) => s | _ => s0 end.
Lemma transfers_run : handle_all ts s0 = Ok (tt, s1).
Proof. vm_compute. reflexivity. Qed.

Lemma amounts : Forall (fun t : BridgeTransferV1 Z Z => 0 <= amount t) ts.
Proof. unfold ts. repeat constructor; simpl; lia. Qed.
End Example.
Import Example.

Lemma bridge_never_inflates_witness :
  exists s', handle_all ts s0 = Ok (tt, s') /\ accounted s' <= accounted s0 + 135.
Proof.
  apply (bridge_never_inflates Example.cfg Example.returns ts s0).
  - exact Example.amounts.
  - vm_compute. discriminate.
Defined.

Lemma bridge_conserves_amounts_witness :
  exists s', handle_all ts s0 = Ok (tt, s') /\ accounted s' = accounted s0 + 135.
Proof.
  apply (bridge_conserves_amounts Example.cfg Example.returns ts s0).
  - exact Example.ok.
  - exact Example.amounts.
  - vm_compute. discriminate.
  - vm_compute. discriminate.
Defined.

Lemma credits_need_fresh_approvals_witness :
  exists new, events s1 = events s0 ++ new /\ NoDup (omap user_hash new) /\
    forall h, h ∈ omap user_hash new -> h ∈ ApprovedMcTxHashes s0 /\ h ∉ ApprovedMcTxHashes s1.
Proof.
  apply (credits_need_fresh_approvals Example.cfg Example.returns ts s0 s1).
  - exact Example.amounts.
  - vm_compute. discriminate.
  - exact Example.transfers_run.
Defined.
