(* ===== verification/Committee.v ===== *)
(** * Committee management and session rotation

    Models [src/partner-chains/toolkit/committee-selection/pallet/src/lib.rs] and
    [pallet_session_support.rs] of the same crate: the pipeline of committees (selected
    next, queued, current), the inherent that selects the next committee, and the session
    manager that rotates the pipeline.  The selection function, the session pallet's keys
    and the accounts of the system pallet are parameters; epoch numbers are [u64]. *)

From stdpp Require Import sorting.
From S2P Require Import Prelude Frame.
From stdpp Require Import list.
Open Scope Z_scope.

Inductive Error := InvalidEpoch | NextCommitteeAlreadySet.

Section Committee.
Context {Origin AccountId AuthorityId Member Keys Inputs InputsHash MainchainAddress PolicyId Sys : Type}.
Context `{EqDecision Member, EqDecision InputsHash, EqDecision AccountId} `{!Origins Origin AccountId}.

Record Config := {
  MaxValidators : Z;
  (** [T::select_authorities] *)
  select_authorities : Inputs -> Z -> option (list Member);
  (** [blake2_256] of the encoded inputs *)
  inputs_hash : Inputs -> InputsHash;
  (** The trait [CommitteeMember], and [AuthorityId: Into<AccountId>] *)
  authority_id : Member -> AuthorityId;
  into_account : AuthorityId -> AccountId;
  authority_keys : Member -> Keys;
  (** [T::MainChainScriptsOrigin::ensure_origin] *)
  scripts_origin : Origin -> bool;
  (** [Ord] of accounts, in which a [BTreeSet] is iterated *)
  account_le : AccountId -> AccountId -> bool;
  (** [frame_system]'s [account_exists], [inc_providers]; [SessionInterface::set_keys],
      whose errors are logged *)
  account_exists : Sys -> AccountId -> bool;
  inc_providers : AccountId -> Sys -> Sys;
  set_keys : AccountId -> Keys -> Sys -> option Sys;
  DbWeight : RuntimeDbWeight
}.
Variable cfg : Config.

Inductive InherentError :=
| InvalidValidators (* deprecated, never returned *)
| CommitteeNeedsToBeStoredOneEpochInAdvance
| InvalidValidatorsMatchingHash (h : InputsHash)
| InvalidValidatorsHashMismatch (expected got : InputsHash).

Record CommitteeInfo := { epoch : Z; committee : list Member }.

(** [CommitteeInfo::default] and [as_pair] *)
Definition default_committee : CommitteeInfo := {| epoch := 0; committee := [] |}.
Definition as_pair (c : CommitteeInfo) : Z * list Member := (epoch c, committee c).

Record MainChainScripts := {
  committee_candidate_address : MainchainAddress;
  d_parameter_policy_id : PolicyId;
  permissioned_candidates_policy_id : PolicyId
}.

Record State := {
  CurrentCommittee : CommitteeInfo;
  QueuedCommittee : CommitteeInfo;
  NextCommittee : option CommitteeInfo;
  MainChainScriptsConfiguration : MainChainScripts;
  current_epoch_number : Z; (* [T::current_epoch_number()], from the slot *)
  system : Sys (* accounts and session keys *)
}.

Definition PalletM (A : Type) := M State (dispatch_error Error) A.

Definition set_committees c q n s :=
  {| CurrentCommittee := c; QueuedCommittee := q; NextCommittee := n;
     MainChainScriptsConfiguration := MainChainScriptsConfiguration s;
     current_epoch_number := current_epoch_number s; system := system s |}.
Definition set_epoch e s :=
  {| CurrentCommittee := CurrentCommittee s; QueuedCommittee := QueuedCommittee s;
     NextCommittee := NextCommittee s;
     MainChainScriptsConfiguration := MainChainScriptsConfiguration s;
     current_epoch_number := e; system := system s |}.
Definition set_system y s :=
  {| CurrentCommittee := CurrentCommittee s; QueuedCommittee := QueuedCommittee s;
     NextCommittee := NextCommittee s;
     MainChainScriptsConfiguration := MainChainScriptsConfiguration s;
     current_epoch_number := current_epoch_number s; system := y |}.
Definition set_scripts m s :=
  {| CurrentCommittee := CurrentCommittee s; QueuedCommittee := QueuedCommittee s;
     NextCommittee := NextCommittee s; MainChainScriptsConfiguration := m;
     current_epoch_number := current_epoch_number s; system := system s |}.

(** [epoch + One::one()] *)
Definition succ (e : Z) : Z := wrap 64 (e + 1).

(** ** Accounts and keys of a committee ([pallet_session_support.rs]) *)

(** [member.authority_id().into()] *)
Definition account (m : Member) : AccountId := into_account cfg (authority_id cfg m).

Definition account_order (a b : AccountId) : Prop := account_le cfg a b = true.
#[local] Instance account_order_dec : RelDecision account_order.
Proof. intros a b. unfold account_order. apply _. Defined.

(** The accounts are collected in a [BTreeSet]: each once, in ascending order. *)
Definition provide_committee_accounts (new_committee : list Member) (y : Sys) : Sys :=
  foldl (fun y a => if account_exists cfg y a then y else inc_providers cfg a y)
    y (merge_sort account_order (remove_dups (account <$> new_committee))).

(** The loop of [register_committee_keys], with the accounts done so far. *)
Fixpoint register_keys (keys_added : list AccountId) (members : list Member) (y : Sys) : Sys :=
  match members with
  | [] => y
  | member :: members' =>
      let account_id := account member in
      if bool_decide (account_id ∈ keys_added) then register_keys keys_added members' y
      else
        register_keys (account_id :: keys_added) members'
          (default y (set_keys cfg account_id (authority_keys cfg member) y))
  end.
Definition register_committee_keys (new_committee : list Member) (y : Sys) : Sys :=
  register_keys [] new_committee y.

(** ** Genesis and hook *)

Definition build (initial_authorities : list Member) (main_chain_scripts : MainChainScripts) (s : State) : State :=
  let initial_authorities := truncate_from (MaxValidators cfg) initial_authorities in
  let s := set_system (provide_committee_accounts initial_authorities (system s)) s in
  let committee_info := {| epoch := 0; committee := initial_authorities |} in
  set_scripts main_chain_scripts (set_committees committee_info committee_info (NextCommittee s) s).

Definition restamp (e : Z) (c : CommitteeInfo) : CommitteeInfo := {| epoch := e; committee := committee c |}.

Definition on_initialize (block_nr : Z) (s : State) : Weight * State :=
  if block_nr =? 1 then
    let e := current_epoch_number s in
    (reads_writes (DbWeight cfg) 3 2,
     set_committees (restamp e (CurrentCommittee s)) (restamp e (QueuedCommittee s)) (NextCommittee s) s)
  else (weight_zero, s).

(** ** The inherent *)

Inductive Call :=
| Call_set (validators : list Member) (for_epoch_number : Z) (selection_inputs_hash : InputsHash)
| Call_other.

(** [InherentData::get_data]; bytes that do not decode and missing data panic. *)
Definition InherentData : Type := option (option Inputs).
Definition inherent_data_to_authority_selection_inputs (d : InherentData)
    : outcome InherentError (Inputs * InputsHash) :=
  match d with
  | Some (Some decoded_data) => Ok (decoded_data, inputs_hash cfg decoded_data)
  | _ => Panic
  end.

Definition create_inherent (s : State) (d : InherentData) : outcome InherentError (option Call) :=
  match NextCommittee s with
  | Some _ => Ok None
  | None =>
      let for_epoch_number := succ (epoch (QueuedCommittee s)) in
      match inherent_data_to_authority_selection_inputs d with
      | Ok (inputs, h) =>
          match select_authorities cfg inputs for_epoch_number with
          | Some validators => Ok (Some (Call_set validators for_epoch_number h))
          | None => Ok (Some (Call_set (committee (QueuedCommittee s)) for_epoch_number h))
          end
      | Err e => Err e
      | Panic => Panic
      end
  end.

Definition check_inherent (s : State) (call : Call) (d : InherentData) : outcome InherentError unit :=
  match call with
  | Call_other => Ok tt
  | Call_set validators_param for_epoch_number_param call_hash =>
      match inherent_data_to_authority_selection_inputs d with
      | Ok (inputs, computed_hash) =>
          let validators :=
            match select_authorities cfg inputs for_epoch_number_param with
            | Some v => v
            | None => committee (default (QueuedCommittee s) (NextCommittee s))
            end in
          if bool_decide (validators_param <> validators)
          then if bool_decide (call_hash = computed_hash)
               then Err (InvalidValidatorsMatchingHash computed_hash)
               else Err (InvalidValidatorsHashMismatch computed_hash call_hash)
          else Ok tt
      | Err e => Err e
      | Panic => Panic
      end
  end.

Definition is_inherent (call : Call) : bool :=
  match call with Call_set _ _ _ => true | Call_other => false end.

Definition is_inherent_required (s : State) : outcome InherentError (option InherentError) :=
  match NextCommittee s with
  | None => Ok (Some CommitteeNeedsToBeStoredOneEpochInAdvance)
  | Some _ => Ok None
  end.

(** ** Calls *)

Definition set (origin : Origin) (validators : list Member) (for_epoch_number : Z)
    (selection_inputs_hash : InputsHash) : PalletM unit :=
  do* ok_or (ensure_none origin) BadOrigin in
  let* s := get in
  let expected_epoch_number := succ (epoch (QueuedCommittee s)) in
  do* ensure (for_epoch_number =? expected_epoch_number) (ModuleError InvalidEpoch) in
  do* ensure (match NextCommittee s with Some _ => false | None => true end)
        (ModuleError NextCommitteeAlreadySet) in
  put (set_committees (CurrentCommittee s) (QueuedCommittee s)
         (Some {| epoch := for_epoch_number; committee := validators |}) s).

Definition set_main_chain_scripts (origin : Origin) (a : MainchainAddress) (d p : PolicyId) : PalletM unit :=
  do* ensure (scripts_origin cfg origin) BadOrigin in
  modify (set_scripts {| committee_candidate_address := a; d_parameter_policy_id := d;
                         permissioned_candidates_policy_id := p |}).

(** ** Views *)

Definition get_next_unset_epoch_number (s : State) : Z :=
  match NextCommittee s with
  | Some next_committee => succ (epoch next_committee)
  | None => succ (epoch (QueuedCommittee s))
  end.
Definition current_committee_storage (s : State) : CommitteeInfo := CurrentCommittee s.
Definition queued_committee_storage (s : State) : CommitteeInfo := QueuedCommittee s.
Definition next_committee_storage (s : State) : option CommitteeInfo := NextCommittee s.
Definition next_committee (s : State) : option (list AuthorityId) :=
  (fun c => truncate_from (MaxValidators cfg) (authority_id cfg <$> committee c)) <$> NextCommittee s.
Definition calculate_committee (inputs : Inputs) (sidechain_epoch : Z) : option (list Member) :=
  select_authorities cfg inputs sidechain_epoch.
Definition get_main_chain_scripts (s : State) : MainChainScripts := MainChainScriptsConfiguration s.

(** ** Rotation *)

Definition rotate_committee_to_next_epoch (s : State) : option (list Member) * State :=
  let queued := QueuedCommittee s in
  let promoted := {| epoch := succ (epoch queued); committee := committee queued |} in
  match NextCommittee s with
  | None => (None, set_committees promoted queued None s)
  | Some next => (Some (committee next), set_committees promoted next None s)
  end.

(** [SessionManager::new_session_genesis] *)
Definition new_session_genesis (s : State) : list AccountId * State :=
  let c := committee (CurrentCommittee s) in
  (account <$> c,
   set_system (register_committee_keys c (provide_committee_accounts c (system s))) s).

(** [SessionManager::new_session] *)
Definition new_session (s : State) : option (list AccountId) * State :=
  match rotate_committee_to_next_epoch s with
  | (None, s') => (None, s')
  | (Some c, s') =>
      (Some (account <$> c),
       set_system (register_committee_keys c (provide_committee_accounts c (system s'))) s')
  end.

(** [ShouldEndSession::should_end_session] *)
Definition should_end_session (s : State) : bool :=
  if epoch (QueuedCommittee s) <? current_epoch_number s
  then match next_committee s with Some _ => true | None => false end
  else false.

(** ** A block

    The hooks run in the order of the runtime's pallets: this pallet's, then
    [pallet_session]'s, which asks [should_end_session] and rotates.  The block's author
    then creates the inherent on that state; the importing node checks it on the state of
    the parent block. *)

(** What [pallet_session] keeps: the effective validators, and those queued behind them.
    [rotate_session] receives what [new_session] returned. *)
Class SessionPallet (Sess : Type) := {
  validators : Sess -> list AccountId;
  queued_validators : Sess -> list AccountId;
  rotate_session : option (list AccountId) -> Sess -> Sess
}.

(** "[pallet_session] only applies a validator set returned from [new_session] at the
    following rotation." *)
Class SessionLaws (Sess : Type) `{!SessionPallet Sess} := {
  rotate_applies_queued r y : validators (rotate_session r y) = queued_validators y;
  rotate_queues l y : queued_validators (rotate_session (Some l) y) = l
}.

Section Blocks.
Context {Sess : Type} `{!SessionPallet Sess}.

(** [n]: the block's number; [e]: the epoch of its slot. *)
Definition initialize_block (n e : Z) (c : State * Sess) : State * Sess :=
  let s := (on_initialize n (set_epoch e c.1)).2 in
  if should_end_session s
  then let '(r, s') := new_session s in (s', rotate_session r c.2)
  else (s, c.2).

(** The inherent's call is dispatched with the origin [o]; a mandatory call that fails
    makes the block invalid. *)
Definition run_block (o : Origin) (n e : Z) (d : InherentData) (c : State * Sess) : option (State * Sess) :=
  let '(s, y) := initialize_block n e c in
  match create_inherent s d with
  | Ok None => Some (s, y)
  | Ok (Some (Call_set v f h)) =>
      match set o v f h s with Ok (_, s') => Some (s', y) | _ => None end
  | _ => None
  end.

(** The chain after block [n]: from genesis, blocks in epochs that never go back, and the
    governance call between them. *)
Inductive reachable (o : Origin) : Z -> State * Sess -> Prop :=
| reach_genesis s y auths scripts l s' :
    NextCommittee s = None ->
    new_session_genesis (build auths scripts s) = (l, s') ->
    validators y = l -> queued_validators y = l ->
    reachable o 0 (s', y)
| reach_block n e d c c' :
    reachable o n c ->
    current_epoch_number c.1 <= e \/ n = 0 -> 0 <= e < umax 64 ->
    run_block o (n + 1) e d c = Some c' -> reachable o (n + 1) c'
| reach_scripts n o' a dp pc s y s' :
    reachable o n (s, y) -> set_main_chain_scripts o' a dp pc s = Ok (tt, s') ->
    reachable o n (s', y).

(** Blocks in the epoch [e], after block [n]. *)
Fixpoint run_blocks (o : Origin) (n e : Z) (ds : list InherentData) (c : State * Sess) : option (State * Sess) :=
  match ds with
  | [] => Some c
  | d :: ds' =>
      match run_block o (n + 1) e d c with
      | Some c' => run_blocks o (n + 1) e ds' c'
      | None => None
      end
  end.

(** ** Lemmas *)

Lemma should_end_session_true s :
  should_end_session s = true <->
  epoch (QueuedCommittee s) < current_epoch_number s /\ is_Some (NextCommittee s).
Proof.
  unfold should_end_session, next_committee.
  destruct (Z.ltb_spec (epoch (QueuedCommittee s)) (current_epoch_number s)), (NextCommittee s); simpl;
    (split; [intros ?; try done|intros [? [? ?]]; try done]); try lia; eauto.
Qed.

Lemma succ_small e : 0 <= e < umax 64 -> succ e = e + 1.
Proof. intros He. unfold succ. apply wrap_small. unfold in_u. lia. Qed.

(** The beginning of a block that ends a session, and of one that does not. *)
Lemma initialize_block_rotates n e s y nx :
  n <> 1 -> NextCommittee s = Some nx -> epoch (QueuedCommittee s) < e ->
  exists y', initialize_block n e (s, y) =
    (set_system y' (set_committees
       {| epoch := succ (epoch (QueuedCommittee s)); committee := committee (QueuedCommittee s) |}
       nx None (set_epoch e s)), rotate_session (Some (account <$> committee nx)) y).
Proof.
  intros Hn Hnx He. unfold initialize_block, on_initialize.
  rewrite (proj2 (Z.eqb_neq n 1) Hn). simpl.
  rewrite (proj2 (should_end_session_true (set_epoch e s))); [|simpl; rewrite Hnx; eauto].
  unfold new_session, rotate_committee_to_next_epoch. simpl. rewrite Hnx. by eexists.
Qed.

Lemma initialize_block_stays n e s y :
  n <> 1 -> e <= epoch (QueuedCommittee s) -> initialize_block n e (s, y) = (set_epoch e s, y).
Proof.
  intros Hn He. unfold initialize_block, on_initialize.
  rewrite (proj2 (Z.eqb_neq n 1) Hn). simpl. case_match eqn:Hs; [|done].
  apply should_end_session_true in Hs as [Hs _]. simpl in Hs. lia.
Qed.

Lemma initialize_first_block e s y :
  NextCommittee s = None ->
  initialize_block 1 e (s, y) =
    (set_committees (restamp e (CurrentCommittee s)) (restamp e (QueuedCommittee s)) None (set_epoch e s), y).
Proof.
  intros Hs. unfold initialize_block. simpl. case_match eqn:Hend.
  - apply should_end_session_true in Hend as [_ [? Hx]]. simpl in Hx. congruence.
  - by rewrite Hs.
Qed.

(** What the inherent falls back on is the same before and after the hooks. *)
Lemma fallback_stable n e s y s1 y1 :
  initialize_block n e (s, y) = (s1, y1) -> NextCommittee s1 = None ->
  committee (QueuedCommittee s1) = committee (default (QueuedCommittee s) (NextCommittee s)).
Proof.
  unfold initialize_block, on_initialize, new_session, rotate_committee_to_next_epoch.
  intros Hi Hn. destruct (n =? 1); simpl in *; case_match eqn:Hend; simpl in *;
    destruct (NextCommittee s) eqn:?; simplify_eq/=; congruence || done.
Qed.

Lemma create_inherent_Some s i :
  NextCommittee s = None ->
  create_inherent s (Some (Some i)) =
    Ok (Some (Call_set (default (committee (QueuedCommittee s))
                         (select_authorities cfg i (succ (epoch (QueuedCommittee s)))))
                       (succ (epoch (QueuedCommittee s))) (inputs_hash cfg i))).
Proof. intros Hn. unfold create_inherent. rewrite Hn. simpl. by case_match. Qed.

Lemma check_inherent_iff s v f h i :
  check_inherent s (Call_set v f h) (Some (Some i)) = Ok tt <->
  v = default (committee (default (QueuedCommittee s) (NextCommittee s))) (select_authorities cfg i f).
Proof.
  unfold check_inherent. simpl.
  set (w := match select_authorities cfg i f with Some v => v | None => _ end).
  assert (w = default (committee (default (QueuedCommittee s) (NextCommittee s))) (select_authorities cfg i f)) as <-.
  { subst w. by case_match. }
  destruct (decide (v = w)) as [->|Hne].
  - by rewrite bool_decide_false by naive_solver.
  - rewrite bool_decide_true by done. case_match; naive_solver.
Qed.

Lemma set_Ok o v f h s :
  ensure_none o = Some tt -> f = succ (epoch (QueuedCommittee s)) -> NextCommittee s = None ->
  set o v f h s = Ok (tt, set_committees (CurrentCommittee s) (QueuedCommittee s)
                            (Some {| epoch := f; committee := v |}) s).
Proof. intros Ho -> Hn. unfold set. unfold_m. by rewrite Ho, Z.eqb_refl, Hn. Qed.

Lemma set_inv o v f h s s' :
  set o v f h s = Ok (tt, s') ->
  f = succ (epoch (QueuedCommittee s)) /\ NextCommittee s = None /\
  s' = set_committees (CurrentCommittee s) (QueuedCommittee s) (Some {| epoch := f; committee := v |}) s.
Proof.
  unfold set. unfold_m. intros Hs.
  destruct (ensure_none o), (Z.eqb_spec f (succ (epoch (QueuedCommittee s)))), (NextCommittee s);
    naive_solver.
Qed.

(** After a block the next committee is selected: the one that was, or one for the epoch
    after the queued committee's. *)
Lemma run_block_inv o n e d c c' s1 y1 :
  run_block o n e d c = Some c' -> initialize_block n e c = (s1, y1) ->
  c'.2 = y1 /\ CurrentCommittee c'.1 = CurrentCommittee s1 /\ QueuedCommittee c'.1 = QueuedCommittee s1 /\
  current_epoch_number c'.1 = current_epoch_number s1 /\
  exists nx, NextCommittee c'.1 = Some nx /\
    (NextCommittee s1 = Some nx \/ NextCommittee s1 = None /\ epoch nx = succ (epoch (QueuedCommittee s1))).
Proof.
  unfold run_block. intros Hrun Hinit. rewrite Hinit in Hrun.
  destruct (create_inherent s1 d) as [[[v f h|]|]| |] eqn:Hc; try done.
  - destruct (set o v f h s1) as [[[] s2]| |] eqn:Hs; simplify_eq.
    apply set_inv in Hs as (-> & Hn & ->). simpl. eauto 10.
  - simplify_eq. simpl. unfold create_inherent in Hc.
    destruct (NextCommittee s1) as [nx|] eqn:?; [by eauto 10|].
    repeat (case_match; try done).
Qed.

Lemma run_block_total o n e i c :
  ensure_none o = Some tt -> exists c', run_block o n e (Some (Some i)) c = Some c'.
Proof.
  intros Ho. unfold run_block. destruct (initialize_block n e c) as [s y].
  destruct (NextCommittee s) as [nx|] eqn:Hn.
  - unfold create_inherent. rewrite Hn. by eexists.
  - rewrite create_inherent_Some by done. rewrite set_Ok by done. by eexists.
Qed.

(** *** The invariant of the pipeline *)

Definition labelled (s : State) : Prop :=
  exists nx, NextCommittee s = Some nx /\ epoch nx = epoch (QueuedCommittee s) + 1 /\
    epoch (CurrentCommittee s) = epoch (QueuedCommittee s) /\
    0 <= epoch (QueuedCommittee s) <= current_epoch_number s /\ current_epoch_number s < umax 64.

Definition tracks (s : State) (y : Sess) : Prop :=
  account <$> committee (CurrentCommittee s) = validators y /\
  account <$> committee (QueuedCommittee s) = queued_validators y.

Definition chain_inv (n : Z) (c : State * Sess) : Prop :=
  0 <= n /\ tracks c.1 c.2 /\ (n = 0 -> NextCommittee c.1 = None) /\ (1 <= n -> labelled c.1).

Context `{!SessionLaws Sess}.

(** A block of a chain that has a next committee: the labels advance by one, up to the
    epoch of the block. *)
Lemma run_block_labelled o n e d c c' :
  n <> 1 -> labelled c.1 -> tracks c.1 c.2 -> current_epoch_number c.1 <= e < umax 64 ->
  run_block o n e d c = Some c' ->
  labelled c'.1 /\ tracks c'.1 c'.2 /\ current_epoch_number c'.1 = e /\
  epoch (QueuedCommittee c'.1) = Z.min e (epoch (QueuedCommittee c.1) + 1).
Proof.
  destruct c as [s y]. intros Hn (nx & Hnx & Hen & Hec & Hq & Hcur) [Htc Htq] He Hrun. simpl in *.
  destruct (decide (epoch (QueuedCommittee s) < e)) as [Hlt|Hge].
  - destruct (initialize_block_rotates n e s y nx Hn Hnx Hlt) as [y' Hi].
    destruct (run_block_inv _ _ _ _ _ _ _ _ Hrun Hi) as (-> & HC & HQ & HE & nx' & Hn' & [?|[_ Hs]]); [done|].
    simpl in *. unfold labelled, tracks.
    rewrite HC, HQ, HE, Hn'. simpl. rewrite rotate_applies_queued, rotate_queues.
    rewrite succ_small in Hs by lia. rewrite succ_small by lia.
    repeat split; try done; [|lia]. exists nx'. repeat split; try done; lia.
  - pose proof (initialize_block_stays n e s y Hn ltac:(lia)) as Hi.
    destruct (run_block_inv _ _ _ _ _ _ _ _ Hrun Hi) as (-> & HC & HQ & HE & nx' & Hn' & Hor).
    simpl in *. unfold labelled, tracks. rewrite HC, HQ, HE, Hn'. simpl.
    destruct Hor as [Hor|[Hor _]]; [|congruence]. simplify_eq.
    repeat split; try done; [|lia]. exists nx. repeat split; try done; lia.
Qed.

Lemma run_first_block o e d c c' :
  NextCommittee c.1 = None -> tracks c.1 c.2 -> 0 <= e < umax 64 ->
  run_block o 1 e d c = Some c' -> labelled c'.1 /\ tracks c'.1 c'.2.
Proof.
  destruct c as [s y]. intros Hnx [Htc Htq] He Hrun. simpl in *.
  pose proof (initialize_first_block e s y Hnx) as Hi.
  destruct (run_block_inv _ _ _ _ _ _ _ _ Hrun Hi) as (-> & HC & HQ & HE & nx' & Hn' & [?|[_ Hs]]); [done|].
  simpl in *. unfold labelled, tracks. rewrite HC, HQ, HE, Hn'. simpl.
  rewrite succ_small in Hs by lia. split; [|done]. exists nx'. repeat split; try done; lia.
Qed.

Lemma reachable_chain_inv o n c : reachable o n c -> chain_inv n c.
Proof.
  induction 1 as [s y auths scripts l s' Hnone Hg Hv Hq|n e d c c' _ (Hn & Ht & H0 & H1) He Hb Hrun
                 |n o' a dp pc s y s' _ (Hn & Ht & H0 & H1) Hs].
  - injection Hg as <- <-. unfold chain_inv, tracks. simpl in *. rewrite Hv, Hq. repeat split; lia || done.
  - destruct (decide (n = 0)) as [->|Hn0].
    + destruct (run_first_block o e d c c' (H0 eq_refl) Ht Hb Hrun) as [Hl Ht'].
      unfold chain_inv. repeat split; try done || lia; apply Ht'.
    + destruct (run_block_labelled o (n + 1) e d c c') as (Hl & Ht' & _); try done || lia.
      { apply H1. lia. }
      unfold chain_inv. repeat split; try done || lia; apply Ht'.
  - unfold set_main_chain_scripts in Hs. unfold_m. destruct (scripts_origin cfg o'); simplify_eq.
    by repeat split; try apply Ht.
Qed.

(** ** Properties *)

(** C26: After every block of every chain, the accounts of the current committee are the
    session pallet's effective validators and those of the queued committee the ones it
    will apply next; the next committee is selected, for the epoch after the queued one;
    current and queued committee carry the same label, which is never ahead of the
    chain's epoch. *)
Theorem committees_track_session o n c :
  reachable o n c ->
  account <$> committee (CurrentCommittee c.1) = validators c.2 /\
  account <$> committee (QueuedCommittee c.1) = queued_validators c.2 /\
  (1 <= n ->
   epoch (CurrentCommittee c.1) = epoch (QueuedCommittee c.1) /\
   epoch (QueuedCommittee c.1) <= current_epoch_number c.1 /\
   is_inherent_required c.1 = Ok None /\
   exists nx, NextCommittee c.1 = Some nx /\ epoch nx = epoch (QueuedCommittee c.1) + 1).
Proof.
  intros Hr. destruct (reachable_chain_inv o n c Hr) as (_ & [Hc Hq] & _ & Hl). split; [done|]. split; [done|].
  intros Hn. destruct (Hl Hn) as (nx & Hnx & He & Hcq & Hle & _).
  unfold is_inherent_required. rewrite Hnx. repeat split; [done|lia|by eauto].
Qed.

(** C28: The inherent that an author creates after the block's hooks passes the check that
    an importing node makes on the state before them, whether or not the hooks rotated the
    committees; no other committee for that epoch passes it; and dispatching it stores the
    committee.  When no inherent is created none is required. *)
Theorem selection_inherent_agrees o n e i s y s1 y1 :
  ensure_none o = Some tt -> initialize_block n e (s, y) = (s1, y1) ->
  (create_inherent s1 (Some (Some i)) = Ok None /\ is_inherent_required s1 = Ok None) \/
  exists v f h s2,
    create_inherent s1 (Some (Some i)) = Ok (Some (Call_set v f h)) /\
    is_inherent (Call_set v f h) = true /\
    (forall v' h', check_inherent s (Call_set v' f h') (Some (Some i)) = Ok tt <-> v' = v) /\
    set o v f h s1 = Ok (tt, s2) /\ NextCommittee s2 = Some {| epoch := f; committee := v |}.
Proof.
  intros Ho Hi. destruct (NextCommittee s1) as [nx|] eqn:Hn.
  - left. unfold create_inherent, is_inherent_required. by rewrite Hn.
  - right. do 4 eexists. split; [by apply create_inherent_Some|]. split; [done|].
    split; [|split; [by apply set_Ok|done]].
    intros v' h'. rewrite check_inherent_iff. by rewrite <- (fallback_stable _ _ _ _ _ _ Hi Hn).
Qed.

(** C36: A chain that has fallen behind its epoch, because epochs passed without blocks,
    catches up: every block in which selection data is provided succeeds and rotates the
    committees by one epoch, until the queued committee is the one of the current epoch
    and rotation stops. *)
Theorem committees_catch_up o n e c (inputs : list Inputs) :
  ensure_none o = Some tt -> reachable o n c -> 1 <= n ->
  current_epoch_number c.1 <= e < umax 64 ->
  exists c', run_blocks o n e ((fun i => Some (Some i)) <$> inputs) c = Some c' /\
    epoch (QueuedCommittee c'.1) = Z.min e (epoch (QueuedCommittee c.1) + len inputs) /\
    epoch (CurrentCommittee c'.1) = epoch (QueuedCommittee c'.1).
Proof.
  intros Ho Hr Hn He. destruct (reachable_chain_inv o n c Hr) as (_ & Ht & _ & Hl).
  specialize (Hl Hn). clear Hr. revert n c Hn He Ht Hl.
  induction inputs as [|i inputs IH]; intros n c Hn He Ht Hl; simpl.
  - exists c. destruct Hl as (nx & _ & _ & Hcq & Hq & _). split; [done|]. unfold len. simpl. lia.
  - destruct (run_block_total o (n + 1) e i c Ho) as [c1 Hrun]. rewrite Hrun.
    destruct (run_block_labelled o (n + 1) e (Some (Some i)) c c1) as (Hl1 & Ht1 & He1 & Hq1); [lia|done..|].
    destruct (IH (n + 1) c1) as (c' & Hc' & Hq' & Hcur'); [lia|lia|done|done|].
    exists c'. split; [done|]. split; [|done]. rewrite Hq', Hq1. unfold len. simpl. lia.
Qed.
End Blocks.
End Committee.

(** ** A concrete chain *)

Module Example.
Definition cfg : Config (Origin:=RawOrigin Z) (AccountId:=Z) (AuthorityId:=Z) (Member:=Z * Z) (Keys:=Z)
    (Inputs:=list (Z * Z)) (InputsHash:=Z) (Sys:=unit) :=
  {| MaxValidators := 10;
     select_authorities i e := match i with [] => None | _ => Some i end;
     inputs_hash i := len i;
     authority_id := fst; into_account a := 100 + a; authority_keys := snd;
     scripts_origin o := match o with Root => true | _ => false end;
     account_le a b := a <=? b;
     account_exists _ _ := true; inc_providers _ y := y; set_keys _ _ y := Some y;
     DbWeight := {| db_read := 1; db_write := 2 |} |}.

#[export] Instance two_sets : SessionPallet (AccountId:=Z) (list Z * list Z) :=
  {| validators := fst; queued_validators := snd;
     rotate_session r y := (y.2, default y.2 r) |}.
#[export] Instance two_sets_laws : SessionLaws (AccountId:=Z) (list Z * list Z).
Proof. split; done. Qed.

Definition scripts : MainChainScripts (MainchainAddress:=Z) (PolicyId:=Z) :=
  {| committee_candidate_address := 1; d_parameter_policy_id := 2; permissioned_candidates_policy_id := 3 |}.
Definition empty : State (Member:=Z * Z) (MainchainAddress:=Z) (PolicyId:=Z) (Sys:=unit) :=
  {| CurrentCommittee := default_committee; QueuedCommittee := default_committee; NextCommittee := None;
     MainChainScriptsConfiguration := scripts; current_epoch_number := 0; system := tt |}.
Definition genesis := ((new_session_genesis cfg (build cfg [(1, 1); (2, 2)] scripts empty)).2,
                       ([101; 102], [101; 102])).
Definition one := default genesis (run_block cfg NoneOrigin 1 7 (Some (Some [(3, 3)])) genesis).

Lemma one_reachable : reachable cfg NoneOrigin 1 one.
Proof.
  apply (reach_block cfg NoneOrigin 0 7 (Some (Some [(3, 3)])) genesis); [|by right|by compute|reflexivity].
  eapply (reach_genesis cfg NoneOrigin empty _ [(1, 1); (2, 2)] scripts); reflexivity.
Qed.
End Example.
Import Example.

Lemma committees_track_session_witness :
  account Example.cfg <$> committee (CurrentCommittee Example.one.1) = [101; 102].
Proof. exact (proj1 (committees_track_session Example.cfg NoneOrigin 1 Example.one Example.one_reachable)). Defined.

(** The second block is in the next epoch, rotates, and falls back on the queued committee. *)
Lemma selection_inherent_agrees_witness :
  let '(s1, y1) := initialize_block Example.cfg 2 8 Example.one in
  create_inherent Example.cfg s1 (Some (Some [])) = Ok (Some (Call_set [(3, 3)] 9 0)) /\
  check_inherent Example.cfg Example.one.1 (Call_set [(3, 3)] 9 0) (Some (Some [])) = Ok tt.
Proof.
  destruct (initialize_block Example.cfg 2 8 Example.one) as [s1 y1] eqn:Hi.
  destruct (selection_inherent_agrees (Origins0:=raw_origins Z) Example.cfg NoneOrigin 2 8 [] Example.one.1 Example.one.2 s1 y1 eq_refl Hi)
    as [[Hc _]|(v & f & h & s2 & Hc & _ & Hk & _)].
  - vm_compute in Hi. injection Hi as <- <-. discriminate Hc.
  - assert (create_inherent Example.cfg s1 (Some (Some [])) = Ok (Some (Call_set [(3, 3)] 9 0))) as Hc'.
    { vm_compute in Hi. injection Hi as <- <-. reflexivity. }
    rewrite Hc' in Hc. injection Hc as <- <- <-. split; [exact Hc'|]. by apply Hk.
Defined.

Lemma committees_catch_up_witness :
  exists c', run_blocks Example.cfg NoneOrigin 1 10 [Some (Some []); Some (Some [(4, 4)])] Example.one = Some c' /\
    epoch (QueuedCommittee c'.1) = 9.
Proof.
  destruct (committees_catch_up Example.cfg NoneOrigin 1 10 Example.one [[]; [(4, 4)]])
    as (c' & Hrun & Hq & _); [reflexivity|exact Example.one_reachable|lia|by compute|].
  exists c'. split; [exact Hrun|exact Hq].
Defined.
