(* ===== verification/Epochs.v ===== *)
(** * Slots and epochs of the partner chain and of Cardano

    Models [src/partner-chains/toolkit/sidechain]: the arithmetic of
    [sidechain-slots/src/lib.rs], the pallet that stores the epoch ([pallet/src/lib.rs] with
    the trait [OnNewEpoch] of [primitives/src/lib.rs]), the epochs of the main chain
    ([domain/src/mainchain_epoch.rs]) and the status that [rpc/src/lib.rs] reports.
    Slots, epochs of the partner chain and times in milliseconds are [u64]; epochs of the
    main chain are [u32].  A division by zero panics. *)

From stdpp Require Import sorting.
From S2P Require Import Prelude Frame.
From stdpp Require Import list.
Open Scope Z_scope.

(** ** [sidechain-slots] *)

Section Slots.
Context {E : Type}.

Definition epoch_number (slot slots_per_epoch : Z) : outcome E Z := div slot slots_per_epoch.

Definition first_slot_number (epoch slots_per_epoch : Z) : Z := wrap 64 (epoch * slots_per_epoch).

Definition slot_number_in_epoch (slot slots_per_epoch : Z) : outcome E Z :=
  let! r := rem slot slots_per_epoch in some_or_panic (try_into_u 32 r).

Definition is_last_slot_of_an_epoch (slot slots_per_epoch : Z) : outcome E bool :=
  let! i := slot_number_in_epoch slot slots_per_epoch in
  Ok (i =? wrap 32 (slots_per_epoch - 1)).
End Slots.

Definition default_slots_per_epoch : Z := 60.

Record ScSlotConfig := { slots_per_epoch : Z; slot_duration : Z }.

(** [sp_consensus_slots]: a slot lasts [slot_duration] milliseconds from the epoch of
    Unix time; the time of a slot that does not fit is [None]. *)
Definition slot_timestamp (slot duration : Z) : option Z := checked_mul 64 duration slot.

Definition slot_from_timestamp {E} (c : ScSlotConfig) (timestamp : Z) : outcome E Z :=
  div timestamp (slot_duration c).
Definition epoch_start_time (c : ScSlotConfig) (epoch : Z) : option Z :=
  slot_timestamp (first_slot_number epoch (slots_per_epoch c)) (slot_duration c).

(** [ScEpochNumber::next] and [prev] *)
Definition sc_epoch_next (e : Z) : Z := wrap 64 (e + 1).
Definition sc_epoch_prev (e : Z) : option Z := checked_sub e 1.

(** ** The pallet *)

Section Sidechain.
Context {UtxoId H : Type}.

(** [OnNewEpoch::on_new_epoch] works on the state [H] of the handlers. *)
Definition Handler := Z -> Z -> H -> Weight * H.

(** The instances for [()] and for tuples. *)
Definition on_new_epoch_unit : Handler := fun _ _ h => (weight_zero, h).
Definition on_new_epoch_pair (f g : Handler) : Handler := fun old_epoch new_epoch h =>
  let '(w1, h) := f old_epoch new_epoch h in
  let '(w2, h) := g old_epoch new_epoch h in
  (weight_add w1 w2, h).

Record Config := { DbWeight : RuntimeDbWeight; OnNewEpoch : Handler }.
Variable cfg : Config.

Record State := {
  EpochNumber : option Z; (* [None]: not yet stored *)
  SlotsPerEpoch : Z;
  GenesisUtxo : UtxoId;
  current_slot_number : Z; (* [T::current_slot_number()] *)
  handlers : H
}.

Definition set_epoch_number e s :=
  {| EpochNumber := e; SlotsPerEpoch := SlotsPerEpoch s; GenesisUtxo := GenesisUtxo s;
     current_slot_number := current_slot_number s; handlers := handlers s |}.
Definition set_slot n s :=
  {| EpochNumber := EpochNumber s; SlotsPerEpoch := SlotsPerEpoch s; GenesisUtxo := GenesisUtxo s;
     current_slot_number := n; handlers := handlers s |}.
Definition set_handlers h s :=
  {| EpochNumber := EpochNumber s; SlotsPerEpoch := SlotsPerEpoch s; GenesisUtxo := GenesisUtxo s;
     current_slot_number := current_slot_number s; handlers := h |}.

Definition genesis_utxo (s : State) : UtxoId := GenesisUtxo s.
Definition current_epoch_number {E} (s : State) : outcome E Z :=
  epoch_number (current_slot_number s) (SlotsPerEpoch s).

Definition build (utxo : UtxoId) (n : Z) (s : State) : State :=
  {| EpochNumber := EpochNumber s; SlotsPerEpoch := n; GenesisUtxo := utxo;
     current_slot_number := current_slot_number s; handlers := handlers s |}.

Definition on_initialize {E} (s : State) : outcome E (Weight * State) :=
  let! real_epoch := current_epoch_number s in
  match EpochNumber s with
  | Some saved_epoch =>
      if negb (saved_epoch =? real_epoch) then
        let s := set_epoch_number (Some real_epoch) s in
        let '(w, h) := OnNewEpoch cfg saved_epoch real_epoch (handlers s) in
        Ok (weight_add w (reads_writes (DbWeight cfg) 2 1), set_handlers h s)
      else Ok (reads_writes (DbWeight cfg) 2 0, s)
  | None => Ok (reads_writes (DbWeight cfg) 2 1, set_epoch_number (Some real_epoch) s)
  end.

(** The hooks of blocks in the given slots. *)
Fixpoint run_blocks {E} (slots : list Z) (s : State) : outcome E State :=
  match slots with
  | [] => Ok s
  | n :: slots' => let! r := on_initialize (set_slot n s) in run_blocks slots' (snd r)
  end.

(** The status of the deprecated runtime API, as the runtime fills it in. *)
Record SidechainStatus := { st_epoch : Z; st_slot : Z; st_slots_per_epoch : Z }.
Definition get_sidechain_status {E} (s : State) : outcome E SidechainStatus :=
  let! e := current_epoch_number s in
  Ok {| st_epoch := e; st_slot := current_slot_number s; st_slots_per_epoch := SlotsPerEpoch s |}.
End Sidechain.
Arguments State : clear implicits.
Arguments Config : clear implicits.

(** ** The main chain *)

Inductive EpochDerivationError := TimestampTooSmall | EpochTooBig | EpochTooSmall | SlotTooSmall.

Record MainchainEpochConfig := {
  epoch_duration_millis : Z;
  slot_duration_millis : Z;
  first_epoch_timestamp_millis : Z;
  first_epoch_number : Z; (* u32 *)
  mc_first_slot_number : Z (* [first_slot_number] *)
}.

Section MainchainEpoch.
Variable c : MainchainEpochConfig.
Notation Res := (outcome EpochDerivationError Z).

Definition mc_slots_per_epoch : Z := epoch_duration_millis c / 1000.

Definition epochs_passed (timestamp : Z) : Res :=
  let! time_elapsed := some_or (checked_sub timestamp (first_epoch_timestamp_millis c)) TimestampTooSmall in
  let! q := div time_elapsed (epoch_duration_millis c) in
  let! res := some_or (try_into_u 32 q) EpochTooBig in
  if 2147483647 <? res then Err EpochTooBig else Ok res.

Definition timestamp_to_mainchain_epoch (timestamp : Z) : Res :=
  let! n := epochs_passed timestamp in Ok (saturating_add 32 (first_epoch_number c) n).

Definition timestamp_to_mainchain_slot_number (timestamp : Z) : Res :=
  let! time_elapsed := some_or (checked_sub timestamp (first_epoch_timestamp_millis c)) TimestampTooSmall in
  let! q := div time_elapsed (slot_duration_millis c) in
  Ok (wrap 64 (mc_first_slot_number c + q)).

Definition mainchain_epoch_to_timestamp (epoch : Z) : Z :=
  let time_elapsed := wrap 64 (epoch_duration_millis c * epoch) in
  wrap 64 (first_epoch_timestamp_millis c + time_elapsed).

Definition first_slot_of_epoch (epoch : Z) : Res :=
  let! n := some_or (checked_sub epoch (first_epoch_number c)) EpochTooSmall in
  let slots_since_first_epoch := wrap 64 (n * mc_slots_per_epoch) in
  Ok (wrap 64 (slots_since_first_epoch + mc_first_slot_number c)).

Definition epoch_for_slot (slot : Z) : Res :=
  let! n := some_or (checked_sub slot (mc_first_slot_number c)) SlotTooSmall in
  let! q := div n mc_slots_per_epoch in
  let! e := some_or (try_into_u 32 q) EpochTooBig in
  Ok (wrap 32 (first_epoch_number c + e)).
End MainchainEpoch.

(** ** The RPC [sidechain_getStatus] *)

(** The second error is never returned; the last one is the RPC's own error code, for a
    failing data source. *)
Inductive GetStatusRpcError :=
| CannotConvertSidechainSlotToTimestamp
| CannotConvertTimestampToMainchainData
| InternalError.

Record ChainData := { epoch : Z; slot : Z; next_epoch_timestamp : Z }.
Record GetStatusResponse := { sidechain : ChainData; mainchain : ChainData }.

(** [McEpochNumber::next] *)
Definition mc_epoch_next (e : Z) : Z := wrap 32 (e + 1).

(** [latest]: epoch and slot of the latest main chain block, from the data source. *)
Definition get_status (sc : ScSlotConfig) (mc : MainchainEpochConfig) (now : Z) (latest : option (Z * Z))
    : outcome GetStatusRpcError GetStatusResponse :=
  let! current_sidechain_slot := slot_from_timestamp sc now in
  let! current_sidechain_epoch := epoch_number current_sidechain_slot (slots_per_epoch sc) in
  let! next := some_or (epoch_start_time sc (sc_epoch_next current_sidechain_epoch))
                 CannotConvertSidechainSlotToTimestamp in
  let! b := some_or latest InternalError in
  Ok {| sidechain := {| epoch := current_sidechain_epoch; slot := current_sidechain_slot;
                        next_epoch_timestamp := next |};
        mainchain := {| epoch := fst b; slot := snd b;
                        next_epoch_timestamp := mainchain_epoch_to_timestamp mc (mc_epoch_next (fst b)) |} |}.

(** ** Lemmas *)

Lemma slot_in_epoch n slot : 0 < n -> slot = n * (slot / n) + slot mod n /\ 0 <= slot mod n < n.
Proof. intros. pose proof (Z.div_mod slot n). pose proof (Z.mod_pos_bound slot n). lia. Qed.

Lemma slot_number_in_epoch_Ok {E} slot n :
  0 < n <= umax 32 -> slot_number_in_epoch (E:=E) slot n = Ok (slot mod n).
Proof.
  intros Hn. unfold slot_number_in_epoch. rewrite rem_Ok by lia. simpl. unfold try_into_u.
  pose proof (slot_in_epoch n slot). by rewrite (proj2 (Z.leb_le _ _)) by lia.
Qed.

(** The epochs of a list of slots that differ from the one before, with it. *)
Fixpoint changes (e : Z) (es : list Z) : list (Z * Z) :=
  match es with
  | [] => []
  | e' :: es' => if e =? e' then changes e es' else (e, e') :: changes e' es'
  end.

Lemma last_default {A} (x : A) l d d' : List.last (x :: l) d = List.last (x :: l) d'.
Proof. revert x. induction l as [|y l IH]; intros x; [done|]. exact (IH y). Qed.

Lemma changes_sorted e es :
  Sorted Z.le (e :: es) -> StronglySorted Z.lt (e :: map snd (changes e es)).
Proof.
  intros Hs. apply Sorted_StronglySorted in Hs; [|intros ???; lia].
  revert e Hs. induction es as [|e' es IH]; intros e Hs; simpl; [repeat constructor|].
  inversion Hs as [|?? Hs' Hf]; subst. inversion Hf as [|?? Hle Hf']; subst.
  destruct (Z.eqb_spec e e') as [->|Hne]; [by apply IH|]. simpl.
  specialize (IH e' Hs'). constructor; [done|]. inversion IH as [|?? _ Hlt]; subst.
  constructor; [lia|]. eapply Forall_impl; [exact Hlt|]. simpl. intros. lia.
Qed.

Section SidechainFacts.
Context {E UtxoId H : Type} (cfg : Config H).
Implicit Types s : State UtxoId H.

Definition handle (h : H) (c : Z * Z) : H := snd (OnNewEpoch cfg (fst c) (snd c) h).

Lemma epoch_hook_Ok s e0 :
  0 < SlotsPerEpoch s -> EpochNumber s = Some e0 ->
  exists w s', on_initialize (E:=E) cfg s = Ok (w, s') /\ SlotsPerEpoch s' = SlotsPerEpoch s /\
    EpochNumber s' = Some (current_slot_number s / SlotsPerEpoch s) /\
    handlers s' = foldl handle (handlers s) (changes e0 [current_slot_number s / SlotsPerEpoch s]).
Proof.
  intros Hn He. unfold on_initialize, current_epoch_number, epoch_number. rewrite div_Ok by done.
  simpl. rewrite He. set (e := _ / _). destruct (Z.eqb_spec e0 e) as [->|Hne]; simpl; [by eauto 10|].
  destruct (OnNewEpoch cfg e0 e (handlers s)) as [w h] eqn:Ho. do 2 eexists. split; [done|].
  simpl. unfold handle. simpl. by rewrite Ho.
Qed.

Lemma changes_app e0 e es : changes e0 (e :: es) = changes e0 [e] ++ changes e es.
Proof. simpl. by destruct (Z.eqb_spec e0 e) as [->|]. Qed.

Lemma run_blocks_Ok slots s e0 :
  0 < SlotsPerEpoch s -> EpochNumber s = Some e0 ->
  exists s', run_blocks (E:=E) cfg slots s = Ok s' /\
    EpochNumber s' = Some (List.last (map (fun n => n / SlotsPerEpoch s) slots) e0) /\
    handlers s' = foldl handle (handlers s) (changes e0 (map (fun n => n / SlotsPerEpoch s) slots)).
Proof.
  revert s e0. induction slots as [|n slots IH]; intros s e0 Hn He; [by eexists|].
  destruct (epoch_hook_Ok (set_slot n s) e0 Hn He) as (w & s1 & Hi & Hn1 & He1 & Hh1).
  cbn [run_blocks map]. rewrite Hi. cbn [obind snd].
  destruct (IH s1 _ ltac:(by rewrite Hn1) He1) as (s' & Hr & He' & Hh').
  simpl in Hn1. exists s'. rewrite Hn1 in *. split; [done|]. simpl in He1, Hh1, He', Hh'.
  rewrite changes_app, foldl_app. split; [|by rewrite Hh', Hh1].
  rewrite He'. destruct (map _ slots) as [|x l] eqn:Hl; [done|]. apply f_equal, (last_default x l).
Qed.
End SidechainFacts.

Lemma mc_elapsed t b d : 0 < d -> b <= t -> t = b + d * ((t - b) / d) + (t - b) mod d /\ 0 <= (t - b) mod d < d.
Proof. intros Hd Hle. pose proof (slot_in_epoch d (t - b) Hd). lia. Qed.

Lemma timestamp_to_mainchain_epoch_Ok c t e :
  0 < epoch_duration_millis c ->
  timestamp_to_mainchain_epoch c t = Ok e ->
  first_epoch_timestamp_millis c <= t /\
  (t - first_epoch_timestamp_millis c) / epoch_duration_millis c <= 2147483647 /\
  e = saturating_add 32 (first_epoch_number c) ((t - first_epoch_timestamp_millis c) / epoch_duration_millis c).
Proof.
  intros Hd. unfold timestamp_to_mainchain_epoch, epochs_passed, checked_sub, try_into_u.
  destruct (Z.leb_spec (first_epoch_timestamp_millis c) t); simpl; [|done].
  rewrite div_Ok by done. simpl. case_match; simpl; [|done]. case_match eqn:Hb; simpl; [done|].
  apply Z.ltb_ge in Hb. intros [= <-]. done.
Qed.

(** ** Properties *)

(** The slots of an epoch are consecutive and partition the slots: a slot is the first
    slot of its epoch plus its number in the epoch, and it is the last slot exactly when
    the next slot belongs to the next epoch. *)
Theorem epochs_partition_slots {E} n slot :
  0 < n <= umax 32 -> 0 <= slot < umax 64 ->
  exists e i, epoch_number (E:=E) slot n = Ok e /\ slot_number_in_epoch (E:=E) slot n = Ok i /\
    0 <= i < n /\ first_slot_number e n + i = slot /\
    (is_last_slot_of_an_epoch (E:=E) slot n = Ok true <-> epoch_number (E:=E) (slot + 1) n = Ok (e + 1)).
Proof.
  intros Hn Hs. pose proof (slot_in_epoch n slot ltac:(lia)) as [Hd Hm].
  pose proof (slot_in_epoch n (slot + 1) ltac:(lia)) as [Hd' Hm'].
  assert (0 <= slot / n) by (apply Z.div_pos; lia).
  exists (slot / n), (slot mod n). unfold epoch_number, is_last_slot_of_an_epoch.
  rewrite !div_Ok, slot_number_in_epoch_Ok by lia. simpl.
  rewrite wrap_small by (unfold in_u; lia). unfold first_slot_number.
  rewrite wrap_small by (unfold in_u; nia).
  split_and!; [done|done|lia|lia|lia|]. split.
  - intros [= Hl%Z.eqb_eq]. f_equal. nia.
  - intros [= Hl]. f_equal. apply Z.eqb_eq. nia.
Qed.

(** From genesis, the handlers of new epochs run exactly once for every change of epoch
    between consecutive blocks, in order and with the old and the new epoch, and not for
    the first block; the stored epoch is the one of the last block; and with slots that do
    not go back every epoch is entered at most once. *)
Theorem epoch_changes_handled_once {E UtxoId H} (cfg : Config H) (s : State UtxoId H) n0 slots :
  0 < SlotsPerEpoch s -> EpochNumber s = None ->
  let epochs := map (fun n => n / SlotsPerEpoch s) slots in
  let e0 := n0 / SlotsPerEpoch s in
  exists s', run_blocks (E:=E) cfg (n0 :: slots) s = Ok s' /\
    EpochNumber s' = Some (List.last epochs e0) /\
    handlers s' = foldl (handle cfg) (handlers s) (changes e0 epochs) /\
    (Sorted Z.le (n0 :: slots) -> StronglySorted Z.lt (e0 :: map snd (changes e0 epochs))).
Proof.
  intros Hn He epochs e0. cbn [run_blocks]. unfold on_initialize, current_epoch_number, epoch_number.
  cbn [current_slot_number SlotsPerEpoch set_slot]. rewrite div_Ok by done. cbn. rewrite He. cbn.
  set (s1 := set_epoch_number _ _).
  destruct (run_blocks_Ok (E:=E) cfg slots s1 e0 Hn eq_refl) as (s' & Hr & He' & Hh').
  exists s'. split; [exact Hr|]. split; [exact He'|]. split; [exact Hh'|].
  intros Hs. apply changes_sorted.
  change (e0 :: epochs) with (map (fun n => n / SlotsPerEpoch s) (n0 :: slots)).
  revert Hs. generalize (n0 :: slots) as l. clear -Hn. induction 1 as [|x l Hl IH Hh]; [constructor|].
  simpl. constructor; [exact IH|]. destruct Hh as [|y l Hxy]; simpl; constructor.
  apply Z.div_le_mono; lia.
Qed.

(** On a main chain whose slots last a second and whose epochs last whole seconds, the
    epoch and the slot that are derived from a time agree: the slot lies in the epoch,
    which starts at the epoch's first slot. *)
Theorem mainchain_slot_in_epoch c t e :
  slot_duration_millis c = 1000 -> 0 < epoch_duration_millis c -> (1000 | epoch_duration_millis c) ->
  0 <= first_epoch_number c -> 0 <= mc_first_slot_number c -> 0 <= first_epoch_timestamp_millis c ->
  mc_first_slot_number c + t <= umax 64 -> e < umax 32 ->
  timestamp_to_mainchain_epoch c t = Ok e ->
  exists slot first, timestamp_to_mainchain_slot_number c t = Ok slot /\ epoch_for_slot c slot = Ok e /\
    first_slot_of_epoch c e = Ok first /\ first <= slot < first + mc_slots_per_epoch c.
Proof.
  intros Hsd Hed [k Hk] Hfe Hfs Hft Hov He Ht.
  apply timestamp_to_mainchain_epoch_Ok in Ht as (Hle & Hb & Hsat); [|done].
  unfold timestamp_to_mainchain_slot_number, epoch_for_slot, first_slot_of_epoch, mc_slots_per_epoch, checked_sub.
  rewrite Hsd, Hk in *. rewrite Z.div_mul by lia. clear Hk.
  rewrite (proj2 (Z.leb_le _ t)) by lia. cbn [some_or obind]. rewrite div_Ok by lia. cbn [obind].
  set (x := t - first_epoch_timestamp_millis c) in *.
  assert (Hq : x / (k * 1000) = x / 1000 / k) by (rewrite Z.div_div by lia; f_equal; lia).
  pose proof (slot_in_epoch 1000 x ltac:(lia)) as [Hx Hxm].
  pose proof (slot_in_epoch k (x / 1000) ltac:(lia)) as [Hy Hym].
  assert (0 <= x / 1000) by (apply Z.div_pos; lia).
  assert (0 <= x / 1000 / k) by (apply Z.div_pos; lia).
  rewrite Hq in *. set (q := x / 1000 / k) in *.
  assert (Hqe : e = first_epoch_number c + q) by (unfold saturating_add in Hsat; lia).
  exists (mc_first_slot_number c + x / 1000), (q * k + mc_first_slot_number c).
  rewrite wrap_small by (unfold in_u; lia).
  rewrite (proj2 (Z.leb_le _ (mc_first_slot_number c + _))) by lia. cbn [some_or obind].
  replace (mc_first_slot_number c + x / 1000 - mc_first_slot_number c) with (x / 1000) by lia.
  rewrite div_Ok by lia. cbn [obind]. fold q. unfold try_into_u.
  assert (q <= umax 32) by (unfold umax; lia). rewrite (proj2 (Z.leb_le q _)) by done. cbn [some_or obind].
  rewrite (proj2 (Z.leb_le _ e)) by lia. cbn [some_or obind].
  rewrite (wrap_small 32) by (unfold in_u; lia).
  replace (e - first_epoch_number c) with q by lia.
  rewrite (wrap_small 64 (q * k)) by (unfold in_u; nia).
  rewrite wrap_small by (unfold in_u; nia).
  split; [done|]. split; [by rewrite Hqe|]. split; [done|]. nia.
Qed.

(** The status that the node reports: the partner chain's slot and epoch are those of
    the time of the query and the announced next epoch starts after it, one epoch later;
    the announced next epoch of the main chain is the start of the epoch
    [first_epoch_number] epochs after the next one, because the conversion of an epoch to
    a time counts from epoch zero. *)
Theorem status_next_epochs sc mc now b_epoch b_slot r :
  0 < slot_duration sc -> 0 < slots_per_epoch sc -> 0 <= now ->
  now + slots_per_epoch sc * slot_duration sc <= umax 64 ->
  0 < epoch_duration_millis mc -> 0 <= b_epoch < 2147483647 ->
  0 <= first_epoch_timestamp_millis mc -> 0 <= first_epoch_number mc ->
  first_epoch_timestamp_millis mc + epoch_duration_millis mc * (b_epoch + 1) <= umax 64 ->
  first_epoch_number mc + b_epoch + 1 <= umax 32 ->
  get_status sc mc now (Some (b_epoch, b_slot)) = Ok r ->
  slot_from_timestamp (E:=unit) sc now = Ok (slot (sidechain r)) /\
  epoch_number (E:=unit) (slot (sidechain r)) (slots_per_epoch sc) = Ok (epoch (sidechain r)) /\
  now < next_epoch_timestamp (sidechain r) /\
  (let! s := slot_from_timestamp (E:=unit) sc (next_epoch_timestamp (sidechain r)) in
   epoch_number s (slots_per_epoch sc)) = Ok (epoch (sidechain r) + 1) /\
  timestamp_to_mainchain_epoch mc (next_epoch_timestamp (mainchain r)) =
    Ok (first_epoch_number mc + (epoch (mainchain r) + 1)).
Proof.
  intros Hd Hn Hnow Hov Hed Hbe Hft Hfe Hmov Hme. unfold get_status, slot_from_timestamp, epoch_number.
  rewrite (div_Ok now) by done. cbn [obind]. rewrite (div_Ok (now / _)) by done. cbn [obind].
  set (d := slot_duration sc) in *. set (n := slots_per_epoch sc) in *.
  pose proof (slot_in_epoch d now Hd) as [Hx Hxm]. pose proof (slot_in_epoch n (now / d) Hn) as [Hy Hym].
  assert (0 <= now / d) by (apply Z.div_pos; lia). assert (0 <= now / d / n) by (apply Z.div_pos; lia).
  set (sl := now / d) in *. set (e := sl / n) in *.
  unfold sc_epoch_next, epoch_start_time, first_slot_number, slot_timestamp, checked_mul. fold d n.
  assert (d * ((e + 1) * n) <= umax 64) by nia.
  rewrite (wrap_small 64 (e + 1)) by (unfold in_u; nia). rewrite wrap_small by (unfold in_u; nia).
  rewrite (proj2 (Z.leb_le _ _)) by done. cbn [some_or obind fst snd]. intros [= <-]. cbn.
  rewrite (div_Ok now), (div_Ok sl), (div_Ok (d * _)) by lia. cbn [obind].
  rewrite (Z.mul_comm d), Z.div_mul by lia. rewrite div_Ok by lia. rewrite Z.div_mul by lia.
  split; [done|]. split; [done|]. split; [nia|]. split; [done|].
  unfold mainchain_epoch_to_timestamp, mc_epoch_next. rewrite (wrap_small 32) by (unfold in_u, umax; lia).
  rewrite (wrap_small 64 (_ * _)) by (unfold in_u; nia). rewrite wrap_small by (unfold in_u; nia).
  unfold timestamp_to_mainchain_epoch, epochs_passed, checked_sub, try_into_u.
  rewrite (proj2 (Z.leb_le _ (_ + _))) by nia. cbn [some_or obind].
  rewrite Z.add_simpl_l, div_Ok, Z.mul_comm, Z.div_mul by lia. cbn [obind].
  rewrite (proj2 (Z.leb_le (b_epoch + 1) _)) by (unfold umax; lia). cbn [some_or obind].
  rewrite (proj2 (Z.ltb_ge _ _)) by lia. cbn [obind]. unfold saturating_add. f_equal. lia.
Qed.

(** ** Concrete instances *)

Lemma epochs_partition_slots_witness :
  exists e i, epoch_number (E:=unit) 119 60 = Ok e /\ slot_number_in_epoch (E:=unit) 119 60 = Ok i /\
    first_slot_number e 60 + i = 119.
Proof.
  destruct (epochs_partition_slots (E:=unit) 60 119) as (e & i & He & Hi & _ & Hs & _);
    [by compute|by compute|]. by exists e, i.
Defined.

Module EpochsExample.
(** A handler that records the changes, and Cardano's preprod network. *)
Definition recording : Config (list (Z * Z)) :=
  {| DbWeight := {| db_read := 1; db_write := 2 |};
     OnNewEpoch := fun a b l => (weight_zero, l ++ [(a, b)]) |}.
Definition s0 : State Z (list (Z * Z)) :=
  {| EpochNumber := None; SlotsPerEpoch := 10; GenesisUtxo := 0; current_slot_number := 0; handlers := [] |}.
Definition preprod : MainchainEpochConfig :=
  {| epoch_duration_millis := 432000000; slot_duration_millis := 1000;
     first_epoch_timestamp_millis := 1655798400000; first_epoch_number := 4; mc_first_slot_number := 86400 |}.
Definition six_seconds : ScSlotConfig := {| slots_per_epoch := 300; slot_duration := 6000 |}.
End EpochsExample.

Lemma epoch_changes_handled_once_witness :
  exists s', run_blocks (E:=unit) EpochsExample.recording [12; 19; 35; 36; 41] EpochsExample.s0 = Ok s' /\
    handlers s' = [(1, 3); (3, 4)].
Proof.
  destruct (epoch_changes_handled_once (E:=unit) EpochsExample.recording EpochsExample.s0 12 [19; 35; 36; 41])
    as (s' & Hr & _ & Hh & _); [by compute|reflexivity|]. exists s'. split; [exact Hr|exact Hh].
Defined.

Lemma mainchain_slot_in_epoch_witness :
  exists slot, timestamp_to_mainchain_slot_number EpochsExample.preprod 1756000000000 = Ok slot /\
    epoch_for_slot EpochsExample.preprod slot = Ok 235.
Proof.
  destruct (mainchain_slot_in_epoch EpochsExample.preprod 1756000000000 235) as (slot & first & Hs & He & _);
    [reflexivity|by compute|by exists 432000|by compute|by compute|by compute|by compute|by compute|reflexivity|].
  by exists slot.
Defined.

(** On preprod the status announces the start of epoch 240 as that of epoch 236. *)
Lemma status_next_epochs_witness :
  exists r, get_status EpochsExample.six_seconds EpochsExample.preprod 1756000000000 (Some (235, 100)) = Ok r /\
    timestamp_to_mainchain_epoch EpochsExample.preprod (next_epoch_timestamp (mainchain r)) = Ok 240.
Proof.
  destruct (get_status EpochsExample.six_seconds EpochsExample.preprod 1756000000000 (Some (235, 100))) as [r|e|] eqn:Hr.
  - exists r. split; [reflexivity|].
    destruct (status_next_epochs EpochsExample.six_seconds EpochsExample.preprod 1756000000000 235 100 r)
      as (_ & _ & _ & _ & Hm); [by compute..|exact Hr|].
    vm_compute in Hr. injection Hr as <-. exact Hm.
  - vm_compute in Hr. discriminate Hr.
  - vm_compute in Hr. discriminate Hr.
Defined.
