(* ===== verification/BlockSearch.v ===== *)
(** * Search of blocks by slot and epoch

    Models [src/partner-chains/toolkit/sidechain/sidechain-block-search/src]: the binary
    search ([binary_search.rs]), the search targets ([impl_compare_strategy.rs]), the
    information about a block ([impl_block_info.rs]) and the queries
    ([impl_find_block.rs]).  The client of the node (the number of the best block, the
    hashes by number and the runtime API) is a parameter.  Block numbers are [u32]. *)

From S2P Require Import Prelude Frame Epochs.

(** ** The search *)

Section Search.
Context {E : Type} (f : Z -> outcome E comparison).

(** The loop of [binary_search_by]; [None]: still running after [fuel] iterations. *)
Fixpoint search_loop (fuel : nat) (left right : Z) : option (option Z) :=
  match fuel with
  | O => None
  | S fuel' =>
      if left <=? right then
        let middle := wrap 32 (left + right) / 2 in
        match f middle with
        | Ok Eq => Some (Some middle)
        | Ok Lt => search_loop fuel' (wrap 32 (middle + 1)) right
        | Ok Gt => search_loop fuel' left (wrap 32 (middle - 1))
        | _ => Some None
        end
      else Some None
  end.

(** Thirty-three iterations are enough for a range of 32-bit numbers, see
    [search_loop_total]. *)
Definition binary_search_by (start stop : Z) : option (option Z) := search_loop 33 start stop.
End Search.

(** ** The client *)

Inductive ApiError (E : Type) :=
| UnknownBlock (block_number : Z)
| Application (* "Could not find block" *)
| Other (e : E).
Arguments UnknownBlock {E}.
Arguments Application {E}.
Arguments Other {E}.

Record Client (E Hash : Type) := {
  best_number : Z;
  hash : Z -> outcome (ApiError E) (option Hash);
  api_sidechain_status : Hash -> outcome (ApiError E) SidechainStatus
}.
Arguments best_number {E Hash}.
Arguments hash {E Hash}.
Arguments api_sidechain_status {E Hash}.

Section BlockSearch.
Context {E Hash : Type} (client : Client E Hash).
Notation Res := (outcome (ApiError E)).

Definition status_of_block (block_number : Z) : Res SidechainStatus :=
  let! h := hash client block_number in
  let! block_hash := some_or h (UnknownBlock block_number) in
  api_sidechain_status client block_hash.
Definition get_slot_of_block (block_number : Z) : Res Z :=
  let! s := status_of_block block_number in Ok (st_slot s).
Definition get_epoch_of_block (block_number : Z) : Res Z :=
  let! s := status_of_block block_number in Ok (st_epoch s).

(** The search targets. *)
Inductive Target :=
| AnyBlockInEpoch (epoch : Z)
| LastBlockInEpoch (epoch : Z)
| AnyBlockInSlotRange (start stop : Z)
| LatestBlockInSlotRange (start stop latest_block : Z).

Definition compare_slot_range (start stop block : Z) : Res comparison :=
  let! slot_of_block := get_slot_of_block block in
  Ok (if slot_of_block <? start then Lt else if stop <=? slot_of_block then Gt else Eq).

Definition compare_block (t : Target) (block : Z) : Res comparison :=
  match t with
  | AnyBlockInEpoch epoch =>
      let! epoch_block := get_epoch_of_block block in Ok (epoch_block ?= epoch)
  | LastBlockInEpoch epoch =>
      let! epoch_block := get_epoch_of_block block in
      match epoch_block ?= epoch with
      | Eq =>
          let! next := get_epoch_of_block (wrap 32 (block + 1)) in
          Ok (match next ?= epoch with Gt => Eq | _ => Lt end)
      | ordering => Ok ordering
      end
  | AnyBlockInSlotRange start stop => compare_slot_range start stop block
  | LatestBlockInSlotRange start stop latest_block =>
      let! current_block_ordering := compare_slot_range start stop block in
      match current_block_ordering with
      | Eq =>
          if block <? latest_block then
            let! next_block_ordering := compare_slot_range start stop (wrap 32 (block + 1)) in
            Ok (match next_block_ordering with Gt => Eq | _ => Lt end)
          else Ok Eq
      | ordering => Ok ordering
      end
  end.

(** [None]: the search has not ended within its iterations. *)
Definition find_block_number (t : Target) : option (Res Z) :=
  (fun r => some_or r Application) <$>
  binary_search_by (compare_block t) 1 (wrap 32 (best_number client + 1)).

Definition find_block (t : Target) : option (Res Hash) :=
  (fun r : Res Z =>
     let! block_number := r in
     let! h := hash client block_number in
     some_or_panic h) <$> find_block_number t.
End BlockSearch.

(** ** The loop *)

Section Loop.
Context {E : Type} (f : Z -> outcome E comparison).

(** The loop ends: every iteration halves the range. *)
Lemma search_loop_total fuel left right :
  1 <= left -> 0 <= right -> left + right <= umax 32 -> right + right < umax 32 ->
  right - left + 1 < 2 ^ Z.of_nat fuel ->
  exists r, search_loop f (S fuel) left right = Some r.
Proof.
  revert left right. induction fuel as [|fuel IH]; intros left right Hl Hr Hs Hrr Hf.
  - exists None. simpl in *. by rewrite (proj2 (Z.leb_gt _ _)) by lia.
  - remember (S fuel) as k eqn:Hk. cbn [search_loop]. subst k. destruct (Z.leb_spec left right); [|by eexists].
    rewrite (wrap_small 32 (left + right)) by (unfold in_u; lia).
    assert (left <= (left + right) / 2 <= right) by (split; [apply Z.div_le_lower_bound|apply Z.div_le_upper_bound]; lia).
    assert (left + right - 1 <= 2 * ((left + right) / 2) <= left + right)
      by (pose proof (Z.div_mod (left + right) 2); pose proof (Z.mod_pos_bound (left + right) 2); lia).
    set (m := (left + right) / 2) in *. rewrite Nat2Z.inj_succ, Z.pow_succ_r in Hf by lia.
    destruct (f m) as [[| |]|e|]; [by eexists| | |by eexists|by eexists].
    + rewrite wrap_small by (unfold in_u; lia). apply IH; lia.
    + rewrite wrap_small by (unfold in_u; lia). apply IH; lia.
Qed.

Lemma search_loop_sound fuel left right m :
  1 <= left -> left + right <= umax 32 -> right + right < umax 32 ->
  search_loop f fuel left right = Some (Some m) -> f m = Ok Eq /\ left <= m <= right.
Proof.
  revert left right. induction fuel as [|fuel IH]; intros left right Hl Hs Hrr; cbn [search_loop]; [done|].
  destruct (Z.leb_spec left right); [|done].
  rewrite (wrap_small 32 (left + right)) by (unfold in_u; lia).
  pose proof (Z.div_mod (left + right) 2). pose proof (Z.mod_pos_bound (left + right) 2).
  set (k := (left + right) / 2) in *.
  destruct (f k) as [[| |]|e|] eqn:Hk; try done; [naive_solver lia| |];
    (rewrite wrap_small by (unfold in_u; lia)); intros Hr; apply IH in Hr as [? ?]; naive_solver lia.
Qed.

(** [f] places every number up to [n] below, at or above the target. *)
Definition places (n : Z) : Prop :=
  (forall i, 1 <= i <= n -> exists c, f i = Ok c) /\
  (forall i j, 1 <= i <= j -> j <= n -> f j = Ok Lt -> f i = Ok Lt) /\
  (forall i j, 1 <= i <= j -> j <= n -> f i = Ok Gt -> f j = Ok Gt).

(** The target is found if it is there; in particular the number after the last one is
    not asked for then. *)
Lemma search_loop_complete n t fuel left right r :
  places n -> f t = Ok Eq -> t <= n ->
  1 <= left <= t -> t <= right <= n + 1 -> n + n + 2 <= umax 32 ->
  search_loop f fuel left right = Some r -> exists m, r = Some m.
Proof.
  intros (Htot & Hlt & Hgt) Ht Hn. revert left right.
  induction fuel as [|fuel IH]; intros left right Hl Hr Hb; cbn [search_loop]; [done|].
  rewrite (proj2 (Z.leb_le left right)) by lia. rewrite (wrap_small 32 (left + right)) by (unfold in_u; lia).
  pose proof (Z.div_mod (left + right) 2). pose proof (Z.mod_pos_bound (left + right) 2).
  set (m := (left + right) / 2) in *. assert (1 <= m <= n) by lia.
  destruct (Htot m) as [[| |] Hm]; [lia|rewrite Hm..]; [naive_solver| |].
  - destruct (decide (t <= m)); [by rewrite (Hlt t m) in Ht by (done || lia)|].
    rewrite wrap_small by (unfold in_u; lia). apply IH; lia.
  - destruct (decide (m <= t)); [by rewrite (Hgt m t) in Ht by (done || lia)|].
    rewrite wrap_small by (unfold in_u; lia). apply IH; lia.
Qed.
End Loop.

(** ** The queries *)

Section Queries.
Context {E Hash : Type} (client : Client E Hash) (ep sl : Z -> Z).

(** What the client knows of a chain whose blocks have the epochs [ep] and the slots [sl]:
    every block up to the best one, and no block after it; slots and epochs do not
    decrease. *)
Record chain_ok : Prop := {
  best_bounds : 1 <= best_number client < 2 ^ 31 - 1;
  blocks_known b : 1 <= b <= best_number client ->
    exists h st, hash client b = Ok (Some h) /\ api_sidechain_status client h = Ok st /\
      st_epoch st = ep b /\ st_slot st = sl b;
  blocks_unknown b : best_number client < b -> hash client b = Ok None;
  epochs_mono i j : 1 <= i <= j -> j <= best_number client -> ep i <= ep j;
  slots_mono i j : 1 <= i <= j -> j <= best_number client -> sl i <= sl j
}.

(** The query finds a block of [P], with its hash, or reports that there is none. *)
Definition answers (t : Target) (P : Z -> Prop) : Prop :=
  (exists b h, find_block_number client t = Some (Ok b) /\ P b /\
     hash client b = Ok (Some h) /\ find_block client t = Some (Ok h)) \/
  (find_block_number client t = Some (Err Application) /\
     find_block client t = Some (Err Application) /\ forall b, ~ P b).

Hypothesis Hchain : chain_ok.
Let best := best_number client.

Lemma epoch_known b : 1 <= b <= best -> get_epoch_of_block client b = Ok (ep b).
Proof.
  intros Hb. destruct (blocks_known Hchain b Hb) as (h & st & Hh & Hst & He & _).
  unfold get_epoch_of_block, status_of_block. rewrite Hh. simpl. rewrite Hst. simpl. by rewrite He.
Qed.
Lemma slot_known b : 1 <= b <= best -> get_slot_of_block client b = Ok (sl b).
Proof.
  intros Hb. destruct (blocks_known Hchain b Hb) as (h & st & Hh & Hst & _ & He).
  unfold get_slot_of_block, status_of_block. rewrite Hh. simpl. rewrite Hst. simpl. by rewrite He.
Qed.
Lemma block_unknown b : best < b -> status_of_block client b = Err (UnknownBlock b).
Proof. intros Hb. unfold status_of_block. by rewrite (blocks_unknown Hchain b Hb). Qed.

Lemma next_block b : 1 <= b <= best -> wrap 32 (b + 1) = b + 1.
Proof. intros Hb. pose proof (best_bounds Hchain). apply wrap_small. unfold in_u, umax. lia. Qed.

(** A target that is met exactly by the blocks of [P] is searched correctly if, when there
    is such a block, it places all blocks. *)
Lemma search_answers t (P : Z -> Prop) :
  (forall b, 1 <= b <= best + 1 -> compare_block client t b = Ok Eq <-> P b) ->
  (forall b, P b -> 1 <= b <= best) ->
  ((exists b, P b) -> places (compare_block client t) best) ->
  answers t P.
Proof.
  intros Heq Hrange Hplaces. pose proof (best_bounds Hchain) as Hb. fold best in Hb.
  unfold answers, find_block, find_block_number, binary_search_by.
  fold best. rewrite wrap_small by (unfold in_u, umax; lia).
  destruct (search_loop_total (compare_block client t) 32 1 (best + 1)) as [r Hr]; [unfold umax; lia..|].
  rewrite Hr. simpl. destruct r as [m|].
  - apply search_loop_sound in Hr as [Hm Hrm]; [|unfold umax; lia..].
    apply Heq in Hm as HP; [|done]. destruct (blocks_known Hchain m) as (h & _ & Hh & _); [by apply Hrange|].
    left. exists m, h. simpl. rewrite Hh. done.
  - right. split; [done|]. split; [done|]. intros b HP. pose proof (Hrange b HP).
    destruct (search_loop_complete _ best b 33 1 (best + 1) None (Hplaces (ex_intro _ b HP))) as [m Hm];
      [apply Heq; [lia|done]|unfold umax; lia..|done|done].
Qed.

Lemma unknown_not_met t : compare_block client t (best + 1) <> Ok Eq.
Proof.
  pose proof (block_unknown (best + 1) ltac:(lia)) as Hu.
  destruct t; simpl; unfold compare_slot_range, get_epoch_of_block, get_slot_of_block; by rewrite Hu.
Qed.

(** It is enough to compare the blocks that exist. *)
Lemma search_answers_known t (P : Z -> Prop) :
  (forall b, 1 <= b <= best -> compare_block client t b = Ok Eq <-> P b) ->
  (forall b, P b -> 1 <= b <= best) ->
  ((exists b, P b) -> places (compare_block client t) best) -> answers t P.
Proof.
  intros Heq Hrange Hplaces. apply search_answers; [|done|done]. intros b Hb.
  destruct (decide (b = best + 1)) as [->|]; [|apply Heq; lia].
  split; [by intros ?%unknown_not_met|]. intros ?%Hrange. lia.
Qed.

Lemma compare_epoch e b : 1 <= b <= best ->
  compare_block client (AnyBlockInEpoch e) b = Ok (ep b ?= e).
Proof. intros Hb. simpl. by rewrite epoch_known. Qed.

Lemma compare_last e b : 1 <= b < best ->
  compare_block client (LastBlockInEpoch e) b =
    Ok (match ep b ?= e with Eq => match ep (b + 1) ?= e with Gt => Eq | _ => Lt end | o => o end).
Proof.
  intros Hb. simpl. rewrite epoch_known by (fold best; lia). simpl. destruct (ep b ?= e); [|done..].
  rewrite next_block, epoch_known by (fold best; lia). done.
Qed.
Lemma compare_last_best e :
  compare_block client (LastBlockInEpoch e) best =
    match ep best ?= e with Eq => Err (UnknownBlock (best + 1)) | o => Ok o end.
Proof.
  pose proof (best_bounds Hchain) as Hb. simpl. rewrite epoch_known by (unfold best in *; lia). simpl.
  destruct (ep best ?= e); [|done..]. unfold get_epoch_of_block.
  rewrite next_block, block_unknown by (unfold best in *; lia). done.
Qed.

Lemma compare_slots a z b : 1 <= b <= best ->
  compare_slot_range client a z b = Ok (if sl b <? a then Lt else if z <=? sl b then Gt else Eq).
Proof. intros Hb. unfold compare_slot_range. by rewrite slot_known. Qed.

(** A comparison that is known for all blocks and goes from [Lt] over [Eq] to [Gt] places them. *)
Lemma places_known (f : Z -> outcome (ApiError E) comparison) (g : Z -> comparison) n :
  (forall b, 1 <= b <= n -> f b = Ok (g b)) ->
  (forall i j, 1 <= i <= j -> j <= n -> g j = Lt -> g i = Lt) ->
  (forall i j, 1 <= i <= j -> j <= n -> g i = Gt -> g j = Gt) -> places f n.
Proof.
  intros Hf Hlt Hgt. split; [intros i Hi; exists (g i); by apply Hf|].
  split; intros i j Hij Hj; rewrite !Hf by lia; intros [= Hg]; f_equal; eauto.
Qed.

Lemma any_epoch_answers e : answers (AnyBlockInEpoch e) (fun b => 1 <= b <= best /\ ep b = e).
Proof.
  apply search_answers_known; [| naive_solver |].
  - intros b Hb. rewrite compare_epoch by done.
    split; [intros [= ?%Z.compare_eq_iff]; done|intros [_ ->]; by rewrite Z.compare_refl].
  - intros _. apply (places_known _ (fun b => ep b ?= e)); [apply compare_epoch|..];
      intros i j Hij Hj; pose proof (epochs_mono Hchain i j Hij Hj).
    + rewrite !Z.compare_lt_iff. lia.
    + rewrite !Z.compare_gt_iff. lia.
Qed.

Lemma last_epoch_answers e :
  answers (LastBlockInEpoch e) (fun b => 1 <= b < best /\ ep b = e /\ e < ep (b + 1)).
Proof.
  assert (Hbest : 1 <= best) by (pose proof (best_bounds Hchain); unfold best; lia).
  set (g b := match ep b ?= e with
              | Eq => match ep (b + 1) ?= e with Gt => Eq | _ => Lt end | o => o end).
  apply search_answers_known; [|lia|].
  - intros b Hb. destruct (decide (b = best)) as [->|].
    + rewrite compare_last_best. destruct (ep best ?= e); naive_solver lia.
    + rewrite compare_last by lia. destruct (Z.compare_spec (ep b) e), (Z.compare_spec (ep (b + 1)) e); naive_solver lia.
  - intros (b0 & Hb0 & He0 & Hn0).
    assert (e < ep best) by (pose proof (epochs_mono Hchain (b0 + 1) best); unfold best in *; lia).
    apply (places_known _ (fun b => if b =? best then Gt else g b)).
    + intros b Hb. destruct (Z.eqb_spec b best) as [->|]; [|apply compare_last; lia].
      rewrite compare_last_best. by rewrite (proj2 (Z.compare_gt_iff _ _)) by lia.
    + intros i j Hij Hj. destruct (Z.eqb_spec j best), (Z.eqb_spec i best); [done..|lia|]. unfold g.
      pose proof (epochs_mono Hchain i j). pose proof (epochs_mono Hchain (i + 1) j). unfold best in *.
      destruct (decide (i = j)) as [->|]; [done|].
      destruct (Z.compare_spec (ep i) e), (Z.compare_spec (ep (i + 1)) e), (Z.compare_spec (ep j) e);
        try done; try lia.
    + intros i j Hij Hj. destruct (Z.eqb_spec j best), (Z.eqb_spec i best); [done..|lia|]. unfold g.
      pose proof (epochs_mono Hchain i j). unfold best in *.
      destruct (Z.compare_spec (ep i) e), (Z.compare_spec (ep (i + 1)) e), (Z.compare_spec (ep j) e);
        try done; try lia.
Qed.

Lemma any_slot_answers a z :
  answers (AnyBlockInSlotRange a z) (fun b => 1 <= b <= best /\ a <= sl b < z).
Proof.
  apply search_answers_known; [|naive_solver|].
  - intros b Hb. simpl. rewrite compare_slots by done.
    destruct (Z.ltb_spec (sl b) a), (Z.leb_spec z (sl b)); naive_solver lia.
  - intros (b0 & _ & Hr).
    apply (places_known _ (fun b => if sl b <? a then Lt else if z <=? sl b then Gt else Eq)); [apply compare_slots|..];
      intros i j Hij Hj; pose proof (slots_mono Hchain i j Hij Hj);
      destruct (Z.ltb_spec (sl i) a), (Z.leb_spec z (sl i)), (Z.ltb_spec (sl j) a), (Z.leb_spec z (sl j)); done || lia.
Qed.

Lemma latest_slot_answers a z :
  answers (LatestBlockInSlotRange a z best)
    (fun b => 1 <= b <= best /\ a <= sl b < z /\ forall b', b < b' <= best -> z <= sl b').
Proof.
  set (g b := if sl b <? a then Lt else if z <=? sl b then Gt else
              if (b <? best) && negb (z <=? sl (b + 1)) then Lt else Eq).
  assert (Hg : forall b, 1 <= b <= best -> a < z ->
    compare_block client (LatestBlockInSlotRange a z best) b = Ok (g b)).
  { intros b Hb Haz. simpl. rewrite compare_slots by done. simpl. unfold g.
    destruct (Z.ltb_spec (sl b) a), (Z.leb_spec z (sl b)); try done.
    destruct (Z.ltb_spec b best); [|done]. rewrite next_block, compare_slots by (fold best; lia). simpl.
    pose proof (slots_mono Hchain b (b + 1)). unfold best in *.
    destruct (Z.ltb_spec (sl (b + 1)) a), (Z.leb_spec z (sl (b + 1))); done || lia. }
  destruct (decide (a < z)) as [Haz|Haz].
  - apply search_answers_known; [|naive_solver|].
    + intros b Hb. rewrite Hg by done. unfold g.
      destruct (Z.ltb_spec (sl b) a), (Z.leb_spec z (sl b)); [naive_solver lia..|].
      destruct (Z.ltb_spec b best); simpl; [destruct (Z.leb_spec z (sl (b + 1))); simpl|].
      * split; [intros _|done]. split; [done|]. split; [lia|]. intros b' Hb'.
        pose proof (slots_mono Hchain (b + 1) b'). unfold best in *. lia.
      * split; [done|]. intros (_ & _ & Hm). specialize (Hm (b + 1)). lia.
      * split; [intros _|done]. split; [done|]. split; [lia|]. lia.
    + intros _. apply (places_known _ g); [by intros; apply Hg|..];
        intros i j Hij Hj; pose proof (slots_mono Hchain i j Hij Hj); unfold g.
      * pose proof (slots_mono Hchain (i + 1) j). unfold best in *. destruct (decide (i = j)) as [->|]; [done|].
        destruct (Z.ltb_spec (sl i) a), (Z.leb_spec z (sl i)), (Z.ltb_spec (sl j) a), (Z.leb_spec z (sl j)),
          (Z.ltb_spec i (best_number client)), (Z.leb_spec z (sl (i + 1))); simpl; done || lia.
      * destruct (Z.ltb_spec (sl i) a), (Z.leb_spec z (sl i)), (Z.ltb_spec (sl j) a), (Z.leb_spec z (sl j));
          try done; try lia; destruct (_ && _); done.
  - apply search_answers_known; [|naive_solver|intros (b & _ & ? & _); lia].
    intros b Hb. simpl. rewrite compare_slots by done. simpl.
    destruct (Z.ltb_spec (sl b) a), (Z.leb_spec z (sl b)); naive_solver lia.
Qed.
End Queries.

(** ** Properties *)

(** On a chain whose slots and epochs do not decrease every query ends within
    thirty-three comparisons and is exact: it returns a block that meets the target, and
    its hash, or reports that there is none.  The targets are: any block of an epoch; the
    last block of an epoch after which a later epoch has begun; any block in a range of
    slots; and the latest such block of the chain. *)
Theorem block_search_exact {E Hash} (client : Client E Hash) (ep sl : Z -> Z) :
  chain_ok client ep sl ->
  let best := best_number client in
  (forall e, answers client (AnyBlockInEpoch e) (fun b => 1 <= b <= best /\ ep b = e)) /\
  (forall e, answers client (LastBlockInEpoch e) (fun b => 1 <= b < best /\ ep b = e /\ e < ep (b + 1))) /\
  (forall a z, answers client (AnyBlockInSlotRange a z) (fun b => 1 <= b <= best /\ a <= sl b < z)) /\
  (forall a z, answers client (LatestBlockInSlotRange a z best)
     (fun b => 1 <= b <= best /\ a <= sl b < z /\ forall b', b < b' <= best -> z <= sl b')).
Proof.
  intros Hc. split; [|split; [|split]]; intros.
  - by apply (any_epoch_answers _ _ sl).
  - by apply (last_epoch_answers _ _ sl).
  - by apply (any_slot_answers _ ep).
  - by apply (latest_slot_answers _ ep).
Qed.

(** ** A concrete chain: block [b] in slot [3 b], ten slots to an epoch. *)

Module BlockSearchExample.
Definition client : Client unit Z :=
  {| best_number := 40;
     hash b := Ok (if (0 <=? b) && (b <=? 40) then Some (1000 + b) else None);
     api_sidechain_status h :=
       Ok {| st_epoch := 3 * (h - 1000) / 10; st_slot := 3 * (h - 1000); st_slots_per_epoch := 10 |} |}.

Lemma client_ok : chain_ok client (fun b => 3 * b / 10) (fun b => 3 * b).
Proof.
  split; simpl.
  - lia.
  - intros b Hb. rewrite (proj2 (Z.leb_le 0 b)), (proj2 (Z.leb_le b 40)) by lia. simpl.
    do 2 eexists. split; [done|]. split; [done|]. simpl. replace (1000 + b - 1000) with b by lia. done.
  - intros b Hb. by rewrite (proj2 (Z.leb_gt b 40)), andb_false_r by lia.
  - intros. apply Z.div_le_mono; lia.
  - lia.
Qed.

(** The bound [latest_block] is only looked at below it: with all blocks in the range, and
    20 as the bound, block 21 is returned. *)
Lemma latest_block_is_no_upper_bound :
  find_block_number client (LatestBlockInSlotRange 0 1000 20) = Some (Ok 21).
Proof. reflexivity. Qed.
End BlockSearchExample.

Lemma block_search_exact_witness :
  answers BlockSearchExample.client (AnyBlockInEpoch 4) (fun b => 1 <= b <= 40 /\ 3 * b / 10 = 4) /\
  find_block_number BlockSearchExample.client (LastBlockInEpoch 4) = Some (Ok 16) /\
  find_block_number BlockSearchExample.client (LastBlockInEpoch 12) = Some (Err Application).
Proof.
  split; [|split; reflexivity].
  exact (proj1 (block_search_exact _ _ _ BlockSearchExample.client_ok) 4).
Defined.
