(* ===== verification/McHash.v ===== *)
(** * The main chain reference of a block

    Models [src/partner-chains/toolkit/sidechain/sidechain-mc-hash/src/lib.rs]: how a block's
    author selects the stable Cardano block that the block refers to, how an importing
    node verifies the reference, and the digest item that carries it.  Where a node reads
    Cardano is the class [McHashDataSource]; [CardanoBlocks] implements it.  Hashes are
    lists of bytes. *)

From stdpp Require Import sorting.
From S2P Require Import Prelude Frame Epochs.
From stdpp Require Import list.
Open Scope Z_scope.

Definition Bytes := list Z.
Definition McBlockHash := Bytes.

Record MainchainBlock := {
  number : Z; (* u32 *)
  hash : McBlockHash;
  mb_epoch : Z;
  mb_slot : Z;
  timestamp : Z (* seconds *)
}.

Inductive StableBlockByHashResult :=
| BlockNotFound
| BlockTimestampOutRange (info : MainchainBlock)
| NotEnoughConfirmations (info : MainchainBlock)
| BlockStable (info : MainchainBlock).

(** The trait [McHashDataSource]; [S] is the state of the source, timestamps are in
    milliseconds. *)
Class McHashDataSource (S Err : Type) := {
  get_latest_stable_block_for : Z -> M S Err (option MainchainBlock);
  get_stable_block_for : McBlockHash -> Z -> M S Err StableBlockByHashResult;
  get_block_by_hash : McBlockHash -> M S Err (option MainchainBlock);
  is_cardano_tip_fresh : M S Err bool;
  is_cardano_ok : M S Err bool
}.

(** ** The digest *)

Inductive DigestItem :=
| PreRuntime (id : Bytes) (data : Bytes)
| OtherDigestItem.

Inductive DigestErr := MultipleHashes | InvalidHash (data : Bytes) | HashMissing.

(** The bytes of "mcsh" *)
Definition MC_HASH_DIGEST_ID : Bytes := [109; 99; 115; 104].

Definition from_mc_block_hash (mc_block_hash : McBlockHash) : list DigestItem :=
  [PreRuntime MC_HASH_DIGEST_ID mc_block_hash].

(** The loop of [value_from_digest]; a hash has 32 bytes. *)
Fixpoint digest_value (digest : list DigestItem) (found : option McBlockHash) : outcome DigestErr McBlockHash :=
  match digest with
  | [] => some_or found HashMissing
  | PreRuntime id data :: digest' =>
      if bool_decide (id = MC_HASH_DIGEST_ID) then
        match found with
        | Some _ => Err MultipleHashes
        | None => if len data =? 32 then digest_value digest' (Some data) else Err (InvalidHash data)
        end
      else digest_value digest' found
  | OtherDigestItem :: digest' => digest_value digest' found
  end.
Definition value_from_digest (digest : list DigestItem) : outcome DigestErr McBlockHash :=
  digest_value digest None.

Inductive InherentDigestErr := DataNotDecoded | DataMissing.

(** [d]: what [InherentData::get_data] returns for the inherent's identifier *)
Definition from_inherent_data (d : option (option McBlockHash)) : outcome InherentDigestErr (list DigestItem) :=
  match d with
  | None => Err DataNotDecoded
  | Some None => Err DataMissing
  | Some (Some mc_hash) => Ok (from_mc_block_hash mc_hash)
  end.

Inductive HeaderErr := HeaderNotRetrieved | HeaderMissing | HeaderDigest (e : DigestErr).

(** [header]: the number and the digest of the header that the client finds *)
Definition get_mc_hash_for_block (header : option (option (Z * list DigestItem)))
    : outcome HeaderErr (option McBlockHash) :=
  let! h := some_or header HeaderNotRetrieved in
  let! h := some_or h HeaderMissing in
  if fst h =? 0 then Ok None
  else let! value := map_err HeaderDigest (value_from_digest (snd h)) in Ok (Some value).

(** ** The inherent data provider *)

Section Provider.
Context {S DsErr : Type} `{!McHashDataSource S DsErr}.

Record McHashInherentDataProvider := {
  mc_block : MainchainBlock;
  previous_mc_block : option MainchainBlock
}.

Inductive McHashInherentError :=
| DataSourceError (e : DsErr)
| StableBlockNotFound (timestamp : Z)
| SlotTooBig
| McStateReferenceInvalid (h : McBlockHash) (slot timestamp : Z)
| McStateReferenceRegressed (h : McBlockHash) (slot n parent_n : Z)
| DigestError (e : DigestErr)
| StableBlockNotFoundByHash (h : McBlockHash)
| AwaitingCardanoData (h : McBlockHash).

Notation Prov := (M S McHashInherentError).

Definition new_proposal (parent_digest : list DigestItem) (slot slot_duration : Z)
    : Prov McHashInherentDataProvider :=
  let* slot_start_timestamp := ok_or (slot_timestamp slot slot_duration) SlotTooBig in
  let* latest := with_err DataSourceError (get_latest_stable_block_for slot_start_timestamp) in
  let* block := ok_or latest (StableBlockNotFound slot_start_timestamp) in
  match value_from_digest parent_digest with
  | Ok parent_mc_hash =>
      let* parent := with_err DataSourceError (get_block_by_hash parent_mc_hash) in
      let* parent_stable_mc_block := ok_or parent (StableBlockNotFoundByHash parent_mc_hash) in
      if number parent_stable_mc_block <=? number block
      then ret {| mc_block := block; previous_mc_block := Some parent_stable_mc_block |}
      else ret {| mc_block := parent_stable_mc_block; previous_mc_block := Some parent_stable_mc_block |}
  | _ => ret {| mc_block := block; previous_mc_block := None |}
  end.

Inductive BlockHashClassification :=
| Stable (b : MainchainBlock)
| AwaitingCardano
| Invalid.

Definition classify_block_hash (mc_hash : McBlockHash) (timestamp : Z) : Prov BlockHashClassification :=
  let* r := with_err DataSourceError (get_stable_block_for mc_hash timestamp) in
  match r with
  | BlockStable info => ret (Stable info)
  | BlockTimestampOutRange _ => ret Invalid
  | NotEnoughConfirmations _ =>
      let* fresh := with_err DataSourceError is_cardano_tip_fresh in
      ret (if fresh : bool then Invalid else AwaitingCardano)
  | BlockNotFound =>
      let* ok := with_err DataSourceError is_cardano_ok in
      ret (if ok : bool then Invalid else AwaitingCardano)
  end.

Definition new_verification (parent_digest : list DigestItem) (parent_slot : option Z)
    (verified_block_slot : Z) (reference : McBlockHash) (slot_duration : Z)
    : Prov McHashInherentDataProvider :=
  let* timestamp := ok_or (slot_timestamp verified_block_slot slot_duration) SlotTooBig in
  let* c := classify_block_hash reference timestamp in
  match c with
  | AwaitingCardano => throw (AwaitingCardanoData reference)
  | Invalid => throw (McStateReferenceInvalid reference verified_block_slot timestamp)
  | Stable reference_block =>
      match parent_slot with
      | None => ret {| mc_block := reference_block; previous_mc_block := None |}
      | Some _ =>
          let* parent_mc_hash :=
            match value_from_digest parent_digest with
            | Ok h => ret h
            | Err e => throw (DigestError e)
            | Panic => panic
            end in
          let* parent := with_err DataSourceError (get_block_by_hash parent_mc_hash) in
          let* parent_block := expect parent in
          if number reference_block <? number parent_block
          then throw (McStateReferenceRegressed reference verified_block_slot
                        (number reference_block) (number parent_block))
          else ret {| mc_block := reference_block; previous_mc_block := Some parent_block |}
      end
  end.

Definition mc_epoch (p : McHashInherentDataProvider) : Z := mb_epoch (mc_block p).
Definition mc_block_number (p : McHashInherentDataProvider) : Z := number (mc_block p).
Definition mc_hash (p : McHashInherentDataProvider) : McBlockHash := hash (mc_block p).
Definition previous_mc_hash (p : McHashInherentDataProvider) : option McBlockHash :=
  hash <$> previous_mc_block p.

(** [InherentDataProvider::provide_inherent_data]: what is put under the identifier. *)
Definition provide_inherent_data (p : McHashInherentDataProvider) : McBlockHash := hash (mc_block p).
End Provider.
Arguments McHashInherentError : clear implicits.

(** ** What a data source promises

    A view is what a source answers while the main chain that it sees does not change;
    [None] where it refuses to answer. *)

Record View := {
  v_latest : Z -> option (option MainchainBlock);
  v_stable : McBlockHash -> Z -> option StableBlockByHashResult;
  v_by_hash : McBlockHash -> option MainchainBlock;
  v_fresh : option bool;
  v_ok : option bool
}.

(** A source implements a view if, from the states of [Inv], it answers accordingly and
    stays in [Inv]. *)
Definition answers_with {S E A} (Inv : S -> Prop) (m : M S E A) (o : option A) : Prop :=
  forall s, Inv s ->
  match o with
  | Some a => exists s', m s = Ok (a, s') /\ Inv s'
  | None => exists e, m s = Err e
  end.

Class Implements (S Err : Type) `{!McHashDataSource S Err} (v : View) (Inv : S -> Prop) := {
  impl_latest ts : answers_with Inv (get_latest_stable_block_for (Err:=Err) ts) (v_latest v ts);
  impl_stable h ts : answers_with Inv (get_stable_block_for (Err:=Err) h ts) (v_stable v h ts);
  impl_by_hash h : answers_with Inv (get_block_by_hash (Err:=Err) h) (Some (v_by_hash v h));
  impl_fresh : answers_with Inv (is_cardano_tip_fresh (Err:=Err)) (v_fresh v);
  impl_ok : answers_with Inv (is_cardano_ok (Err:=Err)) (v_ok v)
}.

(** The latest stable block is stable; a stable block has the hash that it was asked for
    and is found by it; and a block that was stable for an earlier time is still stable if
    the latest stable block is not after it. *)
Class ViewLaws (v : View) := {
  latest_is_stable ts b : v_latest v ts = Some (Some b) -> v_stable v (hash b) ts = Some (BlockStable b);
  stable_is_found h ts b : v_stable v h ts = Some (BlockStable b) -> hash b = h /\ v_by_hash v h = Some b;
  stable_stays h ts0 ts b0 b :
    v_stable v h ts0 = Some (BlockStable b0) -> ts0 <= ts -> v_latest v ts = Some (Some b) ->
    number b <= number b0 -> v_stable v h ts = Some (BlockStable b0)
}.

Lemma answers_bind {S E F A B} (Inv : S -> Prop) (f : E -> F) (m : M S E A) o (k : A -> M S F B) (o' : option B) :
  answers_with Inv m o -> (forall a, o = Some a -> answers_with Inv (k a) o') ->
  (o = None -> o' = None) -> answers_with Inv (let* x := with_err f m in k x) o'.
Proof.
  intros Hm Hk Hn s Hs. specialize (Hm s Hs). unfold bind, with_err. destruct o as [a|].
  - destruct Hm as (s1 & -> & Hs1). by apply (Hk a).
  - destruct Hm as [e ->]. rewrite Hn by done. by eexists.
Qed.

Lemma answers_ret {S E A} (Inv : S -> Prop) (a : A) : answers_with Inv (ret (E:=E) a) (Some a).
Proof. intros s Hs. by exists s. Qed.

(** What a computation that answers was seen to answer. *)
Lemma answers_inv {S E F A B} (Inv : S -> Prop) (f : E -> F) (m : M S E A) o (k : A -> M S F B) b s s' :
  answers_with Inv m o -> Inv s -> (let* x := with_err f m in k x) s = Ok (b, s') ->
  exists a s1, o = Some a /\ Inv s1 /\ k a s1 = Ok (b, s').
Proof.
  intros Hm Hs. specialize (Hm s Hs). unfold bind, with_err. destruct o as [a|].
  - destruct Hm as (s1 & -> & Hs1). eauto.
  - by destruct Hm as [e ->].
Qed.

Section ProviderFacts.
Context {S DsErr : Type} `{!McHashDataSource S DsErr} (v : View) (Inv : S -> Prop) `{!Implements S DsErr v Inv}.
Notation Err := (McHashInherentError DsErr).

Definition classification (h : McBlockHash) (ts : Z) : option BlockHashClassification :=
  r ← v_stable v h ts;
  match r with
  | BlockStable info => Some (Stable info)
  | BlockTimestampOutRange _ => Some Invalid
  | NotEnoughConfirmations _ => (fun b : bool => if b then Invalid else AwaitingCardano) <$> v_fresh v
  | BlockNotFound => (fun b : bool => if b then Invalid else AwaitingCardano) <$> v_ok v
  end.

Lemma classify_answers h ts :
  answers_with Inv (classify_block_hash (DsErr:=DsErr) h ts) (classification h ts).
Proof.
  unfold classify_block_hash, classification. eapply answers_bind; [apply impl_stable| |by intros ->].
  intros r ->. simpl. destruct r; [|apply answers_ret| |apply answers_ret].
  - eapply answers_bind; [apply impl_ok| |by intros ->]. intros b ->. apply answers_ret.
  - eapply answers_bind; [apply impl_fresh| |by intros ->]. intros b ->. apply answers_ret.
Qed.

(** A reference that is verified is stable for the block's time and not before the one of
    the parent. *)
Lemma new_verification_inv pd parent_slot slot h d s p s' :
  Inv s -> new_verification (DsErr:=DsErr) pd parent_slot slot h d s = Ok (p, s') ->
  exists ts, slot_timestamp slot d = Some ts /\ v_stable v h ts = Some (BlockStable (mc_block p)) /\
    (parent_slot = None -> previous_mc_block p = None) /\
    (parent_slot <> None -> exists ph pb, value_from_digest pd = Ok ph /\ v_by_hash v ph = Some pb /\
       previous_mc_block p = Some pb /\ number pb <= number (mc_block p)).
Proof.
  intros Hs. unfold new_verification. destruct (slot_timestamp slot d) as [ts|]; [|done].
  unfold ok_or at 1. intros Hv. exists ts. split; [done|].
  unfold bind at 1, ret at 1 in Hv. apply bind_Ok_inv in Hv as (c & s1 & Hc & Hv).
  pose proof (classify_answers h ts s Hs) as Ha.
  destruct (classification h ts) as [c'|] eqn:Hcl; [|destruct Ha as [e Ha]; congruence].
  destruct Ha as (s1' & Ha & Hs1). rewrite Ha in Hc. injection Hc as <- <-. unfold classification in Hcl.
  destruct c' as [b| |]; [|done..].
  assert (v_stable v h ts = Some (BlockStable b)) as ->.
  { destruct (v_stable v h ts) as [[| | |]|]; simpl in Hcl; [|done| |congruence|done].
    - by destruct (v_ok v) as [[]|].
    - by destruct (v_fresh v) as [[]|]. }
  destruct parent_slot as [ps|]; [|injection Hv as <- <-; split; [done|]; split; [done|by intros []]].
  destruct (value_from_digest pd) as [ph|e|]; [|done..].
  unfold bind at 1, ret at 1 in Hv.
  apply (answers_inv Inv _ _ _ _ _ _ _ (impl_by_hash ph)) in Hv as (o & s2 & [= <-] & Hs2 & Hv); [|done].
  unfold bind, expect in Hv. destruct (v_by_hash v ph) as [pb|] eqn:Hpb; [|done]. cbn in Hv.
  destruct (Z.ltb_spec (number b) (number pb)); [done|]. injection Hv as <- <-.
  split; [done|]. split; [done|]. intros _. by exists ph, pb.
Qed.
End ProviderFacts.

(** What a successful proposal proposes. *)
Section ProposalFacts.
Context {S DsErr : Type} `{!McHashDataSource S DsErr} (v : View) (Inv : S -> Prop) `{!Implements S DsErr v Inv}.

Lemma new_proposal_inv pd slot d s p s' :
  Inv s -> new_proposal (DsErr:=DsErr) pd slot d s = Ok (p, s') ->
  exists ts b, slot_timestamp slot d = Some ts /\ v_latest v ts = Some (Some b) /\
    match value_from_digest pd with
    | Ok ph => exists pb, v_by_hash v ph = Some pb /\ previous_mc_block p = Some pb /\
                 mc_block p = if number pb <=? number b then b else pb
    | _ => p = {| mc_block := b; previous_mc_block := None |}
    end.
Proof.
  intros Hs. unfold new_proposal. destruct (slot_timestamp slot d) as [ts|]; [|done].
  unfold ok_or at 1. intros Hv. unfold bind at 1, ret at 1 in Hv.
  apply (answers_inv Inv _ _ _ _ _ _ _ (impl_latest ts)) in Hv as (o & s1 & Hb & Hs1 & Hv); [|done].
  destruct o as [b|]; [|done]. unfold bind at 1, ok_or at 1, ret at 1 in Hv.
  exists ts, b. split; [done|]. split; [done|].
  destruct (value_from_digest pd) as [ph|e|]; [|by injection Hv as <- <-..].
  apply (answers_inv Inv _ _ _ _ _ _ _ (impl_by_hash ph)) in Hv as (o & s2 & [= <-] & Hs2 & Hv); [|done].
  unfold bind, ok_or in Hv. destruct (v_by_hash v ph) as [pb|]; [|done]. cbn in Hv.
  destruct (number pb <=? number b) eqn:Hc; injection Hv as <- <-; exists pb; (split; [done|]); cbn; by rewrite Hc.
Qed.

(** A stable reference that is not before the parent's is verified. *)
Lemma new_verification_Ok pd parent_slot slot h d s ts b :
  Inv s -> slot_timestamp slot d = Some ts -> v_stable v h ts = Some (BlockStable b) ->
  match parent_slot with
  | None => True
  | Some _ => exists ph pb, value_from_digest pd = Ok ph /\ v_by_hash v ph = Some pb /\ number pb <= number b
  end ->
  exists s', new_verification (DsErr:=DsErr) pd parent_slot slot h d s =
    Ok ({| mc_block := b;
           previous_mc_block := match parent_slot, value_from_digest pd with
                                | Some _, Ok ph => v_by_hash v ph | _, _ => None end |}, s').
Proof.
  intros Hs Hts Hb Hp. unfold new_verification. rewrite Hts. unfold ok_or. unfold bind at 1, ret at 1.
  pose proof (classify_answers (DsErr:=DsErr) v Inv h ts s Hs) as Ha. unfold classification in Ha.
  rewrite Hb in Ha. simpl in Ha. destruct Ha as (s1 & Ha & Hs1). unfold bind at 1. rewrite Ha.
  destruct parent_slot as [ps|]; [|by eexists]. destruct Hp as (ph & pb & Hd & Hph & Hle). rewrite Hd.
  unfold bind at 1, ret at 1. destruct (impl_by_hash (Err:=DsErr) ph s1 Hs1) as (s2 & Hg & Hs2).
  unfold bind, with_err. rewrite Hg, Hph. cbn. rewrite (proj2 (Z.ltb_ge _ _)) by done. by eexists.
Qed.
End ProposalFacts.

(** ** Properties *)

(** C30: a block's author and an importing node that see the same main chain agree: the
    reference that the author proposes passes the verification, which finds the same two
    Cardano blocks, provided that the parent's reference was stable for the parent's slot
    and slots do not go back.  In particular this holds when the latest stable block is
    before the parent's reference and the author repeats the latter. *)
Theorem proposed_reference_is_verified {S1 S2 DsErr} `{!McHashDataSource S1 DsErr, !McHashDataSource S2 DsErr}
    (v : View) `{!ViewLaws v} (Inv1 : S1 -> Prop) (Inv2 : S2 -> Prop)
    `{!Implements S1 DsErr v Inv1, !Implements S2 DsErr v Inv2}
    pd parent_slot slot d s1 s2 p s1' :
  0 <= d -> Inv1 s1 -> Inv2 s2 ->
  match parent_slot with
  | None => exists e, value_from_digest pd = Err e
  | Some ps => ps <= slot /\ exists ph ts0 pb, value_from_digest pd = Ok ph /\
                 slot_timestamp ps d = Some ts0 /\ v_stable v ph ts0 = Some (BlockStable pb)
  end ->
  new_proposal (DsErr:=DsErr) pd slot d s1 = Ok (p, s1') ->
  exists s2', new_verification (DsErr:=DsErr) pd parent_slot slot (provide_inherent_data p) d s2 = Ok (p, s2').
Proof.
  intros Hd Hs1 Hs2 Hparent Hp.
  destruct (new_proposal_inv v Inv1 _ _ _ _ _ _ Hs1 Hp) as (ts & b & Hts & Hb & Hcase).
  unfold provide_inherent_data. destruct parent_slot as [ps|].
  - destruct Hparent as (Hps & ph & ts0 & pb & Hph & Hts0 & Hpb). rewrite Hph in Hcase.
    destruct Hcase as (pb' & Hpb' & Hprev & Hblock).
    destruct (stable_is_found ph ts0 pb Hpb) as [Hhash Hfound].
    assert (pb' = pb) as -> by congruence.
    assert (ts0 <= ts).
    { unfold slot_timestamp, checked_mul in Hts, Hts0.
      destruct (_ <=? _) in Hts; [|done]. destruct (_ <=? _) in Hts0; [|done]. simplify_eq. nia. }
    destruct (new_verification_Ok (DsErr:=DsErr) v Inv2 pd (Some ps) slot (hash (mc_block p)) d s2 ts (mc_block p))
      as [s2' Hv]; [done|done| |exists ph, pb; split; [done|]; split; [done|]|].
    + rewrite Hblock. destruct (Z.leb_spec (number pb) (number b)); [by apply latest_is_stable|].
      rewrite Hhash. eapply stable_stays; [done..|lia].
    + rewrite Hblock. destruct (Z.leb_spec (number pb) (number b)); lia.
    + exists s2'. rewrite Hv, Hph, Hfound, <- Hprev. by destruct p.
  - destruct Hparent as [e He]. rewrite He in Hcase. subst p. simpl.
    destruct (new_verification_Ok (DsErr:=DsErr) v Inv2 pd None slot (hash b) d s2 ts b) as [s2' Hv];
      [done|done|by apply latest_is_stable|done|]. by exists s2'.
Qed.

(** The headers that a node has imported, newest first, with the Cardano blocks that they
    refer to; each was verified with the data source as it was then.  [V] are the states
    of the source and what it answers in them. *)
Inductive imported {S DsErr} (V : McHashDataSource S DsErr -> View -> (S -> Prop) -> Prop)
    : list (list DigestItem * MainchainBlock) -> Prop :=
| imported_first pd d src v Inv slot h dur s p s' :
    V src v Inv -> Inv s -> value_from_digest d = Ok h ->
    new_verification (McHashDataSource0:=src) pd None slot h dur s = Ok (p, s') ->
    imported V [(d, mc_block p)]
| imported_next d pd pb l src v Inv ps slot h dur s p s' :
    imported V ((pd, pb) :: l) -> V src v Inv -> Inv s -> value_from_digest d = Ok h ->
    new_verification (McHashDataSource0:=src) pd (Some ps) slot h dur s = Ok (p, s') ->
    imported V ((d, mc_block p) :: (pd, pb) :: l).

Lemma imported_digests {S DsErr} (V : McHashDataSource S DsErr -> View -> (S -> Prop) -> Prop) l :
  (forall src v Inv, V src v Inv -> @Implements S DsErr src v Inv /\ ViewLaws v) ->
  imported V l ->
  Forall (fun x => exists src v Inv, V src v Inv /\ value_from_digest (fst x) = Ok (hash (snd x)) /\
            v_by_hash v (hash (snd x)) = Some (snd x)) l.
Proof.
  intros HV. induction 1 as [pd d src v Inv slot h dur s p s' Hv Hs Hd Hver|
                             d pd pb l src v Inv ps slot h dur s p s' _ IH Hv Hs Hd Hver].
  all: destruct (HV src v Inv Hv) as [? ?].
  all: destruct (new_verification_inv v Inv _ _ _ _ _ _ _ _ Hs Hver) as (ts & _ & Hst & _).
  all: destruct (stable_is_found h ts _ Hst) as [<- Hf].
  all: constructor; [by exists src, v, Inv|exact IH || constructor].
Qed.

(** C31: the references of a chain never go back: along the headers that a node imports,
    each verified against the main chain as the node saw it then, the numbers of the
    referenced Cardano blocks do not decrease.  A hash identifies one Cardano block. *)
Theorem references_never_regress {S DsErr} (V : McHashDataSource S DsErr -> View -> (S -> Prop) -> Prop) l :
  (forall src v Inv, V src v Inv -> @Implements S DsErr src v Inv /\ ViewLaws v) ->
  (forall src v Inv src' v' Inv' h b b', V src v Inv -> V src' v' Inv' ->
     v_by_hash v h = Some b -> v_by_hash v' h = Some b' -> b = b') ->
  imported V l ->
  StronglySorted (fun x y => number (snd y) <= number (snd x)) l.
Proof.
  intros HV Hagree Himp. apply Sorted_StronglySorted; [intros ???; lia|].
  induction Himp as [|d pd pb l src v Inv ps slot h dur s p s' Hl IH Hv Hs Hd Hver]; [repeat constructor|].
  constructor; [done|]. constructor. simpl.
  destruct (HV src v Inv Hv) as [? ?].
  destruct (new_verification_inv v Inv _ _ _ _ _ _ _ _ Hs Hver) as (ts & _ & _ & _ & Hpar).
  destruct Hpar as (ph & b & Hph & Hb & _ & Hle); [done|].
  apply (imported_digests V _ HV) in Hl. inversion Hl as [|?? (src0 & v0 & Inv0 & Hv0 & Hd0 & Hf0) _]; subst. simpl in *.
  assert (ph = hash pb) as -> by congruence.
  by rewrite (Hagree src0 v0 Inv0 src v Inv _ _ _ Hv0 Hv Hf0 Hb).
Qed.
