(* ===== verification/CardanoBlocks.v ===== *)
(** * The source of Cardano blocks

    Models [src/partner-chains/toolkit/data-sources/db-sync/src]: [block/mod.rs], the queries
    on blocks of [db_model.rs] and the wrapper [mc_hash/mod.rs].  A block is selected or
    verified by the number of its confirmations and by its age; blocks found stable are
    cached by hash.  The database is a parameter: the rows of the table [block] at each
    query of a call, or [None] when the query fails.  Times are in milliseconds. *)

From stdpp Require Import sorting.
From S2P Require Import Prelude Frame Epochs McHash.
From stdpp Require Import list.
Open Scope Z_scope.

Record Block := {
  block_no : Z; (* u32 *)
  b_hash : McBlockHash;
  epoch_no : Z;
  slot_no : Z;
  time : Z
}.

#[export] Instance block_eq_dec : EqDecision Block.
Proof. solve_decision. Defined.

(** [From<Block> for MainchainBlock]: a time before 1970 panics. *)
Definition mainchain_block (b : Block) : MainchainBlock :=
  {| number := block_no b; hash := b_hash b; mb_epoch := epoch_no b; mb_slot := slot_no b;
     timestamp := time b / 1000 |}.
Definition to_mainchain_block {S E} (b : Block) : M S E MainchainBlock :=
  do* assert_ (0 <=? time b / 1000) in ret (mainchain_block b).

(** ** The queries *)

Definition Table := list Block.

(** [ORDER BY block_no DESC LIMIT 1] *)
Definition highest (t : Table) : option Block :=
  foldr (fun b r => match r with
                    | Some b' => if block_no b' <? block_no b then Some b else Some b'
                    | None => Some b
                    end) None t.

Definition no_le (a b : Block) : Prop := block_no a <= block_no b.
#[local] Instance no_le_dec : RelDecision no_le := fun a b => decide (block_no a <= block_no b).

Definition q_latest_block_info (t : Table) : option Block := highest t.
Definition q_blocks_by_numbers (from to : Z) (t : Table) : list Block :=
  merge_sort no_le (filter (fun b => from <= block_no b /\ block_no b <= to) t).
Definition q_highest_block (max_block min_time min_slot max_time max_slot : Z) (t : Table) : option Block :=
  highest (filter (fun b => block_no b <= max_block /\ min_slot <= slot_no b /\ slot_no b <= max_slot /\
                            min_time <= time b /\ time b <= max_time) t).
Definition q_block_by_hash (h : McBlockHash) (t : Table) : option Block :=
  head (filter (fun b => b_hash b = h) t).

(** ** The data source *)

Inductive DataSourceErr :=
| SqlxError
| ExpectedDataNotFound
| BadRequest
| InternalDataSourceError
| StableBlockUnavailable. (* a [StableBlockByHashError] that is passed on *)

Inductive StableBlockByHashError :=
| Database
| HashNotFound (h : McBlockHash)
| LatestBlockUnavailable (h : McBlockHash)
| NotStableYet (h : McBlockHash) (required_latest_block_no latest_block_no : Z) (block : Block)
| TimestampOutOfRange (h : McBlockHash) (min_allowed_time max_allowed_time reference_timestamp : Z) (block : Block).

Record BlockDataSourceConfig := {
  security_parameter : Z; (* u32 *)
  min_slot_boundary : Z; (* [min_slot_boundary_as_seconds], in milliseconds *)
  max_slot_boundary : Z;
  mainchain_epoch_config : MainchainEpochConfig;
  block_stability_margin : Z; (* u32 *)
  max_latest_block_age_seconds : Z;
  cache_size : Z; (* u16 *)
  (** [DateTime::from_timestamp_millis]: which times the calendar can represent *)
  representable : Z -> bool
}.

(** [stable_blocks_cache]; the mutex is not poisoned. *)
Record Cache := { from_last_by_hash : list Block }.
Definition find_by_hash (h : McBlockHash) (c : Cache) : option Block :=
  head (filter (fun b => b_hash b = h) (from_last_by_hash c)).
Definition update (blocks : list Block) (c : Cache) : Cache := {| from_last_by_hash := blocks |}.

Section Source.
Variable cfg : BlockDataSourceConfig.
(** The rows that the [i]-th query of the call sees, and the time of the call. *)
Variable db : nat -> option Table.
Variable now : Z.

Notation Src := (M Cache DataSourceErr).

Definition query {E A} (e : E) (i : nat) (f : Table -> A) : M Cache E A :=
  let* t := ok_or (db i) e in ret (f t).

Definition get_latest_block_info (i : nat) : Src MainchainBlock :=
  let* r := query SqlxError i q_latest_block_info in
  match r with
  | Some b => to_mainchain_block b
  | None => throw ExpectedDataNotFound
  end.

Definition timestamp_to_db_type (timestamp : Z) : Src Z :=
  do* ensure ((timestamp <=? 2 ^ 63 - 1) && representable cfg timestamp) BadRequest in ret timestamp.

Definition date_time_to_slot (dt : Z) : Src Z :=
  do* ensure (0 <=? dt) BadRequest in
  match timestamp_to_mainchain_slot_number (mainchain_epoch_config cfg) dt with
  | Ok slot => ret slot
  | Err _ => ret (mc_first_slot_number (mainchain_epoch_config cfg))
  | Panic => panic
  end.

Definition min_block_allowed_time (reference_timestamp : Z) : Z := reference_timestamp - max_slot_boundary cfg.
Definition max_allowed_block_time (reference_timestamp : Z) : Z := reference_timestamp - min_slot_boundary cfg.
Definition is_stable_block_time_valid (block : Block) (timestamp : Z) : bool :=
  (min_block_allowed_time timestamp <=? time block) && (time block <=? max_allowed_block_time timestamp).

Definition get_latest_block (i : nat) (max_block reference_timestamp : Z) : Src (option Block) :=
  let min_time := min_block_allowed_time reference_timestamp in
  let* min_slot := date_time_to_slot min_time in
  let max_time := max_allowed_block_time reference_timestamp in
  let* max_slot := date_time_to_slot max_time in
  query SqlxError i (q_highest_block max_block min_time min_slot max_time max_slot).

(** [block.map(From::from)] *)
Definition map_block {S E} (o : option Block) : M S E (option MainchainBlock) :=
  match o with
  | Some b => let* m := to_mainchain_block b in ret (Some m)
  | None => ret None
  end.

Definition src_latest_stable_block_for (reference_timestamp : Z) : Src (option MainchainBlock) :=
  let* reference_timestamp := timestamp_to_db_type reference_timestamp in
  let* latest := get_latest_block_info 0 in
  let offset := wrap 32 (security_parameter cfg + block_stability_margin cfg) in
  let stable := saturating_sub (number latest) offset in
  let* block := get_latest_block 1 stable reference_timestamp in
  map_block block.

Definition get_stable_block_by_hash_from_cache (h : McBlockHash) (reference_timestamp : Z) : Src (option Block) :=
  let* c := get in
  ret (match find_by_hash h c with
       | Some block => if is_stable_block_time_valid block reference_timestamp then Some block else None
       | None => None
       end).

Definition get_stable_block_by_hash_from_db (h : McBlockHash) (reference_timestamp : Z)
    : M Cache StableBlockByHashError Block :=
  let* latest := query Database 0 q_latest_block_info in
  let* latest_block := ok_or latest (LatestBlockUnavailable h) in
  let* block := query Database 1 (q_block_by_hash h) in
  let* block := ok_or block (HashNotFound h) in
  let required_latest_block_no := saturating_add 32 (block_no block) (security_parameter cfg) in
  let is_stable := required_latest_block_no <=? block_no latest_block in
  do* ensure (is_stable_block_time_valid block reference_timestamp)
        (TimestampOutOfRange h (min_block_allowed_time reference_timestamp)
           (max_allowed_block_time reference_timestamp) reference_timestamp block) in
  do* ensure is_stable (NotStableYet h required_latest_block_no (block_no latest_block) block) in
  ret block.

(** Its queries are the third and the fourth of the call. *)
Definition fill_cache (from_block : Block) : Src unit :=
  let from_block_no := block_no from_block in
  let* latest := query SqlxError 2 q_latest_block_info in
  let* latest_block := ok_or latest InternalDataSourceError in
  let stable_block_num := saturating_sub (block_no latest_block) (security_parameter cfg) in
  let to_block_no := Z.min (saturating_add 32 from_block_no (cache_size cfg)) stable_block_num in
  let* blocks :=
    if from_block_no <? to_block_no
    then query SqlxError 3 (q_blocks_by_numbers from_block_no to_block_no)
    else ret [from_block] in
  modify (update blocks).

Definition get_stable_block_by_hash (h : McBlockHash) (reference_timestamp : Z) : Src StableBlockByHashResult :=
  let* cached := get_stable_block_by_hash_from_cache h reference_timestamp in
  match cached with
  | Some block => let* info := to_mainchain_block block in ret (BlockStable info)
  | None => fun c =>
      match get_stable_block_by_hash_from_db h reference_timestamp c with
      | Ok (block, c) =>
          (do* fill_cache block in let* info := to_mainchain_block block in ret (BlockStable info)) c
      | Err (HashNotFound _) => Ok (BlockNotFound, c)
      | Err (TimestampOutOfRange _ _ _ _ block) =>
          (let* info := to_mainchain_block block in ret (BlockTimestampOutRange info)) c
      | Err (NotStableYet _ _ _ block) =>
          (let* info := to_mainchain_block block in ret (NotEnoughConfirmations info)) c
      | Err Database | Err (LatestBlockUnavailable _) => Err StableBlockUnavailable
      | Panic => Panic
      end
  end.

Definition src_stable_block_for (h : McBlockHash) (reference_timestamp : Z) : Src StableBlockByHashResult :=
  let* reference_timestamp := timestamp_to_db_type reference_timestamp in
  get_stable_block_by_hash h reference_timestamp.

Definition src_block_by_hash (h : McBlockHash) : Src (option MainchainBlock) :=
  let* c := get in
  let* block_opt :=
    match find_by_hash h c with
    | Some block => ret (Some block)
    | None => query SqlxError 0 (q_block_by_hash h)
    end in
  map_block block_opt.

(** [now]: the time source, in milliseconds; the age is counted in seconds *)
Definition is_block_fresh (block : MainchainBlock) : bool :=
  saturating_sub (now / 1000) (timestamp block) <? max_latest_block_age_seconds cfg.

Definition src_cardano_tip_fresh : Src bool :=
  let* block := get_latest_block_info 0 in ret (is_block_fresh block).

Definition src_cardano_ok : Src bool :=
  let* current_time := timestamp_to_db_type now in
  let* r := query SqlxError 0 q_latest_block_info in
  match r with
  | None => ret false
  | Some latest =>
      if time latest <? current_time - min_slot_boundary cfg then ret false
      else
        let stable := saturating_sub (block_no latest) (security_parameter cfg) in
        let* block := get_latest_block 1 stable current_time in
        ret (match block with Some _ => true | None => false end)
  end.

(** [mc_hash/mod.rs]: the trait's methods are those of the block source. *)
Definition db_sync_source : McHashDataSource Cache DataSourceErr := {|
  get_latest_stable_block_for := src_latest_stable_block_for;
  get_stable_block_for := src_stable_block_for;
  get_block_by_hash := src_block_by_hash;
  is_cardano_tip_fresh := src_cardano_tip_fresh;
  is_cardano_ok := src_cardano_ok
|}.
End Source.

(** ** Queries and the rows they find *)

Lemma highest_spec t b : highest t = Some b -> b ∈ t /\ forall a, a ∈ t -> block_no a <= block_no b.
Proof.
  revert b. induction t as [|x t IH]; intros b; [done|]. cbn [highest foldr].
  change (foldr _ None t) with (highest t). destruct (highest t) as [y|] eqn:Hy.
  - destruct (IH y eq_refl) as [Hin Hmax]. destruct (Z.ltb_spec (block_no y) (block_no x)); intros [= <-].
    + split; [left|]. intros a [->|Ha]%elem_of_cons; [lia|]. specialize (Hmax a Ha). lia.
    + split; [by right|]. intros a [->|Ha]%elem_of_cons; [lia|auto].
  - intros [= <-]. destruct t as [|z t]; [|simpl in Hy; repeat case_match; done].
    split; [left|]. intros a [->|Ha]%elem_of_cons; [lia|by apply not_elem_of_nil in Ha].
Qed.

Lemma highest_None t : highest t = None -> t = [].
Proof. destruct t as [|x t]; [done|]. simpl. repeat case_match; done. Qed.

Lemma highest_unique t b :
  (forall x y, x ∈ t -> y ∈ t -> block_no x = block_no y -> x = y) ->
  b ∈ t -> (forall a, a ∈ t -> block_no a <= block_no b) -> highest t = Some b.
Proof.
  intros Hu Hb Hmax. destruct (highest t) as [x|] eqn:Hx.
  - apply highest_spec in Hx as [Hin Hx]. f_equal. apply Hu; [done..|].
    pose proof (Hmax x Hin). pose proof (Hx b Hb). lia.
  - apply highest_None in Hx as ->. by apply not_elem_of_nil in Hb.
Qed.

Lemma by_hash_spec h t b : q_block_by_hash h t = Some b -> b ∈ t /\ b_hash b = h.
Proof.
  unfold q_block_by_hash. intros Hb. apply head_Some in Hb as [l Hl].
  assert (b ∈ filter (fun b => b_hash b = h) t) as [? ?]%list_elem_of_filter by (rewrite Hl; left). done.
Qed.

Lemma to_mainchain_block_Ok {S E} (b : Block) (s : S) :
  0 <= time b -> to_mainchain_block (E:=E) b s = Ok (mainchain_block b, s).
Proof.
  intros Hb. unfold to_mainchain_block. unfold_m. rewrite (proj2 (Z.leb_le _ _)); [done|].
  apply Z.div_pos; lia.
Qed.

Section Tables.
Variable cfg : BlockDataSourceConfig.
Let k := security_parameter cfg.
Let mc := mainchain_epoch_config cfg.

(** What Db-Sync promises of its table: numbers and hashes identify the rows, times grow
    with the numbers, and all blocks between the first and the latest are there.  The slots
    of blocks from the configured first epoch on are derived from their times.  On main
    networks this is not the first epoch of Cardano: the blocks before it are in the table,
    with earlier slots of another length. *)
Record table_ok (t : Table) : Prop := {
  numbers_unique a b : a ∈ t -> b ∈ t -> block_no a = block_no b -> a = b;
  hashes_unique a b : a ∈ t -> b ∈ t -> b_hash a = b_hash b -> a = b;
  times_mono a b : a ∈ t -> b ∈ t -> block_no a <= block_no b -> time a <= time b;
  rows_bounds a : a ∈ t -> 0 <= block_no a < 2 ^ 31 /\ 0 <= time a < 2 ^ 63;
  slots_derived a : a ∈ t -> first_epoch_timestamp_millis mc <= time a ->
    slot_no a = mc_first_slot_number mc + (time a - first_epoch_timestamp_millis mc) / slot_duration_millis mc;
  slots_before a : a ∈ t -> time a < first_epoch_timestamp_millis mc -> slot_no a < mc_first_slot_number mc;
  no_gaps a l n : a ∈ t -> highest t = Some l -> block_no a <= n <= block_no l -> exists b, b ∈ t /\ block_no b = n
}.

(** A chain on which the subtractions of the confirmations do not saturate *)
Definition long_enough (t : Table) : Prop :=
  forall l, highest t = Some l -> k + block_stability_margin cfg <= block_no l.

Record config_ok : Prop := {
  security_bounds : 0 <= k < 2 ^ 31 /\ 0 <= block_stability_margin cfg < 2 ^ 31;
  boundaries : 0 <= min_slot_boundary cfg <= max_slot_boundary cfg;
  slots_positive : 0 < slot_duration_millis mc /\ 0 <= first_epoch_timestamp_millis mc /\
    0 <= mc_first_slot_number mc < 2 ^ 63;
  cache_bounds : 0 <= cache_size cfg < 2 ^ 16
}.

(** A block with [k] confirmations. *)
Definition stable_in (t : Table) (b : Block) : Prop :=
  b ∈ t /\ exists l, highest t = Some l /\ block_no b + k <= block_no l.

Definition cache_ok (t : Table) (c : Cache) : Prop := Forall (stable_in t) (from_last_by_hash c).

(** The main chain may roll back, but not blocks with [k] confirmations, and no blocks are
    added before the first one. *)
Record grows (t t' : Table) : Prop := {
  grows_stable b : stable_in t b -> stable_in t' b;
  grows_after b : b ∈ t' -> t <> [] -> exists a, a ∈ t /\ block_no a <= block_no b
}.

Lemma grows_refl t : grows t t.
Proof. split; [done|]. intros b Hb _. exists b. done. Qed.

Lemma cache_ok_grows t t' c : grows t t' -> cache_ok t c -> cache_ok t' c.
Proof. intros Hg Hc. eapply Forall_impl; [exact Hc|]. intros b Hb. by apply (grows_stable _ _ Hg). Qed.

(** A row of a later table whose number is below the latest one of the earlier table by
    [k] is stable: the earlier table has a block of that number, which stays. *)
Lemma stable_across t t' l b :
  table_ok t -> table_ok t' -> grows t t' ->
  highest t = Some l -> b ∈ t' -> block_no b + k <= block_no l -> 0 <= k -> stable_in t' b.
Proof.
  intros Ht Ht' Hg Hl Hb Hle Hk.
  destruct (grows_after _ _ Hg b Hb) as (a & Ha & Hab); [by intros ->|].
  destruct (no_gaps t Ht a l (block_no b) Ha Hl ltac:(lia)) as (b0 & Hb0 & Hno).
  assert (stable_in t' b0) as Hs by (apply (grows_stable _ _ Hg); split; [done|]; exists l; split; [done|lia]).
  assert (b0 = b) as -> by (apply (numbers_unique t' Ht'); [apply Hs|done|done]). done.
Qed.

Lemma cached_stable t c h b : cache_ok t c -> find_by_hash h c = Some b -> stable_in t b /\ b_hash b = h.
Proof.
  unfold find_by_hash. intros Hc Hb. apply head_Some in Hb as [l Hl].
  assert (b ∈ filter (fun b => b_hash b = h) (from_last_by_hash c)) as [? Hin]%list_elem_of_filter by (rewrite Hl; left).
  split; [|done]. unfold cache_ok in Hc. rewrite Forall_forall in Hc. by apply Hc.
Qed.
End Tables.

(** ** Answers are stable, whatever happens to the database meanwhile *)

Section Races.
Context (cfg : BlockDataSourceConfig) (db : nat -> option Table) (tb : nat -> Table).
Hypothesis Hcfg : config_ok cfg.
Hypothesis Hdb : forall i t, db i = Some t -> t = tb i.
Hypothesis Htb : forall i, table_ok cfg (tb i).
Hypothesis Hgrows : forall i, grows cfg (tb i) (tb (S i)).

Lemma query_inv {E A} (e : E) i (f : Table -> A) c a c' :
  query db e i f c = Ok (a, c') -> a = f (tb i) /\ c' = c.
Proof.
  unfold query. unfold_m. destruct (db i) as [t|] eqn:Hi; [|done]. apply Hdb in Hi as ->. naive_solver.
Qed.

Lemma required_latest a b : 0 <= block_no a < 2 ^ 31 -> block_no b < 2 ^ 31 ->
  saturating_add 32 (block_no a) (security_parameter cfg) <=? block_no b =
  (block_no a + security_parameter cfg <=? block_no b).
Proof.
  intros Ha Hb. destruct (security_bounds _ Hcfg) as [Hk _]. unfold saturating_add, umax in *.
  destruct (Z.leb_spec (block_no a + security_parameter cfg) (block_no b)).
  - apply Z.leb_le. lia.
  - apply Z.leb_gt. lia.
Qed.

Lemma from_db_stable h ts c b c' :
  get_stable_block_by_hash_from_db cfg db h ts c = Ok (b, c') ->
  c' = c /\ stable_in cfg (tb 1) b /\ b_hash b = h /\ is_stable_block_time_valid cfg b ts = true.
Proof.
  unfold get_stable_block_by_hash_from_db. intros H.
  apply bind_Ok_inv in H as (l & c1 & [-> ->]%query_inv & H).
  destruct (q_latest_block_info (tb 0)) as [l|] eqn:Hl; [|done]. unfold bind at 1, ok_or at 1, ret at 1 in H.
  apply bind_Ok_inv in H as (o & c1 & [-> ->]%query_inv & H).
  destruct (q_block_by_hash h (tb 1)) as [b1|] eqn:Hb; [|done]. unfold bind at 1, ok_or at 1, ret at 1 in H.
  unfold_m. destruct (is_stable_block_time_valid cfg b1 ts) eqn:Hv; [|done].
  apply by_hash_spec in Hb as [Hin Hh]. apply highest_spec in Hl as Hl'.
  destruct (rows_bounds _ _ (Htb 1) b1 Hin) as [? _]. destruct (rows_bounds _ _ (Htb 0) l ltac:(apply Hl')) as [? _].
  rewrite required_latest in H by lia.
  destruct (Z.leb_spec (block_no b1 + security_parameter cfg) (block_no l)); [|done].
  injection H as <- <-. split; [done|]. split; [|done].
  eapply (stable_across cfg (tb 0)); [done..|]. apply (security_bounds _ Hcfg).
Qed.

Lemma fill_cache_stable b c u c' :
  stable_in cfg (tb 1) b -> fill_cache cfg db b c = Ok (u, c') -> cache_ok cfg (tb 3) c'.
Proof.
  intros Hb H. apply (grows_stable _ _ _ (Hgrows 1)) in Hb. unfold fill_cache in H.
  apply bind_Ok_inv in H as (o & c1 & [-> ->]%query_inv & H).
  destruct (q_latest_block_info (tb 2)) as [l|] eqn:Hl; [|done]. unfold bind at 1, ok_or at 1, ret at 1 in H.
  apply bind_Ok_inv in H as (blocks & c1 & Hq & H). injection H as _ <-. unfold cache_ok. simpl.
  destruct Hb as [Hin (l' & Hl' & Hle)]. unfold q_latest_block_info in Hl. assert (l' = l) as -> by congruence.
  destruct (_ <? _) in Hq.
  - apply query_inv in Hq as [-> _]. apply Forall_forall. intros x Hx.
    unfold q_blocks_by_numbers in Hx. rewrite merge_sort_Permutation in Hx.
    apply list_elem_of_filter in Hx as [[_ Hto] Hx].
    destruct (rows_bounds _ _ (Htb 2) b Hin) as [? _]. destruct (security_bounds _ Hcfg) as [Hk _].
    unfold saturating_sub in Hto.
    eapply (stable_across cfg (tb 2)); [done..|lia|lia].
  - injection Hq as <- _. constructor; [|constructor]. apply (grows_stable _ _ _ (Hgrows 2)). split; [done|]. by exists l.
Qed.

Lemma stable_by_hash_sound h ts c r c' :
  cache_ok cfg (tb 0) c -> get_stable_block_by_hash cfg db h ts c = Ok (r, c') ->
  cache_ok cfg (tb 3) c' /\
  forall info, r = BlockStable info -> exists b, stable_in cfg (tb 3) b /\ b_hash b = h /\
    info = mainchain_block b /\ is_stable_block_time_valid cfg b ts = true.
Proof.
  intros Hc H.
  assert (Hc3 : cache_ok cfg (tb 3) c) by (do 3 (eapply cache_ok_grows; [apply Hgrows|]); exact Hc).
  assert (Hto : forall {E} b (s s' : Cache) m, to_mainchain_block (E:=E) b s = Ok (m, s') -> m = mainchain_block b /\ s' = s).
  { intros E b s s' m. unfold to_mainchain_block. unfold_m. destruct (_ <=? _); naive_solver. }
  unfold get_stable_block_by_hash, get_stable_block_by_hash_from_cache in H.
  unfold bind at 1 2, get, ret at 1 in H.
  destruct (find_by_hash h c) as [b|] eqn:Hf; [destruct (is_stable_block_time_valid cfg b ts) eqn:Hv|].
  1: { apply bind_Ok_inv in H as (m & c1 & [-> ->]%Hto & H). injection H as <- <-. split; [done|].
    intros info [= <-]. destruct (cached_stable cfg (tb 3) c h b Hc3 Hf). by exists b. }
  all: destruct (get_stable_block_by_hash_from_db cfg db h ts c) as [[b' c1]|[]|] eqn:Hg; try done;
    try (apply bind_Ok_inv in H as (m & c2 & [-> ->]%Hto & H); injection H as <- <-; done);
    try (injection H as <- <-; done).
  all: apply from_db_stable in Hg as (-> & Hst & Hh & Hv').
  all: apply bind_Ok_inv in H as (u & c2 & Hfill & H).
  all: apply fill_cache_stable in Hfill; [|done].
  all: apply bind_Ok_inv in H as (m & c3 & [-> ->]%Hto & H); injection H as <- <-.
  all: split; [done|]; intros info [= <-]; exists b'; split; [|done];
    apply (grows_stable _ _ _ (Hgrows 2)), (grows_stable _ _ _ (Hgrows 1)); done.
Qed.
End Races.

(** ** The view of a table

    What the source answers without its cache, in terms of the rows. *)

Section ViewOf.
Context (cfg : BlockDataSourceConfig) (t : Table) (now : Z).

Definition time_ok (ts : Z) : bool := (ts <=? 2 ^ 63 - 1) && representable cfg ts.
Definition window_ok (ts : Z) : bool :=
  (0 <=? min_block_allowed_time cfg ts) && (0 <=? max_allowed_block_time cfg ts).

(** The highest block up to a number and of a valid age; blocks before the first epoch of the
    configuration are never selected *)
Definition highest_up_to (n ts : Z) : option Block :=
  highest (filter (fun b => block_no b <= n /\ is_stable_block_time_valid cfg b ts = true /\
                            first_epoch_timestamp_millis (mainchain_epoch_config cfg) <= time b) t).

Definition classified (h : McBlockHash) (ts : Z) (l : Block) : StableBlockByHashResult :=
  match q_block_by_hash h t with
  | None => BlockNotFound
  | Some b =>
      if negb (is_stable_block_time_valid cfg b ts) then BlockTimestampOutRange (mainchain_block b)
      else if block_no b + security_parameter cfg <=? block_no l then BlockStable (mainchain_block b)
      else NotEnoughConfirmations (mainchain_block b)
  end.

Definition view_of : View := {|
  v_latest ts :=
    if time_ok ts && window_ok ts then
      l ← highest t;
      Some (mainchain_block <$>
            highest_up_to (saturating_sub (block_no l) (security_parameter cfg + block_stability_margin cfg)) ts)
    else None;
  v_stable h ts :=
    if time_ok ts then
      classified h ts <$> highest t
    else None;
  v_by_hash h := mainchain_block <$> q_block_by_hash h t;
  v_fresh := l ← highest t; Some (is_block_fresh cfg now (mainchain_block l));
  v_ok :=
    if time_ok now then
      match highest t with
      | None => Some false
      | Some l =>
          if time l <? now - min_slot_boundary cfg then Some false
          else if window_ok now
          then Some (bool_decide (is_Some (highest_up_to (saturating_sub (block_no l) (security_parameter cfg)) now)))
          else None
      end
    else None
|}.

Hypothesis Hcfg : config_ok cfg.
Hypothesis Ht : table_ok cfg t.

Lemma by_hash_Some h b : q_block_by_hash h t = Some b <-> b ∈ t /\ b_hash b = h.
Proof.
  split; [apply by_hash_spec|]. intros [Hin Hh]. destruct (q_block_by_hash h t) as [b'|] eqn:Hb.
  - apply by_hash_spec in Hb as [? ?]. f_equal. apply (hashes_unique _ _ Ht); congruence.
  - unfold q_block_by_hash in Hb. apply head_None in Hb.
    assert (b ∈ filter (fun b => b_hash b = h) t) as Hf by (by apply list_elem_of_filter).
    rewrite Hb in Hf. by apply not_elem_of_nil in Hf.
Qed.

Lemma highest_row l : highest t = Some l -> l ∈ t /\ 0 <= block_no l < 2 ^ 31 /\ 0 <= time l.
Proof.
  intros [Hin _]%highest_spec. destruct (rows_bounds _ _ Ht l Hin). split; [done|]. lia.
Qed.

(** A cached block is one that the view finds stable. *)
Lemma cached_view c h b :
  cache_ok cfg t c -> find_by_hash h c = Some b ->
  q_block_by_hash h t = Some b /\ exists l, highest t = Some l /\ block_no b + security_parameter cfg <= block_no l.
Proof.
  intros Hc Hf. destruct (cached_stable cfg t c h b Hc Hf) as [[Hin Hl] Hh].
  split; [by apply by_hash_Some|done].
Qed.

Lemma slot_of_time dt c :
  0 <= dt < 2 ^ 63 -> exists s, date_time_to_slot cfg dt c = Ok (s, c) /\ mc_first_slot_number (mainchain_epoch_config cfg) <= s /\
    forall a, a ∈ t -> first_epoch_timestamp_millis (mainchain_epoch_config cfg) <= time a ->
      (dt <= time a -> s <= slot_no a) /\ (time a <= dt -> slot_no a <= s).
Proof.
  intros Hdt. destruct (slots_positive _ Hcfg) as (Hd & Hf & Hs). unfold date_time_to_slot. unfold_m.
  rewrite (proj2 (Z.leb_le 0 dt)) by lia. unfold timestamp_to_mainchain_slot_number, checked_sub.
  set (mc := mainchain_epoch_config cfg) in *.
  destruct (Z.leb_spec (first_epoch_timestamp_millis mc) dt) as [Hle|Hgt]; cbn [some_or obind].
  - rewrite div_Ok by done. cbn [obind].
    assert (0 <= (dt - first_epoch_timestamp_millis mc) / slot_duration_millis mc <= dt).
    { split; [apply Z.div_pos; lia|]. apply Z.div_le_upper_bound; nia. }
    rewrite wrap_small by (unfold in_u, umax; lia). eexists. split; [done|]. split; [lia|]. intros a Ha Hfa.
    rewrite (slots_derived _ _ Ht a Ha Hfa). fold mc.
    split; intros; apply Z.add_le_mono_l, Z.div_le_mono; lia.
  - eexists. split; [done|]. split; [done|]. intros a Ha Hfa. rewrite (slots_derived _ _ Ht a Ha Hfa). fold mc.
    assert (0 <= (time a - first_epoch_timestamp_millis mc) / slot_duration_millis mc) by (apply Z.div_pos; lia).
    split; lia.
Qed.

(** The restriction to slots, there for the index, leaves out the blocks before the first
    epoch, and no others. *)
Lemma get_latest_block_Ok i n ts c :
  time_ok ts = true -> window_ok ts = true ->
  get_latest_block cfg (fun _ => Some t) i n ts c = Ok (highest_up_to n ts, c).
Proof.
  unfold time_ok, window_ok. rewrite !andb_true_iff, !Z.leb_le. intros [Hts _] [Hmin Hmax].
  destruct (boundaries _ Hcfg). unfold get_latest_block.
  unfold min_block_allowed_time, max_allowed_block_time in *.
  destruct (slot_of_time (ts - max_slot_boundary cfg) c) as (s1 & Hs1 & Hfirst & Hlo); [lia|].
  destruct (slot_of_time (ts - min_slot_boundary cfg) c) as (s2 & Hs2 & _ & Hhi); [lia|].
  unfold bind at 1. rewrite Hs1. unfold bind at 1. rewrite Hs2. unfold query. unfold_m. do 2 f_equal.
  unfold q_highest_block, highest_up_to. f_equal. apply filter_ext_elem. intros a Ha.
  unfold is_stable_block_time_valid, min_block_allowed_time, max_allowed_block_time.
  rewrite andb_true_iff, !Z.leb_le.
  destruct (Z.le_gt_cases (first_epoch_timestamp_millis (mainchain_epoch_config cfg)) (time a)) as [Hfa|Hfa].
  - destruct (Hlo a Ha Hfa) as [Hlo' _], (Hhi a Ha Hfa) as [_ Hhi']. tauto.
  - pose proof (slots_before _ _ Ht a Ha Hfa). lia.
Qed.

Lemma get_latest_block_refused i n ts c :
  time_ok ts = true -> window_ok ts = false ->
  exists e, get_latest_block cfg (fun _ => Some t) i n ts c = Err e.
Proof.
  unfold time_ok, window_ok. rewrite andb_true_iff, Z.leb_le. intros [Hts _] Hw.
  destruct (boundaries _ Hcfg). unfold get_latest_block, min_block_allowed_time, max_allowed_block_time in *.
  destruct (Z.leb_spec 0 (ts - max_slot_boundary cfg)) as [Hlo|Hlo].
  - rewrite (proj2 (Z.leb_le 0 (ts - min_slot_boundary cfg))) in Hw by lia. done.
  - unfold bind at 1, date_time_to_slot at 1. unfold_m. rewrite (proj2 (Z.leb_gt _ _)) by done. by eexists.
Qed.

Lemma highest_up_to_in n ts b : highest_up_to n ts = Some b ->
  b ∈ t /\ block_no b <= n /\ is_stable_block_time_valid cfg b ts = true /\ 0 <= time b.
Proof.
  intros [Hin _]%highest_spec. apply list_elem_of_filter in Hin as [(Hn & Hv & _) Hin].
  split; [done|]. split; [done|]. split; [done|]. apply (rows_bounds _ _ Ht b Hin).
Qed.

Notation Inv := (cache_ok cfg t).
Notation src := (db_sync_source cfg (fun _ => Some t) now).

Lemma to_mainchain_block_row {S E} b (s : S) : b ∈ t -> to_mainchain_block (E:=E) b s = Ok (mainchain_block b, s).
Proof. intros Hin. destruct (rows_bounds _ _ Ht b Hin). apply to_mainchain_block_Ok. lia. Qed.

Lemma db_type_answer ts c :
  timestamp_to_db_type cfg ts c = if time_ok ts then Ok (ts, c) else Err BadRequest.
Proof. unfold timestamp_to_db_type. fold (time_ok ts). by destruct (time_ok ts). Qed.

Lemma latest_query {E} (e : E) i c : query (fun _ => Some t) e i q_latest_block_info c = Ok (highest t, c).
Proof. done. Qed.

Lemma latest_info c :
  get_latest_block_info (fun _ => Some t) 0 c =
  match highest t with Some l => Ok (mainchain_block l, c) | None => Err ExpectedDataNotFound end.
Proof.
  unfold get_latest_block_info, query, q_latest_block_info. unfold bind, ok_or, ret.
  destruct (highest t) as [l|] eqn:Hl; [|done]. by rewrite to_mainchain_block_row by apply highest_row, Hl.
Qed.

Lemma view_latest ts : answers_with Inv (@get_latest_stable_block_for _ _ src ts) (v_latest view_of ts).
Proof.
  intros c Hc. cbn [v_latest view_of get_latest_stable_block_for db_sync_source]. unfold src_latest_stable_block_for.
  pose proof (db_type_answer ts c) as Hty. destruct (time_ok ts) eqn:Hts; cbn [andb].
  2: { rewrite (bind_Err _ _ _ _ Hty). by eexists. }
  rewrite (bind_Ok _ _ _ _ _ Hty). pose proof (latest_info c) as Hi.
  destruct (highest t) as [l|] eqn:Hl; cbn [mbind option_bind].
  2: { rewrite (bind_Err _ _ _ _ Hi). destruct (window_ok ts); by eexists. }
  rewrite (bind_Ok _ _ _ _ _ Hi).
  destruct (security_bounds _ Hcfg). rewrite wrap_small by (unfold in_u, umax; lia). cbn [number mainchain_block]. destruct (window_ok ts) eqn:Hw.
  - rewrite (bind_Ok _ _ _ _ _ (get_latest_block_Ok _ _ _ _ Hts Hw)). unfold map_block.
    destruct (highest_up_to _ ts) as [b|] eqn:Hb; [|by exists c].
    apply highest_up_to_in in Hb as [Hin _]. rewrite (bind_Ok _ _ _ _ _ (to_mainchain_block_row b c Hin)). by exists c.
  - edestruct get_latest_block_refused as [e He]; [exact Hts|exact Hw|]. rewrite (bind_Err _ _ _ _ He). by eexists.
Qed.

Lemma fill_cache_total b c : is_Some (highest t) -> exists c', fill_cache cfg (fun _ => Some t) b c = Ok (tt, c').
Proof.
  intros [l Hl]. unfold fill_cache, query, q_latest_block_info. unfold_m. rewrite Hl.
  destruct (_ <? _); unfold_m; by eexists.
Qed.

Lemma from_db_classifies h ts c :
  get_stable_block_by_hash_from_db cfg (fun _ => Some t) h ts c =
  match highest t with
  | None => Err (LatestBlockUnavailable h)
  | Some l =>
      match q_block_by_hash h t with
      | None => Err (HashNotFound h)
      | Some b =>
          let required := block_no b + security_parameter cfg in
          if negb (is_stable_block_time_valid cfg b ts)
          then Err (TimestampOutOfRange h (min_block_allowed_time cfg ts) (max_allowed_block_time cfg ts) ts b)
          else if required <=? block_no l then Ok (b, c) else Err (NotStableYet h required (block_no l) b)
      end
  end.
Proof.
  unfold get_stable_block_by_hash_from_db, query, q_latest_block_info. unfold_m.
  destruct (highest t) as [l|]; [|done]. destruct (q_block_by_hash h t) as [b|] eqn:Hb; [|done].
  apply by_hash_Some in Hb as [Hin _]. destruct (rows_bounds _ _ Ht b Hin). destruct (security_bounds _ Hcfg).
  unfold saturating_add. rewrite Z.min_l by (unfold umax; lia). cbn zeta.
  destruct (is_stable_block_time_valid cfg b ts); [|done]. cbn [negb]. by destruct (_ <=? _).
Qed.

(** The cache does not change the answers. *)
Lemma by_hash_answer h ts c l :
  cache_ok cfg t c -> highest t = Some l ->
  exists c', get_stable_block_by_hash cfg (fun _ => Some t) h ts c = Ok (classified h ts l, c').
Proof.
  intros Hc Hl. unfold get_stable_block_by_hash, get_stable_block_by_hash_from_cache, classified.
  unfold bind at 1 2, get, ret at 1.
  destruct (find_by_hash h c) as [b|] eqn:Hf; [destruct (is_stable_block_time_valid cfg b ts) eqn:Hv|].
  1: { destruct (cached_view c h b Hc Hf) as (Hb & l' & Hl' & Hle). rewrite Hb, Hv.
    assert (l' = l) as -> by congruence. rewrite (proj2 (Z.leb_le _ _)) by done. apply by_hash_Some in Hb as [Hin _].
    rewrite (bind_Ok _ _ _ _ _ (to_mainchain_block_row b c Hin)). by eexists. }
  all: rewrite from_db_classifies, Hl; destruct (q_block_by_hash h t) as [b'|] eqn:Hb; [|by eexists].
  all: apply by_hash_Some in Hb as [Hin _]; cbn zeta.
  all: destruct (is_stable_block_time_valid cfg b' ts) eqn:Hv'; cbn [negb];
    [destruct (_ <=? _)|]; unfold bind; rewrite ?to_mainchain_block_row by done; try by eexists.
  all: destruct (fill_cache_total b' c) as [c' ->]; [by eexists|]; rewrite to_mainchain_block_row by done; by eexists.
Qed.

Lemma by_hash_no_latest h ts c :
  cache_ok cfg t c -> highest t = None ->
  get_stable_block_by_hash cfg (fun _ => Some t) h ts c = Err StableBlockUnavailable.
Proof.
  intros Hc Hl. unfold get_stable_block_by_hash, get_stable_block_by_hash_from_cache.
  unfold bind at 1 2, get, ret at 1. destruct (find_by_hash h c) as [b|] eqn:Hf.
  - destruct (cached_view c h b Hc Hf) as (_ & l' & Hl' & _). congruence.
  - by rewrite from_db_classifies, Hl.
Qed.

Lemma view_stable h ts : answers_with Inv (@get_stable_block_for _ _ src h ts) (v_stable view_of h ts).
Proof.
  intros c Hc. cbn [v_stable view_of get_stable_block_for db_sync_source].
  unfold src_stable_block_for. pose proof (db_type_answer ts c) as Hty. destruct (time_ok ts).
  2: { rewrite (bind_Err _ _ _ _ Hty). by eexists. }
  rewrite (bind_Ok _ _ _ _ _ Hty). destruct (highest t) as [l|] eqn:Hl; cbn [fmap option_fmap option_map].
  - destruct (by_hash_answer h ts c l Hc Hl) as [c' Ha]. exists c'. split; [done|].
    apply (stable_by_hash_sound cfg (fun _ => Some t) (fun _ => t)) in Ha; [apply Ha|done|congruence|done|intros _; apply grows_refl|done].
  - rewrite by_hash_no_latest by done. by eexists.
Qed.

Lemma view_by_hash h : answers_with Inv (@get_block_by_hash _ _ src h) (Some (v_by_hash view_of h)).
Proof.
  intros c Hc. cbn [v_by_hash view_of get_block_by_hash db_sync_source]. exists c. split; [|done].
  unfold src_block_by_hash, get. unfold bind at 1. destruct (find_by_hash h c) as [b|] eqn:Hf.
  - destruct (cached_view c h b Hc Hf) as (Hb & _). rewrite Hb. apply by_hash_Some in Hb as [Hin _].
    unfold map_block. unfold bind at 1, ret at 1. unfold bind. by rewrite to_mainchain_block_row by done.
  - unfold query, map_block. unfold bind, ok_or, ret. destruct (q_block_by_hash h t) as [b|] eqn:Hb; [|done].
    apply by_hash_Some in Hb as [Hin _]. by rewrite to_mainchain_block_row by done.
Qed.

Lemma view_fresh : answers_with Inv (@is_cardano_tip_fresh _ _ src) (v_fresh view_of).
Proof.
  intros c Hc. cbn [v_fresh view_of is_cardano_tip_fresh db_sync_source]. unfold src_cardano_tip_fresh.
  unfold bind. rewrite latest_info. destruct (highest t) as [l|]; [by exists c|by eexists].
Qed.

Lemma view_ok : answers_with Inv (@is_cardano_ok _ _ src) (v_ok view_of).
Proof.
  intros c Hc. cbn [v_ok view_of is_cardano_ok db_sync_source]. unfold src_cardano_ok.
  pose proof (db_type_answer now c) as Hty. destruct (time_ok now) eqn:Hts.
  2: { rewrite (bind_Err _ _ _ _ Hty). by eexists. }
  rewrite (bind_Ok _ _ _ _ _ Hty), (bind_Ok _ _ _ _ _ (latest_query _ _ _)).
  destruct (highest t) as [l|] eqn:Hl; [|by exists c]. destruct (_ <? _); [by exists c|].
  destruct (window_ok now) eqn:Hw.
  - rewrite (bind_Ok _ _ _ _ _ (get_latest_block_Ok _ _ _ _ Hts Hw)). exists c. split; [|done]. unfold ret.
    destruct (highest_up_to _ now); [by rewrite bool_decide_true by done|].
    by rewrite bool_decide_false by (by intros [? ?]).
  - edestruct get_latest_block_refused as [e He]; [exact Hts|exact Hw|]. rewrite (bind_Err _ _ _ _ He). by eexists.
Qed.

Lemma view_stable_inv h ts info :
  v_stable view_of h ts = Some (BlockStable info) ->
  time_ok ts = true /\ exists b l, highest t = Some l /\ b ∈ t /\ b_hash b = h /\ info = mainchain_block b /\
    is_stable_block_time_valid cfg b ts = true /\ block_no b + security_parameter cfg <= block_no l.
Proof.
  cbn [v_stable view_of]. destruct (time_ok ts); [|done]. destruct (highest t) as [l|]; [|done]. cbn [fmap option_fmap option_map].
  unfold classified. destruct (q_block_by_hash h t) as [b|] eqn:Hb; [|done]. apply by_hash_Some in Hb as [Hin Hh].
  destruct (is_stable_block_time_valid cfg b ts) eqn:Hv; [|done]. cbn [negb].
  destruct (Z.leb_spec (block_no b + security_parameter cfg) (block_no l)); [|done].
  intros [= <-]. split; [done|]. by exists b, l.
Qed.

Lemma view_stable_intro ts b l :
  time_ok ts = true -> highest t = Some l -> b ∈ t -> is_stable_block_time_valid cfg b ts = true ->
  block_no b + security_parameter cfg <= block_no l ->
  v_stable view_of (b_hash b) ts = Some (BlockStable (mainchain_block b)).
Proof.
  intros Hts Hl Hin Hv Hle. cbn [v_stable view_of]. rewrite Hts, Hl. cbn [fmap option_fmap option_map]. unfold classified.
  rewrite (proj2 (by_hash_Some (b_hash b) b)) by done. by rewrite Hv, (proj2 (Z.leb_le _ _)) by done.
Qed.

Lemma view_implements : @Implements Cache DataSourceErr src view_of (cache_ok cfg t).
Proof. split; [apply view_latest|apply view_stable|apply view_by_hash|apply view_fresh|apply view_ok]. Qed.

Hypothesis Hlong : long_enough cfg t.

Lemma view_latest_inv ts info :
  v_latest view_of ts = Some (Some info) ->
  time_ok ts = true /\ exists b l, highest t = Some l /\ b ∈ t /\ info = mainchain_block b /\
    is_stable_block_time_valid cfg b ts = true /\ block_no b + security_parameter cfg <= block_no l.
Proof.
  cbn [v_latest view_of]. destruct (time_ok ts); [|done]. destruct (window_ok ts); [|done].
  destruct (highest t) as [l|] eqn:Hl; [|done]. cbn [andb mbind option_bind].
  destruct (highest_up_to _ ts) as [b|] eqn:Hb; [|done]. intros [= <-]. split; [done|].
  apply highest_up_to_in in Hb as (Hin & Hn & Hv & _). destruct (security_bounds _ Hcfg).
  pose proof (Hlong l Hl). unfold saturating_sub in Hn. exists b, l. split_and!; [done..|lia].
Qed.

Lemma view_laws : ViewLaws view_of.
Proof.
  split.
  - intros ts info (Hts & b & l & Hl & Hin & -> & Hv & Hle)%view_latest_inv. by eapply view_stable_intro.
  - intros h ts info (Hts & b & l & Hl & Hin & Hh & -> & _)%view_stable_inv. split; [done|].
    cbn [v_by_hash view_of]. by rewrite (proj2 (by_hash_Some h b)).
  - intros h ts0 ts i0 i (_ & b0 & l & Hl & Hin0 & <- & -> & Hv0 & Hle0)%view_stable_inv Hlt
      (Hts & b & l' & _ & Hin & -> & Hv & _)%view_latest_inv Hno. simpl in Hno.
    eapply view_stable_intro; [done..| |done]. pose proof (times_mono _ _ Ht b b0 Hin Hin0 Hno).
    unfold is_stable_block_time_valid, min_block_allowed_time, max_allowed_block_time in *.
    rewrite !andb_true_iff, !Z.leb_le in *. lia.
Qed.

End ViewOf.

(** C33: a block that the source reports as stable has the requested hash, is of a valid
    age and has the required number of confirmations, also if Db-Sync changes, rolls back
    short forks or fails between the queries of the call, and also if the answer is
    served from the cache; and the cache keeps only such blocks. *)
Theorem stable_answers_are_stable cfg (db : nat -> option Table) (tb : nat -> Table) h ts c r c' :
  config_ok cfg -> (forall i t, db i = Some t -> t = tb i) ->
  (forall i, table_ok cfg (tb i)) -> (forall i, grows cfg (tb i) (tb (S i))) ->
  cache_ok cfg (tb 0%nat) c -> src_stable_block_for cfg db h ts c = Ok (r, c') ->
  cache_ok cfg (tb 3%nat) c' /\
  forall info, r = BlockStable info -> exists b, stable_in cfg (tb 3%nat) b /\ b_hash b = h /\
    info = mainchain_block b /\ ts - max_slot_boundary cfg <= time b <= ts - min_slot_boundary cfg.
Proof.
  intros Hcfg Hdb Htb Hg Hc H. unfold src_stable_block_for in H.
  apply bind_Ok_inv in H as (ts' & c1 & Hty & H). rewrite db_type_answer in Hty.
  destruct (time_ok cfg ts); [|done]. injection Hty as <- <-.
  apply (stable_by_hash_sound cfg db tb) in H as [Hc' Hr]; [|done..]. split; [done|].
  intros info ->. destruct (Hr info eq_refl) as (b & Hb & Hh & -> & Hv). exists b. split_and!; [done..| |].
  all: unfold is_stable_block_time_valid, min_block_allowed_time, max_allowed_block_time in Hv.
  all: rewrite andb_true_iff, !Z.leb_le in Hv; lia.
Qed.

(** C34: while the table does not change, the source with its cache answers every request
    as the table alone does.  If the chain has at least as many blocks as the security
    parameter and the margin together, these answers satisfy what the provider of the main
    chain reference expects of a source; on a shorter chain the subtraction saturates, and a
    block without confirmations is offered. *)
Theorem db_sync_implements_view cfg t now :
  config_ok cfg -> table_ok cfg t ->
  @Implements Cache DataSourceErr (db_sync_source cfg (fun _ => Some t) now) (view_of cfg t now) (cache_ok cfg t) /\
  (long_enough cfg t -> ViewLaws (view_of cfg t now)).
Proof.
  intros Hcfg Ht. split; [by apply view_implements|by apply view_laws].
Qed.

(** ** A chain of blocks 20 seconds apart, of which the first is before the first epoch of the
    configuration *)

Module CardanoExample.
Definition mk (n : Z) : Block :=
  {| block_no := n; b_hash := repeat n 32; epoch_no := 0; slot_no := 20 * n; time := 20000 * n |}.
Definition chain (n : Z) : Table := mk <$> seqZ 0 n.
Definition cfg : BlockDataSourceConfig := {|
  security_parameter := 2; min_slot_boundary := 10000; max_slot_boundary := 100000;
  mainchain_epoch_config := {| epoch_duration_millis := 432000000; slot_duration_millis := 1000;
    first_epoch_timestamp_millis := 20000; first_epoch_number := 1; mc_first_slot_number := 20 |};
  block_stability_margin := 1; max_latest_block_age_seconds := 60; cache_size := 10;
  representable := fun _ => true
|}.
Definition empty_cache : Cache := {| from_last_by_hash := [] |}.
Definition header (n : Z) : list DigestItem := from_mc_block_hash (repeat n 32).

Lemma example_cfg_ok : config_ok cfg.
Proof. split; simpl; lia. Qed.

Lemma in_chain b n : b ∈ chain n <-> exists i, b = mk i /\ 0 <= i < n.
Proof. unfold chain. rewrite list_elem_of_fmap. setoid_rewrite elem_of_seqZ. naive_solver lia. Qed.

Lemma highest_chain n : 0 < n -> highest (chain n) = Some (mk (n - 1)).
Proof.
  intros Hn. apply highest_unique.
  - intros x y (i & -> & _)%in_chain (j & -> & _)%in_chain [= ->]. done.
  - apply in_chain. exists (n - 1). split; [done|lia].
  - intros a (i & -> & ?)%in_chain. simpl. lia.
Qed.

Lemma chain_ok n : 4 <= n < 2 ^ 20 -> table_ok cfg (chain n).
Proof.
  intros Hn. split.
  - intros x y (i & -> & _)%in_chain (j & -> & _)%in_chain [= ->]. done.
  - intros x y (i & -> & _)%in_chain (j & -> & _)%in_chain [= ->]. done.
  - intros x y (i & -> & _)%in_chain (j & -> & _)%in_chain. simpl. lia.
  - intros x (i & -> & ?)%in_chain. simpl. lia.
  - intros x (i & -> & ?)%in_chain. cbn. intros _. replace (20000 * i - 20000) with (20 * (i - 1) * 1000) by lia.
    rewrite Z.div_mul by lia. lia.
  - intros x (i & -> & ?)%in_chain. cbn. lia.
  - rewrite highest_chain by lia. intros x l m (i & -> & ?)%in_chain [= <-]. simpl. intros. exists (mk m). split; [|done].
    apply in_chain. exists m. split; [done|lia].
Qed.
Lemma chain_long n : 4 <= n -> long_enough cfg (chain n).
Proof. intros Hn l. rewrite highest_chain by lia. intros [= <-]. simpl. lia. Qed.

Lemma chain_grows n m : 0 < n <= m -> grows cfg (chain n) (chain m).
Proof.
  intros Hnm. split.
  - intros b [(i & -> & ?)%in_chain (l & Hl & Hle)]. rewrite highest_chain in Hl by lia. injection Hl as <-.
    split; [apply in_chain; exists i; split; [done|lia]|]. rewrite highest_chain by lia.
    eexists. split; [done|]. simpl in *. lia.
  - intros b (i & -> & ?)%in_chain _. exists (mk 0). split; [|simpl; lia]. apply in_chain. exists 0. split; [done|lia].
Qed.

Lemma empty_ok t : cache_ok cfg t empty_cache.
Proof. constructor. Qed.

(** On a chain that is shorter than the security parameter the subtraction saturates: its
    first block, which has no confirmation, counts as stable. *)
Definition first_block : Block := {| block_no := 0; b_hash := repeat 0 32; epoch_no := 1; slot_no := 20; time := 20000 |}.
Lemma short_chain_block_is_stable :
  src_latest_stable_block_for cfg (fun _ => Some [first_block]) 100000 empty_cache =
    Ok (Some (mainchain_block first_block), empty_cache).
Proof. by vm_compute. Qed.
End CardanoExample.
Import CardanoExample.

Lemma stable_answers_are_stable_witness :
  exists c', src_stable_block_for cfg (fun i => Some (chain (Z.min (6 + Z.of_nat i) 10))) (repeat 2 32) 120000 empty_cache =
    Ok (BlockStable (mainchain_block (mk 2)), c') /\ cache_ok cfg (chain 9) c'.
Proof.
  exists {| from_last_by_hash := mk <$> seqZ 2 4 |}. split; [by vm_compute|].
  apply (stable_answers_are_stable cfg (fun i => Some (chain (Z.min (6 + Z.of_nat i) 10)))
           (fun i => chain (Z.min (6 + Z.of_nat i) 10)) (repeat 2 32) 120000 empty_cache
           (BlockStable (mainchain_block (mk 2))) {| from_last_by_hash := mk <$> seqZ 2 4 |}).
  - apply example_cfg_ok.
  - congruence.
  - intros i. apply chain_ok. lia.
  - intros i. apply chain_grows. lia.
  - apply empty_ok.
  - by vm_compute.
Defined.

Lemma db_sync_implements_view_witness :
  v_latest (view_of cfg (chain 6) 120000) 120000 = Some (Some (mainchain_block (mk 2))) /\
  ViewLaws (view_of cfg (chain 6) 120000).
Proof.
  split; [by vm_compute|]. apply (db_sync_implements_view cfg (chain 6) 120000 example_cfg_ok); [apply chain_ok; lia|]. apply chain_long. lia.
Defined.

(** The proposer's node has seen a block that refers to block 2; both nodes read the chain
    of 6 blocks. *)
Lemma proposed_reference_is_verified_witness :
  exists s2', new_verification (McHashDataSource0:=db_sync_source cfg (fun _ => Some (chain 6)) 120000)
    (header 2) (Some 18) 20 (repeat 2 32) 6000 empty_cache =
    Ok ({| mc_block := mainchain_block (mk 2); previous_mc_block := Some (mainchain_block (mk 2)) |}, s2').
Proof.
  pose proof example_cfg_ok as Hcfg. pose proof (chain_ok 6 ltac:(lia)) as Ht.
  pose proof (view_laws cfg (chain 6) 120000 Hcfg Ht (chain_long 6 ltac:(lia))) as Hlaws.
  pose proof (view_implements cfg (chain 6) 120000 Hcfg Ht) as Himpl.
  apply (proposed_reference_is_verified (S1:=Cache)
    (McHashDataSource0:=db_sync_source cfg (fun _ => Some (chain 6)) 120000)
    (view_of cfg (chain 6) 120000) (cache_ok cfg (chain 6)) (cache_ok cfg (chain 6))
    (header 2) (Some 18) 20 6000 empty_cache empty_cache
    {| mc_block := mainchain_block (mk 2); previous_mc_block := Some (mainchain_block (mk 2)) |} empty_cache).
  - lia.
  - apply empty_ok.
  - apply empty_ok.
  - split; [lia|]. exists (repeat 2 32), 108000, (mainchain_block (mk 2)). by vm_compute.
  - by vm_compute.
Defined.

(** Two headers, verified when the table had 6 and 8 blocks. *)
Lemma references_never_regress_witness :
  StronglySorted (fun x y : list DigestItem * MainchainBlock => number (snd y) <= number (snd x))
    [(header 4, mainchain_block (mk 4)); (header 2, mainchain_block (mk 2))].
Proof.
  apply (references_never_regress (S:=Cache) (DsErr:=DataSourceErr)
    (fun src v Inv => exists n, 6 <= n < 100 /\ src = db_sync_source cfg (fun _ => Some (chain n)) 120000 /\
       v = view_of cfg (chain n) 120000 /\ Inv = cache_ok cfg (chain n))).
  - intros src v Inv (n & Hn & -> & -> & ->). pose proof example_cfg_ok as Hcfg. pose proof (chain_ok n ltac:(lia)) as Ht.
    split; [by apply view_implements|]. apply view_laws; [done..|]. apply chain_long. lia.
  - intros src v Inv src' v' Inv' h b b' (n & ? & _ & -> & _) (m & ? & _ & -> & _). simpl.
    intros (x & [(i & -> & _)%in_chain Hi]%by_hash_spec & ->)%fmap_Some.
    intros (y & [(j & -> & _)%in_chain Hj]%by_hash_spec & ->)%fmap_Some.
    simpl in Hi, Hj. congruence.
  - eapply (imported_next _ (header 4) (header 2) (mainchain_block (mk 2)) [] _ _ _ 18 25 (repeat 4 32) 6000 empty_cache
      {| mc_block := mainchain_block (mk 4); previous_mc_block := Some (mainchain_block (mk 2)) |}).
    + eapply (imported_first _ [] (header 2) _ _ _ 18 (repeat 2 32) 6000 empty_cache
        {| mc_block := mainchain_block (mk 2); previous_mc_block := None |}).
      * exists 6. split; [lia|done].
      * apply empty_ok.
      * done.
      * by vm_compute.
    + exists 8. split; [lia|done].
    + apply empty_ok.
    + done.
    + by vm_compute.
Defined.
