(* ===== verification/Plutus.v ===== *)
(** * Plutus data

    Models [src/partner-chains/toolkit/utils/plutus/src]: the data type [Datum] and its CBOR
    encoding ([cbor.rs]), the conversions to it ([lib.rs], with the instances that
    [plutus-datum-derive] derives for the types that are signed), and the registration
    message whose encoding stake pool operators sign.  The encoder of [minicbor] is a
    parameter, which writes one item at a time, and so is the byte representation of
    [num_bigint]. *)

From S2P Require Import Prelude Frame.
From stdpp Require Import list.
Open Scope Z_scope.

Definition Bytes := list Z.

Inductive Datum :=
| IntegerDatum (i : Z)
| ByteStringDatum (bytes : Bytes)
| ConstructorDatum (constructor : Z) (fields : list Datum)
| ListDatum (items : list Datum)
| MapDatum (entries : list (Datum * Datum)).

(** [MapDatumEntry]: its key and its value *)
Definition MapDatumEntry : Type := Datum * Datum.

(** ** Conversions *)

Class ToDatum (A : Type) := to_datum : A -> Datum.

(** The integers of the macro [impl_int_datum_from_uint] *)
Definition integer (value : Z) : Datum := IntegerDatum value.
Definition bytes_to_datum (b : Bytes) : Datum := ByteStringDatum b.
Definition option_to_datum {A} `{ToDatum A} (o : option A) : Datum :=
  match o with
  | Some value => ConstructorDatum 0 [to_datum value]
  | None => ConstructorDatum 1 []
  end.
Definition list_to_datum {A} `{ToDatum A} (l : list A) : Datum := ListDatum (to_datum <$> l).
#[export] Instance datum_to_datum : ToDatum Datum := fun d => d.

Definition as_bytestring (d : Datum) : option Bytes :=
  match d with
  | ByteStringDatum bytes => Some bytes
  | _ => None
  end.

(** ** Encoding *)

(** The calls of the encoder; [e.i64] and [e.u64] write the same integers. *)
Inductive Item :=
| CInt (i : Z)
| CBytes (b : Bytes)
| CBeginBytes
| CArray (n : Z)
| CBeginArray
| CMap (n : Z)
| CTag (n : Z)
| CEnd.

Definition item_ok (t : Item) : Prop :=
  match t with
  | CInt i => - 2 ^ 63 <= i <= umax 64
  | CBytes b => len b <= umax 64
  | CArray n | CMap n | CTag n => 0 <= n <= umax 64
  | CBeginBytes | CBeginArray | CEnd => True
  end.

(** The value of bytes in big-endian order *)
Definition be_value (b : Bytes) : Z := foldl (fun n x => n * 256 + x) 0 b.

Class Minicbor := {
  write : Item -> Bytes;
  (** the magnitude of [BigInt::to_bytes_be] *)
  to_bytes_be : Z -> Bytes
}.

(** CBOR items are self-delimiting, and the bytes of a number determine it. *)
Class MinicborLaws `{!Minicbor} := {
  write_delimits t1 t2 r1 r2 :
    item_ok t1 -> item_ok t2 -> write t1 ++ r1 = write t2 ++ r2 -> t1 = t2;
  to_bytes_be_value n : 0 < n -> be_value (to_bytes_be n) = n
}.

Definition BYTES_CHUNK_SIZE_LIMIT : Z := 64.

(** [slice::chunks]; the fuel is the length. *)
Fixpoint chunks_loop (fuel : nat) (n : nat) (l : Bytes) : list Bytes :=
  match fuel, l with
  | S fuel', _ :: _ => take n l :: chunks_loop fuel' n (drop n l)
  | _, _ => []
  end.
Definition chunks (n : Z) (l : Bytes) : list Bytes := chunks_loop (length l) (Z.to_nat n) l.

Definition encode_bytestring (bytes : Bytes) : list Item :=
  if len bytes <=? BYTES_CHUNK_SIZE_LIMIT then [CBytes bytes]
  else CBeginBytes :: (CBytes <$> chunks BYTES_CHUNK_SIZE_LIMIT bytes) ++ [CEnd].

(** [IanaTag::PosBignum] and [IanaTag::NegBignum] *)
Definition PosBignum : Z := 2.
Definition NegBignum : Z := 3.

Definition encode_integer `{!Minicbor} (i : Z) : list Item :=
  if (- 2 ^ 63 <=? i) && (i <=? 2 ^ 63 - 1) then [CInt i]
  else CTag (if 0 <? i then PosBignum else NegBignum) :: encode_bytestring (to_bytes_be (Z.abs i)).

Definition constructor_small_tag (value : Z) : Z := value + 121.
Definition constructor_big_tag (value : Z) : Z := 1280 + value - 7.
Definition CONSTRUCTOR_OVER_LIMIT_TAG : Z := 102.

(** The argument is the encoding of each item. *)
Definition encode_linear_seq (ds : list (list Item)) : list Item :=
  if bool_decide (ds = []) then [CArray 0] else CBeginArray :: concat ds ++ [CEnd].

Definition encode_constructor_over_limit_fields (constructor : Z) (ds : list (list Item)) : list Item :=
  CArray 2 :: CInt constructor :: encode_linear_seq ds.

Definition encode_constructor (constructor : Z) (fields : list (list Item)) : list Item :=
  if constructor <? 7 then CTag (constructor_small_tag constructor) :: encode_linear_seq fields
  else if (7 <=? constructor) && (constructor <? 128)
  then CTag (constructor_big_tag constructor) :: encode_linear_seq fields
  else CTag CONSTRUCTOR_OVER_LIMIT_TAG :: encode_constructor_over_limit_fields constructor fields.

Definition encode_entries (entries : list (list Item * list Item)) : list Item :=
  CMap (len entries) :: concat ((fun '(k, v) => k ++ v) <$> entries).

Fixpoint encode_datum `{!Minicbor} (datum : Datum) : list Item :=
  match datum with
  | IntegerDatum bi => encode_integer bi
  | ByteStringDatum bytes => encode_bytestring bytes
  | ConstructorDatum constructor fields => encode_constructor constructor (map encode_datum fields)
  | ListDatum items => encode_linear_seq (map encode_datum items)
  | MapDatum entries => encode_entries (map (fun '(k, v) => (encode_datum k, encode_datum v)) entries)
  end.

(** [minicbor::to_vec] *)
Definition to_vec `{!Minicbor} (datum : Datum) : Bytes := concat (write <$> encode_datum datum).
Definition to_datum_cbor_bytes `{!Minicbor} {A} `{ToDatum A} (msg : A) : Bytes := to_vec (to_datum msg).

(** ** The signed message *)

Record UtxoId := { tx_hash : Bytes; index : Z (* u16 *) }.

#[export] Instance utxo_id_eq_dec : EqDecision UtxoId.
Proof. solve_decision. Defined.

(** [McTxHash] is wrapped in a constructor, [UtxoIndex] is not. *)
#[export] Instance utxo_id_to_datum : ToDatum UtxoId := fun u =>
  ConstructorDatum 0 [ConstructorDatum 0 [ByteStringDatum (tx_hash u)]; integer (index u)].

Record RegisterValidatorSignedMessage := {
  genesis_utxo : UtxoId;
  sidechain_pub_key : Bytes;
  registration_utxo : UtxoId
}.

#[export] Instance signed_message_to_datum : ToDatum RegisterValidatorSignedMessage := fun m =>
  ConstructorDatum 0 [to_datum (genesis_utxo m); ByteStringDatum (sidechain_pub_key m);
                      to_datum (registration_utxo m)].

(** The sizes that the types of the source impose. *)
Fixpoint datum_ok (d : Datum) : bool :=
  match d with
  | IntegerDatum _ | ByteStringDatum _ => true
  | ConstructorDatum c fs => (0 <=? c) && (c <=? umax 64) && forallb datum_ok fs
  | ListDatum ds => forallb datum_ok ds
  | MapDatum es => (len es <=? umax 64) && forallb (fun '(k, v) => datum_ok k && datum_ok v) es
  end.

(** ** Lemmas *)

Lemma datum_rec_ind (P : Datum -> Prop) :
  (forall i, P (IntegerDatum i)) -> (forall b, P (ByteStringDatum b)) ->
  (forall c fs, Forall P fs -> P (ConstructorDatum c fs)) ->
  (forall ds, Forall P ds -> P (ListDatum ds)) ->
  (forall es, Forall (fun e => P (fst e) /\ P (snd e)) es -> P (MapDatum es)) ->
  forall d, P d.
Proof.
  intros Hi Hb Hc Hl Hm. fix IH 1. intros [i|b|c fs|ds|es]; [apply Hi|apply Hb|apply Hc|apply Hl|apply Hm].
  - induction fs as [|d fs IHfs]; constructor; [apply IH|apply IHfs].
  - induction ds as [|d ds IHds]; constructor; [apply IH|apply IHds].
  - induction es as [|[k v] es IHes]; constructor; [split; apply IH|apply IHes].
Qed.

Lemma chunks_concat n b : 0 < n -> concat (chunks n b) = b.
Proof.
  intros Hn. unfold chunks. assert (length b <= length b)%nat as Hf by done. revert Hf.
  generalize (length b) at 2 3 as fuel. intros fuel. revert b. induction fuel as [|fuel IH]; intros b Hf.
  - destruct b; [done|simpl in Hf; lia].
  - destruct b as [|x b]; [done|]. cbn [chunks_loop]. rewrite concat_cons, IH.
    + apply take_drop.
    + rewrite length_drop. destruct (Z.to_nat n) eqn:E; simpl in *; lia.
Qed.

Lemma chunks_small n b : 0 < n -> Forall (fun c => len c <= n) (chunks n b).
Proof.
  intros Hn. unfold chunks. generalize (length b) as fuel. intros fuel.
  revert b. induction fuel as [|fuel IH]; intros [|x b]; try constructor; [|apply IH].
  unfold len. rewrite length_take. lia.
Qed.

Lemma bytes_until_end c1 c2 r1 r2 :
  (CBytes <$> c1) ++ CEnd :: r1 = (CBytes <$> c2) ++ CEnd :: r2 -> c1 = c2 /\ r1 = r2.
Proof.
  revert c2. induction c1 as [|x c1 IH]; intros [|y c2]; simpl; intros [=]; [done|].
  subst. by edestruct IH as [-> ->].
Qed.

Lemma bytestring_delimited b1 b2 r1 r2 :
  encode_bytestring b1 ++ r1 = encode_bytestring b2 ++ r2 -> b1 = b2 /\ r1 = r2.
Proof.
  unfold encode_bytestring. destruct (_ <=? _), (_ <=? _); simpl; intros [= H]; [naive_solver|].
  rewrite <-!app_assoc in H. apply bytes_until_end in H as [Hc ->]. split; [|done].
  by rewrite <-(chunks_concat BYTES_CHUNK_SIZE_LIMIT b1), Hc, chunks_concat.
Qed.

Section EncodingFacts.
Context {cbor : Minicbor} {cbor_laws : MinicborLaws}.

Lemma integer_delimited i1 i2 r1 r2 :
  encode_integer i1 ++ r1 = encode_integer i2 ++ r2 -> i1 = i2 /\ r1 = r2.
Proof.
  unfold encode_integer.
  destruct ((- 2 ^ 63 <=? i1) && (i1 <=? 2 ^ 63 - 1)) eqn:H1, ((- 2 ^ 63 <=? i2) && (i2 <=? 2 ^ 63 - 1)) eqn:H2;
    simpl; intros [=]; [done|].
  match goal with H : _ ++ _ = _ ++ _ |- _ => apply bytestring_delimited in H as [Hb ->] end. split; [|done].
  rewrite andb_false_iff, !Z.leb_gt in H1, H2.
  apply (f_equal be_value) in Hb. rewrite !to_bytes_be_value in Hb by lia.
  destruct (Z.ltb_spec 0 i1), (Z.ltb_spec 0 i2); try done; lia.
Qed.

(** What an encoding starts with tells the kind of the datum. *)
Definition item_kind (t : Item) : nat :=
  match t with
  | CInt _ => 0
  | CTag n => if n <=? 3 then 0 else 2
  | CBytes _ | CBeginBytes => 1
  | CArray _ | CBeginArray => 3
  | CMap _ => 4
  | CEnd => 5
  end.
Definition datum_kind (d : Datum) : nat :=
  match d with
  | IntegerDatum _ => 0
  | ByteStringDatum _ => 1
  | ConstructorDatum _ _ => 2
  | ListDatum _ => 3
  | MapDatum _ => 4
  end.

Lemma encode_starts d : datum_ok d = true -> exists t r, encode_datum d = t :: r /\ item_kind t = datum_kind d.
Proof.
  destruct d as [i|b|c fs|ds|es]; simpl; intros Hok.
  - unfold encode_integer. destruct (_ && _); [|destruct (0 <? i)]; by eexists _, _.
  - unfold encode_bytestring. destruct (_ <=? _); by eexists _, _.
  - rewrite !andb_true_iff, !Z.leb_le in Hok. unfold encode_constructor, constructor_small_tag, constructor_big_tag.
    destruct (Z.ltb_spec c 7); [|destruct (Z.leb_spec 7 c), (Z.ltb_spec c 128); simpl]; eexists _, _; split; try done.
    all: simpl; by rewrite (proj2 (Z.leb_gt _ _)) by lia.
  - unfold encode_linear_seq. destruct (bool_decide _); by eexists _, _.
  - by eexists _, _.
Qed.

Definition delimited (d : Datum) : Prop := datum_ok d = true -> forall d' r r',
  datum_ok d' = true -> encode_datum d ++ r = encode_datum d' ++ r' -> d = d' /\ r = r'.

Lemma until_end_delimited ds1 ds2 r1 r2 :
  Forall delimited ds1 -> forallb datum_ok ds1 = true -> forallb datum_ok ds2 = true ->
  concat (map encode_datum ds1) ++ CEnd :: r1 = concat (map encode_datum ds2) ++ CEnd :: r2 -> ds1 = ds2 /\ r1 = r2.
Proof.
  intros Hd. revert ds2. induction Hd as [|d1 ds1 H1 _ IH]; intros [|d2 ds2]; simpl.
  - intros _ _ [=]. done.
  - rewrite andb_true_iff. intros _ [(t & r & -> & Ht)%encode_starts _] [= <-]. by destruct d2.
  - rewrite andb_true_iff. intros [(t & r & -> & Ht)%encode_starts _] _ [= ->]. by destruct d1.
  - rewrite !andb_true_iff, <-!app_assoc. intros [Ho1 Hos1] [Ho2 Hos2] Heq.
    apply H1 in Heq as [-> Heq]; [|done..]. apply IH in Heq as [-> ->]; done.
Qed.

Lemma seq_delimited ds1 ds2 r1 r2 :
  Forall delimited ds1 -> forallb datum_ok ds1 = true -> forallb datum_ok ds2 = true ->
  encode_linear_seq (map encode_datum ds1) ++ r1 = encode_linear_seq (map encode_datum ds2) ++ r2 -> ds1 = ds2 /\ r1 = r2.
Proof.
  intros Hd H1 H2. unfold encode_linear_seq.
  destruct ds1 as [|d1 ds1], ds2 as [|d2 ds2]; simpl; intros [= H]; [done|]. rewrite <-!app_assoc in H.
  apply (until_end_delimited (d1 :: ds1) (d2 :: ds2)); [done..|]. simpl. by rewrite <-!app_assoc.
Qed.

Lemma entries_delimited es1 es2 r1 r2 :
  Forall (fun e => delimited (fst e) /\ delimited (snd e)) es1 -> length es1 = length es2 ->
  forallb (fun '(k, v) => datum_ok k && datum_ok v) es1 = true ->
  forallb (fun '(k, v) => datum_ok k && datum_ok v) es2 = true ->
  let enc := map (fun '(k, v) => (encode_datum k, encode_datum v)) in
  concat ((fun '(k, v) => k ++ v) <$> enc es1) ++ r1 = concat ((fun '(k, v) => k ++ v) <$> enc es2) ++ r2 ->
  es1 = es2 /\ r1 = r2.
Proof.
  intros Hd. revert es2. induction Hd as [|[k1 v1] es1 [Hk Hv] _ IH]; intros [|[k2 v2] es2] Hl; simpl in *; try done.
  rewrite !andb_true_iff, <-!app_assoc. intros [[Hk1 Hv1] Hs1] [[Hk2 Hv2] Hs2] H.
  apply Hk in H as [-> H]; [|done..]. apply Hv in H as [-> H]; [|done..].
  apply IH in H as [-> ->]; [done|lia|done|done].
Qed.

Lemma constructor_delimited c1 c2 fs1 fs2 r1 r2 :
  0 <= c1 -> 0 <= c2 -> Forall delimited fs1 -> forallb datum_ok fs1 = true -> forallb datum_ok fs2 = true ->
  encode_constructor c1 (map encode_datum fs1) ++ r1 = encode_constructor c2 (map encode_datum fs2) ++ r2 ->
  c1 = c2 /\ fs1 = fs2 /\ r1 = r2.
Proof.
  intros H1 H2 Hd Hf1 Hf2.
  unfold encode_constructor, constructor_small_tag, constructor_big_tag, CONSTRUCTOR_OVER_LIMIT_TAG,
    encode_constructor_over_limit_fields.
  destruct (Z.ltb_spec c1 7), (Z.ltb_spec c2 7), (Z.leb_spec 7 c1), (Z.ltb_spec c1 128), (Z.leb_spec 7 c2),
    (Z.ltb_spec c2 128); cbn [andb app]; try lia; intros [= Hc Hr]; try lia.
  all: destruct (seq_delimited _ _ _ _ Hd Hf1 Hf2 Hr) as [-> ->]; split; [lia|done].
Qed.

Lemma datum_delimited d : delimited d.
Proof.
  induction d as [i|b|c fs IH|ds IH|es IH] using datum_rec_ind; intros Hd d' r r' Hd' H.
  all: assert (datum_kind d' = datum_kind (if true then _ else d')) as Hk
    by (destruct (encode_starts _ Hd) as (t & u & Et & Kt), (encode_starts _ Hd') as (t' & u' & Et' & Kt');
        rewrite Et, Et' in H; injection H as <- _; rewrite <-Kt'; exact Kt).
  all: destruct d'; try done; clear Hk; simpl in Hd, Hd', H; rewrite ?andb_true_iff, ?Z.leb_le in *.
  - apply integer_delimited in H as [-> ->]. done.
  - apply bytestring_delimited in H as [-> ->]. done.
  - apply constructor_delimited in H as (-> & -> & ->); try tauto; lia.
  - apply seq_delimited in H as [-> ->]; done.
  - unfold encode_entries in H. injection H as Hl H. unfold len in Hl. rewrite !length_map in Hl.
    apply entries_delimited in H as [-> ->]; try tauto. lia.
Qed.

Lemma umax_64 : umax 64 = 18446744073709551615.
Proof. done. Qed.

Lemma bytestring_items_ok b : Forall item_ok (encode_bytestring b).
Proof.
  unfold encode_bytestring, BYTES_CHUNK_SIZE_LIMIT. destruct (Z.leb_spec (len b) 64).
  - constructor; [|done]. cbn [item_ok]. rewrite umax_64. lia.
  - constructor; [done|]. apply Forall_app. split; [|by repeat constructor]. apply Forall_fmap.
    eapply Forall_impl; [apply (chunks_small 64); lia|]. intros c Hc. change (len c <= umax 64). rewrite umax_64. simpl in Hc. lia.
Qed.

Lemma seq_items_ok ds : Forall (Forall item_ok) ds -> Forall item_ok (encode_linear_seq ds).
Proof.
  intros Hd. unfold encode_linear_seq. destruct (bool_decide _); [constructor; [cbn [item_ok]; rewrite ?umax_64; lia|done]|].
  constructor; [done|]. apply Forall_app. split; [by apply Forall_concat|by repeat constructor].
Qed.

Lemma datums_items_ok ds :
  Forall (fun d => datum_ok d = true -> Forall item_ok (encode_datum d)) ds -> forallb datum_ok ds = true ->
  Forall (Forall item_ok) (map encode_datum ds).
Proof. induction 1 as [|d ds Hd _ IH]; simpl; [done|]. rewrite andb_true_iff. intros [? ?]. constructor; auto. Qed.

Lemma datum_items_ok d : datum_ok d = true -> Forall item_ok (encode_datum d).
Proof.
  induction d as [i|b|c fs IH|ds IH|es IH] using datum_rec_ind; simpl; rewrite ?andb_true_iff, ?Z.leb_le.
  - intros _. unfold encode_integer.
    destruct (Z.leb_spec (- 2 ^ 63) i), (Z.leb_spec i (2 ^ 63 - 1)); cbn [andb].
    1: constructor; [cbn [item_ok]; rewrite ?umax_64; lia|done].
    all: constructor; [destruct (0 <? i); unfold PosBignum, NegBignum; cbn [item_ok]; rewrite ?umax_64; lia|apply bytestring_items_ok].
  - intros _. apply bytestring_items_ok.
  - intros [Hc Hfs]. apply datums_items_ok in IH; [|done].
    unfold encode_constructor, constructor_small_tag, constructor_big_tag, encode_constructor_over_limit_fields.
    rewrite umax_64 in Hc.
    destruct (Z.ltb_spec c 7); [|destruct (Z.leb_spec 7 c), (Z.ltb_spec c 128); cbn [andb]].
    all: repeat (constructor; [cbn [item_ok]; unfold CONSTRUCTOR_OVER_LIMIT_TAG; rewrite umax_64; lia|]); by apply seq_items_ok.
  - intros Hds. apply seq_items_ok, datums_items_ok; done.
  - intros [Hl Hes]. unfold encode_entries. constructor.
    { simpl. unfold len in *. rewrite length_map. lia. }
    clear Hl. induction IH as [|[k v] es [Hk Hv] _ IH]; simpl in *; [done|].
    rewrite !andb_true_iff in Hes. destruct Hes as [[??] ?]. apply Forall_app. split; [|by apply IH]. apply Forall_app. split; [by apply Hk|by apply Hv].
Qed.

Lemma write_nonempty t : item_ok t -> write t <> [].
Proof.
  intros Ht Hw. assert (forall t', item_ok t' -> t = t') as Hall.
  { intros t' Ht'. eapply (write_delimits t t' (write t') []); [done|done|]. by rewrite Hw, app_nil_r. }
  assert (CEnd = CBeginBytes) by (rewrite <-(Hall CEnd), <-(Hall CBeginBytes); done). done.
Qed.

(** Of two sequences of items written before some bytes, one is a prefix of the other. *)
Lemma write_prefix ts1 ts2 r1 r2 :
  Forall item_ok ts1 -> Forall item_ok ts2 ->
  concat (write <$> ts1) ++ r1 = concat (write <$> ts2) ++ r2 ->
  exists u, ts1 = ts2 ++ u \/ ts2 = ts1 ++ u.
Proof.
  intros H1. revert ts2. induction H1 as [|t1 ts1 Ht1 _ IH]; intros ts2 H2; [exists ts2; by right|].
  destruct H2 as [|t2 ts2 Ht2 H2]; [exists (t1 :: ts1); by left|]. simpl. rewrite <-!app_assoc. intros H.
  assert (t1 = t2) as <- by (by eapply write_delimits). apply app_inv_head in H.
  destruct (IH ts2 H2 H) as [u [->| ->]]; exists u; [by left|by right].
Qed.

Lemma to_vec_delimited d1 d2 r1 r2 :
  datum_ok d1 = true -> datum_ok d2 = true -> to_vec d1 ++ r1 = to_vec d2 ++ r2 -> d1 = d2 /\ r1 = r2.
Proof.
  intros H1 H2 H. assert (d1 = d2) as <-.
  { destruct (write_prefix _ _ _ _ (datum_items_ok d1 H1) (datum_items_ok d2 H2) H) as [u [Hu|Hu]].
    - apply (datum_delimited d1 H1 d2 [] u H2). by rewrite app_nil_r.
    - symmetry. apply (datum_delimited d2 H2 d1 [] u H1). by rewrite app_nil_r. }
  by apply app_inv_head in H.
Qed.

(** The signed bytes determine the message. *)
Lemma signed_message_unique m1 m2 :
  to_datum_cbor_bytes m1 = to_datum_cbor_bytes m2 -> m1 = m2.
Proof.
  intros H. destruct (to_vec_delimited (to_datum m1) (to_datum m2) [] []) as [Hm _]; [done|done| |].
  { rewrite !app_nil_r. exact H. }
  destruct m1 as [[] ? []], m2 as [[] ? []]. unfold to_datum, signed_message_to_datum, to_datum, utxo_id_to_datum in Hm.
  simpl in Hm. by injection Hm as -> -> -> -> ->.
Qed.
End EncodingFacts.

(** What the items of an integer denote by RFC 8949: a negative big number [n] is [-1 - n]. *)
Definition integer_value (ts : list Item) : option Z :=
  match ts with
  | [CInt i] => Some i
  | CTag tag :: rest =>
      b ← match rest with
          | [CBytes b] => Some b
          | CBeginBytes :: cs => Some (concat ((fun t => match t with CBytes c => c | _ => [] end) <$> cs))
          | _ => None
          end;
      if tag =? PosBignum then Some (be_value b)
      else if tag =? NegBignum then Some (-1 - be_value b) else None
  | _ => None
  end.

(** C32: the encoding of Plutus data is unambiguous: no encoding is a prefix of another
    one, so equal bytes mean equal data.  This is what a signature of the bytes relies
    on. *)
Theorem datum_encoding_unambiguous {cbor : Minicbor} {cbor_laws : MinicborLaws} d1 d2 r1 r2 :
  datum_ok d1 = true -> datum_ok d2 = true -> to_vec d1 ++ r1 = to_vec d2 ++ r2 -> d1 = d2 /\ r1 = r2.
Proof. apply to_vec_delimited. Qed.

Lemma bytestring_content b tag :
  integer_value (CTag tag :: encode_bytestring b) =
  if tag =? PosBignum then Some (be_value b) else if tag =? NegBignum then Some (-1 - be_value b) else None.
Proof.
  unfold encode_bytestring. destruct (_ <=? _); [done|]. cbn [integer_value].
  replace (concat _) with b; [done|]. rewrite fmap_app, concat_app. cbn. rewrite app_nil_r, <-list_fmap_compose.
  rewrite <-(chunks_concat BYTES_CHUNK_SIZE_LIMIT b) at 1 by done. f_equal. symmetry. apply list_fmap_id.
Qed.

(** An encoded integer denotes that integer, except below the range of [i64]: there the
    encoding stores the magnitude where CBOR stores the magnitude less one, so it denotes
    the next smaller integer. *)
Theorem encoded_integer_value {cbor : Minicbor} {cbor_laws : MinicborLaws} i :
  integer_value (encode_integer i) = Some (if i <? - 2 ^ 63 then i - 1 else i).
Proof.
  unfold encode_integer. destruct (Z.leb_spec (- 2 ^ 63) i), (Z.leb_spec i (2 ^ 63 - 1)); cbn [andb].
  1: by rewrite (proj2 (Z.ltb_ge _ _)) by lia.
  all: rewrite bytestring_content, to_bytes_be_value by lia; destruct (Z.ltb_spec 0 i); simpl; f_equal; try lia.
  all: destruct (Z.ltb_spec i (- 2 ^ 63)); lia.
Qed.

(** ** CBOR as RFC 8949 defines it *)

Module Rfc8949.
(** [n] in [k] bytes, big-endian *)
Fixpoint be (k : nat) (n : Z) : Bytes :=
  match k with
  | O => []
  | S k' => be k' (n / 256) ++ [n mod 256]
  end.

(** The head of an item: a major type and a number *)
Definition head (major n : Z) : Bytes :=
  if n <? 24 then [32 * major + n]
  else if n <? 2 ^ 8 then (32 * major + 24) :: be 1 n
  else if n <? 2 ^ 16 then (32 * major + 25) :: be 2 n
  else if n <? 2 ^ 32 then (32 * major + 26) :: be 4 n
  else (32 * major + 27) :: be 8 n.

Definition write_item (t : Item) : Bytes :=
  match t with
  | CInt i => if 0 <=? i then head 0 i else head 1 (-1 - i)
  | CBytes b => head 2 (len b) ++ b
  | CBeginBytes => [95]
  | CArray n => head 4 n
  | CBeginArray => [159]
  | CMap n => head 5 n
  | CTag n => head 6 n
  | CEnd => [255]
  end.

#[export] Instance rfc8949 : Minicbor :=
  {| write := write_item; to_bytes_be n := be (Z.to_nat (Z.log2 n / 8 + 1)) n |}.

Lemma be_length k n : length (be k n) = k.
Proof. revert n. induction k as [|k IH]; intros n; simpl; [done|]. rewrite length_app, IH. simpl. lia. Qed.

Lemma be_be_value k n : 0 <= n < 256 ^ Z.of_nat k -> be_value (be k n) = n.
Proof.
  revert n. induction k as [|k IH]; intros n Hn; simpl; [simpl in Hn; unfold be_value; simpl; lia|].
  rewrite Nat2Z.inj_succ, Z.pow_succ_r in Hn by lia.
  unfold be_value in *. rewrite foldl_app, IH.
  - simpl. pose proof (Z.div_mod n 256). lia.
  - split; [apply Z.div_pos; lia|]. apply Z.div_lt_upper_bound; lia.
Qed.

Lemma be_inj k n1 n2 r1 r2 :
  0 <= n1 < 256 ^ Z.of_nat k -> 0 <= n2 < 256 ^ Z.of_nat k -> be k n1 ++ r1 = be k n2 ++ r2 -> n1 = n2 /\ r1 = r2.
Proof.
  intros H1 H2 H. apply app_inj_1 in H as [Hb ->]; [|by rewrite !be_length]. split; [|done].
  by rewrite <-(be_be_value k n1), <-(be_be_value k n2), Hb.
Qed.

Lemma cons_eq_inv {A} (x y : A) l1 l2 : x :: l1 = y :: l2 -> x = y /\ l1 = l2.
Proof. by intros [= -> ->]. Qed.

Lemma head_inj m1 m2 n1 n2 r1 r2 :
  0 <= n1 <= umax 64 -> 0 <= n2 <= umax 64 -> head m1 n1 ++ r1 = head m2 n2 ++ r2 -> m1 = m2 /\ n1 = n2 /\ r1 = r2.
Proof.
  rewrite umax_64. intros H1 H2. unfold head.
  destruct (Z.ltb_spec n1 24), (Z.ltb_spec n2 24); cbn [app];
    [|destruct (Z.ltb_spec n2 (2 ^ 8)), (Z.ltb_spec n2 (2 ^ 16)), (Z.ltb_spec n2 (2 ^ 32))
     |destruct (Z.ltb_spec n1 (2 ^ 8)), (Z.ltb_spec n1 (2 ^ 16)), (Z.ltb_spec n1 (2 ^ 32))
     |destruct (Z.ltb_spec n1 (2 ^ 8)), (Z.ltb_spec n1 (2 ^ 16)), (Z.ltb_spec n1 (2 ^ 32)),
        (Z.ltb_spec n2 (2 ^ 8)), (Z.ltb_spec n2 (2 ^ 16)), (Z.ltb_spec n2 (2 ^ 32))].
  all: cbn [app]; intros [Hm Hr]%cons_eq_inv; try lia.
  1: split; [lia|]; split; [lia|done].
  all: apply be_inj in Hr as [-> ->]; [split; [lia|done]| |]; cbn -[Z.pow]; lia.
Qed.

(** The first byte of a head *)
Lemma head_starts m n : 0 <= n -> exists a r, head m n = (32 * m + a) :: r /\ 0 <= a <= 27.
Proof.
  intros Hn. unfold head. repeat case_match; eexists _, _; (split; [reflexivity|]);
    repeat match goal with H : (_ <? _) = true |- _ => apply Z.ltb_lt in H end; lia.
Qed.

Definition major (t : Item) : Z :=
  match t with
  | CInt i => if 0 <=? i then 0 else 1
  | CBytes _ | CBeginBytes => 2
  | CArray _ | CBeginArray => 4
  | CMap _ => 5
  | CTag _ => 6
  | CEnd => 7
  end.
Definition indefinite (t : Item) : bool :=
  match t with CBeginBytes | CBeginArray | CEnd => true | _ => false end.

Lemma item_starts t :
  item_ok t -> exists a r, write_item t = (32 * major t + a) :: r /\ (if indefinite t then a = 31 else 0 <= a <= 27).
Proof.
  destruct t as [i|b| |n| |n|n|]; cbn [item_ok write_item major indefinite]; intros Hok.
  3, 5, 8: by eexists 31, [].
  - destruct (Z.leb_spec 0 i); apply head_starts; lia.
  - destruct (head_starts 2 (len b)) as (a & r & -> & Ha); [unfold len; lia|]. by exists a, (r ++ b).
  - apply head_starts; lia.
  - apply head_starts; lia.
  - apply head_starts; lia.
Qed.

Lemma write_item_delimits t1 t2 r1 r2 :
  item_ok t1 -> item_ok t2 -> write_item t1 ++ r1 = write_item t2 ++ r2 -> t1 = t2.
Proof.
  intros H1 H2 H. destruct (item_starts t1 H1) as (a1 & u1 & E1 & A1), (item_starts t2 H2) as (a2 & u2 & E2 & A2).
  assert (major t1 = major t2 /\ indefinite t1 = indefinite t2) as [Hm Hi].
  { rewrite E1, E2 in H. injection H as Ha _. destruct (indefinite t1), (indefinite t2); split; try done; lia. }
  clear E1 E2 A1 A2. destruct t1, t2; try done; cbn [major indefinite] in Hm, Hi; try (by repeat case_match).
  all: cbn [write_item item_ok] in H1, H2, H; rewrite ?umax_64 in *.
  1: destruct (Z.leb_spec 0 i), (Z.leb_spec 0 i0); try done.
  all: rewrite <-?app_assoc in H; apply head_inj in H as (_ & Hn & Hr); rewrite ?umax_64; try (unfold len in *; lia).
  - f_equal. lia.
  - f_equal. lia.
  - unfold len in Hn. apply app_inj_1 in Hr as [-> _]; [done|lia].
  - by subst.
  - by subst.
  - by subst.
Qed.

Lemma rfc8949_laws : MinicborLaws.
Proof.
  split; [apply write_item_delimits|]. intros n Hn. apply be_be_value. split; [lia|].
  pose proof (Z.log2_spec n Hn) as [_ Hl]. pose proof (Z.log2_nonneg n).
  assert (0 <= Z.log2 n / 8) by (apply Z.div_pos; lia). rewrite Z2Nat.id by lia.
  change 256 with (2 ^ 8). rewrite <-Z.pow_mul_r by lia. eapply Z.lt_le_trans; [exact Hl|].
  apply Z.pow_le_mono_r; [lia|]. pose proof (Z.div_mod (Z.log2 n) 8). pose proof (Z.mod_pos_bound (Z.log2 n) 8). lia.
Qed.
End Rfc8949.
Import Rfc8949.

(** The message for the UTXO 1 of a transaction: its first bytes, and its only reading *)
Lemma datum_encoding_unambiguous_witness :
  let m i := to_datum {| genesis_utxo := {| tx_hash := [1]; index := 0 |}; sidechain_pub_key := [2; 3];
                         registration_utxo := {| tx_hash := [4]; index := i |} |} in
  take 5 (to_vec (m 1)) = [216; 121; 159; 216; 121] /\ m 1 = m 1 /\ ([] : Bytes) = [].
Proof.
  intros m. split; [by vm_compute|].
  apply (datum_encoding_unambiguous (cbor_laws:=rfc8949_laws) (m 1) (m 1) [] []); by vm_compute.
Defined.

Lemma encoded_integer_value_witness :
  encode_integer (- 2 ^ 63 - 1) = [CTag 3; CBytes [128; 0; 0; 0; 0; 0; 0; 1]] /\
  integer_value (encode_integer (- 2 ^ 63 - 1)) = Some (- 2 ^ 63 - 2).
Proof.
  split; [by vm_compute|]. exact (encoded_integer_value (cbor_laws:=rfc8949_laws) (- 2 ^ 63 - 1)).
Defined.
