(* ===== verification/Domain.v ===== *)
(** * Domain types

    Models the data of [src/partner-chains/toolkit/sidechain/domain/src/lib.rs] that the
    selection of authorities and the codecs share: keys of candidates, with their SCALE
    encoding that is compatible with an older one, registrations and their order, and the
    D-parameter.  The compact integers of [parity-scale-codec] are a parameter. *)

From S2P Require Import Prelude Frame Plutus.
From stdpp Require Import list.
Open Scope Z_scope.

(** ** Keys *)

Record CandidateKey := { key_id : Bytes; key_bytes : Bytes }.
Notation CandidateKeys := (list CandidateKey).

#[export] Instance candidate_key_eq_dec : EqDecision CandidateKey.
Proof. solve_decision. Defined.

(** The bytes of "aura" and "gran" *)
Definition AURA : Bytes := [97; 117; 114; 97].
Definition GRANDPA : Bytes := [103; 114; 97; 110].

(** [From<AuraPublicKey>] and [From<GrandpaPublicKey>] *)
Definition aura_key (b : Bytes) : CandidateKey := {| key_id := AURA; key_bytes := b |}.
Definition grandpa_key (b : Bytes) : CandidateKey := {| key_id := GRANDPA; key_bytes := b |}.

(** [CandidateKeys::find], [find_or_empty] *)
Definition find_key (keys : CandidateKeys) (id : Bytes) : option Bytes :=
  key_bytes <$> head (filter (fun k => key_id k = id) keys).
Definition find_or_empty (keys : CandidateKeys) (id : Bytes) : Bytes := default [] (find_key keys id).
Definition has_only_aura_and_grandpa_keys (keys : CandidateKeys) : bool :=
  (len keys =? 2) && bool_decide (is_Some (find_key keys AURA)) && bool_decide (is_Some (find_key keys GRANDPA)).

(** *** SCALE *)

(** Of the codec library: [Compact<u32>], and [decode_vec_with_len], which reads bytes *)
Class Scale := {
  compact : Z -> Bytes;
  decode_compact : Bytes -> option (Z * Bytes);
  decode_vec_with_len : Z -> Bytes -> option (Bytes * Bytes)
}.
Class ScaleLaws `{!Scale} := {
  compact_decodes n r : 0 <= n <= umax 32 -> decode_compact (compact n ++ r) = Some (n, r);
  decode_vec_app n b r : len b = n -> decode_vec_with_len n (b ++ r) = Some (b, r)
}.

(** The codec of [Vec<u8>] *)
Definition encode_vec `{!Scale} (b : Bytes) : Bytes := compact (len b) ++ b.
Definition decode_vec `{!Scale} (input : Bytes) : option (Bytes * Bytes) :=
  '(n, input) ← decode_compact input;
  decode_vec_with_len n input.

(** The derived codec of [CandidateKey], whose identifier is an array of 4 bytes *)
Definition encode_key `{!Scale} (k : CandidateKey) : Bytes := key_id k ++ encode_vec (key_bytes k).
Definition decode_key `{!Scale} (input : Bytes) : option (CandidateKey * Bytes) :=
  '(id, input) ← decode_vec_with_len 4 input;
  '(b, input) ← decode_vec input;
  Some ({| key_id := id; key_bytes := b |}, input).

Fixpoint decode_key_list `{!Scale} (n : nat) (input : Bytes) : option (CandidateKeys * Bytes) :=
  match n with
  | O => Some ([], input)
  | S n' =>
      '(k, input) ← decode_key input;
      '(ks, input) ← decode_key_list n' input;
      Some (k :: ks, input)
  end.

(** [Encode] and [Decode] of [CandidateKeys] *)
Definition encode_keys `{!Scale} (keys : CandidateKeys) : Bytes :=
  if has_only_aura_and_grandpa_keys keys
  then encode_vec (find_or_empty keys AURA) ++ encode_vec (find_or_empty keys GRANDPA)
  else compact (umax 32) ++ compact (len keys) ++ concat (encode_key <$> keys).
Definition decode_keys `{!Scale} (input : Bytes) : option (CandidateKeys * Bytes) :=
  '(marker_or_aura_size, input) ← decode_compact input;
  if marker_or_aura_size =? umax 32 then
    '(n, input) ← decode_compact input;
    decode_key_list (Z.to_nat n) input
  else
    '(aura_bytes, input) ← decode_vec_with_len marker_or_aura_size input;
    '(grandpa, input) ← decode_vec input;
    Some ([aura_key aura_bytes; grandpa_key grandpa], input).

(** ** Candidates *)

Record DParameter := { num_permissioned_candidates : Z; num_registered_candidates : Z (* u16 *) }.

Record UtxoInfo := {
  utxo_id : UtxoId;
  info_epoch_number : Z;
  info_block_number : Z;
  info_slot_number : Z;
  tx_index_within_block : Z
}.

Record UtxoInfoOrderingKey := { k_block_number : Z; k_tx_index : Z; k_utxo_index : Z }.
Definition ordering_key (u : UtxoInfo) : UtxoInfoOrderingKey :=
  {| k_block_number := info_block_number u; k_tx_index := tx_index_within_block u;
     k_utxo_index := index (utxo_id u) |}.
(** The derived [Ord]: lexicographic *)
Definition key_le (a b : UtxoInfoOrderingKey) : bool :=
  (k_block_number a <? k_block_number b) ||
  ((k_block_number a =? k_block_number b) &&
   ((k_tx_index a <? k_tx_index b) ||
    ((k_tx_index a =? k_tx_index b) && (k_utxo_index a <=? k_utxo_index b)))).

Record RegistrationData := {
  r_registration_utxo : UtxoId;
  sidechain_signature : Bytes;
  mainchain_signature : Bytes;
  cross_chain_signature : Bytes;
  r_sidechain_pub_key : Bytes;
  cross_chain_pub_key : Bytes;
  utxo_info : UtxoInfo;
  tx_inputs : list UtxoId;
  r_keys : CandidateKeys
}.

Record CandidateRegistrations := {
  stake_pool_public_key : Bytes;
  registrations : list RegistrationData;
  stake_delegation : option Z (* u64 *)
}.

Record PermissionedCandidateData := { sidechain_public_key : Bytes; p_keys : CandidateKeys }.

(** [EpochNonce::as_array]: cut or filled with zeros to 32 bytes *)
Definition as_array (nonce : Bytes) : Bytes := take 32 nonce ++ replicate (32 - length nonce) 0.

Record AdaBasedStaking := { pub_key : Bytes; signature : Bytes }.
#[export] Instance ada_based_staking_eq_dec : EqDecision AdaBasedStaking.
Proof. solve_decision. Defined.

Record CandidateRegistration := {
  stake_ownership : AdaBasedStaking;
  partner_chain_pub_key : Bytes;
  partner_chain_signature : Bytes;
  cr_registration_utxo : UtxoId;
  own_pkh : Bytes;
  cr_keys : CandidateKeys
}.

Definition matches_keys (self other : CandidateRegistration) : bool :=
  bool_decide (stake_ownership self = stake_ownership other) &&
  bool_decide (partner_chain_pub_key self = partner_chain_pub_key other) &&
  bool_decide (partner_chain_signature self = partner_chain_signature other) &&
  forallb (fun key => bool_decide (key ∈ cr_keys other)) (cr_keys self).

(** ** Lemmas and properties *)

(** The keys in the order in which they are decoded *)
Definition canonical_keys (keys : CandidateKeys) : CandidateKeys :=
  if has_only_aura_and_grandpa_keys keys
  then [aura_key (find_or_empty keys AURA); grandpa_key (find_or_empty keys GRANDPA)] else keys.

(** Identifiers have 4 bytes, and the lengths are representable and not the marker. *)
Definition key_ok (k : CandidateKey) : Prop := len (key_id k) = 4 /\ len (key_bytes k) < umax 32.
Definition keys_ok (keys : CandidateKeys) : Prop := Forall key_ok keys /\ len keys <= umax 32.

Lemma find_key_elem keys id b : find_key keys id = Some b -> {| key_id := id; key_bytes := b |} ∈ keys.
Proof.
  unfold find_key. intros (k & Hk & ->)%fmap_Some. apply head_Some in Hk as [l Hl].
  assert (k ∈ filter (fun k => key_id k = id) keys) as [<- Hin]%list_elem_of_filter by (rewrite Hl; left).
  by destruct k.
Qed.

(** Two keys with both identifiers are these two, in some order. *)
Lemma only_aura_and_grandpa keys :
  has_only_aura_and_grandpa_keys keys = true ->
  exists a g, keys = [aura_key a; grandpa_key g] \/ keys = [grandpa_key g; aura_key a].
Proof.
  unfold has_only_aura_and_grandpa_keys. rewrite !andb_true_iff, !bool_decide_eq_true.
  intros [[Hlen [a Ha]] [g Hg]]. apply Z.eqb_eq in Hlen. exists a, g.
  apply find_key_elem in Ha, Hg. destruct keys as [|x [|y [|]]]; try (unfold len in Hlen; simpl in Hlen; lia).
  fold (aura_key a) in Ha. fold (grandpa_key g) in Hg. rewrite !elem_of_cons, elem_of_nil in Ha, Hg.
  destruct Ha as [<-|[<-|[]]], Hg as [Hg|[Hg|[]]]; try done; subst; auto.
Qed.

Section Codec.
Context {scale : Scale} {scale_laws : ScaleLaws}.

Lemma decode_vec_encode b r : len b <= umax 32 -> decode_vec (encode_vec b ++ r) = Some (b, r).
Proof.
  intros Hb. unfold decode_vec, encode_vec. rewrite <-app_assoc, compact_decodes by (unfold len in *; lia).
  simpl. by apply decode_vec_app.
Qed.

Lemma decode_key_encode k r : key_ok k -> decode_key (encode_key k ++ r) = Some (k, r).
Proof.
  intros [Hid Hb]. unfold decode_key, encode_key. rewrite <-app_assoc, decode_vec_app by done. simpl.
  rewrite decode_vec_encode by lia. simpl. by destruct k.
Qed.

Lemma decode_key_list_encode ks r :
  Forall key_ok ks -> decode_key_list (length ks) (concat (encode_key <$> ks) ++ r) = Some (ks, r).
Proof.
  induction 1 as [|k ks Hk _ IH]; [done|]. cbn [length decode_key_list].
  rewrite fmap_cons, concat_cons, <-app_assoc, decode_key_encode by done. cbn [mbind option_bind]. by rewrite IH.
Qed.

(** Decoding inverts the encoding of candidate keys, both the one that is compatible
    with older runtimes and the general one, up to the order of Aura and Grandpa keys;
    the keys themselves do not change, so a member's session keys do not either. *)
Theorem candidate_keys_roundtrip keys r :
  keys_ok keys ->
  decode_keys (encode_keys keys ++ r) = Some (canonical_keys keys, r) /\
  Permutation (canonical_keys keys) keys /\
  forall id, find_key (canonical_keys keys) id = find_key keys id.
Proof.
  intros [Hks Hlen]. unfold encode_keys, decode_keys, canonical_keys.
  destruct (has_only_aura_and_grandpa_keys keys) eqn:Hag.
  - destruct (only_aura_and_grandpa keys Hag) as (a & g & Hk).
    assert (find_or_empty keys AURA = a /\ find_or_empty keys GRANDPA = g) as [Ha Hg].
    { destruct Hk as [->| ->]; split; reflexivity. }
    assert (key_ok (aura_key a) /\ key_ok (grandpa_key g)) as [[_ Hla] [_ Hlg]].
    { rewrite Forall_forall in Hks. destruct Hk as [->| ->]; split; apply Hks; set_solver. }
    simpl in Hla, Hlg. rewrite Ha, Hg. split.
    + unfold encode_vec at 1. rewrite <-!app_assoc, compact_decodes by (unfold len in *; lia). simpl.
      rewrite (proj2 (Z.eqb_neq _ _)) by lia. rewrite decode_vec_app by done. simpl. by rewrite decode_vec_encode by lia.
    + destruct Hk as [->| ->]; [done|]. split; [by constructor|]. intros id. unfold find_key. simpl.
      repeat (rewrite filter_cons; simpl). repeat case_decide; simpl; try done; by subst.
  - split; [|done]. rewrite <-!app_assoc, compact_decodes by (unfold umax; lia). simpl.
    rewrite compact_decodes by (unfold len in *; lia). simpl. unfold len. rewrite Nat2Z.id. by apply decode_key_list_encode.
Qed.
End Codec.

(** ** The compact integers of SCALE *)

Module ScaleCompact.
Fixpoint le (k : nat) (n : Z) : Bytes :=
  match k with
  | O => []
  | S k' => n mod 256 :: le k' (n / 256)
  end.
Definition le_value (b : Bytes) : Z := foldr (fun x n => x + 256 * n) 0 b.

Definition read (n : Z) (input : Bytes) : option (Bytes * Bytes) :=
  if n <=? len input then Some (take (Z.to_nat n) input, drop (Z.to_nat n) input) else None.

Definition compact_u32 (n : Z) : Bytes :=
  if n <? 2 ^ 6 then [4 * n]
  else if n <? 2 ^ 14 then le 2 (4 * n + 1)
  else if n <? 2 ^ 30 then le 4 (4 * n + 2)
  else 3 :: le 4 n.
Definition decode_compact_u32 (input : Bytes) : option (Z * Bytes) :=
  b ← head input;
  if b mod 4 =? 0 then Some (b / 4, tail input)
  else if b mod 4 =? 1 then '(x, r) ← read 2 input; Some (le_value x / 4, r)
  else if b mod 4 =? 2 then '(x, r) ← read 4 input; Some (le_value x / 4, r)
  else '(x, r) ← read 4 (tail input); Some (le_value x, r).

#[export] Instance scale_compact : Scale := { compact := compact_u32; decode_compact := decode_compact_u32; decode_vec_with_len := read }.

Lemma read_app n b r : len b = n -> read n (b ++ r) = Some (b, r).
Proof.
  intros <-. unfold read, len. rewrite length_app, (proj2 (Z.leb_le _ _)) by lia.
  rewrite Nat2Z.id, take_app_length, drop_app_length. done.
Qed.

Lemma le_length k n : len (le k n) = Z.of_nat k.
Proof. unfold len. revert n. induction k as [|k IH]; intros n; cbn [le length]; [done|]. specialize (IH (n / 256)). lia. Qed.

Lemma le_le_value k n : 0 <= n < 256 ^ Z.of_nat k -> le_value (le k n) = n.
Proof.
  revert n. induction k as [|k IH]; intros n Hn; [simpl in *; lia|].
  rewrite Nat2Z.inj_succ, Z.pow_succ_r in Hn by lia. cbn [le le_value foldr]. fold (le_value (le k (n / 256))).
  rewrite IH; [pose proof (Z.div_mod n 256); lia|]. split; [apply Z.div_pos; lia|apply Z.div_lt_upper_bound; lia].
Qed.

(** The two low bits of the first byte tell the length. *)
Lemma le_mode k n m : (0 < k)%nat -> 0 <= m < 4 -> exists b r, le k (4 * n + m) = b :: r /\ b mod 4 = m.
Proof.
  intros Hk Hm. destruct k as [|k]; [lia|]. cbn [le]. eexists _, _. split; [done|].
  rewrite <-Znumtheory.Zmod_div_mod; [|lia|lia|by exists 64].
  rewrite Z.add_comm, Z.mul_comm, Z.mod_add, Z.mod_small; lia.
Qed.

Lemma decode_mode k n m r :
  (0 < k)%nat -> 0 <= m < 4 -> 0 <= n -> 4 * n + m < 256 ^ Z.of_nat k ->
  ('(x, r) ← read (Z.of_nat k) (le k (4 * n + m) ++ r); Some (le_value x / 4, r)) = Some (n, r).
Proof.
  intros Hk Hm Hn Hb. rewrite read_app by apply le_length. simpl. rewrite le_le_value by lia. do 2 f_equal.
  rewrite Z.mul_comm, Z.add_comm, Z.div_add, Z.div_small; lia.
Qed.

Lemma scale_compact_laws : ScaleLaws.
Proof.
  split; [|exact read_app]. intros n r [Hn Hmax]. cbn [compact decode_compact scale_compact].
  change (umax 32) with 4294967295 in Hmax. unfold compact_u32, decode_compact_u32.
  destruct (Z.ltb_spec n (2 ^ 6)); [|destruct (Z.ltb_spec n (2 ^ 14)); [|destruct (Z.ltb_spec n (2 ^ 30))]].
  - cbn [app head mbind option_bind tail]. rewrite Z.mul_comm, Z.mod_mul, Z.div_mul by lia. done.
  - destruct (le_mode 2 n 1) as (b & u & E & Hm); [lia|lia|].
    pose proof (decode_mode 2 n 1 r ltac:(lia) ltac:(lia) Hn ltac:(simpl; lia)) as Hd.
    change (Z.of_nat 2) with 2 in Hd. rewrite E in Hd |- *. cbn [app head mbind option_bind] in *. by rewrite Hm.
  - destruct (le_mode 4 n 2) as (b & u & E & Hm); [lia|lia|].
    pose proof (decode_mode 4 n 2 r ltac:(lia) ltac:(lia) Hn ltac:(simpl; lia)) as Hd.
    change (Z.of_nat 4) with 4 in Hd. rewrite E in Hd |- *. cbn [app head mbind option_bind] in *. by rewrite Hm.
  - cbn [app head mbind option_bind tail]. change (3 mod 4) with 3. cbn [Z.eqb Pos.eqb].
    rewrite read_app by apply (le_length 4). cbn [mbind option_bind]. rewrite le_le_value; [done|]. simpl. lia.
Qed.
End ScaleCompact.
Import ScaleCompact.

Lemma candidate_keys_roundtrip_witness :
  let keys := [grandpa_key [1; 2]; aura_key [3]] in
  encode_keys keys = [4; 3; 8; 1; 2] /\
  decode_keys (encode_keys keys ++ [7]) = Some ([aura_key [3]; grandpa_key [1; 2]], [7]).
Proof.
  intros keys. split; [by vm_compute|].
  apply (candidate_keys_roundtrip (scale_laws:=scale_compact_laws) keys [7]).
  split; [repeat constructor; vm_compute; congruence|by vm_compute].
Defined.

(** Only the keys of the first registration are compared: it matches one with further keys,
    but not the other way round. *)
Lemma matches_keys_is_not_symmetric :
  exists a b, matches_keys a b = true /\ matches_keys b a = false.
Proof.
  exists (Build_CandidateRegistration (Build_AdaBasedStaking [] []) [] [] (Build_UtxoId [] 0) [] [aura_key [1]]).
  exists (Build_CandidateRegistration (Build_AdaBasedStaking [] []) [] [] (Build_UtxoId [] 0) []
            [aura_key [1]; grandpa_key [2]]).
  by vm_compute.
Qed.
