(* ===== verification/SystemParameters.v ===== *)
(** * The system parameters

    Models [src/pallets/system-parameters/src/lib.rs]: the terms and conditions and the
    D-parameter, which governance sets and the committee selection reads. *)

From S2P Require Import Prelude Frame Plutus Domain.
From stdpp Require Import list.
Open Scope Z_scope.

Definition MAX_URL_SIZE : Z := 256.

Section Pallet.
Context {Origin Hash : Type}.
(** [SystemOrigin]; in the runtime it is the root origin. *)
Variable system_origin : Origin -> bool.

Record TermsAndConditions := { hash : Hash; url : Bytes }.

Inductive Event :=
| TermsAndConditionsUpdated (h : Hash) (u : Bytes)
| DParameterUpdated (num_permissioned num_registered : Z).

Record State := {
  TermsAndConditionsStorage : option TermsAndConditions;
  DParameterStorage : Z * Z;
  events : list Event
}.
Definition set_terms (t : TermsAndConditions) (s : State) : State :=
  {| TermsAndConditionsStorage := Some t; DParameterStorage := DParameterStorage s; events := events s |}.
Definition set_d_parameter (d : Z * Z) (s : State) : State :=
  {| TermsAndConditionsStorage := TermsAndConditionsStorage s; DParameterStorage := d; events := events s |}.
Definition deposit (e : Event) (s : State) : State :=
  {| TermsAndConditionsStorage := TermsAndConditionsStorage s; DParameterStorage := DParameterStorage s;
     events := events s ++ [e] |}.
Definition empty_storage : State :=
  {| TermsAndConditionsStorage := None; DParameterStorage := (0, 0); events := [] |}.

Inductive Error := UrlTooLong.

Record TermsAndConditionsGenesisConfig := { g_hash : option Hash; g_url : option Bytes }.
Record DParameterGenesisConfig := { g_permissioned : option Z; g_registered : option Z }.
Record GenesisConfig := {
  terms_and_conditions : TermsAndConditionsGenesisConfig;
  d_parameter : DParameterGenesisConfig
}.

(** The bytes of the default URL, [DEFAULT_TERMS_AND_CONDITIONS_URL] *)
Definition DEFAULT_TERMS_AND_CONDITIONS_URL : Bytes :=
  [104; 116; 116; 112; 115; 58; 47; 47; 119; 119; 119; 46; 109; 105; 100; 110; 105; 103; 104; 116; 46; 103; 100;
   47; 103; 108; 111; 98; 97; 108; 45; 116; 101; 114; 109; 115; 45; 116; 120; 116].

Notation Sys := (M State (dispatch_error Error)).

(** [GenesisConfig::build], on the empty storage *)
Definition build (g : GenesisConfig) : outcome Empty_set State :=
  let! h := some_or_panic (g_hash (terms_and_conditions g)) in
  let! u := some_or_panic (g_url (terms_and_conditions g)) in
  let! url_bounded := some_or_panic (bounded_try_from MAX_URL_SIZE u) in
  let s := set_terms {| hash := h; url := url_bounded |} empty_storage in
  Ok (match g_permissioned (d_parameter g), g_registered (d_parameter g) with
      | Some num_permissioned, Some num_registered => set_d_parameter (num_permissioned, num_registered) s
      | _, _ => s
      end).

Definition update_terms_and_conditions (origin : Origin) (h : Hash) (u : Bytes) : Sys unit :=
  do* ensure (system_origin origin) BadOrigin in
  let* url_bounded := ok_or (bounded_try_from MAX_URL_SIZE u) (ModuleError UrlTooLong) in
  do* modify (set_terms {| hash := h; url := url_bounded |}) in
  modify (deposit (TermsAndConditionsUpdated h url_bounded)).

Definition update_d_parameter (origin : Origin) (num_permissioned num_registered : Z) : Sys unit :=
  do* ensure (system_origin origin) BadOrigin in
  do* modify (set_d_parameter (num_permissioned, num_registered)) in
  modify (deposit (DParameterUpdated num_permissioned num_registered)).

Definition get_terms_and_conditions (s : State) : option TermsAndConditions := TermsAndConditionsStorage s.
Definition get_d_parameter (s : State) : DParameter :=
  {| num_permissioned_candidates := fst (DParameterStorage s);
     num_registered_candidates := snd (DParameterStorage s) |}.

(** ** Calls and chains *)

Inductive Call :=
| UpdateTermsAndConditions (h : Hash) (u : Bytes)
| UpdateDParameter (num_permissioned num_registered : Z).

Definition dispatch (origin : Origin) (c : Call) : Sys unit :=
  match c with
  | UpdateTermsAndConditions h u => update_terms_and_conditions origin h u
  | UpdateDParameter p r => update_d_parameter origin p r
  end.

(** What the decoding of a call and of the configuration ensures. *)
Definition typed (c : Call) : Prop :=
  match c with
  | UpdateTermsAndConditions _ _ => True
  | UpdateDParameter p r => in_u 16 p /\ in_u 16 r
  end.
Definition genesis_typed (g : GenesisConfig) : Prop :=
  (forall p, g_permissioned (d_parameter g) = Some p -> in_u 16 p) /\
  (forall r, g_registered (d_parameter g) = Some r -> in_u 16 r).

Inductive reachable (g : GenesisConfig) : State -> Prop :=
| reachable_genesis s : build g = Ok s -> reachable g s
| reachable_call s o c s' : reachable g s -> typed c -> dispatch o c s = Ok (tt, s') -> reachable g s'.

(** The parameters that a list of events announces, after given ones. *)
Definition announced (p : TermsAndConditions * DParameter) (es : list Event) : TermsAndConditions * DParameter :=
  foldl (fun p e => match e with
                    | TermsAndConditionsUpdated h u => ({| hash := h; url := u |}, snd p)
                    | DParameterUpdated np nr =>
                        (fst p, {| num_permissioned_candidates := np; num_registered_candidates := nr |})
                    end) p es.

Lemma bounded_try_from_Some {A} b (l l' : list A) : bounded_try_from b l = Some l' -> l' = l /\ len l <= b.
Proof. unfold bounded_try_from. destruct (Z.leb_spec (len l) b); naive_solver. Qed.

(** On every chain there are terms and conditions, their URL fits its bound and the
    two numbers of the D-parameter fit 16 bits; calls of other origins than the system's
    fail; and the parameters are those of the genesis, as updated by the events. *)
Theorem system_parameters_typed g s0 s :
  genesis_typed g -> build g = Ok s0 -> reachable g s ->
  (forall o c, system_origin o = false -> dispatch o c s = Err BadOrigin) /\
  in_u 16 (num_permissioned_candidates (get_d_parameter s)) /\
  in_u 16 (num_registered_candidates (get_d_parameter s)) /\
  exists t t0, get_terms_and_conditions s0 = Some t0 /\ get_terms_and_conditions s = Some t /\
    (t, get_d_parameter s) = announced (t0, get_d_parameter s0) (events s) /\ len (url t) <= MAX_URL_SIZE.
Proof.
  intros [Hp Hr] H0 Hreach. split.
  { intros o [] Ho; simpl; unfold update_terms_and_conditions, update_d_parameter; unfold_m; by rewrite Ho. }
  induction Hreach as [s Hs|s o c s' _ IH Hc Hd].
  - assert (s = s0) as -> by congruence. unfold build in H0.
    destruct (g_hash _) as [h|]; [|done]. destruct (g_url _) as [u|]; [|done]. simpl in H0.
    destruct (bounded_try_from MAX_URL_SIZE u) as [u'|] eqn:Hu; [|done]. simpl in H0.
    apply bounded_try_from_Some in Hu as [-> Hu].
    destruct (g_permissioned _) as [p|] eqn:Ep, (g_registered _) as [r|] eqn:Er; injection H0 as <-; simpl.
    all: split; [|split; [|by eexists _, _]]; auto; unfold in_u, umax; simpl; lia.
  - destruct IH as (Hp' & Hr' & t & t0 & Ht0 & Ht & Ha & Hu). destruct c as [h u|p r]; simpl in Hd.
    + unfold update_terms_and_conditions in Hd. unfold_m. destruct (system_origin o); [|done].
      destruct (bounded_try_from MAX_URL_SIZE u) as [u'|] eqn:Eu; [|done]. injection Hd as <-.
      apply bounded_try_from_Some in Eu as [-> Eu]. split; [done|]. split; [done|]. eexists _, t0. split; [done|].
      split; [reflexivity|]. split; [|done]. simpl. unfold announced in *. rewrite foldl_app, <-Ha. done.
    + unfold update_d_parameter in Hd. unfold_m. destruct (system_origin o); [|done]. injection Hd as <-.
      destruct Hc. split; [done|]. split; [done|]. exists t, t0. split; [done|]. split; [done|]. split; [|done].
      simpl. unfold announced in *. rewrite foldl_app, <-Ha. done.
Qed.
End Pallet.
Arguments TermsAndConditions : clear implicits.
Arguments State : clear implicits.
Arguments GenesisConfig : clear implicits.

Lemma system_parameters_typed_witness :
  let g := {| terms_and_conditions := {| g_hash := Some 7; g_url := Some DEFAULT_TERMS_AND_CONDITIONS_URL |};
              d_parameter := {| g_permissioned := Some 10; g_registered := None |} |} in
  exists s0 s : State Z, build g = Ok s0 /\
    update_d_parameter (fun o : bool => o) true 6 4 s0 = Ok (tt, s) /\
    exists t t0 : TermsAndConditions Z, get_terms_and_conditions s0 = Some t0 /\ get_terms_and_conditions s = Some t /\
      (t, get_d_parameter s) = announced (t0, get_d_parameter s0) (events s) /\ len (url t) <= MAX_URL_SIZE.
Proof.
  intros g. eexists _, _. split; [reflexivity|]. split; [reflexivity|].
  apply (system_parameters_typed (fun o : bool => o) g).
  - split; intros x [= <-]; unfold in_u, umax; simpl; lia.
  - reflexivity.
  - eapply (reachable_call _ g _ true (UpdateDParameter 6 4)); [by apply reachable_genesis| |reflexivity].
    split; unfold in_u, umax; simpl; lia.
Defined.
