(* ===== verification/AuthoritySelection.v ===== *)
(** * The selection of authorities

    Models [src/partner-chains/toolkit/committee-selection/authority-selection-inherents/src]:
    which registrations and permissioned candidates are valid
    ([filter_invalid_candidates.rs]), the selection of a committee among them
    ([select_authorities.rs]), its inputs ([authority_selection_inputs.rs]) and the inherent
    data provider that reads them from the main chain ([ariadne_inherent_data_provider.rs]);
    and the runtime's own selection, which takes the D-parameter from the pallet of the
    system parameters ([src/runtime/src/lib.rs]).  Signature verification, the encoder and
    the random generator are parameters. *)

From stdpp Require Import sorting.
From S2P Require Import Prelude Frame Committee Epochs Plutus Domain SystemParameters Selection.
From stdpp Require Import list.
Open Scope Z_scope.

(** ** Keys of a candidate *)

(** [MaybeFromCandidateKeys::maybe_from], its default: the required keys are appended to a
    vector of at most 1024 bytes, which is decoded. *)
Fixpoint append_keys (required_keys : list Bytes) (keys : CandidateKeys) (encoded : Bytes) : option Bytes :=
  match required_keys with
  | [] => Some encoded
  | key_id :: rest =>
      key ← find_key keys key_id;
      if len (encoded ++ key) <=? 1024 then append_keys rest keys (encoded ++ key) else None
  end.
Definition maybe_from_default {K} (key_ids : list Bytes) (decode : Bytes -> option K) (keys : CandidateKeys)
    : option K :=
  encoded ← append_keys key_ids keys [];
  decode encoded.

(** The runtime's session keys *)
Record SessionKeys := { aura : Bytes; grandpa : Bytes }.
Definition session_keys_maybe_from (keys : CandidateKeys) : option SessionKeys :=
  a ← find_key keys AURA;
  if len a =? 32 then
    g ← find_key keys GRANDPA;
    if len g =? 32 then Some {| aura := a; grandpa := g |} else None
  else None.

(** ** Validation of candidates *)

Inductive StakeError := InvalidStake | UnknownStake.
Inductive RegistrationDataError :=
| InvalidMainchainSignature | InvalidSidechainSignature | InvalidTxInput
| InvalidMainchainPubKey | InvalidSidechainPubKey | InvalidAccountKeys.
Inductive PermissionedCandidateDataError := PInvalidSidechainPubKey | PInvalidAccountKeys.

(** [Signature::verify] of [ed25519] and of [ecdsa], whose signatures have a recovery byte *)
Class Crypto := {
  ed25519_verify : Bytes -> Bytes -> Bytes -> bool;
  ecdsa_verify : Bytes -> Bytes -> Bytes -> bool
}.

Definition NEGATIVE_POINT_SIGN : Z := 27.
Definition POSITIVE_POINT_SIGN : Z := 28.

(** [validate_stake] *)
Definition validate_stake (stake : option Z) : outcome StakeError Z :=
  match stake with
  | None => Err UnknownStake
  | Some stake => if stake =? 0 then Err InvalidStake else Ok stake
  end.

(** [max_by_key]: the last one of the greatest *)
Definition max_by_key {A} (key : A -> UtxoInfoOrderingKey) (l : list A) : option A :=
  foldl (fun best x => match best with
                       | None => Some x
                       | Some b => if key_le (key b) (key x) then Some x else Some b
                       end) None l.

Definition ok {E A} (o : outcome E A) : option A := match o with Ok a => Some a | _ => None end.
Definition err {E A} (o : outcome E A) : option E := match o with Err e => Some e | _ => None end.

Section Validation.
Context {cbor : Minicbor} {crypto : Crypto}.
Context {AccountId Keys : Type}.
(** [TAccountId: From<ecdsa::Public>] and [MaybeFromCandidateKeys] *)
Variable account_of : Bytes -> AccountId.
Variable maybe_from : CandidateKeys -> option Keys.

Record CandidateWithStake := {
  stake_pool_pub_key : Bytes;
  c_stake_delegation : Z;
  c_account_id : AccountId;
  c_account_keys : Keys
}.
Record PermissionedCandidate := { pc_account_id : AccountId; pc_account_keys : Keys }.
Inductive Candidate :=
| Permissioned (c : PermissionedCandidate)
| Registered (c : CandidateWithStake).

Definition account_id (c : Candidate) : AccountId :=
  match c with Permissioned c => pc_account_id c | Registered c => c_account_id c end.
Definition account_keys (c : Candidate) : Keys :=
  match c with Permissioned c => pc_account_keys c | Registered c => c_account_keys c end.
Definition candidate_stake (c : Candidate) : option Z :=
  match c with Permissioned _ => None | Registered c => Some (c_stake_delegation c) end.

Definition verify_stake_pool_signature (stake_pool_pub_key : Bytes) (registration_data : RegistrationData)
    (signed_message_encoded : Bytes) : outcome RegistrationDataError unit :=
  if len (mainchain_signature registration_data) =? 64 then
    if ed25519_verify (mainchain_signature registration_data) signed_message_encoded stake_pool_pub_key
    then Ok tt else Err InvalidMainchainSignature
  else Err InvalidMainchainSignature.

Definition verify_sidechain_signature (pub_key signature signed_message_encoded : Bytes)
    : outcome RegistrationDataError unit :=
  if len signature =? 64 then
    if existsb (fun v => ecdsa_verify (signature ++ [v]) signed_message_encoded pub_key)
         [NEGATIVE_POINT_SIGN; POSITIVE_POINT_SIGN]
    then Ok tt else Err InvalidSidechainSignature
  else Err InvalidSidechainSignature.

Definition verify_tx_inputs (registration_data : RegistrationData) : outcome RegistrationDataError unit :=
  if bool_decide (r_registration_utxo registration_data ∈ tx_inputs registration_data)
  then Ok tt else Err InvalidTxInput.

Definition validate_registration_data (stake_pool_pub_key : Bytes) (registration_data : RegistrationData)
    (genesis_utxo : UtxoId) : outcome RegistrationDataError (Bytes * Keys) :=
  let! account_keys := some_or (maybe_from (r_keys registration_data)) InvalidAccountKeys in
  let pub_key := r_sidechain_pub_key registration_data in
  if len pub_key =? 33 then
    let signed_message := {| Plutus.genesis_utxo := genesis_utxo; sidechain_pub_key := pub_key;
                             registration_utxo := r_registration_utxo registration_data |} in
    let signed_message_encoded := to_datum_cbor_bytes signed_message in
    let! _ := verify_stake_pool_signature stake_pool_pub_key registration_data signed_message_encoded in
    let! _ := verify_sidechain_signature pub_key (sidechain_signature registration_data) signed_message_encoded in
    let! _ := verify_tx_inputs registration_data in
    Ok (pub_key, account_keys)
  else Err InvalidSidechainPubKey.

Definition validate_permissioned_candidate_data (candidate : PermissionedCandidateData)
    : outcome PermissionedCandidateDataError (Bytes * Keys) :=
  if len (sidechain_public_key candidate) =? 33 then
    let! keys := some_or (maybe_from (p_keys candidate)) PInvalidAccountKeys in
    Ok (sidechain_public_key candidate, keys)
  else Err PInvalidSidechainPubKey.

Definition select_latest_valid_candidate (candidate_registrations : CandidateRegistrations) (genesis_utxo : UtxoId)
    : option CandidateWithStake :=
  stake_delegation ← ok (validate_stake (stake_delegation candidate_registrations));
  let stake_pool_pub_key := stake_pool_public_key candidate_registrations in
  let valid := omap (fun registration_data =>
    match validate_registration_data stake_pool_pub_key registration_data genesis_utxo with
    | Ok candidate => Some (candidate, utxo_info registration_data)
    | _ => None
    end) (registrations candidate_registrations) in
  best ← max_by_key (fun x : Bytes * Keys * UtxoInfo => ordering_key (snd x)) valid;
  let '(pub_key, keys, _) := best in
  Some {| c_account_id := account_of pub_key; c_account_keys := keys;
          c_stake_delegation := stake_delegation; stake_pool_pub_key := stake_pool_pub_key |}.

Definition filter_trustless_candidates_registrations (candidate_registrations : list CandidateRegistrations)
    (genesis_utxo : UtxoId) : list (Candidate * Z) :=
  (fun c => (Registered c, c_stake_delegation c)) <$>
  omap (fun cr => select_latest_valid_candidate cr genesis_utxo) candidate_registrations.

Definition filter_invalid_permissioned_candidates (permissioned_candidates : list PermissionedCandidateData)
    : list Candidate :=
  omap (fun candidate =>
    '(partner_chain_key, keys) ← ok (validate_permissioned_candidate_data candidate);
    Some (Permissioned {| pc_account_id := account_of partner_chain_key; pc_account_keys := keys |}))
    permissioned_candidates.

(** The runtime API [CandidateValidationApi] *)
Definition api_validate_registered_candidate_data (genesis_utxo : UtxoId) (stake_pool_pub_key : Bytes)
    (registration_data : RegistrationData) : option RegistrationDataError :=
  err (validate_registration_data stake_pool_pub_key registration_data genesis_utxo).
Definition api_validate_stake (stake : option Z) : option StakeError := err (validate_stake stake).
Definition api_validate_permissioned_candidate_data (candidate : PermissionedCandidateData)
    : option PermissionedCandidateDataError := err (validate_permissioned_candidate_data candidate).

(** ** Committee members *)

Inductive CommitteeMember :=
| PermissionedMember (id : AccountId) (keys : Keys)
| RegisteredMember (id : AccountId) (keys : Keys) (stake_pool_pub_key : Bytes).

(** [From<Candidate> for CommitteeMember] *)
Definition member_of_candidate (candidate : Candidate) : CommitteeMember :=
  match candidate with
  | Permissioned member => PermissionedMember (pc_account_id member) (pc_account_keys member)
  | Registered member =>
      RegisteredMember (c_account_id member) (c_account_keys member) (stake_pool_pub_key member)
  end.
(** [From<(AuthorityId, AuthorityKeys)>], and [CommitteeMember::permissioned] *)
Definition member_of_pair (p : AccountId * Keys) : CommitteeMember := PermissionedMember (fst p) (snd p).

Definition authority_id (m : CommitteeMember) : AccountId :=
  match m with PermissionedMember id _ => id | RegisteredMember id _ _ => id end.
Definition authority_keys (m : CommitteeMember) : Keys :=
  match m with PermissionedMember _ keys => keys | RegisteredMember _ keys _ => keys end.
End Validation.
Arguments CandidateWithStake : clear implicits.
Arguments PermissionedCandidate : clear implicits.
Arguments Candidate : clear implicits.
Arguments CommitteeMember : clear implicits.

Definition map_authority_keys {A K K'} (f : K -> K') (m : CommitteeMember A K) : CommitteeMember A K' :=
  match m with
  | PermissionedMember id keys => PermissionedMember id (f keys)
  | RegisteredMember id keys pool => RegisteredMember id (f keys) pool
  end.

(** ** Selection *)

Record AuthoritySelectionInputs := {
  d_parameter : DParameter;
  permissioned_candidates : list PermissionedCandidateData;
  registered_candidates : list CandidateRegistrations;
  epoch_nonce : Bytes
}.

(** What is used of [sp_core::U256] *)
Class U256Bytes := {
  from_big_endian : Bytes -> Z;
  to_big_endian : Z -> Bytes
}.

Definition seed_from_nonce_and_sc_epoch `{!U256Bytes} (epoch_nonce : Bytes) (partner_chain_epoch_number : Z) : Bytes :=
  to_big_endian (wrap 256 (from_big_endian (as_array epoch_nonce) + partner_chain_epoch_number)).

Section Select.
Context {cbor : Minicbor} {crypto : Crypto} {u256 : U256Bytes}.
Context {Rng : Type} `{!ChaCha Rng Bytes}.
Context {AccountId Keys : Type} (account_of : Bytes -> AccountId) (maybe_from : CandidateKeys -> option Keys).
(** The derived equality and order of candidates *)
Context `{!EqDecision (Candidate AccountId Keys)}.
Context (candidate_le : Candidate AccountId Keys -> Candidate AccountId Keys -> Prop) `{!RelDecision candidate_le}.

Definition select_candidates (genesis_utxo : UtxoId) (input : AuthoritySelectionInputs) (sidechain_epoch : Z)
    : outcome Empty_set (option (list (CommitteeMember AccountId Keys))) :=
  let valid_registered_candidates :=
    filter_trustless_candidates_registrations account_of maybe_from (registered_candidates input) genesis_utxo in
  let valid_permissioned_candidates :=
    filter_invalid_permissioned_candidates account_of maybe_from (permissioned_candidates input) in
  let random_seed := seed_from_nonce_and_sc_epoch (epoch_nonce input) sidechain_epoch in
  let! selected :=
    select_authorities_v2 (Rng:=Rng) candidate_le (num_registered_candidates (d_parameter input))
      (num_permissioned_candidates (d_parameter input)) valid_registered_candidates
      valid_permissioned_candidates random_seed in
  Ok (option_map (map member_of_candidate) selected).

Definition select_authorities (max_authorities : Z) (genesis_utxo : UtxoId) (input : AuthoritySelectionInputs)
    (sidechain_epoch : Z) : outcome Empty_set (option (list (CommitteeMember AccountId Keys))) :=
  let! selected := select_candidates genesis_utxo input sidechain_epoch in
  Ok (option_map (truncate_from max_authorities) selected).

(** The runtime's: the D-parameter is the one of the system parameters. *)
Definition select_authorities_optionally_overriding {Hash} (max_authorities : Z) (genesis_utxo : UtxoId)
    (parameters : SystemParameters.State Hash) (input : AuthoritySelectionInputs) (sidechain_epoch : Z)
    : outcome Empty_set (option (list (CommitteeMember AccountId Keys))) :=
  let d := get_d_parameter parameters in
  let input := {| d_parameter := {| num_permissioned_candidates := num_permissioned_candidates d;
                                    num_registered_candidates := num_registered_candidates d |};
                  permissioned_candidates := permissioned_candidates input;
                  registered_candidates := registered_candidates input;
                  epoch_nonce := epoch_nonce input |} in
  select_authorities max_authorities genesis_utxo input sidechain_epoch.
End Select.

(** ** The inherent data provider *)

Record AriadneParameters := {
  a_d_parameter : DParameter;
  a_permissioned_candidates : option (list PermissionedCandidateData)
}.

Class AuthoritySelectionDataSource (S Err Address Policy : Type) := {
  get_ariadne_parameters : Z -> Policy -> Policy -> M S Err AriadneParameters;
  get_candidates : Z -> Address -> M S Err (list CandidateRegistrations);
  get_epoch_nonce : Z -> M S Err (option Bytes);
  data_epoch : Z -> M S Err Z
}.

Section Provider.
Context {S DsErr Address Policy : Type} `{!AuthoritySelectionDataSource S DsErr Address Policy}.
Notation Scripts := (MainChainScripts (MainchainAddress:=Address) (PolicyId:=Policy)).

(** [None] where the candidates are missing though some are expected *)
Inductive AuthoritySelectionInputsCreationError :=
| AriadneParametersQuery (for_epoch : Z) (d_parameter permissioned_candidates : Policy) (e : option DsErr)
| GetCandidatesQuery (for_epoch : Z) (address : Address) (e : DsErr)
| GetEpochNonceQuery (for_epoch : Z) (e : DsErr).

Inductive InherentProviderCreationError :=
| SlotTooBig
| McEpochDerivationError (e : EpochDerivationError)
| ProviderApiError
| InputsCreationError (e : AuthoritySelectionInputsCreationError)
| ProviderDataSourceError (e : DsErr).

(** [AuthoritySelectionInputs::from_mc_data] *)
Definition inputs_from_mc_data (for_epoch : Z) (scripts : Scripts)
    : M S AuthoritySelectionInputsCreationError AuthoritySelectionInputs :=
  let dp := d_parameter_policy_id scripts in
  let pp := permissioned_candidates_policy_id scripts in
  let* response := with_err (fun e => AriadneParametersQuery for_epoch dp pp (Some e))
                     (get_ariadne_parameters for_epoch dp pp) in
  let d := a_d_parameter response in
  let no_permissioned_candidates_expected := num_permissioned_candidates d =? 0 in
  let* permissioned :=
    match a_permissioned_candidates response with
    | None => if no_permissioned_candidates_expected then ret []
              else throw (AriadneParametersQuery for_epoch dp pp None)
    | Some permissioned => ret permissioned
    end in
  let address := committee_candidate_address scripts in
  let* registered := with_err (GetCandidatesQuery for_epoch address) (get_candidates for_epoch address) in
  let* nonce := with_err (GetEpochNonceQuery for_epoch) (get_epoch_nonce for_epoch) in
  ret {| d_parameter := d; permissioned_candidates := permissioned; registered_candidates := registered;
         epoch_nonce := default [] nonce |}.

Definition sc_epoch_to_mc_epoch (sc_epoch : Z) (sc_slot_config : ScSlotConfig) (epoch_config : MainchainEpochConfig)
    : outcome InherentProviderCreationError Z :=
  let! timestamp := some_or (epoch_start_time sc_slot_config sc_epoch) SlotTooBig in
  map_err McEpochDerivationError (timestamp_to_mainchain_epoch epoch_config timestamp).

(** [next_unset_epoch]: what the runtime API answers *)
Definition mc_epoch_for_next_ariadne_cidp (next_unset_epoch : option Z) (sc_slot_config : ScSlotConfig)
    (epoch_config : MainchainEpochConfig) (slot : Z) : outcome InherentProviderCreationError Z :=
  let! next_unset_epoch := some_or next_unset_epoch ProviderApiError in
  let! for_sc_epoch_number :=
    if next_unset_epoch =? 1 then epoch_number slot (slots_per_epoch sc_slot_config) else Ok next_unset_epoch in
  sc_epoch_to_mc_epoch for_sc_epoch_number sc_slot_config epoch_config.

(** The data of [AriadneInherentDataProvider] *)
Definition AriadneInherentDataProvider : Type := option AuthoritySelectionInputs.

Definition new_provider (next_unset_epoch : option Z) (scripts : option Scripts) (sc_slot_config : ScSlotConfig)
    (mc_epoch_config : MainchainEpochConfig) (slot mc_reference_epoch : Z)
    : M S InherentProviderCreationError AriadneInherentDataProvider :=
  let* for_mc_epoch :=
    (fun s => match mc_epoch_for_next_ariadne_cidp next_unset_epoch sc_slot_config mc_epoch_config slot with
              | Ok e => Ok (e, s)
              | Err e => Err e
              | Panic => Panic
              end) in
  let* data_epoch := with_err ProviderDataSourceError (data_epoch for_mc_epoch) in
  let* scripts := ok_or scripts ProviderApiError in
  if data_epoch <? mc_reference_epoch then
    let* inputs := with_err InputsCreationError (inputs_from_mc_data for_mc_epoch scripts) in
    ret (Some inputs)
  else ret None.

(** [provide_inherent_data]: what is put under the identifier *)
Definition provide_ariadne_data (p : AriadneInherentDataProvider) : option AuthoritySelectionInputs := p.
End Provider.

(** ** Lemmas *)

Lemma key_le_total a b : key_le a b = false -> key_le b a = true.
Proof.
  unfold key_le. rewrite !orb_false_iff, !andb_false_iff, !orb_true_iff, !andb_true_iff, !orb_false_iff, !orb_true_iff,
    !andb_false_iff, !andb_true_iff, !Z.ltb_ge, !Z.eqb_neq, !Z.leb_gt, !Z.ltb_lt, !Z.eqb_eq, !Z.leb_le. lia.
Qed.

Lemma key_le_trans a b c : key_le a b = true -> key_le b c = true -> key_le a c = true.
Proof.
  unfold key_le. rewrite !orb_true_iff, !andb_true_iff, !orb_true_iff, !andb_true_iff, !Z.ltb_lt, !Z.eqb_eq, !Z.leb_le. lia.
Qed.

Section MaxByKey.
Context {A : Type} (key : A -> UtxoInfoOrderingKey).

Lemma max_by_key_snoc l x :
  max_by_key key (l ++ [x]) =
  match max_by_key key l with
  | None => Some x
  | Some b => if key_le (key b) (key x) then Some x else Some b
  end.
Proof. unfold max_by_key. by rewrite foldl_app. Qed.

(** Before the chosen one there is no greater one, after it no equal one. *)
Lemma max_by_key_spec l x :
  max_by_key key l = Some x <->
  exists pre post, l = pre ++ x :: post /\ Forall (fun y => key_le (key y) (key x) = true) pre /\
    Forall (fun y => key_le (key x) (key y) = false) post.
Proof.
  revert x. induction l as [|y l IH] using rev_ind; intros x.
  - split; [done|]. intros (pre & post & H & _). by destruct pre.
  - rewrite max_by_key_snoc. split.
    + destruct (max_by_key key l) as [b|] eqn:Hb.
      * destruct (proj1 (IH b) eq_refl) as (pre & post & -> & Hpre & Hpost).
        destruct (key_le (key b) (key y)) eqn:Hle; intros [= <-].
        -- exists (pre ++ b :: post), []. split; [done|]. split; [|done]. apply Forall_app. split.
           ++ eapply Forall_impl; [exact Hpre|]. intros z Hz. eapply key_le_trans; [exact Hz|exact Hle].
           ++ constructor; [done|]. eapply Forall_impl; [exact Hpost|]. intros z Hz.
              eapply key_le_trans; [apply key_le_total; exact Hz|exact Hle].
        -- exists pre, (post ++ [y]). split; [by rewrite <-app_assoc|]. split; [done|]. apply Forall_app. auto.
      * intros [= <-]. destruct l as [|z l _] using rev_ind.
        { exists [], []. split_and!; [done|constructor|constructor]. }
        rewrite max_by_key_snoc in Hb. repeat case_match; done.
    + intros (pre & post & Heq & Hpre & Hpost). destruct post as [|z post _] using rev_ind.
      * apply app_inj_tail in Heq as [-> ->]. destruct (max_by_key key pre) as [b|] eqn:Hb; [|done].
        destruct (proj1 (IH b) eq_refl) as (p & q & -> & _ & _).
        by rewrite (proj1 (Forall_forall _ _) Hpre b) by (apply elem_of_app; right; left).
      * rewrite app_comm_cons, app_assoc in Heq. apply app_inj_tail in Heq as [-> ->].
        apply Forall_app in Hpost as [Hpost Hz]. inversion Hz; subst.
        rewrite (proj2 (IH x)) by eauto. by case_match; simplify_eq.
Qed.
End MaxByKey.

Lemma omap_split {A B} (f : A -> option B) l pre x post :
  omap f l = pre ++ x :: post <->
  exists lpre a lpost, l = lpre ++ a :: lpost /\ f a = Some x /\ omap f lpre = pre /\ omap f lpost = post.
Proof.
  split.
  - revert pre. induction l as [|a l IH]; intros pre; simpl; [by destruct pre|].
    destruct (f a) as [b|] eqn:Hb.
    + destruct pre as [|p pre]; intros [= -> H].
      * by exists [], a, l.
      * destruct (IH _ H) as (lpre & a' & lpost & -> & Ha & <- & <-). exists (a :: lpre), a', lpost.
        split; [done|]. split; [done|]. simpl. by rewrite Hb.
    + intros H. destruct (IH _ H) as (lpre & a' & lpost & -> & Ha & <- & <-). exists (a :: lpre), a', lpost.
      split; [done|]. split; [done|]. simpl. by rewrite Hb.
  - intros (lpre & a & lpost & -> & Ha & <- & <-). rewrite omap_app. simpl. by rewrite Ha.
Qed.

Lemma Forall_omap_iff {A B} (f : A -> option B) (P : B -> Prop) l :
  Forall P (omap f l) <-> Forall (fun a => forall b, f a = Some b -> P b) l.
Proof.
  induction l as [|a l IH]; simpl; [by split; constructor|]. rewrite Forall_cons, <-IH.
  destruct (f a); rewrite ?Forall_cons; naive_solver.
Qed.

(** ** Valid candidates *)

Section ValidFacts.
Context {cbor : Minicbor} {crypto : Crypto}.
Context {AccountId Keys : Type} (account_of : Bytes -> AccountId) (maybe_from : CandidateKeys -> option Keys).

Definition message_of (genesis : UtxoId) (reg : RegistrationData) : RegisterValidatorSignedMessage :=
  {| Plutus.genesis_utxo := genesis; sidechain_pub_key := r_sidechain_pub_key reg;
     registration_utxo := r_registration_utxo reg |}.

(** What makes a registration of a stake pool valid for the chain with a genesis UTXO: its
    keys are well-formed, its transaction spends the UTXO that it names, and both the pool
    and the partner chain key have signed its message. *)
Record valid_registration (pool : Bytes) (genesis : UtxoId) (reg : RegistrationData) (keys : Keys) : Prop := {
  valid_keys : maybe_from (r_keys reg) = Some keys;
  valid_pub_key : len (r_sidechain_pub_key reg) = 33;
  valid_pool_signature : len (mainchain_signature reg) = 64 /\
    ed25519_verify (mainchain_signature reg) (to_datum_cbor_bytes (message_of genesis reg)) pool = true;
  valid_sidechain_signature : len (sidechain_signature reg) = 64 /\ exists v, v ∈ [27; 28] /\
    ecdsa_verify (sidechain_signature reg ++ [v]) (to_datum_cbor_bytes (message_of genesis reg))
      (r_sidechain_pub_key reg) = true;
  valid_inputs : r_registration_utxo reg ∈ tx_inputs reg
}.

Lemma validate_registration_data_Ok pool reg genesis pk keys :
  validate_registration_data maybe_from pool reg genesis = Ok (pk, keys) <->
  pk = r_sidechain_pub_key reg /\ valid_registration pool genesis reg keys.
Proof.
  unfold validate_registration_data, verify_stake_pool_signature, verify_sidechain_signature, verify_tx_inputs.
  fold (message_of genesis reg). destruct (maybe_from (r_keys reg)) as [k|] eqn:Hk; simpl.
  2: { split; [done|]. intros [_ [Hv _ _ _ _]]. congruence. }
  destruct (Z.eqb_spec (len (r_sidechain_pub_key reg)) 33) as [Hp|Hp].
  2: { split; [done|]. intros [_ [_ Hv _ _ _]]. congruence. }
  destruct (Z.eqb_spec (len (mainchain_signature reg)) 64) as [Hm|Hm].
  2: { split; [done|]. intros [_ [_ _ [Hv _] _ _]]. congruence. }
  destruct (ed25519_verify _ _ pool) eqn:Hed.
  2: { split; [done|]. intros [_ [_ _ [_ Hv] _ _]]. congruence. }
  simpl. destruct (Z.eqb_spec (len (sidechain_signature reg)) 64) as [Hs|Hs].
  2: { split; [done|]. intros [_ [_ _ _ [Hv _] _]]. congruence. }
  match goal with |- context [if ?b then _ else _] => destruct b eqn:Hec end; simpl.
  - destruct (bool_decide_reflect (r_registration_utxo reg ∈ tx_inputs reg)) as [Hi|Hi]; simpl.
    2: { split; [done|]. intros [_ [_ _ _ _ Hv]]. done. }
    split.
    + intros [= <- <-]. split; [done|]. split; [done|done|done| |done]. split; [done|].
      rewrite !orb_true_iff in Hec. destruct Hec as [Hec|[Hec|[=]]]; eexists; (split; [|exact Hec]); set_solver.
    + intros [-> [Hv _ _ _ _]]. congruence.
  - split; [done|]. intros [_ [_ _ _ [_ (v & Hv & Hec')] _]]. rewrite !orb_false_iff in Hec.
    unfold NEGATIVE_POINT_SIGN, POSITIVE_POINT_SIGN in Hec.
    rewrite !elem_of_cons, elem_of_nil in Hv. destruct Hv as [->|[->|[]]]; destruct Hec as (? & ? & _); congruence.
Qed.

(** The latest valid registration: none of the valid ones before it is later, and all valid
    ones after it are earlier. *)
Definition latest_valid (pool : Bytes) (genesis : UtxoId) (regs : list RegistrationData) (reg : RegistrationData)
    (keys : Keys) : Prop :=
  valid_registration pool genesis reg keys /\
  exists pre post, regs = pre ++ reg :: post /\
    (forall r k, r ∈ pre -> valid_registration pool genesis r k ->
       key_le (ordering_key (utxo_info r)) (ordering_key (utxo_info reg)) = true) /\
    (forall r k, r ∈ post -> valid_registration pool genesis r k ->
       key_le (ordering_key (utxo_info reg)) (ordering_key (utxo_info r)) = false).

Definition validated (pool : Bytes) (genesis : UtxoId) (r : RegistrationData) : option (Bytes * Keys * UtxoInfo) :=
  match validate_registration_data maybe_from pool r genesis with
  | Ok candidate => Some (candidate, utxo_info r)
  | _ => None
  end.

Lemma validated_Some pool genesis r pk keys u :
  validated pool genesis r = Some (pk, keys, u) <->
  pk = r_sidechain_pub_key r /\ u = utxo_info r /\ valid_registration pool genesis r keys.
Proof.
  unfold validated. pose proof (validate_registration_data_Ok pool r genesis) as Hok.
  destruct (validate_registration_data _ _ _ _) as [[pk' keys']|e|].
  - specialize (Hok pk keys). split; naive_solver.
  - split; [done|]. intros (-> & _ & Hv). specialize (Hok (r_sidechain_pub_key r) keys). naive_solver.
  - split; [done|]. intros (-> & _ & Hv). specialize (Hok (r_sidechain_pub_key r) keys). naive_solver.
Qed.

Lemma latest_valid_max pool genesis regs pk keys u :
  max_by_key (fun x : Bytes * Keys * UtxoInfo => ordering_key (snd x)) (omap (validated pool genesis) regs) =
    Some (pk, keys, u) <->
  exists reg, pk = r_sidechain_pub_key reg /\ u = utxo_info reg /\ latest_valid pool genesis regs reg keys.
Proof.
  rewrite max_by_key_spec. split.
  - intros (pre & post & Hsplit & Hpre & Hpost).
    apply omap_split in Hsplit as (lpre & reg & lpost & -> & (-> & -> & Hv)%validated_Some & <- & <-).
    rewrite Forall_omap_iff, Forall_forall in Hpre, Hpost. exists reg. split; [done|]. split; [done|]. split; [done|].
    exists lpre, lpost. split; [done|]. split; intros r k Hr Hk.
    + apply (Hpre r Hr (r_sidechain_pub_key r, k, utxo_info r)). by apply validated_Some.
    + apply (Hpost r Hr (r_sidechain_pub_key r, k, utxo_info r)). by apply validated_Some.
  - intros (reg & -> & -> & Hv & lpre & lpost & -> & Hpre & Hpost).
    exists (omap (validated pool genesis) lpre), (omap (validated pool genesis) lpost). split.
    + apply omap_split. exists lpre, reg, lpost. split; [done|]. split; [by apply validated_Some|done].
    + split; apply Forall_omap_iff, Forall_forall; intros r Hr [[pk k] u'] (-> & -> & Hk)%validated_Some; simpl; eauto.
Qed.

Lemma select_latest_Some cr genesis c :
  select_latest_valid_candidate account_of maybe_from cr genesis = Some c <->
  exists stake reg keys, stake_delegation cr = Some stake /\ stake <> 0 /\
    latest_valid (stake_pool_public_key cr) genesis (registrations cr) reg keys /\
    c = {| stake_pool_pub_key := stake_pool_public_key cr; c_stake_delegation := stake;
           c_account_id := account_of (r_sidechain_pub_key reg); c_account_keys := keys |}.
Proof.
  unfold select_latest_valid_candidate, validate_stake.
  destruct (stake_delegation cr) as [stake|]; simpl; [|naive_solver].
  destruct (Z.eqb_spec stake 0) as [->|Hs]; simpl; [naive_solver|].
  set (pool := stake_pool_public_key cr). fold (validated pool genesis).
  pose proof (latest_valid_max pool genesis (registrations cr)) as Hmax.
  change (fun r => match validate_registration_data maybe_from pool r genesis with
                   | Ok candidate => Some (candidate, utxo_info r) | _ => None end) with (validated pool genesis).
  destruct (max_by_key _ (omap (validated pool genesis) (registrations cr))) as [[[pk keys] u]|] eqn:Hm; simpl.
  - destruct (proj1 (Hmax pk keys u) eq_refl) as (reg & -> & -> & Hl). split; [intros [= <-]; naive_solver|].
    intros (stake' & reg' & keys' & [= <-] & _ & Hl' & ->).
    assert (Some (r_sidechain_pub_key reg, keys, utxo_info reg) = Some (r_sidechain_pub_key reg', keys', utxo_info reg'))
      as [= -> -> _] by (apply Hmax; eauto). done.
  - split; [done|]. intros (stake' & reg' & keys' & _ & _ & Hl' & _).
    assert (None = Some (r_sidechain_pub_key reg', keys', utxo_info reg')) by (apply Hmax; eauto). done.
Qed.

Lemma filter_trustless_elem crs genesis x :
  x ∈ filter_trustless_candidates_registrations account_of maybe_from crs genesis <->
  exists cr stake reg keys, cr ∈ crs /\ stake_delegation cr = Some stake /\ stake <> 0 /\
    latest_valid (stake_pool_public_key cr) genesis (registrations cr) reg keys /\
    x = (Registered {| stake_pool_pub_key := stake_pool_public_key cr; c_stake_delegation := stake;
                       c_account_id := account_of (r_sidechain_pub_key reg); c_account_keys := keys |}, stake).
Proof.
  unfold filter_trustless_candidates_registrations. rewrite list_elem_of_fmap. split.
  - intros (c & -> & (cr & Hcr & (stake & reg & keys & ? & ? & ? & ->)%select_latest_Some)%list_elem_of_omap). naive_solver.
  - intros (cr & stake & reg & keys & Hcr & Hst & Hs & Hl & ->).
    exists {| stake_pool_pub_key := stake_pool_public_key cr; c_stake_delegation := stake;
              c_account_id := account_of (r_sidechain_pub_key reg); c_account_keys := keys |}.
    split; [reflexivity|]. apply list_elem_of_omap. exists cr. split; [done|]. apply select_latest_Some. by exists stake, reg, keys.
Qed.

Definition valid_permissioned (p : PermissionedCandidateData) (keys : Keys) : Prop :=
  len (sidechain_public_key p) = 33 /\ maybe_from (p_keys p) = Some keys.

Lemma filter_permissioned_elem ps c :
  c ∈ filter_invalid_permissioned_candidates account_of maybe_from ps <->
  exists p keys, p ∈ ps /\ valid_permissioned p keys /\
    c = Permissioned {| pc_account_id := account_of (sidechain_public_key p); pc_account_keys := keys |}.
Proof.
  unfold filter_invalid_permissioned_candidates. rewrite list_elem_of_omap. apply exist_proper. intros p.
  unfold validate_permissioned_candidate_data, valid_permissioned.
  destruct (Z.eqb_spec (len (sidechain_public_key p)) 33); simpl; [|naive_solver].
  destruct (maybe_from (p_keys p)); simpl; naive_solver.
Qed.
End ValidFacts.

(** ** Properties *)

(** C17: the candidates of the selection are exactly the valid ones: a stake pool with a
    known positive stake takes part, with that stake as its weight, exactly if it has a
    valid registration, and with the keys of the latest one; a permissioned candidate
    takes part exactly if its keys are well-formed.  No pool counts twice. *)
Theorem candidates_are_the_valid_ones {cbor : Minicbor} {crypto : Crypto} {AccountId Keys : Type}
    (account_of : Bytes -> AccountId) (maybe_from : CandidateKeys -> option Keys) crs ps genesis :
  (forall x, x ∈ filter_trustless_candidates_registrations account_of maybe_from crs genesis <->
     exists cr stake reg keys, cr ∈ crs /\ stake_delegation cr = Some stake /\ stake <> 0 /\
       latest_valid maybe_from (stake_pool_public_key cr) genesis (registrations cr) reg keys /\
       x = (Registered {| stake_pool_pub_key := stake_pool_public_key cr; c_stake_delegation := stake;
                          c_account_id := account_of (r_sidechain_pub_key reg); c_account_keys := keys |}, stake)) /\
  len (filter_trustless_candidates_registrations account_of maybe_from crs genesis) <= len crs /\
  (forall c, c ∈ filter_invalid_permissioned_candidates account_of maybe_from ps <->
     exists p keys, p ∈ ps /\ valid_permissioned maybe_from p keys /\
       c = Permissioned {| pc_account_id := account_of (sidechain_public_key p); pc_account_keys := keys |}).
Proof.
  split; [apply filter_trustless_elem|]. split; [|apply filter_permissioned_elem].
  unfold filter_trustless_candidates_registrations, len. rewrite length_fmap. apply length_omap_le.
Qed.

(** C18: a stake pool is selected only for a registration that both the pool and the
    partner chain key signed: if signatures verify only for messages that the owner of the
    key signed, and these are registration messages, then one and the same message was
    signed by the pool and by the partner chain key that it names; it names this chain's
    genesis UTXO, the key whose account is selected, and a UTXO that the registration
    spends.  Messages signed for other chains, keys or UTXOs do not help, nor does the
    signature of one of the two alone. *)
Theorem selected_pools_have_signed {cbor : Minicbor} {cbor_laws : MinicborLaws} {crypto : Crypto} {AccountId Keys : Type}
    (account_of : Bytes -> AccountId) (maybe_from : CandidateKeys -> option Keys) crs genesis
    (pool_signed key_signed : Bytes -> list RegisterValidatorSignedMessage) c w :
  (forall sig bytes pool, ed25519_verify sig bytes pool = true ->
     exists m, m ∈ pool_signed pool /\ bytes = to_datum_cbor_bytes m) ->
  (forall sig bytes key, ecdsa_verify sig bytes key = true ->
     exists m, m ∈ key_signed key /\ bytes = to_datum_cbor_bytes m) ->
  (Registered c, w) ∈ filter_trustless_candidates_registrations account_of maybe_from crs genesis ->
  exists m cr reg, m ∈ pool_signed (stake_pool_pub_key c) /\ m ∈ key_signed (sidechain_pub_key m) /\
    Plutus.genesis_utxo m = genesis /\ c_account_id c = account_of (sidechain_pub_key m) /\
    cr ∈ crs /\ reg ∈ registrations cr /\ registration_utxo m ∈ tx_inputs reg.
Proof.
  intros Hpool Hkey (cr & stake & reg & keys & Hcr & _ & _ & [Hv (pre & post & Hregs & _)] & [= -> ->])%filter_trustless_elem.
  destruct (valid_pool_signature _ _ _ _ _ Hv) as [_ Hver]. apply Hpool in Hver as (m & Hm & Hbytes).
  apply signed_message_unique in Hbytes as <-.
  destruct (valid_sidechain_signature _ _ _ _ _ Hv) as (_ & v & _ & Hver). apply Hkey in Hver as (m & Hm' & Hbytes).
  apply signed_message_unique in Hbytes as <-. exists (message_of genesis reg), cr, reg.
  split_and!; try done; [|exact (valid_inputs _ _ _ _ _ Hv)].
  rewrite Hregs, elem_of_app. right. left.
Qed.

Section Committee.
Context {cbor : Minicbor} {crypto : Crypto} {u256 : U256Bytes}.
Context {Rng : Type} `{!ChaCha Rng Bytes, !ChaChaLaws Rng Bytes}.
Context {AccountId Keys : Type} (account_of : Bytes -> AccountId) (maybe_from : CandidateKeys -> option Keys).
Context `{!EqDecision (Candidate AccountId Keys)}.
Context (candidate_le : Candidate AccountId Keys -> Candidate AccountId Keys -> Prop) `{!RelDecision candidate_le}.
Context `{!TotalOrder candidate_le}.

(** A member of a committee stems from a valid candidate of the inputs. *)
Definition valid_member (genesis : UtxoId) (input : AuthoritySelectionInputs) (m : CommitteeMember AccountId Keys) : Prop :=
  match m with
  | PermissionedMember id keys =>
      exists p, p ∈ permissioned_candidates input /\ valid_permissioned maybe_from p keys /\
        id = account_of (sidechain_public_key p)
  | RegisteredMember id keys pool =>
      exists cr stake reg, cr ∈ registered_candidates input /\ stake_delegation cr = Some stake /\ 0 < stake /\
        pool = stake_pool_public_key cr /\ latest_valid maybe_from pool genesis (registrations cr) reg keys /\
        id = account_of (r_sidechain_pub_key reg)
  end.

(** Stakes fit 64 bits and the lists their length prefixes. *)
Definition inputs_typed (input : AuthoritySelectionInputs) : Prop :=
  (forall cr stake, cr ∈ registered_candidates input -> stake_delegation cr = Some stake -> in_u 64 stake) /\
  len (registered_candidates input) <= umax 32 /\ len (permissioned_candidates input) <= umax 32.

Lemma registered_scalable_stakes (cs : list (Candidate AccountId Keys * Z)) n :
  cs <> [] -> (forall c w, (c, w) ∈ cs -> 0 < w <= umax 64) -> len cs <= umax 32 -> 0 <= n <= umax 16 -> scalable cs n.
Proof.
  intros Hne Hw Hlen Hn.
  assert (0 <= weights cs <= len cs * umax 64 /\ (cs <> [] -> 0 < weights cs)) as [Hb Hpos].
  { clear Hne Hlen. induction cs as [|[c w] cs IH]; [unfold weights, len; simpl; split; [lia|done]|].
    destruct IH as [IH _]; [intros c' w' Hin; apply (Hw c'); by right|].
    pose proof (Hw c w ltac:(left)). rewrite weights_cons. unfold len in *. cbn [length snd]. split; [nia|]. intros _. lia. }
  split; [apply Forall_forall; intros [c w] Hin; apply Hw in Hin; simpl; lia|by apply Hpos|].
  change (umax 64) with 18446744073709551615 in Hb. change (umax 32) with 4294967295 in Hlen.
  change (umax 16) with 65535 in Hn. change (umax 128) with 340282366920938463463374607431768211455. nia.
Qed.

Notation regs genesis input :=
  (filter_trustless_candidates_registrations account_of maybe_from (registered_candidates input) genesis).
Notation perms input := (filter_invalid_permissioned_candidates account_of maybe_from (permissioned_candidates input)).

Lemma valid_member_iff genesis input m :
  inputs_typed input ->
  valid_member genesis input m <->
  exists c, m = member_of_candidate c /\ ((exists w, (c, w) ∈ regs genesis input) \/ c ∈ perms input).
Proof.
  intros (Hstake & _ & _). split.
  - destruct m as [id keys|id keys pool]; simpl.
    + intros (p & Hin & Hv & ->).
      exists (Permissioned {| pc_account_id := account_of (sidechain_public_key p); pc_account_keys := keys |}).
      split; [done|]. right. apply filter_permissioned_elem. eauto.
    + intros (cr & stake & reg & Hin & Hst & Hpos & -> & Hl & ->).
      exists (Registered {| stake_pool_pub_key := stake_pool_public_key cr; c_stake_delegation := stake;
                            c_account_id := account_of (r_sidechain_pub_key reg); c_account_keys := keys |}).
      split; [done|]. left. exists stake. apply filter_trustless_elem. exists cr, stake, reg, keys.
      split_and!; try done. lia.
  - intros (c & -> & [(w & (cr & stake & reg & keys & Hcr & Hst & Hs & Hl & [= -> ->])%filter_trustless_elem)|
                      (p & keys & Hin & Hv & ->)%filter_permissioned_elem]); simpl; [|by exists p].
    exists cr, stake, reg. destruct (Hstake cr stake Hcr Hst). split_and!; try done. lia.
Qed.

(** The seats and weights of the selection are within the bounds of [Selection]. *)
Lemma registered_inputs_scalable genesis input n :
  inputs_typed input -> 0 <= n <= umax 16 -> regs genesis input = [] \/ scalable (regs genesis input) n.
Proof.
  intros (Hstake & Hlr & _) Hn. destruct (decide (regs genesis input = [])) as [|Hne]; [by left|right].
  apply registered_scalable_stakes; [done| | |done].
  - intros c w (cr & stake & reg & keys & Hcr & Hst & Hs & _ & [= -> ->])%filter_trustless_elem.
    destruct (Hstake cr stake Hcr Hst). lia.
  - unfold filter_trustless_candidates_registrations, len. rewrite length_fmap. etrans; [apply length_omap_le|done].
Qed.

(** C12: with any D-parameter of governance whose sum fits 16 bits, the runtime's selection
    returns; it fails only if seats are to be filled and no candidate is valid; otherwise
    the committee fills the seats, up to the maximal number of authorities, and all its
    members stem from valid candidates. *)
Theorem runtime_committee_is_valid {Hash} max genesis (parameters : SystemParameters.State Hash) input epoch :
  let d := get_d_parameter parameters in
  let seats := num_registered_candidates d + num_permissioned_candidates d in
  in_u 16 (num_registered_candidates d) -> in_u 16 (num_permissioned_candidates d) -> seats <= umax 16 ->
  0 <= max -> inputs_typed input ->
  exists o, select_authorities_optionally_overriding (Rng:=Rng) account_of maybe_from candidate_le max genesis
              parameters input epoch = Ok o /\
    (o = None <-> 0 < seats /\ forall m, ~ valid_member genesis input m) /\
    (forall committee, o = Some committee ->
       len committee = Z.min seats max /\ Forall (valid_member genesis input) committee).
Proof.
  intros d seats [Hr _] [Hp _] Hseats Hmax Hin. pose proof (valid_member_iff genesis input) as Hmem.
  unfold select_authorities_optionally_overriding, select_authorities, select_candidates. cbn [d_parameter
    num_registered_candidates num_permissioned_candidates permissioned_candidates registered_candidates epoch_nonce].
  fold d. destruct (selection_returns candidate_le (num_registered_candidates d) (num_permissioned_candidates d)
    (regs genesis input) (perms input) (seed_from_nonce_and_sc_epoch (epoch_nonce input) epoch))
    as (o & -> & Hnone & Hsome); [done|done|done| | |].
  { etrans; [apply length_omap_le|apply Hin]. }
  { apply registered_inputs_scalable; [done|]. fold seats. lia. }
  simpl. eexists. split; [reflexivity|]. fold seats in Hnone, Hsome. split.
  - destruct o as [l|]; simpl.
    + split; [done|]. intros [Hs Hno]. destruct (Hsome l eq_refl) as [Hl Hc]. destruct l as [|c l].
      { unfold len in Hl. simpl in Hl. lia. }
      destruct (Hno (member_of_candidate c)). apply Hmem; [done|]. exists c. split; [done|].
      destruct (Hc c ltac:(left)) as [(w & ? & _)|?]; eauto.
    + split; [intros _|done]. destruct (proj1 Hnone eq_refl) as (Hre & Hpe & Hs). split; [done|].
      intros m (c & _ & Hc)%Hmem; [|done]. rewrite Hre, Hpe in Hc. set_solver.
  - intros committee Hc. destruct o as [l|]; [|done]. injection Hc as <-. destruct (Hsome l eq_refl) as [Hl Hc]. split.
    + unfold truncate_from, len in *. rewrite length_take, length_map. lia.
    + apply Forall_forall. intros m Hm. unfold truncate_from in Hm. apply elem_of_take in Hm as (i & Hi & _).
      apply list_elem_of_lookup_2, list_elem_of_fmap in Hi as (c & -> & Hi). apply Hmem; [done|]. exists c. split; [done|].
      destruct (Hc c Hi) as [(w & ? & _)|?]; eauto.
Qed.
End Committee.

(** ** An example: one pool with two registrations, one permissioned candidate *)

Import Rfc8949.

Module AuthorityExample.
Definition utxo (n : Z) : UtxoId := {| tx_hash := replicate 32 n; index := 0 |}.
Definition pub_key (n : Z) : Bytes := replicate 33 n.
Definition keys : CandidateKeys :=
  [{| key_id := AURA; key_bytes := replicate 32 1 |}; {| key_id := GRANDPA; key_bytes := replicate 32 2 |}].
Definition session_keys : SessionKeys := {| aura := replicate 32 1; grandpa := replicate 32 2 |}.
Definition message (n : Z) : RegisterValidatorSignedMessage :=
  {| Plutus.genesis_utxo := utxo 0; sidechain_pub_key := pub_key n; registration_utxo := utxo n |}.
Definition registration (n : Z) : RegistrationData := {|
  r_registration_utxo := utxo n; sidechain_signature := replicate 64 n; mainchain_signature := replicate 64 n;
  cross_chain_signature := []; r_sidechain_pub_key := pub_key n; cross_chain_pub_key := [];
  utxo_info := {| utxo_id := utxo n; info_epoch_number := 0; info_block_number := n; info_slot_number := 0;
                  tx_index_within_block := 0 |};
  tx_inputs := [utxo 9; utxo n]; r_keys := keys |}.

Definition signed (pool : Bytes) : list RegisterValidatorSignedMessage :=
  if bool_decide (pool = [7]) then [message 1; message 2; message 3] else [].

Definition key_signed (key : Bytes) : list RegisterValidatorSignedMessage :=
  filter (fun m => sidechain_pub_key m = key) [message 1; message 2; message 4].

(** Signatures are valid for the messages that were signed. *)
#[export] Instance example_crypto : Crypto := {
  ed25519_verify sig bytes pool := existsb (fun m => bool_decide (bytes = to_datum_cbor_bytes m)) (signed pool);
  ecdsa_verify sig bytes key := existsb (fun m => bool_decide (bytes = to_datum_cbor_bytes m)) (key_signed key)
}.
#[export] Instance example_u256 : U256Bytes := { from_big_endian := be_value; to_big_endian := Rfc8949.be 32 }.

(** The pool has not signed the message of registration 4, the key not that of 3. *)
Definition pool : CandidateRegistrations := {|
  stake_pool_public_key := [7]; stake_delegation := Some 1000;
  registrations := [registration 2; registration 1; registration 4; registration 3] |}.
Definition input : AuthoritySelectionInputs := {|
  d_parameter := {| num_permissioned_candidates := 0; num_registered_candidates := 0 |};
  permissioned_candidates := [{| sidechain_public_key := pub_key 5; p_keys := keys |};
                              {| sidechain_public_key := [5]; p_keys := keys |}];
  registered_candidates := [pool]; epoch_nonce := [] |}.
Definition parameters : SystemParameters.State Z :=
  {| TermsAndConditionsStorage := None; DParameterStorage := (2, 3); events := [] |}.

Notation C := (Candidate Bytes SessionKeys).
#[export] Instance session_keys_eq_dec : EqDecision SessionKeys.
Proof. solve_decision. Defined.
Definition candidate_code (c : C) : Bytes * Bytes * Bytes * option (Bytes * Z) :=
  match c with
  | Permissioned p => (pc_account_id p, aura (pc_account_keys p), grandpa (pc_account_keys p), None)
  | Registered r => (c_account_id r, aura (c_account_keys r), grandpa (c_account_keys r),
                     Some (stake_pool_pub_key r, c_stake_delegation r))
  end.
#[export] Instance candidate_code_inj : Inj (=) (=) candidate_code.
Proof. intros [[? []]|[? ? ? []]] [[? []]|[? ? ? []]]; simpl; intros; by simplify_eq. Qed.
#[export] Instance candidate_eq_dec : EqDecision C.
Proof.
  intros x y. destruct (decide (candidate_code x = candidate_code y)) as [H|H]; [left|right].
  - by apply (inj candidate_code).
  - by intros ->.
Defined.
Definition candidate_le (x y : C) : Prop := Pos.le (encode (candidate_code x)) (encode (candidate_code y)).
#[export] Instance candidate_le_dec : RelDecision candidate_le.
Proof. intros x y. unfold candidate_le. apply _. Defined.
#[export] Instance candidate_le_total : TotalOrder candidate_le.
Proof.
  unfold candidate_le. split; [split; [split; [intros ?; lia|intros ???; lia]|]|].
  - intros x y H1 H2. apply (inj candidate_code), (inj encode). lia.
  - intros x y. unfold strict. destruct (Pos.lt_total (encode (candidate_code x)) (encode (candidate_code y))) as [H|[H|H]].
    + left. lia.
    + right. left. apply (inj candidate_code), (inj encode), H.
    + right. right. lia.
Qed.

#[export] Instance counting_bytes : ChaCha (Bytes * Z) Bytes := {
  from_seed seed := (seed, 0);
  get_seed rng := fst rng;
  random_range n rng := ((be_value (fst rng) + snd rng) mod n, (fst rng, snd rng + 1));
  shuffle A l rng := (rev l, rng)
}.
#[export] Instance counting_bytes_laws : ChaChaLaws (Bytes * Z) Bytes.
Proof.
  split.
  - intros n r Hn. simpl. by apply Z.mod_pos_bound.
  - intros A l r. simpl. symmetry. apply Permutation_rev.
Qed.

Lemma selected_registration :
  filter_trustless_candidates_registrations (fun pk => pk) session_keys_maybe_from [pool] (utxo 0) =
    [(Registered {| stake_pool_pub_key := [7]; c_stake_delegation := 1000; c_account_id := pub_key 2;
                    c_account_keys := session_keys |}, 1000)].
Proof. by vm_compute. Qed.

Lemma input_typed : inputs_typed input.
Proof.
  split; [|by vm_compute]. intros cr stake [->|H]%elem_of_cons; [|by apply not_elem_of_nil in H].
  intros [= <-]. unfold in_u, umax. lia.
Qed.
End AuthorityExample.
Import AuthorityExample.

Lemma selected_pools_have_signed_witness :
  exists m cr reg, m ∈ signed [7] /\ m ∈ key_signed (sidechain_pub_key m) /\
    Plutus.genesis_utxo m = utxo 0 /\ pub_key 2 = sidechain_pub_key m /\
    cr ∈ [pool] /\ reg ∈ registrations cr /\ registration_utxo m ∈ tx_inputs reg.
Proof.
  apply (selected_pools_have_signed (cbor_laws:=Rfc8949.rfc8949_laws) (fun pk => pk) session_keys_maybe_from [pool] (utxo 0)
    signed key_signed
    {| stake_pool_pub_key := [7]; c_stake_delegation := 1000; c_account_id := pub_key 2; c_account_keys := session_keys |} 1000).
  - intros sig bytes p Hv. apply existsb_exists in Hv as (m & Hm & Hb).
    exists m. split; [by apply list_elem_of_In|by apply bool_decide_eq_true in Hb].
  - intros sig bytes key Hv. apply existsb_exists in Hv as (m & Hm & Hb).
    exists m. split; [by apply list_elem_of_In|by apply bool_decide_eq_true in Hb].
  - rewrite selected_registration. left.
Defined.

Lemma runtime_committee_is_valid_witness :
  exists o, select_authorities_optionally_overriding (Rng:=Bytes * Z) (fun pk => pk) session_keys_maybe_from
      candidate_le 4 (utxo 0) parameters input 12 = Ok o /\
    (o = None <-> 0 < 5 /\ forall m, ~ valid_member (fun pk => pk) session_keys_maybe_from (utxo 0) input m) /\
    (forall committee, o = Some committee ->
       len committee = Z.min 5 4 /\ Forall (valid_member (fun pk => pk) session_keys_maybe_from (utxo 0) input) committee).
Proof.
  apply (runtime_committee_is_valid (Rng:=Bytes * Z) (fun pk => pk) session_keys_maybe_from candidate_le 4 (utxo 0)
    parameters input 12).
  - unfold in_u, umax; simpl; lia.
  - unfold in_u, umax; simpl; lia.
  - unfold umax; simpl; lia.
  - lia.
  - apply input_typed.
Defined.
