(* ===== verification/PlutusData.v ===== *)
(** * Codecs of on-chain data

    Models [src/partner-chains/toolkit/smart-contracts/plutus-data/src]: how registrations,
    permissioned candidates, the D-parameter, the reserve, the governed map and the version
    oracle are written to and read from Plutus data on the main chain, with versions and an
    unversioned legacy form.  The type [PlutusData] of the Cardano serialization
    library, its constructors and its accessors are a parameter, [CardanoSerializationLib], with
    the law that an accessor returns what its constructor was given. *)

From S2P Require Import Prelude Frame Plutus Domain.
From stdpp Require Import list.
Open Scope Z_scope.

(** ** [PlutusData] of the Cardano serialization library *)

Class CardanoSerializationLib := {
  PlutusData : Type;
  new_integer : Z -> PlutusData;
  new_bytes : Bytes -> PlutusData;
  new_list : list PlutusData -> PlutusData;
  new_constr_plutus_data : Z -> list PlutusData -> PlutusData;
  as_integer_u64 : PlutusData -> option Z; (* [as_integer()?.as_u64()?] *)
  as_bytes : PlutusData -> option Bytes;
  as_list : PlutusData -> option (list PlutusData);
  as_constr_plutus_data : PlutusData -> option (Z * list PlutusData)
}.
Class CardanoSerializationLibLaws {csl : CardanoSerializationLib} := {
  as_integer_new i : in_u 64 i -> as_integer_u64 (new_integer i) = Some i;
  as_bytes_new b : as_bytes (new_bytes b) = Some b;
  as_list_new l : as_list (new_list l) = Some l;
  as_constr_new alternative l : as_constr_plutus_data (new_constr_plutus_data alternative l) = Some (alternative, l)
}.

(** [try_into] an array of [n] bytes *)
Definition as_array_of (n : Z) (b : Bytes) : option Bytes := if len b =? n then Some b else None.

Section Codecs.
Context {csl : CardanoSerializationLib}.

(** ** [lib.rs] *)

Definition as_u64 (d : PlutusData) : option Z := as_integer_u64 d.
Definition as_u32 (d : PlutusData) : option Z := i ← as_integer_u64 d; try_into_u 32 i.
Definition as_u16 (d : PlutusData) : option Z := i ← as_u32 d; try_into_u 16 i.

Record VersionedGenericDatum := { datum : PlutusData; appendix : PlutusData; version : Z (* u64 *) }.

(** [From<VersionedGenericDatum> for PlutusData] *)
Definition versioned_to_plutus (v : VersionedGenericDatum) : PlutusData :=
  new_list [datum v; appendix v; new_integer (version v)].

Definition plutus_data_version_and_payload (data : PlutusData) : option VersionedGenericDatum :=
  fields ← as_list data;
  match fields with
  | [d; a; v] => version ← as_u64 v; Some {| datum := d; appendix := a; version := version |}
  | _ => None
  end.

(** The messages of [DataDecodingError] *)
Inductive DecodingError := InvalidData | CannotParseAppendix | UnknownVersion (v : Z) | UnversionedDatum.

(** The traits [VersionedDatumWithLegacy] and [VersionedDatum] *)
Class VersionedDatumWithLegacy (T : Type) := {
  decode_legacy : PlutusData -> option T;
  decode_versioned : Z -> PlutusData -> PlutusData -> outcome DecodingError T
}.
Definition decode {T} `{VersionedDatumWithLegacy T} (data : PlutusData) : outcome DecodingError T :=
  match plutus_data_version_and_payload data with
  | None => some_or (decode_legacy data) InvalidData
  | Some v => decode_versioned (version v) (datum v) (appendix v)
  end.

(** [ScriptHash] *)
Definition decode_script_hash (d : PlutusData) : option Bytes := b ← as_bytes d; as_array_of 28 b.
Definition script_hash_to_plutus (h : Bytes) : PlutusData := new_bytes h.

(** ** [candidate_keys.rs] *)

Definition decode_candidate_key (data : PlutusData) : option CandidateKey :=
  l ← as_list data;
  match l with
  | [id; key] =>
      id ← as_bytes id; id ← as_array_of 4 id;
      key ← as_bytes key;
      Some {| key_id := id; key_bytes := key |}
  | _ => None
  end.
Definition decode_candidate_keys (data : PlutusData) : option CandidateKeys :=
  outer_list ← as_list data;
  mapM decode_candidate_key outer_list.
Definition candidate_key_to_plutus (key : CandidateKey) : PlutusData :=
  new_list [new_bytes (key_id key); new_bytes (key_bytes key)].
Definition candidate_keys_to_plutus (keys : CandidateKeys) : PlutusData :=
  new_list (candidate_key_to_plutus <$> keys).

(** ** [d_param.rs] *)

Inductive DParamDatum := DParamV0 (num_permissioned num_registered : Z).

Definition d_param_decode_legacy (data : PlutusData) : option DParamDatum :=
  items ← as_list data;
  match items with
  | [p; r] => p ← as_u16 p; r ← as_u16 r; Some (DParamV0 p r)
  | _ => None
  end.
#[export] Instance d_param_versioned : VersionedDatumWithLegacy DParamDatum := {
  decode_legacy := d_param_decode_legacy;
  decode_versioned version _ appendix :=
    if version =? 0 then some_or (d_param_decode_legacy appendix) CannotParseAppendix
    else Err (UnknownVersion version)
}.
(** [From<DParamDatum> for DParameter] *)
Definition d_param_of_datum (d : DParamDatum) : DParameter :=
  match d with
  | DParamV0 p r => {| num_permissioned_candidates := p; num_registered_candidates := r |}
  end.
Definition d_parameter_to_plutus_data (d_param : DParameter) : PlutusData :=
  versioned_to_plutus {|
    datum := new_constr_plutus_data 0 [];
    appendix := new_list [new_integer (num_permissioned_candidates d_param);
                           new_integer (num_registered_candidates d_param)];
    version := 0 |}.

(** ** [permissioned_candidates.rs] *)

Record PermissionedCandidateDatumV0 := { v0_sidechain_key : Bytes; v0_aura : Bytes; v0_grandpa : Bytes }.
Record PermissionedCandidateDatumV1 := { v1_partner_chains_key : Bytes; v1_keys : CandidateKeys }.
Inductive PermissionedCandidateDatums :=
| PermissionedV0 (l : list PermissionedCandidateDatumV0)
| PermissionedV1 (l : list PermissionedCandidateDatumV1).

(** [From<PermissionedCandidateDatums> for Vec<PermissionedCandidateData>] *)
Definition permissioned_of_v0 (v : PermissionedCandidateDatumV0) : PermissionedCandidateData :=
  {| sidechain_public_key := v0_sidechain_key v; p_keys := [aura_key (v0_aura v); grandpa_key (v0_grandpa v)] |}.
Definition permissioned_of_v1 (v : PermissionedCandidateDatumV1) : PermissionedCandidateData :=
  {| sidechain_public_key := v1_partner_chains_key v; p_keys := v1_keys v |}.
Definition permissioned_of_datums (d : PermissionedCandidateDatums) : list PermissionedCandidateData :=
  match d with
  | PermissionedV0 l => permissioned_of_v0 <$> l
  | PermissionedV1 l => permissioned_of_v1 <$> l
  end.

Definition candidates_to_plutus_data_v0 (candidates : list PermissionedCandidateData) : PlutusData :=
  versioned_to_plutus {|
    datum := new_constr_plutus_data 0 [];
    appendix := new_list ((fun c => new_list (new_bytes (sidechain_public_key c) ::
                                               ((fun key => new_bytes (key_bytes key)) <$> p_keys c)))
                             <$> candidates);
    version := 0 |}.
Definition candidates_to_plutus_data_v1 (candidates : list PermissionedCandidateData) : PlutusData :=
  versioned_to_plutus {|
    datum := new_constr_plutus_data 0 [];
    appendix := new_list ((fun c => new_list [new_bytes (sidechain_public_key c);
                                               candidate_keys_to_plutus (p_keys c)]) <$> candidates);
    version := 1 |}.
Definition permissioned_candidates_to_plutus_data (candidates : list PermissionedCandidateData) : PlutusData :=
  if forallb (fun c => has_only_aura_and_grandpa_keys (p_keys c)) candidates
  then candidates_to_plutus_data_v0 candidates
  else candidates_to_plutus_data_v1 candidates.

Definition decode_legacy_candidate_datum (datum : PlutusData) : option PermissionedCandidateDatumV0 :=
  datums ← as_list datum;
  match datums with
  | [sc; aura; grandpa] =>
      sc ← as_bytes sc; aura ← as_bytes aura; grandpa ← as_bytes grandpa;
      Some {| v0_sidechain_key := sc; v0_aura := aura; v0_grandpa := grandpa |}
  | _ => None
  end.
Definition decode_v1_candidate_datum (datum : PlutusData) : option PermissionedCandidateDatumV1 :=
  outer_list ← as_list datum;
  match outer_list with
  | [key; keys] =>
      key ← as_bytes key;
      keys ← decode_candidate_keys keys;
      Some {| v1_partner_chains_key := key; v1_keys := keys |}
  | _ => None
  end.
Definition permissioned_decode_legacy (data : PlutusData) : option PermissionedCandidateDatums :=
  list_datums ← as_list data;
  PermissionedV0 <$> mapM decode_legacy_candidate_datum list_datums.
Definition decode_v1_appendix (data : PlutusData) : option PermissionedCandidateDatums :=
  list_datums ← as_list data;
  PermissionedV1 <$> mapM decode_v1_candidate_datum list_datums.
#[export] Instance permissioned_versioned : VersionedDatumWithLegacy PermissionedCandidateDatums := {
  decode_legacy := permissioned_decode_legacy;
  decode_versioned version _ appendix :=
    if version =? 0 then some_or (permissioned_decode_legacy appendix) CannotParseAppendix
    else if version =? 1 then some_or (decode_v1_appendix appendix) CannotParseAppendix
    else Err (UnknownVersion version)
}.

(** ** [registered_candidates.rs] *)

Inductive RegisterValidatorDatum :=
| RegisterV0 (stake_ownership : AdaBasedStaking) (sidechain_pub_key sidechain_signature : Bytes)
    (registration_utxo : UtxoId) (own_pkh aura_pub_key grandpa_pub_key : Bytes)
| RegisterV1 (stake_ownership : AdaBasedStaking) (sidechain_pub_key sidechain_signature : Bytes)
    (registration_utxo : UtxoId) (own_pkh : Bytes) (keys : CandidateKeys).

(** The fields of a constructor 0 with at least [n] of them *)
Definition constr_fields (n : nat) (d : PlutusData) : option (list PlutusData) :=
  '(alternative, data) ← as_constr_plutus_data d;
  if (alternative =? 0) && (n <=? length data)%nat then Some data else None.

Definition decode_tx_hash_datum (d : PlutusData) : option Bytes :=
  fields ← constr_fields 1 d;
  f0 ← fields !! 0%nat; bytes ← as_bytes f0;
  as_array_of 32 bytes.
Definition decode_utxo_id_datum (d : PlutusData) : option UtxoId :=
  fields ← constr_fields 2 d;
  f0 ← fields !! 0%nat; tx_hash ← decode_tx_hash_datum f0;
  f1 ← fields !! 1%nat; index ← as_u16 f1;
  Some {| tx_hash := tx_hash; index := index |}.
Definition decode_ada_based_staking_datum (d : PlutusData) : option AdaBasedStaking :=
  fields ← constr_fields 2 d;
  f0 ← fields !! 0%nat; pub_key ← as_bytes f0; pub_key ← as_array_of 32 pub_key;
  f1 ← fields !! 1%nat; signature ← as_bytes f1; signature ← as_array_of 64 signature;
  Some {| pub_key := pub_key; signature := signature |}.

Definition decode_v0_register_validator_datum (datum appendix : PlutusData) : option RegisterValidatorDatum :=
  fields ← constr_fields 6 appendix;
  f0 ← fields !! 0%nat; stake_ownership ← decode_ada_based_staking_datum f0;
  f1 ← fields !! 1%nat; sidechain_pub_key ← as_bytes f1;
  f2 ← fields !! 2%nat; sidechain_signature ← as_bytes f2;
  f3 ← fields !! 3%nat; registration_utxo ← decode_utxo_id_datum f3;
  f4 ← fields !! 4%nat; aura_pub_key ← as_bytes f4;
  f5 ← fields !! 5%nat; grandpa_pub_key ← as_bytes f5;
  own_pkh ← as_bytes datum; own_pkh ← as_array_of 28 own_pkh;
  Some (RegisterV0 stake_ownership sidechain_pub_key sidechain_signature registration_utxo own_pkh
          aura_pub_key grandpa_pub_key).

Definition decode_v1_register_validator_datum (datum appendix : PlutusData) : option RegisterValidatorDatum :=
  fields ← constr_fields 5 appendix;
  if bool_decide (length fields = 5%nat) then
    f0 ← fields !! 0%nat; stake_ownership ← decode_ada_based_staking_datum f0;
    f1 ← fields !! 1%nat; sidechain_pub_key ← as_bytes f1;
    f2 ← fields !! 2%nat; sidechain_signature ← as_bytes f2;
    f3 ← fields !! 3%nat; registration_utxo ← decode_utxo_id_datum f3;
    f4 ← fields !! 4%nat; keys ← decode_candidate_keys f4;
    own_pkh ← as_bytes datum; own_pkh ← as_array_of 28 own_pkh;
    Some (RegisterV1 stake_ownership sidechain_pub_key sidechain_signature registration_utxo own_pkh keys)
  else None.

Definition decode_legacy_register_validator_datum (datum : PlutusData) : option RegisterValidatorDatum :=
  fields ← constr_fields 7 datum;
  f0 ← fields !! 0%nat; stake_ownership ← decode_ada_based_staking_datum f0;
  f1 ← fields !! 1%nat; sidechain_pub_key ← as_bytes f1;
  f2 ← fields !! 2%nat; sidechain_signature ← as_bytes f2;
  f3 ← fields !! 3%nat; registration_utxo ← decode_utxo_id_datum f3;
  f4 ← fields !! 4%nat; own_pkh ← as_bytes f4; own_pkh ← as_array_of 28 own_pkh;
  f5 ← fields !! 5%nat; aura_pub_key ← as_bytes f5;
  f6 ← fields !! 6%nat; grandpa_pub_key ← as_bytes f6;
  Some (RegisterV0 stake_ownership sidechain_pub_key sidechain_signature registration_utxo own_pkh
          aura_pub_key grandpa_pub_key).

#[export] Instance register_versioned : VersionedDatumWithLegacy RegisterValidatorDatum := {
  decode_legacy := decode_legacy_register_validator_datum;
  decode_versioned version datum appendix :=
    if version =? 0 then some_or (decode_v0_register_validator_datum datum appendix) CannotParseAppendix
    else if version =? 1 then some_or (decode_v1_register_validator_datum datum appendix) CannotParseAppendix
    else Err (UnknownVersion version)
}.

Definition tx_hash_to_plutus_data (v : Bytes) : PlutusData := new_constr_plutus_data 0 [new_bytes v].
Definition utxo_id_to_plutus_data (v : UtxoId) : PlutusData :=
  new_constr_plutus_data 0 [tx_hash_to_plutus_data (tx_hash v); new_integer (index v)].
Definition stake_ownership_to_plutus_data (v : AdaBasedStaking) : PlutusData :=
  new_constr_plutus_data 0 [new_bytes (pub_key v); new_bytes (signature v)].

(** [From<RegisterValidatorDatum> for PlutusData] *)
Definition register_datum_to_plutus (value : RegisterValidatorDatum) : PlutusData :=
  match value with
  | RegisterV0 stake_ownership sidechain_pub_key sidechain_signature registration_utxo own_pkh aura grandpa =>
      versioned_to_plutus {|
        datum := new_bytes own_pkh;
        appendix := new_constr_plutus_data 0
          [stake_ownership_to_plutus_data stake_ownership; new_bytes sidechain_pub_key;
           new_bytes sidechain_signature; utxo_id_to_plutus_data registration_utxo;
           new_bytes aura; new_bytes grandpa];
        version := 0 |}
  | RegisterV1 stake_ownership sidechain_pub_key sidechain_signature registration_utxo own_pkh keys =>
      versioned_to_plutus {|
        datum := new_bytes own_pkh;
        appendix := new_constr_plutus_data 0
          [stake_ownership_to_plutus_data stake_ownership; new_bytes sidechain_pub_key;
           new_bytes sidechain_signature; utxo_id_to_plutus_data registration_utxo;
           candidate_keys_to_plutus keys];
        version := 1 |}
  end.

Definition candidate_registration_to_plutus_data (r : CandidateRegistration) : PlutusData :=
  register_datum_to_plutus
    (if has_only_aura_and_grandpa_keys (cr_keys r)
     then RegisterV0 (stake_ownership r) (partner_chain_pub_key r) (partner_chain_signature r)
            (cr_registration_utxo r) (own_pkh r) (find_or_empty (cr_keys r) AURA) (find_or_empty (cr_keys r) GRANDPA)
     else RegisterV1 (stake_ownership r) (partner_chain_pub_key r) (partner_chain_signature r)
            (cr_registration_utxo r) (own_pkh r) (cr_keys r)).

(** [From<RegisterValidatorDatum> for CandidateRegistration] *)
Definition registration_of_datum (value : RegisterValidatorDatum) : CandidateRegistration :=
  match value with
  | RegisterV0 stake_ownership sidechain_pub_key sidechain_signature registration_utxo own_pkh aura grandpa =>
      {| stake_ownership := stake_ownership; partner_chain_pub_key := sidechain_pub_key;
         partner_chain_signature := sidechain_signature; cr_registration_utxo := registration_utxo;
         own_pkh := own_pkh; cr_keys := [aura_key aura; grandpa_key grandpa] |}
  | RegisterV1 stake_ownership sidechain_pub_key sidechain_signature registration_utxo own_pkh keys =>
      {| stake_ownership := stake_ownership; partner_chain_pub_key := sidechain_pub_key;
         partner_chain_signature := sidechain_signature; cr_registration_utxo := registration_utxo;
         own_pkh := own_pkh; cr_keys := keys |}
  end.

(** ** [reserve.rs] *)

Inductive ReserveRedeemer := DepositToReserve | ReleaseFromReserve | UpdateReserve | Handover.
Definition reserve_redeemer_to_plutus (r : ReserveRedeemer) : PlutusData :=
  new_constr_plutus_data (match r with
                    | DepositToReserve => 0 | ReleaseFromReserve => 1 | UpdateReserve => 2 | Handover => 3
                    end) [].

Record AssetId := { policy_id : Bytes; asset_name : Bytes }.
Record ReserveDatum := {
  token : AssetId; (* immutable settings *)
  total_accrued_function_asset_name : Bytes; (* mutable settings *)
  initial_incentive : Z;
  token_total_amount_transferred : Z (* stats *)
}.

Definition reserve_to_plutus (value : ReserveDatum) : PlutusData :=
  versioned_to_plutus {|
    datum := new_list
      [new_constr_plutus_data 0 [new_bytes (policy_id (token value)); new_bytes (asset_name (token value))];
       new_list [new_bytes (total_accrued_function_asset_name value); new_integer (initial_incentive value)];
       new_integer (token_total_amount_transferred value)];
    appendix := new_constr_plutus_data 0 [];
    version := 0 |}.

Definition decode_token_id_datum (pd : PlutusData) : option AssetId :=
  '(alternative, data) ← as_constr_plutus_data pd;
  if alternative =? 0 then
    f0 ← data !! 0%nat; policy ← as_bytes f0;
    f1 ← data !! 1%nat; name ← as_bytes f1;
    policy ← as_array_of 28 policy;
    name ← bounded_try_from 32 name;
    Some {| policy_id := policy; asset_name := name |}
  else None.

Definition decode_v0_reserve_datum (d : PlutusData) : option ReserveDatum :=
  outer_list ← as_list d;
  f0 ← outer_list !! 0%nat; token ← decode_token_id_datum f0;
  f1 ← outer_list !! 1%nat; mutable_settings ← as_list f1;
  m0 ← mutable_settings !! 0%nat; v ← as_bytes m0; v ← as_array_of 28 v;
  m1 ← mutable_settings !! 1%nat; initial_incentive ← as_integer_u64 m1;
  f2 ← outer_list !! 2%nat; total ← as_integer_u64 f2;
  Some {| token := token; total_accrued_function_asset_name := v; initial_incentive := initial_incentive;
          token_total_amount_transferred := total |}.

Definition reserve_decode (data : PlutusData) : outcome DecodingError ReserveDatum :=
  match plutus_data_version_and_payload data with
  | Some v => if version v =? 0 then some_or (decode_v0_reserve_datum (datum v)) InvalidData
              else Err UnversionedDatum
  | None => Err UnversionedDatum
  end.

(** The sum is of [u64]s. *)
Definition after_withdrawal (self : ReserveDatum) (amount : Z) : ReserveDatum :=
  {| token := token self; total_accrued_function_asset_name := total_accrued_function_asset_name self;
     initial_incentive := initial_incentive self;
     token_total_amount_transferred := wrap 64 (token_total_amount_transferred self + amount) |}.

Inductive IlliquidCirculationSupplyRedeemer := DepositMoreToSupply | WithdrawFromSupply.
Definition supply_redeemer_to_plutus (r : IlliquidCirculationSupplyRedeemer) : PlutusData :=
  new_integer (match r with DepositMoreToSupply => 0 | WithdrawFromSupply => 1 end).

(** ** [governed_map.rs] *)

Record GovernedMapDatum := { gm_key : Bytes; gm_value : Bytes }.

(** [PlutusList::get] returns no option; [from_utf8] checks a string's bytes. *)
Definition governed_map_decode (from_utf8 : Bytes -> bool) (d : PlutusData) : outcome DecodingError GovernedMapDatum :=
  let! l := some_or (as_list d) InvalidData in
  let! f0 := some_or_panic (l !! 0%nat) in
  let! key := some_or (as_bytes f0) InvalidData in
  if from_utf8 key then
    let! f1 := some_or_panic (l !! 1%nat) in
    let! value := some_or (as_bytes f1) InvalidData in
    Ok {| gm_key := key; gm_value := value |}
  else Err InvalidData.
Definition governed_map_datum_to_plutus_data (g : GovernedMapDatum) : PlutusData :=
  new_list [new_bytes (gm_key g); new_bytes (gm_value g)].

(** ** [version_oracle.rs] *)

Record VersionOracle := { script_id : Z (* u32 *) }.
Record VersionOracleDatum := { version_oracle : VersionOracle; currency_symbol : Bytes }.
Inductive VersionOraclePolicyRedeemer :=
| InitializeVersionOracle (o : VersionOracle) (h : Bytes)
| MintVersionOracle (o : VersionOracle) (h : Bytes)
| BurnVersionOracle (o : VersionOracle).

Definition decode_version_oracle (d : PlutusData) : option VersionOracle :=
  i ← as_u32 d; Some {| script_id := i |}.
Definition version_oracle_to_plutus (o : VersionOracle) : PlutusData := new_integer (script_id o).

Definition decode_version_oracle_datum (d : PlutusData) : option VersionOracleDatum :=
  items ← as_list d;
  match items with
  | [o; h] => o ← decode_version_oracle o; h ← decode_script_hash h;
              Some {| version_oracle := o; currency_symbol := h |}
  | _ => None
  end.
Definition version_oracle_datum_to_plutus (v : VersionOracleDatum) : PlutusData :=
  new_list [version_oracle_to_plutus (version_oracle v); script_hash_to_plutus (currency_symbol v)].

Definition decode_version_oracle_redeemer (d : PlutusData) : option VersionOraclePolicyRedeemer :=
  '(alternative, data) ← as_constr_plutus_data d;
  match data with
  | [o; h] =>
      if alternative =? 0 then
        o ← decode_version_oracle o; h ← decode_script_hash h; Some (InitializeVersionOracle o h)
      else if alternative =? 1 then
        o ← decode_version_oracle o; h ← decode_script_hash h; Some (MintVersionOracle o h)
      else None
  | [o] => if alternative =? 2 then o ← decode_version_oracle o; Some (BurnVersionOracle o) else None
  | _ => None
  end.
Definition version_oracle_redeemer_to_plutus (r : VersionOraclePolicyRedeemer) : PlutusData :=
  match r with
  | InitializeVersionOracle o h => new_constr_plutus_data 0 [version_oracle_to_plutus o; script_hash_to_plutus h]
  | MintVersionOracle o h => new_constr_plutus_data 1 [version_oracle_to_plutus o; script_hash_to_plutus h]
  | BurnVersionOracle o => new_constr_plutus_data 2 [version_oracle_to_plutus o]
  end.

End Codecs.

(** ** Lemmas *)

#[local] Arguments as_u32 : simpl never.
#[local] Arguments as_u16 : simpl never.
#[local] Arguments as_array_of : simpl never.
#[local] Arguments bounded_try_from : simpl never.
#[local] Arguments decode_candidate_keys : simpl never.
#[local] Arguments decode_utxo_id_datum : simpl never.
#[local] Arguments decode_ada_based_staking_datum : simpl never.
#[local] Arguments candidate_keys_to_plutus : simpl never.
#[local] Arguments utxo_id_to_plutus_data : simpl never.
#[local] Arguments stake_ownership_to_plutus_data : simpl never.

(** Reads what the constructors of the library were given. *)
Ltac csl := cbn; repeat (rewrite ?as_list_new, ?as_bytes_new, ?as_constr_new; cbn).

Section CodecFacts.
Context {csl : CardanoSerializationLib} {csl_laws : CardanoSerializationLibLaws}.

Lemma version_and_payload v :
  in_u 64 (version v) -> plutus_data_version_and_payload (versioned_to_plutus v) = Some v.
Proof.
  intros H. unfold plutus_data_version_and_payload, versioned_to_plutus, as_u64. csl. rewrite as_integer_new by done.
  by destruct v.
Qed.

Lemma as_u32_int i : in_u 32 i -> as_u32 (new_integer i) = Some i.
Proof.
  intros [H0 H1]. assert (umax 32 <= umax 64) by (vm_compute; congruence). unfold as_u32, try_into_u.
  rewrite as_integer_new by (unfold in_u; lia). csl. by rewrite (proj2 (Z.leb_le _ _)) by lia.
Qed.

Lemma as_u16_int i : in_u 16 i -> as_u16 (new_integer i) = Some i.
Proof.
  intros [H0 H1]. assert (umax 16 <= umax 32) by (vm_compute; congruence). unfold as_u16.
  rewrite as_u32_int by (unfold in_u; lia). csl. unfold try_into_u. by rewrite (proj2 (Z.leb_le _ _)) by lia.
Qed.

Lemma as_array_of_ok n b : len b = n -> as_array_of n b = Some b.
Proof. intros <-. unfold as_array_of. by rewrite Z.eqb_refl. Qed.

Lemma mapM_fmap_ok {A B} (f : B -> option A) (g : A -> B) (l : list A) :
  Forall (fun x => f (g x) = Some x) l -> mapM f (g <$> l) = Some l.
Proof.
  intros H. apply mapM_Some. induction H as [|x l Hx _ IH]; [constructor|]. rewrite fmap_cons. by constructor.
Qed.

Lemma candidate_keys_ok keys :
  Forall (fun k => len (key_id k) = 4) keys -> decode_candidate_keys (candidate_keys_to_plutus keys) = Some keys.
Proof.
  intros Hk. unfold decode_candidate_keys, candidate_keys_to_plutus. rewrite as_list_new; cbn [mbind option_bind].
  apply mapM_fmap_ok. eapply Forall_impl; [exact Hk|]. intros [id b] Hid. simpl in Hid.
  unfold decode_candidate_key, candidate_key_to_plutus. csl. by rewrite as_array_of_ok.
Qed.

Lemma utxo_id_ok u : len (tx_hash u) = 32 -> in_u 16 (index u) -> decode_utxo_id_datum (utxo_id_to_plutus_data u) = Some u.
Proof.
  intros Hh Hi. unfold decode_utxo_id_datum, decode_tx_hash_datum, utxo_id_to_plutus_data, tx_hash_to_plutus_data, constr_fields. csl. rewrite as_array_of_ok by done. csl.
  rewrite as_u16_int by done. by destruct u.
Qed.

Lemma stake_ownership_ok s :
  len (pub_key s) = 32 -> len (signature s) = 64 ->
  decode_ada_based_staking_datum (stake_ownership_to_plutus_data s) = Some s.
Proof.
  intros Hp Hs. unfold decode_ada_based_staking_datum, stake_ownership_to_plutus_data, constr_fields. csl. rewrite as_array_of_ok by done. csl.
  rewrite as_array_of_ok by done. by destruct s.
Qed.

(** The sizes that the types of the source impose *)
Record registration_ok (r : CandidateRegistration) : Prop := {
  ok_stake : len (pub_key (stake_ownership r)) = 32 /\ len (signature (stake_ownership r)) = 64;
  ok_utxo : len (tx_hash (cr_registration_utxo r)) = 32 /\ in_u 16 (index (cr_registration_utxo r));
  ok_pkh : len (own_pkh r) = 28;
  ok_key_ids : Forall (fun k => len (key_id k) = 4) (cr_keys r)
}.

(** ** Properties *)

(** What is decoded from an encoded registration is the registration, with the Aura
    key before the Grandpa key if these are its keys. *)
Theorem registration_roundtrip r :
  registration_ok r ->
  exists d, decode (candidate_registration_to_plutus_data r) = Ok d /\
    registration_of_datum d =
    {| stake_ownership := stake_ownership r; partner_chain_pub_key := partner_chain_pub_key r;
       partner_chain_signature := partner_chain_signature r; cr_registration_utxo := cr_registration_utxo r;
       own_pkh := own_pkh r; cr_keys := canonical_keys (cr_keys r) |}.
Proof.
  intros [[Hp Hs] [Hh Hi] Hpkh Hids]. unfold candidate_registration_to_plutus_data, canonical_keys, decode.
  destruct (has_only_aura_and_grandpa_keys (cr_keys r)); cbn [register_datum_to_plutus];
    rewrite version_and_payload by (unfold in_u, umax; simpl; lia); cbn [decode_versioned register_versioned version datum
      appendix Z.eqb Pos.eqb].
  - unfold decode_v0_register_validator_datum, constr_fields. csl. rewrite stake_ownership_ok by done. csl.
    rewrite utxo_id_ok by done. csl. rewrite as_array_of_ok by done. csl. by eexists.
  - unfold decode_v1_register_validator_datum, constr_fields. csl. rewrite stake_ownership_ok by done. csl.
    rewrite utxo_id_ok by done. csl. rewrite candidate_keys_ok by done. csl. rewrite as_array_of_ok by done. csl. by eexists.
Qed.

(** What the decoder reads from the encoding of a candidate with two keys: the first one as
    the Aura key, the second one as the Grandpa key. *)
Definition by_position (c : PermissionedCandidateData) : PermissionedCandidateData :=
  {| sidechain_public_key := sidechain_public_key c;
     p_keys := match p_keys c with [x; y] => [aura_key (key_bytes x); grandpa_key (key_bytes y)] | ks => ks end |}.
Definition in_order (c : PermissionedCandidateData) : Prop :=
  exists a g, p_keys c = [aura_key a; grandpa_key g].

Lemma by_position_id c :
  has_only_aura_and_grandpa_keys (p_keys c) = true -> by_position c = c <-> in_order c.
Proof.
  intros Hag. destruct c as [pk keys]. unfold by_position, in_order. cbn [p_keys sidechain_public_key] in *.
  destruct (only_aura_and_grandpa keys Hag) as (a & g & [->| ->]); split; [intros _; eauto|done| |].
  - by intros [= H].
  - intros (a' & g' & [=]).
Qed.

Lemma v0_candidate_decode c x y :
  p_keys c = [x; y] ->
  decode_legacy_candidate_datum (new_list (new_bytes (sidechain_public_key c) ::
    ((fun key => new_bytes (key_bytes key)) <$> p_keys c))) =
  Some {| v0_sidechain_key := sidechain_public_key c; v0_aura := key_bytes x; v0_grandpa := key_bytes y |}.
Proof. intros ->. unfold decode_legacy_candidate_datum. by csl. Qed.

Lemma v0_candidates_decode cs :
  forallb (fun c => has_only_aura_and_grandpa_keys (p_keys c)) cs = true ->
  exists l, permissioned_decode_legacy
    (new_list ((fun c => new_list (new_bytes (sidechain_public_key c) ::
       ((fun key => new_bytes (key_bytes key)) <$> p_keys c))) <$> cs)) = Some (PermissionedV0 l) /\
    permissioned_of_v0 <$> l = by_position <$> cs.
Proof.
  intros H. unfold permissioned_decode_legacy. rewrite as_list_new; cbn [mbind option_bind].
  induction cs as [|c cs IH]; [by exists []|]. simpl in H. apply andb_true_iff in H as [Hc H].
  destruct (IH H) as (l & Hl & Hb). apply fmap_Some in Hl as (l' & Hl & [= ->]).
  destruct (only_aura_and_grandpa _ Hc) as (a & g & Hk).
  assert (exists x y, p_keys c = [x; y]) as (x & y & Hxy) by (destruct Hk as [->| ->]; eauto).
  exists ({| v0_sidechain_key := sidechain_public_key c; v0_aura := key_bytes x; v0_grandpa := key_bytes y |} :: l').
  rewrite !fmap_cons. cbn [mapM]. rewrite (v0_candidate_decode c x y Hxy). cbn [mbind option_bind]. rewrite Hl. split; [done|].
  rewrite <-Hb. f_equal.
  unfold by_position. by rewrite Hxy.
Qed.

(** What is decoded from an encoded list of permissioned candidates is the list, except
    that if all candidates have just an Aura and a Grandpa key, these keys are told apart
    by their position: a candidate that lists the Grandpa key first gets them swapped. *)
Theorem permissioned_candidates_roundtrip cs :
  Forall (fun c => Forall (fun k => len (key_id k) = 4) (p_keys c)) cs ->
  exists d, decode (permissioned_candidates_to_plutus_data cs) = Ok d /\
    (permissioned_of_datums d = cs <->
     (forallb (fun c => has_only_aura_and_grandpa_keys (p_keys c)) cs = true -> Forall in_order cs)).
Proof.
  intros Hids. unfold permissioned_candidates_to_plutus_data, decode.
  destruct (forallb _ cs) eqn:Hall; unfold candidates_to_plutus_data_v0, candidates_to_plutus_data_v1;
    rewrite version_and_payload by (unfold in_u, umax; simpl; lia); cbn [decode_versioned permissioned_versioned version datum
      appendix Z.eqb Pos.eqb].
  - destruct (v0_candidates_decode cs Hall) as (l & -> & Hl). exists (PermissionedV0 l). split; [done|].
    cbn [permissioned_of_datums]. rewrite Hl. rewrite forallb_forall in Hall.
    assert (by_position <$> cs = cs <-> Forall in_order cs) as ->; [|naive_solver].
    clear Hl Hids l. induction cs as [|c cs IH]; [split; [constructor|done]|].
    rewrite fmap_cons, Forall_cons, <-IH by (intros x Hx; apply Hall; by right).
    rewrite <-by_position_id by (apply Hall; by left). split; [by intros [= -> ->]|by intros [-> ->]].
  - exists (PermissionedV1 ((fun c => {| v1_partner_chains_key := sidechain_public_key c; v1_keys := p_keys c |}) <$> cs)).
    split.
    + unfold decode_v1_appendix. rewrite as_list_new; cbn [mbind option_bind]. clear Hall.
      assert (mapM decode_v1_candidate_datum ((fun c => new_list [new_bytes (sidechain_public_key c);
        candidate_keys_to_plutus (p_keys c)]) <$> cs) =
        Some ((fun c => {| v1_partner_chains_key := sidechain_public_key c; v1_keys := p_keys c |}) <$> cs)) as ->; [|done].
      apply mapM_Some. induction Hids as [|c cs Hc _ IH]; [constructor|]. rewrite !fmap_cons. constructor; [|done].
      unfold decode_v1_candidate_datum. csl. by rewrite candidate_keys_ok.
    + cbn [permissioned_of_datums]. rewrite <-list_fmap_compose. split; [done|]. intros _.
      rewrite <-(list_fmap_id cs) at 2. apply list_fmap_ext. by intros i [].
Qed.

(** Decoding inverts encoding for the D-parameter, the reserve, the governed map and
    the version oracle with its redeemers. *)
Theorem small_datums_roundtrip :
  (forall d, in_u 16 (num_permissioned_candidates d) -> in_u 16 (num_registered_candidates d) ->
     exists x, decode (d_parameter_to_plutus_data d) = Ok x /\ d_param_of_datum x = d) /\
  (forall r, len (policy_id (token r)) = 28 -> len (asset_name (token r)) <= 32 ->
     len (total_accrued_function_asset_name r) = 28 -> in_u 64 (initial_incentive r) ->
     in_u 64 (token_total_amount_transferred r) -> reserve_decode (reserve_to_plutus r) = Ok r) /\
  (forall from_utf8 g, from_utf8 (gm_key g) = true ->
     governed_map_decode from_utf8 (governed_map_datum_to_plutus_data g) = Ok g) /\
  (forall v, in_u 32 (script_id (version_oracle v)) -> len (currency_symbol v) = 28 ->
     decode_version_oracle_datum (version_oracle_datum_to_plutus v) = Some v) /\
  (forall r, match r with
             | InitializeVersionOracle o h | MintVersionOracle o h => in_u 32 (script_id o) /\ len h = 28
             | BurnVersionOracle o => in_u 32 (script_id o)
             end -> decode_version_oracle_redeemer (version_oracle_redeemer_to_plutus r) = Some r).
Proof.
  split_and!.
  - intros [p r] Hp Hr. unfold decode, d_parameter_to_plutus_data.
    rewrite version_and_payload by (unfold in_u, umax; simpl; lia). csl. unfold d_param_decode_legacy. csl.
    rewrite as_u16_int by done. csl. rewrite as_u16_int by done. csl. by eexists.
  - intros [[pid name] f i t] Hp Hn Hf Hi Ht. cbn [policy_id asset_name token
      total_accrued_function_asset_name initial_incentive token_total_amount_transferred] in *.
    unfold reserve_decode, reserve_to_plutus. rewrite version_and_payload by (unfold in_u, umax; simpl; lia).
    cbn [version Z.eqb datum]. unfold decode_v0_reserve_datum, decode_token_id_datum. csl.
    rewrite as_array_of_ok by done. csl.
    unfold bounded_try_from. rewrite (proj2 (Z.leb_le _ _)) by done. csl.
    rewrite as_array_of_ok by done. csl. rewrite as_integer_new by done. csl. by rewrite as_integer_new by done.
  - intros u [k v] Hk. unfold governed_map_decode, governed_map_datum_to_plutus_data. csl. cbn in Hk. by rewrite Hk.
  - intros [[o] h] Ho Hh. unfold decode_version_oracle_datum, decode_version_oracle, decode_script_hash, version_oracle_datum_to_plutus,
      version_oracle_to_plutus, script_hash_to_plutus. cbn in *. csl.
    rewrite as_u32_int by done. csl. by rewrite as_array_of_ok by done.
  - intros [[o] h|[o] h|[o]] Hr; unfold decode_version_oracle_redeemer, decode_version_oracle, decode_script_hash,
      version_oracle_redeemer_to_plutus, version_oracle_to_plutus, script_hash_to_plutus; cbn in *; csl.
    + destruct Hr. rewrite as_u32_int by done. csl. by rewrite as_array_of_ok by done.
    + destruct Hr. rewrite as_u32_int by done. csl. by rewrite as_array_of_ok by done.
    + by rewrite as_u32_int by done.
Qed.

End CodecFacts.

(** ** Examples: [PlutusData] as the tree of its constructors *)

Module DatumLib.
#[export] Instance datum_lib : CardanoSerializationLib := {
  PlutusData := Datum;
  new_integer := IntegerDatum;
  new_bytes := ByteStringDatum;
  new_list := ListDatum;
  new_constr_plutus_data := ConstructorDatum;
  as_integer_u64 d := match d with IntegerDatum i => if (0 <=? i) && (i <=? umax 64) then Some i else None | _ => None end;
  as_bytes := as_bytestring;
  as_list d := match d with ListDatum l => Some l | _ => None end;
  as_constr_plutus_data d := match d with ConstructorDatum alternative l => Some (alternative, l) | _ => None end
}.
#[export] Instance datum_lib_laws : CardanoSerializationLibLaws.
Proof. split; try done. intros i [H0 H1]. simpl. by rewrite !(proj2 (Z.leb_le _ _)) by done. Qed.
End DatumLib.
Import DatumLib.

Lemma registration_roundtrip_witness :
  let r := {| stake_ownership := {| pub_key := replicate 32 1; signature := replicate 64 2 |};
              partner_chain_pub_key := [3]; partner_chain_signature := [4];
              cr_registration_utxo := {| tx_hash := replicate 32 5; index := 6 |};
              own_pkh := replicate 28 7; cr_keys := [grandpa_key [8]; aura_key [9]] |} in
  exists d, decode (candidate_registration_to_plutus_data r) = Ok d /\
    registration_of_datum d =
    {| stake_ownership := stake_ownership r; partner_chain_pub_key := [3]; partner_chain_signature := [4];
       cr_registration_utxo := cr_registration_utxo r; own_pkh := replicate 28 7;
       cr_keys := [aura_key [9]; grandpa_key [8]] |}.
Proof.
  intros r. apply (registration_roundtrip r).
  split; [done|split; [done|unfold in_u, umax; simpl; lia]|done|repeat constructor].
Defined.

(** A candidate with a further key is encoded with version 1. *)
Lemma permissioned_candidates_roundtrip_witness :
  let cs := [{| sidechain_public_key := [1]; p_keys := [grandpa_key [2]; aura_key [3]] |};
             {| sidechain_public_key := [4]; p_keys := [grandpa_key [2]; aura_key [3]; aura_key [5]] |}] in
  exists d, decode (permissioned_candidates_to_plutus_data cs) = Ok d /\
    (permissioned_of_datums d = cs <->
     (forallb (fun c => has_only_aura_and_grandpa_keys (p_keys c)) cs = true -> Forall in_order cs)).
Proof. intros cs. apply (permissioned_candidates_roundtrip cs). repeat constructor. Defined.

(** Two keys in the other order are decoded as each other. *)
Lemma permissioned_keys_swapped :
  let c := {| sidechain_public_key := [1]; p_keys := [grandpa_key [2]; aura_key [3]] |} in
  exists d, decode (permissioned_candidates_to_plutus_data [c]) = Ok d /\
    permissioned_of_datums d = [{| sidechain_public_key := [1]; p_keys := [aura_key [2]; grandpa_key [3]] |}].
Proof. intros c. eexists. by vm_compute. Qed.

Lemma small_datums_roundtrip_witness :
  exists x, decode (d_parameter_to_plutus_data {| num_permissioned_candidates := 3; num_registered_candidates := 2 |}) = Ok x /\
    d_param_of_datum x = {| num_permissioned_candidates := 3; num_registered_candidates := 2 |}.
Proof.
  apply (proj1 small_datums_roundtrip); unfold in_u, umax; simpl; lia.
Defined.

(** A list without elements makes the governed map's decoder panic. *)
Lemma governed_map_panics : governed_map_decode (fun _ => true) (ListDatum []) = Panic.
Proof. done. Qed.
