(* ===== verification/CandidatesDb.v ===== *)
(** * The candidates in the tables of Db-Sync

    Models the queries of
    [src/primitives/mainchain-follower/src/data_source/candidates_data_source/db_model.rs].  A
    database [Db] has the tables of Db-Sync; a row that refers to a row of another table by a
    key contains that row, and transactions are told apart by their hashes.  Rows of blocks
    without numbers are left out, as the queries leave them out.  The order of a table's rows
    is the one in which a query happens to see them.

    The reference is [Ledger], the transactions of the main chain: [represents] says that the
    tables hold the ledger up to the end of an epoch, whichever way Db-Sync links inputs to
    outputs and whatever the later blocks are.  [utxos_for_epoch] shows that both variants of
    the query for the outputs of an address then return the outputs that are unspent at the end
    of that epoch. *)

From S2P Require Import Prelude Frame Plutus Domain PlutusData.
From stdpp Require Import list sorting.
Open Scope Z_scope.

(** ** Tables *)

Record Block := { block_no : Z; epoch_no : Z; slot_no : Z }.
Record Tx := { t_hash : Bytes; t_block : Block; t_block_index : Z }.

Record TxOut := {
  o_tx : Tx;
  o_index : Z;
  o_address : Bytes;
  o_data_hash : option Bytes;
  o_consumed_by : option Tx
}.
(** An input of [i_tx], which is the output [i_out_index] of [i_out_tx] *)
Record TxIn := { i_tx : Tx; i_out_tx : Tx; i_out_index : Z }.
Record MultiAsset := { ma_id : Z; ma_policy : Bytes; ma_name : Bytes }.
Record MaTxOut := { m_ident : Z; m_tx_out : TxOut }.
Record EpochStake := { es_epoch : Z; es_pool : Bytes; es_amount : Z }.

#[export] Instance block_eq_dec : EqDecision Block.
Proof. solve_decision. Defined.
#[export] Instance tx_eq_dec : EqDecision Tx.
Proof. solve_decision. Defined.
#[export] Instance tx_in_eq_dec : EqDecision TxIn.
Proof. solve_decision. Defined.

Inductive TxInConfiguration := Enabled | Consumed.

Section Tables.
Context {csl : CardanoSerializationLib}.

(** [tx_in]: [None] if there is no such table *)
Record Db := {
  block : list Block;
  tx_out : list TxOut;
  tx_in : option (list TxIn);
  datum_table : list (Bytes * PlutusData);
  multi_asset : list MultiAsset;
  ma_tx_out : list MaTxOut;
  epoch_stake : list EpochStake;
  epoch_param : list (Z * Bytes)
}.

Record MainchainTxOutput := {
  mto_utxo_id : UtxoId;
  mto_block_no : Z;
  mto_slot_no : Z;
  mto_epoch_no : Z;
  mto_index_in_block : Z;
  mto_address : Bytes;
  mto_datum : option PlutusData;
  mto_tx_inputs : list UtxoId
}.
Record StakePoolEntry := { pool_hash : Bytes; stake : Z }.
Record TokenTxOutput := { token_utxo : UtxoId; token_tx : Tx; token_datum : option PlutusData }.

(** The database refuses a query, or a column has a value that the type of the program does
    not have. *)
Inductive DecodeError := ColumnDecode.

(** ** Queries *)

(** [ORDER BY key DESC LIMIT 1], for a key that [lt] compares *)
Definition top {A} (lt : A -> A -> bool) (l : list A) : option A :=
  foldl (fun acc x => match acc with
                      | Some y => Some (if lt y x then x else y)
                      | None => Some x
                      end) None l.

(** The two queries of [TxInConfiguration::from_connection]; the second one fails without
    the table. *)
Definition tx_in_exists (d : Db) : bool := match tx_in d with Some _ => true | None => false end.
Definition tx_in_populated (d : Db) : outcome DecodeError bool :=
  match tx_in d with Some l => Ok (negb (bool_decide (l = []))) | None => Err ColumnDecode end.

Definition get_latest_block_for_epoch (epoch : Z) (d : Db) : option Block :=
  top (fun a b => slot_no a <? slot_no b) (filter (fun b => epoch_no b <= epoch) (block d)).

(** Epoch -1 does not decode. *)
Definition get_latest_stable_epoch (security_parameter : Z) (d : Db) : outcome DecodeError (option Z) :=
  let joined := b ← block d; s ← block d; if block_no b - security_parameter =? block_no s then [(b, s)] else [] in
  match top (fun x y => block_no (fst x) <? block_no (fst y)) joined with
  | None => Ok None
  | Some (_, s) => if epoch_no s - 1 <? 0 then Err ColumnDecode else Ok (Some (epoch_no s - 1))
  end.

Definition group_sum (pool : Bytes) (l : list EpochStake) : Z :=
  sumZ (es_amount <$> filter (fun es => es_pool es = pool) l).
Definition get_stake_distribution (epoch : Z) (d : Db) : outcome DecodeError (list StakePoolEntry) :=
  let rows := filter (fun es => es_epoch es = epoch) (epoch_stake d) in
  let groups := (fun p => {| pool_hash := p; stake := group_sum p rows |}) <$> remove_dups (es_pool <$> rows) in
  if forallb (fun e => (0 <=? stake e) && (stake e <=? umax 64)) groups then Ok groups else Err ColumnDecode.

(** [LEFT JOIN datum ON tx_out.data_hash = datum.hash] *)
Definition datum_of (d : Db) (o : TxOut) : option PlutusData :=
  h ← o_data_hash o;
  snd <$> head (filter (fun x => fst x = h) (datum_table d)).

Definition id_of_out (o : TxOut) : UtxoId := {| tx_hash := t_hash (o_tx o); index := o_index o |}.
Definition id_of_in (i : TxIn) : UtxoId := {| tx_hash := t_hash (i_out_tx i); index := i_out_index i |}.
Definition epoch_of (t : Tx) : Z := epoch_no (t_block t).
Definition number_of (t : Tx) : Z := block_no (t_block t).

(** [tx_block_no, block_index] *)
Definition later (a b : Tx) : bool :=
  (number_of a <? number_of b) || (number_of a =? number_of b) && (t_block_index a <? t_block_index b).
Definition get_token_utxo_for_epoch (ident epoch : Z) (d : Db) : option TokenTxOutput :=
  m ← top (fun x y => later (o_tx (m_tx_out x)) (o_tx (m_tx_out y)))
        (filter (fun m => m_ident m = ident /\ epoch_of (o_tx (m_tx_out m)) <= epoch) (ma_tx_out d));
  let o := m_tx_out m in
  Some {| token_utxo := id_of_out o; token_tx := o_tx o; token_datum := datum_of d o |}.

Definition resolve_multi_asset_id (policy name : Bytes) (d : Db) : option Z :=
  ma_id <$> head (filter (fun m => ma_policy m = policy /\ ma_name m = name) (multi_asset d)).

Definition q_epoch_nonce (epoch : Z) (d : Db) : option Bytes :=
  snd <$> head (filter (fun x => fst x = epoch) (epoch_param d)).

(** A left join has a row without partner where there is none. *)
Definition left_join {A} (l : list A) : list (option A) := match l with [] => [None] | _ => Some <$> l end.

(** The rows of the group of an output, from the transactions that consume it and the
    outputs that its own transaction consumes *)
Definition group_rows (n : Z) (consuming : list Tx) (consumes : list UtxoId) : list (option UtxoId) :=
  _ ← filter (fun c => match c with Some t => n <? number_of t | None => true end = true) (left_join consuming);
  left_join consumes.

(** [MainchainTxOutput::try_from]: an input without hash and index does not parse. *)
Definition to_output (d : Db) (inputs : TxOut -> list (option UtxoId)) (o : TxOut) : option MainchainTxOutput :=
  ins ← mapM id (inputs o);
  Some {| mto_utxo_id := id_of_out o; mto_block_no := number_of (o_tx o); mto_slot_no := slot_no (t_block (o_tx o));
          mto_epoch_no := epoch_of (o_tx o); mto_index_in_block := t_block_index (o_tx o); mto_address := o_address o;
          mto_datum := datum_of d o; mto_tx_inputs := ins |}.
Definition select_outputs (addr : Bytes) (n : Z) (d : Db) (inputs : TxOut -> list (option UtxoId))
    : outcome DecodeError (list MainchainTxOutput) :=
  some_or (mapM (to_output d inputs)
             (filter (fun o => o_address o = addr /\ number_of (o_tx o) <= n /\ inputs o <> []) (tx_out d))) ColumnDecode.

Definition get_utxos_for_address_tx_in_enabled (addr : Bytes) (n : Z) (d : Db) :=
  let tx_in := default [] (tx_in d) in
  select_outputs addr n d (fun o =>
    group_rows n (i_tx <$> filter (fun i => id_of_in i = id_of_out o) tx_in)
      (id_of_in <$> filter (fun i => i_tx i = o_tx o) tx_in)).
Definition get_utxos_for_address_tx_in_consumed (addr : Bytes) (n : Z) (d : Db) :=
  select_outputs addr n d (fun o =>
    group_rows n (option_list (o_consumed_by o))
      (id_of_out <$> filter (fun o' => o_consumed_by o' = Some (o_tx o)) (tx_out d))).
Definition get_utxos_for_address (addr : Bytes) (n : Z) (c : TxInConfiguration) (d : Db) :=
  match c with
  | Enabled => get_utxos_for_address_tx_in_enabled addr n d
  | Consumed => get_utxos_for_address_tx_in_consumed addr n d
  end.

(** ** The ledger *)

(** An output of the main chain, with its datum where that is known *)
Record LedgerOutput := { lo_tx : Tx; lo_index : Z; lo_address : Bytes; lo_datum : option PlutusData }.
(** [l_spends]: the inputs of transactions; [l_tokens]: the outputs that carry an asset *)
Record Ledger := {
  l_blocks : list Block;
  l_outputs : list LedgerOutput;
  l_spends : list (Tx * UtxoId);
  l_tokens : list (Bytes * Bytes * LedgerOutput);
  l_stake : list EpochStake;
  l_nonce : Z -> option Bytes
}.

Definition lo_id (o : LedgerOutput) : UtxoId := {| tx_hash := t_hash (lo_tx o); index := lo_index o |}.
Definition spent_by (epoch : Z) (spends : list (Tx * UtxoId)) (u : UtxoId) : bool :=
  existsb (fun s => (epoch_of (fst s) <=? epoch) && bool_decide (snd s = u)) spends.
Definition inputs_of (spends : list (Tx * UtxoId)) (t : Tx) : list UtxoId :=
  snd <$> filter (fun s => fst s = t) spends.

Definition output_of (L : Ledger) (o : LedgerOutput) : MainchainTxOutput :=
  {| mto_utxo_id := lo_id o; mto_block_no := number_of (lo_tx o); mto_slot_no := slot_no (t_block (lo_tx o));
     mto_epoch_no := epoch_of (lo_tx o); mto_index_in_block := t_block_index (lo_tx o); mto_address := lo_address o;
     mto_datum := lo_datum o; mto_tx_inputs := inputs_of (l_spends L) (lo_tx o) |}.
(** The outputs of an address that are unspent at the end of an epoch *)
Definition unspent_at (L : Ledger) (epoch : Z) (addr : Bytes) : list MainchainTxOutput :=
  output_of L <$> filter (fun o => lo_address o = addr /\ spent_by epoch (l_spends L) (lo_id o) = false)
                    (filter (fun o => epoch_of (lo_tx o) <= epoch) (l_outputs L)).

Definition tokens_of (L : Ledger) (policy name : Bytes) : list LedgerOutput :=
  snd <$> filter (fun x => fst x = (policy, name)) (l_tokens L).

(** The last output of an epoch with a token *)
Definition latest_token (L : Ledger) (epoch : Z) (policy name : Bytes) : option LedgerOutput :=
  top (fun x y => later (lo_tx x) (lo_tx y)) (filter (fun o => epoch_of (lo_tx o) <= epoch) (tokens_of L policy name)).

(** Equal but for the order of the inputs *)
Record same_output (a b : MainchainTxOutput) : Prop := {
  so_id : mto_utxo_id a = mto_utxo_id b;
  so_block : mto_block_no a = mto_block_no b;
  so_slot : mto_slot_no a = mto_slot_no b;
  so_epoch : mto_epoch_no a = mto_epoch_no b;
  so_index : mto_index_in_block a = mto_index_in_block b;
  so_address : mto_address a = mto_address b;
  so_datum : mto_datum a = mto_datum b;
  so_inputs : mto_tx_inputs a ≡ₚ mto_tx_inputs b
}.

(** ** What the tables hold *)

Definition spends_in (c : TxInConfiguration) (d : Db) : list (Tx * UtxoId) :=
  match c with
  | Enabled => (fun i => (i_tx i, id_of_in i)) <$> default [] (tx_in d)
  | Consumed => omap (fun o => (fun t => (t, id_of_out o)) <$> o_consumed_by o) (tx_out d)
  end.
Definition view_of (d : Db) (o : TxOut) : LedgerOutput :=
  {| lo_tx := o_tx o; lo_index := o_index o; lo_address := o_address o; lo_datum := datum_of d o |}.
Definition tokens_in (policy name : Bytes) (d : Db) : list LedgerOutput :=
  match resolve_multi_asset_id policy name d with
  | Some ident => view_of d <$> (m_tx_out <$> filter (fun m => m_ident m = ident) (ma_tx_out d))
  | None => []
  end.
(** The tables of a database are consistent. *)
Record tables_ok (c : TxInConfiguration) (d : Db) : Prop := {
  ok_slots a b : a ∈ block d -> b ∈ block d -> slot_no a < slot_no b <-> block_no a < block_no b;
  ok_epochs a b : a ∈ block d -> b ∈ block d -> block_no a <= block_no b -> epoch_no a <= epoch_no b;
  ok_out_blocks o : o ∈ tx_out d -> t_block (o_tx o) ∈ block d;
  ok_spend_blocks s : s ∈ spends_in c d -> t_block (fst s) ∈ block d;
  ok_spent_once : NoDup (snd <$> spends_in c d);
  ok_out_ids : NoDup (id_of_out <$> tx_out d)
}.

(** They hold the ledger up to the end of an epoch. *)
Record represents (c : TxInConfiguration) (epoch : Z) (L : Ledger) (d : Db) : Prop := {
  rp_tables : tables_ok c d;
  rp_blocks : filter (fun b => epoch_no b <= epoch) (block d) ≡ₚ filter (fun b => epoch_no b <= epoch) (l_blocks L);
  rp_outputs : view_of d <$> filter (fun o => epoch_of (o_tx o) <= epoch) (tx_out d)
               ≡ₚ filter (fun o => epoch_of (lo_tx o) <= epoch) (l_outputs L);
  rp_spends : filter (fun s => epoch_of (fst s) <= epoch) (spends_in c d)
              ≡ₚ filter (fun s => epoch_of (fst s) <= epoch) (l_spends L);
  rp_tokens policy name : filter (fun o => epoch_of (lo_tx o) <= epoch) (tokens_in policy name d)
                          ≡ₚ filter (fun o => epoch_of (lo_tx o) <= epoch) (tokens_of L policy name);
  rp_stake e : e <= epoch -> filter (fun es => es_epoch es = e) (epoch_stake d)
                             ≡ₚ filter (fun es => es_epoch es = e) (l_stake L);
  rp_nonce e : e <= epoch -> q_epoch_nonce e d = l_nonce L e
}.
End Tables.

(** ** Lemmas *)

Section Top.
Context {A : Type} (lt : A -> A -> bool).
Hypothesis lt_asym : forall x y, lt x y = true -> lt y x = false.
Hypothesis lt_neg_trans : forall x y z, lt x y = false -> lt y z = false -> lt x z = false.

Lemma top_snoc l x :
  top lt (l ++ [x]) = Some (match top lt l with Some y => if lt y x then x else y | None => x end).
Proof. unfold top. rewrite foldl_app. simpl. by destruct (foldl _ _ l). Qed.

Lemma top_None l : top lt l = None -> l = [].
Proof. induction l as [|x l _] using rev_ind; [done|]. by rewrite top_snoc. Qed.

Lemma top_Some l x : top lt l = Some x -> x ∈ l /\ forall y, y ∈ l -> lt x y = false.
Proof.
  assert (forall z, lt z z = false) as Hirr by (intros z; destruct (lt z z) eqn:E; [by rewrite <-E; apply lt_asym|done]).
  revert x. induction l as [|a l IH] using rev_ind; intros x; [done|]. rewrite top_snoc. intros [= <-].
  destruct (top lt l) as [y|] eqn:Ht.
  - destruct (IH y eq_refl) as [Hin Hmax]. destruct (lt y a) eqn:E; split; try set_solver; intros z Hz;
      apply elem_of_app in Hz as [Hz|Hz%list_elem_of_singleton]; subst; eauto.
  - apply top_None in Ht as ->. split; [set_solver|]. intros z Hz%list_elem_of_singleton. by subst.
Qed.
End Top.

Lemma joined_filter_fst {A B} `{!EqDecision A} (l : list (A * B)) (a : A) (f : A -> Prop) `{!forall x, Decision (f x)} :
  f a -> filter (fun s => fst s = a) (filter (fun s => f (fst s)) l) = filter (fun s => fst s = a) l.
Proof.
  intros Ha. rewrite list_filter_filter. apply list_filter_iff. intros [x y]. simpl. split; [naive_solver|by intros ->].
Qed.

Section Refinement.
Context {csl : CardanoSerializationLib}.
Implicit Types (d : Db) (L : Ledger) (c : TxInConfiguration).

(** Both variants of the joins in terms of the inputs of transactions *)
Definition joins c d (n : Z) (o : TxOut) : list (option UtxoId) :=
  group_rows n (fst <$> filter (fun s => snd s = id_of_out o) (spends_in c d)) (inputs_of (spends_in c d) (o_tx o)).

Lemma consumed_by_join d o :
  NoDup (id_of_out <$> tx_out d) -> o ∈ tx_out d ->
  option_list (o_consumed_by o) = fst <$> filter (fun s => snd s = id_of_out o) (spends_in Consumed d).
Proof.
  unfold spends_in. induction (tx_out d) as [|o' l IH]; intros Hnd Hin; [by apply elem_of_nil in Hin|].
  rewrite fmap_cons in Hnd. apply NoDup_cons in Hnd as [Hni Hnd]. apply elem_of_cons in Hin as [->|Hin].
  - assert (filter (fun s => snd s = id_of_out o') (omap (fun o => (fun t => (t, id_of_out o)) <$> o_consumed_by o) l) = [])
      as Hnil.
    { apply filter_none. intros [t u] (x & Hx & Hs)%list_elem_of_omap Hu. simpl in Hu.
      apply fmap_Some in Hs as (t' & _ & Heq). apply Hni. assert (id_of_out o' = id_of_out x) as -> by congruence.
      by apply list_elem_of_fmap_2. }
    rewrite omap_cons. destruct (o_consumed_by o') as [t|]; cbn [fmap option_fmap option_map]; [|by rewrite Hnil].
    rewrite filter_cons, decide_True, Hnil by done. done.
  - rewrite omap_cons. destruct (o_consumed_by o') as [t|]; cbn [fmap option_fmap option_map]; [|by apply IH].
    rewrite filter_cons, decide_False; [by apply IH|]. simpl. intros Heq. apply Hni. rewrite Heq. by apply list_elem_of_fmap_2.
Qed.

Lemma query_joins c d addr n :
  tables_ok c d -> get_utxos_for_address addr n c d = select_outputs addr n d (joins c d n).
Proof.
  intros Hok. assert (forall ins, (forall o, o ∈ tx_out d -> ins o = joins c d n o) ->
    select_outputs addr n d ins = select_outputs addr n d (joins c d n)) as Hext.
  { intros ins Hins. unfold select_outputs. f_equal.
    erewrite (filter_ext_elem _ (fun o => o_address o = addr /\ number_of (o_tx o) <= n /\ joins c d n o <> []))
      by (intros o Ho; by rewrite Hins).
    apply mapM_ext_elem. intros o Ho%list_elem_of_filter. unfold to_output. by rewrite Hins by apply Ho. }
  destruct c; simpl; apply Hext; intros o Ho; unfold joins, inputs_of.
  - unfold spends_in. rewrite !filter_fmap_comm, <-!list_fmap_compose. done.
  - rewrite <-consumed_by_join by (apply Hok || done). f_equal. unfold spends_in. clear.
    induction (tx_out d) as [|o' l IH]; [done|]. rewrite filter_cons, omap_cons.
    destruct (o_consumed_by o') as [t|]; cbn [fmap option_fmap option_map]; [|by rewrite decide_False].
    rewrite filter_cons. cbn [fst]. destruct (decide (t = o_tx o)) as [->|Hne].
    + rewrite decide_True by done. by rewrite !fmap_cons, IH.
    + rewrite decide_False by congruence. done.
Qed.

(** The last block of the epoch separates the transactions of the epochs. *)
Lemma last_block_separates c d epoch b t :
  tables_ok c d -> get_latest_block_for_epoch epoch d = Some b -> t_block t ∈ block d ->
  number_of t <= block_no b <-> epoch_of t <= epoch.
Proof.
  intros Hok Hb Ht. apply top_Some in Hb as [[Hbe Hbin]%list_elem_of_filter Hmax]; cycle 1.
  { intros x y. rewrite Z.ltb_lt, Z.ltb_ge. lia. }
  { intros x y z. rewrite !Z.ltb_ge. lia. }
  unfold number_of, epoch_of. split.
  - intros Hn. pose proof (ok_epochs _ _ Hok _ _ Ht Hbin Hn). lia.
  - intros He. assert (t_block t ∈ filter (fun b => epoch_no b <= epoch) (block d)) as Hin by by apply list_elem_of_filter.
    specialize (Hmax _ Hin). apply Z.ltb_ge in Hmax. pose proof (ok_slots _ _ Hok _ _ Hbin Ht). lia.
Qed.

Lemma same_last_block c epoch L d d' b :
  represents c epoch L d -> represents c epoch L d' -> get_latest_block_for_epoch epoch d = Some b ->
  exists b', get_latest_block_for_epoch epoch d' = Some b' /\ block_no b = block_no b'.
Proof.
  intros Hrep Hrep' Hb. unfold get_latest_block_for_epoch in *.
  assert (forall x y : Block, (slot_no x <? slot_no y) = true -> (slot_no y <? slot_no x) = false) as Hasym
    by (intros x y; rewrite Z.ltb_lt, Z.ltb_ge; lia).
  assert (forall x y z : Block, (slot_no x <? slot_no y) = false -> (slot_no y <? slot_no z) = false ->
    (slot_no x <? slot_no z) = false) as Htrans by (intros x y z; rewrite !Z.ltb_ge; lia).
  assert (filter (fun b => epoch_no b <= epoch) (block d) ≡ₚ filter (fun b => epoch_no b <= epoch) (block d')) as Hp
    by by rewrite (rp_blocks _ _ _ _ Hrep), (rp_blocks _ _ _ _ Hrep').
  apply top_Some in Hb as [Hb Hmax]; [|done..].
  destruct (top _ (filter _ (block d'))) as [b'|] eqn:Hb'.
  - exists b'. split; [done|]. apply top_Some in Hb' as [Hb' Hmax']; [|done..].
    assert ((slot_no b <? slot_no b') = false /\ (slot_no b' <? slot_no b) = false) as [H1%Z.ltb_ge H2%Z.ltb_ge].
    { split; [apply Hmax; by rewrite Hp|apply Hmax'; by rewrite <-Hp]. }
    rewrite <-Hp in Hb'. apply list_elem_of_filter in Hb as [_ Hb], Hb' as [_ Hb'].
    pose proof (ok_slots _ _ (rp_tables _ _ _ _ Hrep) b b' Hb Hb').
    pose proof (ok_slots _ _ (rp_tables _ _ _ _ Hrep) b' b Hb' Hb). lia.
  - apply top_None in Hb'. rewrite Hb' in Hp. rewrite Hp in Hb. by apply elem_of_nil in Hb.
Qed.

Lemma spent_by_true epoch spends u :
  spent_by epoch spends u = true <-> exists t, (t, u) ∈ filter (fun s => epoch_of (fst s) <= epoch) spends.
Proof.
  unfold spent_by. rewrite existsb_exists. split.
  - intros ([t v] & Hin & [He Hv%bool_decide_eq_true]%andb_true_iff). cbn in Hv. subst v. exists t.
    apply list_elem_of_filter. split; [by apply Z.leb_le|by apply list_elem_of_In].
  - intros [t [He Hin]%list_elem_of_filter]. exists (t, u). split; [by apply list_elem_of_In|].
    apply andb_true_iff. split; [by apply Z.leb_le|by apply bool_decide_eq_true].
Qed.

Lemma consumed_once (l : list (Tx * UtxoId)) u :
  NoDup (snd <$> l) -> filter (fun s => snd s = u) l = [] \/ exists t, filter (fun s => snd s = u) l = [(t, u)].
Proof.
  induction l as [|[t v] l IH]; intros Hnd; [by left|]. rewrite fmap_cons in Hnd. apply NoDup_cons in Hnd as [Hni Hnd].
  rewrite filter_cons. cbn [snd] in *. case_decide as Hv; [|by apply IH]. subst v. right. exists t. f_equal.
  apply filter_none. intros [t' v] Hin Hv. cbn [snd] in Hv. subst v. apply Hni. by apply (list_elem_of_fmap_2 snd _ (t', u)).
Qed.

Lemma joins_spec c d epoch b o :
  tables_ok c d -> get_latest_block_for_epoch epoch d = Some b ->
  joins c d (block_no b) o = if spent_by epoch (spends_in c d) (id_of_out o) then []
                             else left_join (inputs_of (spends_in c d) (o_tx o)).
Proof.
  intros Hok Hb. unfold joins, group_rows.
  assert (forall t, (t, id_of_out o) ∈ spends_in c d <-> t ∈ fst <$> filter (fun s => snd s = id_of_out o) (spends_in c d))
    as Hin.
  { intros t. rewrite list_elem_of_fmap. split.
    - intros H. exists (t, id_of_out o). split; [done|]. by apply list_elem_of_filter.
    - intros ([t' u] & -> & [Hu H]%list_elem_of_filter). cbn in *. by subst. }
  destruct (consumed_once (spends_in c d) (id_of_out o) (ok_spent_once _ _ Hok)) as [Hf|[t Hf]]; rewrite Hf in Hin |- *.
  - destruct (spent_by _ _ _) eqn:Hs.
    + apply spent_by_true in Hs as [t [_ Ht]%list_elem_of_filter]. apply Hin in Ht. by apply elem_of_nil in Ht.
    + cbn [fmap list_fmap left_join]. rewrite filter_cons, filter_nil, decide_True by done. apply app_nil_r.
  - assert ((t, id_of_out o) ∈ spends_in c d) as Ht by (apply Hin; left).
    pose proof (last_block_separates c d epoch b t Hok Hb (ok_spend_blocks _ _ Hok _ Ht)) as Hsep.
    cbn [fmap list_fmap fst left_join]. rewrite filter_cons, filter_nil.
    destruct (spent_by _ _ _) eqn:Hs.
    + apply spent_by_true in Hs as [t' [He Ht']%list_elem_of_filter]. apply Hin, list_elem_of_singleton in Ht' as ->.
      rewrite decide_False; [done|]. cbn in He. rewrite Z.ltb_lt. lia.
    + rewrite decide_True; [apply app_nil_r|]. apply Z.ltb_lt.
      destruct (decide (epoch_of t <= epoch)) as [He|He]; [|lia]. apply not_true_iff_false in Hs. destruct Hs.
      apply spent_by_true. exists t. by apply list_elem_of_filter.
Qed.

Definition inputs_present L (addr : Bytes) : Prop :=
  forall o, o ∈ l_outputs L -> lo_address o = addr -> inputs_of (l_spends L) (lo_tx o) <> [].

Section Represented.
Context {c : TxInConfiguration} {epoch : Z} {L : Ledger} {d : Db} (Hrep : represents c epoch L d).

Lemma spent_by_final u : spent_by epoch (spends_in c d) u = spent_by epoch (l_spends L) u.
Proof.
  apply eq_bool_prop_intro. rewrite !Is_true_true, !spent_by_true. by setoid_rewrite (rp_spends _ _ _ _ Hrep).
Qed.

Lemma inputs_of_final t : epoch_of t <= epoch -> inputs_of (spends_in c d) t ≡ₚ inputs_of (l_spends L) t.
Proof.
  intros He. unfold inputs_of.
  rewrite <-(joined_filter_fst (spends_in c d) t (fun t => epoch_of t <= epoch)),
    <-(joined_filter_fst (l_spends L) t (fun t => epoch_of t <= epoch)) by done.
  by rewrite (rp_spends _ _ _ _ Hrep).
Qed.

Lemma output_final o :
  o ∈ tx_out d -> epoch_of (o_tx o) <= epoch -> view_of d o ∈ l_outputs L.
Proof.
  intros Ho He. assert (view_of d o ∈ filter (fun o => epoch_of (lo_tx o) <= epoch) (l_outputs L)) as Hin.
  { rewrite <-(rp_outputs _ _ _ _ Hrep). apply list_elem_of_fmap_2, list_elem_of_filter. done. }
  by apply list_elem_of_filter in Hin as [_ ?].
Qed.
End Represented.

Lemma represents_mono c epoch epoch' L d : epoch' <= epoch -> represents c epoch L d -> represents c epoch' L d.
Proof.
  intros Hle [Ht Hb Ho Hs Hk Hst Hn].
  assert (forall {A} (f : A -> Z) (l : list A),
    filter (fun x => f x <= epoch') l = filter (fun x => f x <= epoch') (filter (fun x => f x <= epoch) l)) as Hf.
  { intros A f l. rewrite list_filter_filter. apply list_filter_iff. intros x. lia. }
  split; try done.
  - by rewrite (Hf _ _ (block d)), (Hf _ _ (l_blocks L)), Hb.
  - rewrite (Hf _ _ (tx_out d)), (Hf _ _ (l_outputs L)), <-Ho, filter_fmap_comm. done.
  - by rewrite (Hf _ _ (spends_in c d)), (Hf _ _ (l_spends L)), Hs.
  - intros policy name. by rewrite (Hf _ _ (tokens_in _ _ _)), (Hf _ _ (tokens_of _ _ _)), Hk.
  - intros e He. apply Hst. lia.
  - intros e He. apply Hn. lia.
Qed.

Lemma mapM_Some_fmap {A B} (f : A -> option B) (g : A -> B) (l : list A) :
  (forall x, x ∈ l -> f x = Some (g x)) -> mapM f l = Some (g <$> l).
Proof.
  induction l as [|x l IH]; intros Hfg; [done|]. cbn [mapM]. rewrite (Hfg x) by left. cbn [mbind option_bind].
  rewrite IH by (intros y Hy; apply Hfg; by right). done.
Qed.

(** In either configuration, the query for the outputs of an address up to the last block
    of an epoch returns those that are unspent at the end of the epoch. *)
Lemma utxos_for_epoch c epoch L d b addr :
  represents c epoch L d -> inputs_present L addr -> get_latest_block_for_epoch epoch d = Some b ->
  exists rows, get_utxos_for_address addr (block_no b) c d = Ok rows /\
    perm_rel same_output rows (unspent_at L epoch addr).
Proof.
  intros Hrep Hins Hb. pose proof (rp_tables _ _ _ _ Hrep) as Hok. rewrite query_joins by done. unfold select_outputs.
  set (row o := {| mto_utxo_id := id_of_out o; mto_block_no := number_of (o_tx o); mto_slot_no := slot_no (t_block (o_tx o));
          mto_epoch_no := epoch_of (o_tx o); mto_index_in_block := t_block_index (o_tx o); mto_address := o_address o;
          mto_datum := datum_of d o; mto_tx_inputs := inputs_of (spends_in c d) (o_tx o) |}).
  set (Q o := o_address o = addr /\ spent_by epoch (l_spends L) (id_of_out o) = false).
  assert (forall o, o ∈ tx_out d -> epoch_of (o_tx o) <= epoch -> o_address o = addr ->
    inputs_of (spends_in c d) (o_tx o) <> []) as Hne.
  { intros o Ho He Ha Hnil. apply (Hins (view_of d o)); [by apply (output_final Hrep)|done|].
    pose proof (inputs_of_final Hrep _ He) as Hp. rewrite Hnil in Hp. by apply Permutation_nil in Hp. }
  rewrite (filter_ext_elem _ (fun o => Q o /\ epoch_of (o_tx o) <= epoch)); cycle 1.
  { intros o Ho. rewrite (joins_spec c d epoch b) by done.
    rewrite (last_block_separates c d epoch b) by (done || by apply Hok). unfold Q.
    rewrite (spent_by_final Hrep). destruct (spent_by _ _ _); [naive_solver|]. split; [naive_solver|].
    intros [[Ha _] He]. split_and!; [done..|]. specialize (Hne o Ho He Ha). by destruct (inputs_of _ _). }
  rewrite (mapM_Some_fmap _ row); cycle 1.
  { intros o [[[Ha Hs] He] Ho]%list_elem_of_filter. unfold to_output. rewrite (joins_spec c d epoch b) by done.
    rewrite (spent_by_final Hrep), Hs. specialize (Hne o Ho He Ha). unfold row.
    destruct (inputs_of (spends_in c d) (o_tx o)) as [|u us] eqn:Hu; [done|]. unfold left_join.
    by rewrite (mapM_fmap_Some id Some). }
  eexists. split; [done|]. exists (output_of L <$> (view_of d <$> filter (fun o => Q o /\ epoch_of (o_tx o) <= epoch) (tx_out d))).
  split.
  - apply Forall2_fmap, Forall2_fmap_r, Forall_Forall2_diag, Forall_forall. intros o [[_ He] Ho]%list_elem_of_filter.
    split; try done. cbn. by apply (inputs_of_final Hrep).
  - unfold unspent_at. apply fmap_Permutation. rewrite <-(rp_outputs _ _ _ _ Hrep), filter_fmap_comm, list_filter_filter. done.
Qed.

Lemma no_utxos_for_epoch c epoch L d addr :
  represents c epoch L d -> get_latest_block_for_epoch epoch d = None -> unspent_at L epoch addr = [].
Proof.
  intros Hrep Hb%top_None. unfold unspent_at.
  assert (filter (fun o => epoch_of (o_tx o) <= epoch) (tx_out d) = []) as Hnil.
  { apply filter_none. intros o Ho He. apply (filter_nil_not_elem_of _ _ (t_block (o_tx o)) Hb He).
    by apply (rp_tables _ _ _ _ Hrep). }
  pose proof (rp_outputs _ _ _ _ Hrep) as Hp. rewrite Hnil in Hp. apply Permutation_nil in Hp. by rewrite Hp.
Qed.

Lemma later_asym a b : later a b = true -> later b a = false.
Proof.
  unfold later. rewrite orb_true_iff, orb_false_iff, andb_true_iff, andb_false_iff, !Z.ltb_lt, !Z.eqb_eq, !Z.ltb_ge, Z.eqb_neq. lia.
Qed.
Lemma later_neg_trans x y z : later x y = false -> later y z = false -> later x z = false.
Proof. unfold later. rewrite !orb_false_iff, !andb_false_iff, !Z.ltb_ge, !Z.eqb_neq. lia. Qed.

(** A transaction has at most one output with a token. *)
Definition one_per_transaction L (policy name : Bytes) : Prop :=
  forall x y, x ∈ tokens_of L policy name -> y ∈ tokens_of L policy name ->
  later (lo_tx x) (lo_tx y) = false -> later (lo_tx y) (lo_tx x) = false -> x = y.

Definition token_datum_of (policy name : Bytes) (epoch : Z) d : option (option PlutusData) :=
  ident ← resolve_multi_asset_id policy name d;
  token_datum <$> get_token_utxo_for_epoch ident epoch d.

Lemma token_for_epoch c epoch L d policy name :
  represents c epoch L d -> one_per_transaction L policy name ->
  token_datum_of policy name epoch d = lo_datum <$> latest_token L epoch policy name.
Proof.
  intros Hrep Hone. pose proof (rp_tokens _ _ _ _ Hrep policy name) as Hp. unfold token_datum_of, latest_token.
  unfold tokens_in in Hp. destruct (resolve_multi_asset_id policy name d) as [ident|]; cbn [mbind option_bind].
  2: { rewrite filter_nil in Hp. symmetry in Hp. apply Permutation_nil_r in Hp. by rewrite Hp. }
  unfold get_token_utxo_for_epoch. rewrite !filter_fmap_comm, list_filter_filter in Hp. cbn [view_of lo_tx] in Hp.
  rewrite (list_filter_iff _ (fun m => m_ident m = ident /\ epoch_of (o_tx (m_tx_out m)) <= epoch)) in Hp by tauto.
  set (rows := filter _ (ma_tx_out d)) in *. set (outs := filter _ (tokens_of L policy name)) in *.
  destruct (top _ rows) as [m|] eqn:Hm, (top _ outs) as [o|] eqn:Ho; cbn.
  - apply top_Some in Hm as [Hm Hmax]; [|eauto using later_asym|eauto using later_neg_trans].
    apply top_Some in Ho as [Ho Homax]; [|eauto using later_asym|eauto using later_neg_trans].
    assert (view_of d (m_tx_out m) ∈ outs) as Hv by (rewrite <-Hp; by do 2 apply list_elem_of_fmap_2).
    assert (o ∈ view_of d <$> (m_tx_out <$> rows)) as (o' & -> & (m' & -> & Hm')%list_elem_of_fmap)%list_elem_of_fmap
      by by rewrite Hp.
    do 2 f_equal. change (datum_of d (m_tx_out m)) with (lo_datum (view_of d (m_tx_out m))). f_equal.
    apply list_elem_of_filter in Ho as [_ Ho]. specialize (Homax _ Hv). apply list_elem_of_filter in Hv as [_ Hv].
    apply Hone; [done|done|by apply (Hmax m')|done].
  - apply top_None in Ho. rewrite Ho in Hp. apply Permutation_nil_r, fmap_nil_inv, fmap_nil_inv in Hp. by rewrite Hp in Hm.
  - apply top_None in Hm. rewrite Hm in Hp. symmetry in Hp. apply Permutation_nil_r in Hp. by rewrite Hp in Ho.
  - done.
Qed.

(** *** Stake *)

Definition stake_rows L (epoch : Z) : list EpochStake := filter (fun es => es_epoch es = epoch) (l_stake L).
Definition stake_ok L (epoch : Z) : Prop := forall p, in_u 64 (group_sum p (stake_rows L epoch)).

#[export] Instance group_sum_perm p : Proper ((≡ₚ) ==> (=)) (group_sum p).
Proof. intros l1 l2 Hl. unfold group_sum. by rewrite Hl. Qed.

Lemma stake_for_epoch c epoch L d :
  represents c epoch L d -> stake_ok L epoch ->
  let rows := filter (fun es => es_epoch es = epoch) (epoch_stake d) in
  rows ≡ₚ stake_rows L epoch /\
  get_stake_distribution epoch d =
    Ok ((fun p => {| pool_hash := p; stake := group_sum p (stake_rows L epoch) |}) <$> remove_dups (es_pool <$> rows)).
Proof.
  intros Hrep Hok rows. pose proof (rp_stake _ _ _ _ Hrep epoch ltac:(lia)) as Hp. split; [done|].
  unfold get_stake_distribution. fold rows in Hp |- *.
  assert (forall p, group_sum p rows = group_sum p (stake_rows L epoch)) as Hg by (intros p; by rewrite Hp).
  assert ((fun p => {| pool_hash := p; stake := group_sum p rows |}) <$> remove_dups (es_pool <$> rows) =
          (fun p => {| pool_hash := p; stake := group_sum p (stake_rows L epoch) |}) <$> remove_dups (es_pool <$> rows)) as ->.
  { apply list_fmap_ext. intros i p _. by rewrite Hg. }
  rewrite (proj2 (forallb_forall _ _)); [done|]. intros x Hx%list_elem_of_In. apply list_elem_of_fmap in Hx as (p & -> & _).
  cbn. destruct (Hok p). apply andb_true_iff. split; by apply Z.leb_le.
Qed.
End Refinement.
