(* ===== verification/CandidatesSource.v ===== *)
(** * The data source of committee candidates

    Models [src/primitives/mainchain-follower/src/data_source/candidates_data_source/mod.rs],
    [.../cached.rs] and [src/primitives/mainchain-follower/src/db/multi_asset_cache.rs]: how the
    candidates of an epoch are read from Db-Sync, and the caches in front of it.  The database
    changes between the queries of a call: the query number [n] of a node sees [world n], or
    fails if that is [None].  The order in which a hash map is iterated is a parameter,
    [into_iter], and so is the LRU cache.  Locks are never poisoned.

    The theorems compose this source with the inherent data provider and the selection of
    [AuthoritySelection]: what the provider offers is a function of the ledger up to the end of
    an epoch, up to the order of the candidates, so nodes with different databases, caches and
    Db-Sync configurations select the same committee. *)

From S2P Require Import Prelude Frame Committee Epochs Plutus Domain SystemParameters Selection AuthoritySelection.
From S2P Require Import PlutusData CandidatesDb.
From stdpp Require Import list gmap.
Open Scope Z_scope.

(** ** [CandidatesDataSourceImpl] *)

Inductive DataSourceError :=
| BadRequest (epoch : Z)
| ExpectedDataNotFound
| DatumError (e : DecodingError)
| SqlxError.

Definition DATA_MC_EPOCH_OFFSET : Z := 2.
Definition offset_data_epoch (epoch : Z) : option Z := checked_sub epoch DATA_MC_EPOCH_OFFSET.

Record ParsedCandidate := { pc_utxo_info : UtxoInfo; pc_datum : RegisterValidatorDatum; pc_tx_inputs : list UtxoId }.
Record RegisteredCandidate := {
  rc_stake_pool_pub_key : Bytes;
  rc_registration_utxo : UtxoId;
  rc_tx_inputs : list UtxoId;
  rc_sidechain_signature : Bytes;
  rc_mainchain_signature : Bytes;
  rc_cross_chain_signature : Bytes;
  rc_sidechain_pub_key : Bytes;
  rc_cross_chain_pub_key : Bytes;
  rc_keys : CandidateKeys;
  rc_utxo_info : UtxoInfo
}.

(** [tick]: the number of queries so far *)
Record Source := {
  tick : nat;
  multi_asset_cache : gmap (Bytes * Bytes) Z;
  tx_in_config : option TxInConfiguration
}.
Definition advance (s : Source) : Source :=
  {| tick := S (tick s); multi_asset_cache := multi_asset_cache s; tx_in_config := tx_in_config s |}.
Definition remember_ident (key : Bytes * Bytes) (id : Z) (s : Source) : Source :=
  {| tick := tick s; multi_asset_cache := <[key := id]> (multi_asset_cache s); tx_in_config := tx_in_config s |}.
Definition set_tx_in_config (c : TxInConfiguration) (s : Source) : Source :=
  {| tick := tick s; multi_asset_cache := multi_asset_cache s; tx_in_config := Some c |}.

Section Impl.
Context {csl : CardanoSerializationLib}.
(** The hash of a stake pool's key *)
Context (from_vkey : Bytes -> Bytes).
Context (into_iter : gmap Bytes (list RegisteredCandidate) -> list (Bytes * list RegisteredCandidate)).
Context (world : nat -> option Db).
Notation Src := (M Source DataSourceError).

Definition query {A} (f : Db -> outcome DecodeError A) : Src A := fun s =>
  match world (tick s) with
  | Some d => match f d with Ok a => Ok (a, advance s) | _ => Err SqlxError end
  | None => Err SqlxError
  end.

(** [MultiAssetCache::resolve_ident] *)
Definition resolve_ident (policy name : Bytes) : Src (option Z) :=
  let* cached := gets (fun s => multi_asset_cache s !! (policy, name)) in
  match cached with
  | Some id => ret (Some id)
  | None =>
      let* id_opt := query (fun d => Ok (resolve_multi_asset_id policy name d)) in
      match id_opt with
      | Some id => do* modify (remember_ident (policy, name) id) in ret (Some id)
      | None => ret None
      end
  end.

(** [TxInConfiguration::from_connection] *)
Definition from_connection : Src TxInConfiguration :=
  let* exists_ := query (fun d => Ok (tx_in_exists d)) in
  if exists_ then
    let* populated := query tx_in_populated in
    ret (if populated : bool then Enabled else Consumed)
  else ret Consumed.
Definition get_tx_in_config : Src TxInConfiguration :=
  let* config := gets tx_in_config in
  match config with
  | Some c => ret c
  | None => let* c := from_connection in do* modify (set_tx_in_config c) in ret c
  end.

Definition get_epoch_of_data_storage (epoch_of_data_usage : Z) : Src Z :=
  ok_or (offset_data_epoch epoch_of_data_usage) (BadRequest epoch_of_data_usage).

Definition permissioned_candidates_of (datum : option PlutusData) : outcome DataSourceError (list PermissionedCandidateData) :=
  let! datum := some_or datum ExpectedDataNotFound in
  let! datums := map_err DatumError (PlutusData.decode datum) in
  Ok (permissioned_of_datums datums).

Definition src_get_ariadne_parameters (epoch : Z) (_d_parameter_policy permissioned_candidate_policy : Bytes)
    : Src AriadneParameters :=
  let* epoch := get_epoch_of_data_storage epoch in
  let* ident := resolve_ident permissioned_candidate_policy [] in
  let* candidates_output_opt :=
    match ident with
    | Some id => query (fun d => Ok (get_token_utxo_for_epoch id epoch d))
    | None => ret None
    end in
  let* permissioned_candidates :=
    match candidates_output_opt with
    | None => ret None
    | Some candidates_output => fun s =>
        match permissioned_candidates_of (token_datum candidates_output) with
        | Ok l => Ok (Some l, s)
        | Err e => Err e
        | Panic => Panic
        end
    end in
  ret {| a_d_parameter := {| num_permissioned_candidates := 0; num_registered_candidates := 0 |};
         a_permissioned_candidates := permissioned_candidates |}.

Definition parse_candidate (output : MainchainTxOutput) : option ParsedCandidate :=
  datum ← mto_datum output;
  match PlutusData.decode datum with
  | Ok register_validator_datum =>
      Some {| pc_utxo_info := {| utxo_id := mto_utxo_id output; info_epoch_number := mto_epoch_no output;
                                 info_block_number := mto_block_no output; info_slot_number := mto_slot_no output;
                                 tx_index_within_block := mto_index_in_block output |};
              pc_datum := register_validator_datum; pc_tx_inputs := mto_tx_inputs output |}
  | _ => None
  end.
Definition parse_candidates (outputs : list MainchainTxOutput) : list ParsedCandidate := omap parse_candidate outputs.

Definition convert_candidate (c : ParsedCandidate) : RegisteredCandidate :=
  let make stake_ownership sidechain_pub_key sidechain_signature registration_utxo keys :=
    {| rc_stake_pool_pub_key := pub_key stake_ownership; rc_mainchain_signature := signature stake_ownership;
       rc_cross_chain_pub_key := sidechain_pub_key; rc_cross_chain_signature := sidechain_signature;
       rc_sidechain_signature := sidechain_signature; rc_sidechain_pub_key := sidechain_pub_key;
       rc_keys := keys; rc_registration_utxo := registration_utxo; rc_tx_inputs := pc_tx_inputs c;
       rc_utxo_info := pc_utxo_info c |} in
  match pc_datum c with
  | RegisterV0 stake_ownership sidechain_pub_key sidechain_signature registration_utxo _ aura_pub_key grandpa_pub_key =>
      make stake_ownership sidechain_pub_key sidechain_signature registration_utxo
        [aura_key aura_pub_key; grandpa_key grandpa_pub_key]
  | RegisterV1 stake_ownership sidechain_pub_key sidechain_signature registration_utxo _ keys =>
      make stake_ownership sidechain_pub_key sidechain_signature registration_utxo keys
  end.
Definition convert_utxos_to_candidates (outputs : list MainchainTxOutput) : list RegisteredCandidate :=
  convert_candidate <$> parse_candidates outputs.

Definition get_last_block_for_epoch (epoch : Z) : Src (option Z) :=
  query (fun d => Ok (block_no <$> get_latest_block_for_epoch epoch d)).

Definition get_registered_candidates (epoch : Z) (committee_candidate_address : Bytes) : Src (list RegisteredCandidate) :=
  let* registrations_block_for_epoch := get_last_block_for_epoch epoch in
  let* active_utxos :=
    match registrations_block_for_epoch with
    | Some block =>
        let* config := get_tx_in_config in
        query (get_utxos_for_address committee_candidate_address block config)
    | None => ret []
    end in
  ret (convert_utxos_to_candidates active_utxos).

(** [into_group_map_by] *)
Definition group_candidates_by_mc_pub_key (candidates : list RegisteredCandidate) : gmap Bytes (list RegisteredCandidate) :=
  foldl (fun m c => let key := rc_stake_pool_pub_key c in <[key := default [] (m !! key) ++ [c]]> m) ∅ candidates.

Definition make_registration_data (c : RegisteredCandidate) : RegistrationData := {|
  r_registration_utxo := rc_registration_utxo c; sidechain_signature := rc_sidechain_signature c;
  mainchain_signature := rc_mainchain_signature c; cross_chain_signature := rc_cross_chain_signature c;
  r_sidechain_pub_key := rc_sidechain_pub_key c; cross_chain_pub_key := rc_cross_chain_pub_key c;
  utxo_info := rc_utxo_info c; tx_inputs := rc_tx_inputs c; r_keys := rc_keys c |}.

Definition make_stake_map (stake_pool_entries : list StakePoolEntry) : gmap Bytes Z :=
  foldl (fun m e => <[pool_hash e := stake e]> m) ∅ stake_pool_entries.
Definition get_stake_delegation (stake_map : gmap Bytes Z) (stake_pool_pub_key : Bytes) : option Z :=
  if decide (stake_map = ∅) then None else Some (default 0 (stake_map !! from_vkey stake_pool_pub_key)).

Definition src_get_candidates (epoch : Z) (committee_candidate_address : Bytes) : Src (list CandidateRegistrations) :=
  let* epoch := get_epoch_of_data_storage epoch in
  let* candidates := get_registered_candidates epoch committee_candidate_address in
  let* stake_entries := query (get_stake_distribution epoch) in
  let stake_map := make_stake_map stake_entries in
  ret ((fun '(mainchain_pub_key, candidate_registrations) => {|
          stake_pool_public_key := mainchain_pub_key;
          registrations := make_registration_data <$> candidate_registrations;
          stake_delegation := get_stake_delegation stake_map mainchain_pub_key |})
       <$> into_iter (group_candidates_by_mc_pub_key candidates)).

Definition src_get_epoch_nonce (epoch : Z) : Src (option Bytes) :=
  let* epoch := get_epoch_of_data_storage epoch in
  query (fun d => Ok (q_epoch_nonce epoch d)).

Definition src_data_epoch (for_epoch : Z) : Src Z := get_epoch_of_data_storage for_epoch.
End Impl.

(** ** [CandidateDataSourceCached] *)

Section Cached.
Context {csl : CardanoSerializationLib} {lru : LruCache}.
Context (from_vkey : Bytes -> Bytes).
Context (into_iter : gmap Bytes (list RegisteredCandidate) -> list (Bytes * list RegisteredCandidate)).
Context (world : nat -> option Db).
Context (security_parameter : Z).

Record Cached := {
  inner : Source;
  ariadne_parameters_cache : Lru (Z * Bytes * Bytes) AriadneParameters;
  candidates_cache : Lru (Z * Bytes) (list CandidateRegistrations);
  epoch_nonce_cache : Lru Z (option Bytes);
  highest_seen_stable_epoch : option Z
}.
Notation Src := (M Cached DataSourceError).

Definition set_inner (i : Source) (s : Cached) : Cached :=
  {| inner := i; ariadne_parameters_cache := ariadne_parameters_cache s; candidates_cache := candidates_cache s;
     epoch_nonce_cache := epoch_nonce_cache s; highest_seen_stable_epoch := highest_seen_stable_epoch s |}.
Definition set_parameters c (s : Cached) : Cached :=
  {| inner := inner s; ariadne_parameters_cache := c; candidates_cache := candidates_cache s;
     epoch_nonce_cache := epoch_nonce_cache s; highest_seen_stable_epoch := highest_seen_stable_epoch s |}.
Definition set_candidates c (s : Cached) : Cached :=
  {| inner := inner s; ariadne_parameters_cache := ariadne_parameters_cache s; candidates_cache := c;
     epoch_nonce_cache := epoch_nonce_cache s; highest_seen_stable_epoch := highest_seen_stable_epoch s |}.
Definition set_nonces c (s : Cached) : Cached :=
  {| inner := inner s; ariadne_parameters_cache := ariadne_parameters_cache s; candidates_cache := candidates_cache s;
     epoch_nonce_cache := c; highest_seen_stable_epoch := highest_seen_stable_epoch s |}.
Definition set_stable_epoch e (s : Cached) : Cached :=
  {| inner := inner s; ariadne_parameters_cache := ariadne_parameters_cache s; candidates_cache := candidates_cache s;
     epoch_nonce_cache := epoch_nonce_cache s; highest_seen_stable_epoch := e |}.

(** [CandidateDataSourceCached::new] *)
Definition new_cached (i : Source) (candidates_for_epoch_cache_size : Z) : Cached :=
  {| inner := i; ariadne_parameters_cache := lru_new candidates_for_epoch_cache_size;
     candidates_cache := lru_new candidates_for_epoch_cache_size;
     epoch_nonce_cache := lru_new candidates_for_epoch_cache_size; highest_seen_stable_epoch := None |}.

(** A request to the source inside *)
Definition on_inner {A} (m : M Source DataSourceError A) : Src A := fun s =>
  match m (inner s) with
  | Ok (a, i) => Ok (a, set_inner i s)
  | Err e => Err e
  | Panic => Panic
  end.

(** [cache.lock()], [cache.get] *)
Definition cache_get {K V} `{EqDecision K} (field : Cached -> Lru K V) (set : Lru K V -> Cached -> Cached) (key : K)
    : Src (option V) := fun s =>
  let (r, c) := lru_get key (field s) in Ok (r, set c s).

Definition can_use_caching_for_request (request_epoch : Z) : Src bool :=
  let* data_epoch := on_inner (src_data_epoch request_epoch) in
  let* highest := gets highest_seen_stable_epoch in
  if match highest with Some stable_epoch => data_epoch <=? stable_epoch | None => false end then ret true
  else
    let* latest := on_inner (query world (get_latest_stable_epoch security_parameter)) in
    match latest with
    | Some stable_epoch =>
        do* modify (set_stable_epoch (Some stable_epoch)) in
        ret (data_epoch <=? stable_epoch)
    | None => ret false
    end.

Definition get_candidates_with_caching (epoch : Z) (committee_candidate_address : Bytes) : Src (list CandidateRegistrations) :=
  let key := (epoch, committee_candidate_address) in
  let* cached := cache_get candidates_cache set_candidates key in
  match cached with
  | Some resp => ret resp
  | None =>
      let* response := on_inner (src_get_candidates from_vkey into_iter world epoch committee_candidate_address) in
      do* modify (fun s => set_candidates (lru_put key response (candidates_cache s)) s) in
      ret response
  end.

Definition get_ariadne_parameters_with_caching (epoch : Z) (d_parameter_validator permissioned_candidates_validator : Bytes)
    : Src AriadneParameters :=
  let key := (epoch, d_parameter_validator, permissioned_candidates_validator) in
  let* cached := cache_get ariadne_parameters_cache set_parameters key in
  match cached with
  | Some resp => ret resp
  | None =>
      let* response :=
        on_inner (src_get_ariadne_parameters world epoch d_parameter_validator permissioned_candidates_validator) in
      do* modify (fun s => set_parameters (lru_put key response (ariadne_parameters_cache s)) s) in
      ret response
  end.

Definition cached_get_ariadne_parameters (epoch : Z) (d_parameter_policy permissioned_candidates_policy : Bytes)
    : Src AriadneParameters :=
  let* caching := can_use_caching_for_request epoch in
  if caching : bool then get_ariadne_parameters_with_caching epoch d_parameter_policy permissioned_candidates_policy
  else on_inner (src_get_ariadne_parameters world epoch d_parameter_policy permissioned_candidates_policy).

Definition cached_get_candidates (epoch : Z) (committee_candidate_address : Bytes) : Src (list CandidateRegistrations) :=
  let* caching := can_use_caching_for_request epoch in
  if caching : bool then get_candidates_with_caching epoch committee_candidate_address
  else on_inner (src_get_candidates from_vkey into_iter world epoch committee_candidate_address).

Definition cached_get_epoch_nonce (epoch : Z) : Src (option Bytes) :=
  let* cached := cache_get epoch_nonce_cache set_nonces epoch in
  match cached with
  | Some resp => ret resp
  | None =>
      let* response := on_inner (src_get_epoch_nonce world epoch) in
      do* when (bool_decide (is_Some response)) (modify (fun s => set_nonces (lru_put epoch response (epoch_nonce_cache s)) s)) in
      ret response
  end.

Definition cached_data_epoch (for_epoch : Z) : Src Z := on_inner (src_data_epoch for_epoch).

Definition cached_source : AuthoritySelectionDataSource Cached DataSourceError Bytes Bytes := {|
  get_ariadne_parameters := cached_get_ariadne_parameters;
  get_candidates := cached_get_candidates;
  get_epoch_nonce := cached_get_epoch_nonce;
  data_epoch := cached_data_epoch
|}.
End Cached.
