(* ===== verification/CandidatesAgreement.v ===== *)
(** * Nodes agree on the candidates

    Proves of [CandidatesSource], composed with the provider and the selection of
    [AuthoritySelection]: if the tables that a node sees hold the ledger up to the end of the
    epoch that is asked for ([represents]), then what its provider offers is
    [ledger_inputs], a function of the ledger, up to the order of candidates, registrations and
    transaction inputs; and the selection does not depend on these orders.  Thus two nodes with
    different databases, Db-Sync configurations, caches and iteration orders select the same
    committee. *)

From S2P Require Import Prelude Frame Committee Epochs Plutus Domain SystemParameters Selection AuthoritySelection.
From S2P Require Import PlutusData CandidatesDb CandidatesSource.
From stdpp Require Import list gmap sorting.
Open Scope Z_scope.

(** ** Equal up to orders *)

Lemma perm_rel_fmap {A B A' B'} (R : A -> B -> Prop) (R' : A' -> B' -> Prop) f g l1 l2 :
  (forall x y, R x y -> R' (f x) (g y)) -> perm_rel R l1 l2 -> perm_rel R' (f <$> l1) (g <$> l2).
Proof.
  intros Hfg (m & Hm & Hp). exists (g <$> m). split; [|by rewrite Hp]. apply Forall2_fmap. eapply Forall2_impl; [exact Hm|done].
Qed.

Lemma perm_rel_omap {A B A' B'} (R : A -> B -> Prop) (R' : A' -> B' -> Prop) f g l1 l2 :
  (forall x y, R x y -> option_Forall2 R' (f x) (g y)) -> perm_rel R l1 l2 -> perm_rel R' (omap f l1) (omap g l2).
Proof.
  intros Hfg (m & Hm & Hp). exists (omap g m). split; [|by rewrite Hp].
  clear Hp. induction Hm as [|x y l k Hxy _ IH]; [constructor|]. rewrite !omap_cons. destruct (Hfg x y Hxy); [by constructor|done].
Qed.

Lemma perm_rel_filter {A B} (R : A -> B -> Prop) (P : A -> Prop) (Q : B -> Prop)
    `{!forall x, Decision (P x), !forall x, Decision (Q x)} l1 l2 :
  (forall x y, R x y -> P x <-> Q y) -> perm_rel R l1 l2 -> perm_rel R (filter P l1) (filter Q l2).
Proof. intros Hpq (m & Hm & Hp). exists (filter Q m). split; [by apply Forall2_filter|by rewrite Hp]. Qed.

Lemma perm_rel_perm {A B} (R : A -> B -> Prop) l1 l1' l2 l2' :
  l1 ≡ₚ l1' -> l2 ≡ₚ l2' -> perm_rel R l1 l2 -> perm_rel R l1' l2'.
Proof.
  intros H1 H2 (m & Hm & Hp). destruct (Permutation_Forall2 H1 Hm) as (m' & Hmm & Hm').
  exists m'. split; [done|]. by rewrite <-Hmm, Hp.
Qed.

Lemma perm_rel_eq {A} (l1 l2 : list A) : perm_rel eq l1 l2 -> l1 ≡ₚ l2.
Proof. intros (m & Hm & <-). induction Hm as [|x y l k -> _ IH]; [done|]. by rewrite IH. Qed.

Record same_registration (a b : RegistrationData) : Prop := {
  sr_utxo : r_registration_utxo a = r_registration_utxo b;
  sr_sidechain_signature : sidechain_signature a = sidechain_signature b;
  sr_mainchain_signature : mainchain_signature a = mainchain_signature b;
  sr_cross_chain_signature : cross_chain_signature a = cross_chain_signature b;
  sr_pub_key : r_sidechain_pub_key a = r_sidechain_pub_key b;
  sr_cross_chain_pub_key : cross_chain_pub_key a = cross_chain_pub_key b;
  sr_info : utxo_info a = utxo_info b;
  sr_inputs : tx_inputs a ≡ₚ tx_inputs b;
  sr_keys : r_keys a = r_keys b
}.
Record same_candidate (a b : CandidateRegistrations) : Prop := {
  sc_pool : stake_pool_public_key a = stake_pool_public_key b;
  sc_stake : stake_delegation a = stake_delegation b;
  sc_registrations : perm_rel same_registration (registrations a) (registrations b)
}.
Record same_inputs (a b : AuthoritySelectionInputs) : Prop := {
  si_d : d_parameter a = d_parameter b;
  si_permissioned : permissioned_candidates a = permissioned_candidates b;
  si_registered : perm_rel same_candidate (registered_candidates a) (registered_candidates b);
  si_nonce : epoch_nonce a = epoch_nonce b
}.

(** Registrations are told apart by their position on the main chain. *)
Definition positions_unique (c : CandidateRegistrations) : Prop :=
  forall x y, x ∈ registrations c -> y ∈ registrations c ->
  ordering_key (utxo_info x) = ordering_key (utxo_info y) -> x = y.

(** ** The selection *)

Lemma key_le_antisym a b : key_le a b = true -> key_le b a = true -> a = b.
Proof.
  destruct a, b. unfold key_le. cbn. rewrite !orb_true_iff, !andb_true_iff, !orb_true_iff, !andb_true_iff, !Z.ltb_lt, !Z.eqb_eq, !Z.leb_le.
  intros. f_equal; lia.
Qed.

Lemma max_by_key_perm {A} (key : A -> UtxoInfoOrderingKey) l1 l2 :
  l1 ≡ₚ l2 -> (forall x y, x ∈ l2 -> y ∈ l2 -> key x = key y -> x = y) -> max_by_key key l1 = max_by_key key l2.
Proof.
  intros Hp Hinj.
  assert (forall l x, max_by_key key l = Some x -> x ∈ l /\ forall y, y ∈ l -> key_le (key y) (key x) = true) as Hmax.
  { intros l x (pre & post & -> & Hpre & Hpost)%max_by_key_spec. split; [set_solver|]. intros y Hy.
    rewrite Forall_forall in Hpre, Hpost. apply elem_of_app in Hy as [Hy|[->|Hy]%elem_of_cons].
    - by apply Hpre.
    - destruct (key_le (key x) (key x)) eqn:E; [done|]. by rewrite <-E; apply key_le_total.
    - by apply key_le_total, Hpost. }
  assert (forall l, max_by_key key l = None -> l = []) as Hnone.
  { intros l. induction l as [|x l _] using rev_ind; [done|]. rewrite max_by_key_snoc. repeat case_match; done. }
  destruct (max_by_key key l1) as [x|] eqn:H1, (max_by_key key l2) as [y|] eqn:H2.
  - apply Hmax in H1 as [Hx Hxm], H2 as [Hy Hym]. rewrite Hp in Hx. f_equal. apply Hinj; [done..|].
    apply key_le_antisym; [by apply Hym|]. apply Hxm. by rewrite Hp.
  - apply Hnone in H2. subst. symmetry in Hp. apply Permutation_nil in Hp. by subst.
  - apply Hnone in H1. subst. apply Permutation_nil in Hp. by subst.
  - done.
Qed.

Section Selected.
Context {cbor : Minicbor} {crypto : Crypto}.
Context {AccountId Keys : Type} (account_of : Bytes -> AccountId) (maybe_from : CandidateKeys -> option Keys).

Lemma validated_same pool genesis a b :
  same_registration a b -> validated maybe_from pool genesis a = validated maybe_from pool genesis b.
Proof.
  intros []. unfold validated, validate_registration_data, verify_stake_pool_signature, verify_tx_inputs.
  destruct a, b. cbn in *. subst. rewrite (bool_decide_ext (_ ∈ _) (r_registration_utxo0 ∈ tx_inputs0)); [done|].
  by rewrite sr_inputs0.
Qed.

Lemma validated_info pool genesis r e : validated maybe_from pool genesis r = Some e -> snd e = utxo_info r.
Proof. unfold validated. repeat case_match; naive_solver. Qed.

Lemma select_latest_same genesis a b :
  same_candidate a b -> positions_unique b ->
  select_latest_valid_candidate account_of maybe_from a genesis =
  select_latest_valid_candidate account_of maybe_from b genesis.
Proof.
  intros [Hpool Hstake Hregs] Huniq. unfold select_latest_valid_candidate. rewrite Hpool, Hstake.
  destruct (validate_stake (stake_delegation b)); simpl; [|done..].
  change (fun r => match validate_registration_data maybe_from (stake_pool_public_key b) r genesis with
                   | Ok candidate => Some (candidate, utxo_info r) | _ => None end)
    with (validated maybe_from (stake_pool_public_key b) genesis).
  rewrite (max_by_key_perm _ _ (omap (validated maybe_from (stake_pool_public_key b) genesis) (registrations b))); [done| |].
  - apply perm_rel_eq. eapply perm_rel_omap; [|exact Hregs]. intros x y Hxy. rewrite (validated_same _ _ _ _ Hxy).
    by destruct (validated _ _ _ y); constructor.
  - intros e e' (x & Hx & Hv)%list_elem_of_omap (y & Hy & Hv')%list_elem_of_omap Hkey.
    rewrite (validated_info _ _ _ _ Hv), (validated_info _ _ _ _ Hv') in Hkey.
    rewrite (Huniq x y Hx Hy Hkey) in Hv. congruence.
Qed.
End Selected.

Lemma perm_rel_Forall {A B} (R : A -> B -> Prop) (P : B -> Prop) l1 l2 :
  Forall P l2 -> perm_rel R l1 l2 -> perm_rel (fun x y => R x y /\ P y) l1 l2.
Proof.
  intros HP (m & Hm & Hp). exists m. split; [|done]. rewrite <-Hp in HP. clear Hp.
  induction Hm; inversion HP; subst; constructor; auto.
Qed.

Section Runtime.
Context {cbor : Minicbor} {crypto : Crypto} {u256 : U256Bytes}.
Context {Rng : Type} `{!ChaCha Rng Bytes}.
Context {AccountId Keys : Type} (account_of : Bytes -> AccountId) (maybe_from : CandidateKeys -> option Keys).
Context `{!EqDecision (Candidate AccountId Keys)}.
Context (candidate_le : Candidate AccountId Keys -> Candidate AccountId Keys -> Prop)
  `{!RelDecision candidate_le} `{!TotalOrder candidate_le}.

Lemma registered_same genesis a b :
  perm_rel same_candidate a b -> Forall positions_unique b ->
  filter_trustless_candidates_registrations account_of maybe_from a genesis ≡ₚ
  filter_trustless_candidates_registrations account_of maybe_from b genesis.
Proof.
  intros Hab Hb. unfold filter_trustless_candidates_registrations. apply fmap_Permutation, perm_rel_eq.
  eapply perm_rel_omap; [|eapply (perm_rel_Forall _ _ _ _ Hb Hab)]. intros x y [Hxy Hy].
  rewrite (select_latest_same account_of maybe_from genesis x y Hxy Hy). by destruct (select_latest_valid_candidate _ _ _ _); constructor.
Qed.

(** The runtime selects the same committee from inputs that differ in orders only. *)
Lemma selection_of_same_inputs {Hash} max genesis (parameters : SystemParameters.State Hash) a b epoch :
  same_inputs a b -> Forall positions_unique (registered_candidates b) ->
  select_authorities_optionally_overriding (Rng:=Rng) account_of maybe_from candidate_le max genesis parameters a epoch =
  select_authorities_optionally_overriding (Rng:=Rng) account_of maybe_from candidate_le max genesis parameters b epoch.
Proof.
  intros [Hd Hp Hr Hn] Hu. unfold select_authorities_optionally_overriding, select_authorities, select_candidates. cbn.
  rewrite Hp, Hn. by rewrite (select_v2_perm candidate_le _ _ _ _ _ _ _ (registered_same genesis _ _ Hr Hu) (Permutation_refl _)).
Qed.
End Runtime.

(** ** What the ledger says *)

Section Ledger.
Context {csl : CardanoSerializationLib} (from_vkey : Bytes -> Bytes).
Implicit Types (L : Ledger) (e : Z).

Definition ledger_stake L e (pool : Bytes) : option Z :=
  if decide (stake_rows L e = []) then None else Some (group_sum (from_vkey pool) (stake_rows L e)).

Definition candidates_of (stake : Bytes -> option Z) (cs : list RegisteredCandidate) : list CandidateRegistrations :=
  (fun pool => {| stake_pool_public_key := pool;
                  registrations := make_registration_data <$> filter (fun c => rc_stake_pool_pub_key c = pool) cs;
                  stake_delegation := stake pool |}) <$> remove_dups (rc_stake_pool_pub_key <$> cs).
Definition ledger_candidates L e (addr : Bytes) : list CandidateRegistrations :=
  candidates_of (ledger_stake L e) (convert_utxos_to_candidates (unspent_at L e addr)).

Definition ledger_parameters L e (policy : Bytes) : outcome DataSourceError AriadneParameters :=
  let! permissioned :=
    match lo_datum <$> latest_token L e policy [] with
    | None => Ok None
    | Some datum => let! l := permissioned_candidates_of datum in Ok (Some l)
    end in
  Ok {| a_d_parameter := {| num_permissioned_candidates := 0; num_registered_candidates := 0 |};
        a_permissioned_candidates := permissioned |}.

(** What all nodes should offer for the data epoch [e] *)
Definition ledger_inputs L e (scripts : MainChainScripts (MainchainAddress:=Bytes) (PolicyId:=Bytes))
    : outcome DataSourceError AuthoritySelectionInputs :=
  let! parameters := ledger_parameters L e (permissioned_candidates_policy_id scripts) in
  Ok {| d_parameter := a_d_parameter parameters;
        permissioned_candidates := default [] (a_permissioned_candidates parameters);
        registered_candidates := ledger_candidates L e (committee_candidate_address scripts);
        epoch_nonce := default [] (l_nonce L e) |}.

(** *** Candidates *)

Lemma group_lookup cs pool :
  group_candidates_by_mc_pub_key cs !! pool =
  let l := filter (fun c => rc_stake_pool_pub_key c = pool) cs in if decide (l = []) then None else Some l.
Proof.
  cbv zeta. unfold group_candidates_by_mc_pub_key. induction cs as [|c cs IH] using rev_ind; [done|].
  rewrite foldl_app, filter_app. cbn [foldl]. set (m := foldl _ _ cs) in *. rewrite filter_cons, filter_nil.
  destruct (decide (rc_stake_pool_pub_key c = pool)) as [<-|Hne].
  - rewrite lookup_insert, IH, decide_True by done. rewrite (decide_False (P:=_ ++ [c] = [])) by (by destruct (filter _ cs)).
    case_decide as Hf; [by rewrite Hf|done].
  - rewrite lookup_insert_ne, IH, app_nil_r by done. done.
Qed.

Lemma groups_listed cs :
  map_to_list (group_candidates_by_mc_pub_key cs) ≡ₚ
  (fun pool => (pool, filter (fun c => rc_stake_pool_pub_key c = pool) cs)) <$> remove_dups (rc_stake_pool_pub_key <$> cs).
Proof.
  apply NoDup_Permutation; [apply NoDup_map_to_list| |].
  - apply NoDup_fmap_2; [intros x y; congruence|apply NoDup_remove_dups].
  - intros [pool l]. rewrite elem_of_map_to_list, group_lookup, list_elem_of_fmap. cbv zeta. split.
    + case_decide as Hf; [done|]. intros [= <-]. exists pool. split; [done|]. apply elem_of_remove_dups, list_elem_of_fmap.
      destruct (filter _ cs) as [|c l] eqn:Hl; [done|]. assert (c ∈ c :: l) as Hc by left. rewrite <-Hl in Hc.
      apply list_elem_of_filter in Hc as [<- Hc]. eauto.
    + intros (p & [= -> ->] & (c & -> & Hc)%elem_of_remove_dups%list_elem_of_fmap). rewrite decide_False; [done|].
      intros Hnil. apply (filter_nil_not_elem_of _ _ c) in Hnil; [done|done].
Qed.

Definition same_rc (x y : RegisteredCandidate) : Prop :=
  rc_stake_pool_pub_key x = rc_stake_pool_pub_key y /\
  same_registration (make_registration_data x) (make_registration_data y).

Lemma convert_same rows rows' :
  perm_rel same_output rows rows' ->
  perm_rel same_rc (convert_utxos_to_candidates rows) (convert_utxos_to_candidates rows').
Proof.
  intros H. unfold convert_utxos_to_candidates, parse_candidates.
  apply (perm_rel_fmap (fun x y => pc_utxo_info x = pc_utxo_info y /\ pc_datum x = pc_datum y /\ pc_tx_inputs x ≡ₚ pc_tx_inputs y)).
  - intros [] [] (Hi & Hd & Hx). cbn in *. subst. unfold same_rc, convert_candidate. cbn. case_match; (split; [done|]); by split.
  - eapply perm_rel_omap; [|exact H]. intros [] [] []. cbn in *. subst. unfold parse_candidate. cbn.
    destruct mto_datum0 as [dt|]; cbn; [|constructor]. destruct (PlutusData.decode dt); constructor; cbn; done.
Qed.

Lemma remove_dups_perm {A} `{EqDecision A} (l1 l2 : list A) : l1 ≡ₚ l2 -> remove_dups l1 ≡ₚ remove_dups l2.
Proof.
  intros H. apply NoDup_Permutation; [apply NoDup_remove_dups..|]. intros x. rewrite !elem_of_remove_dups. by rewrite H.
Qed.

Lemma candidates_of_same stake cs cs' :
  perm_rel same_rc cs cs' -> perm_rel same_candidate (candidates_of stake cs) (candidates_of stake cs').
Proof.
  intros H. unfold candidates_of. eexists. split; cycle 1.
  - apply fmap_Permutation. apply remove_dups_perm, perm_rel_eq. eapply perm_rel_fmap; [|exact H]. by intros x y [].
  - apply Forall2_fmap, Forall_Forall2_diag, Forall_forall. intros pool _. split; [done..|]. cbn.
    apply (perm_rel_fmap same_rc); [by intros x y []|].
    apply perm_rel_filter; [|exact H]. by intros x y [-> _].
Qed.

(** The answer built from rows that are those of the ledger up to order *)
Lemma answer_same L e addr rows into_iter (stake : Bytes -> option Z) :
  (forall m, into_iter m ≡ₚ map_to_list m) ->
  perm_rel same_output rows (unspent_at L e addr) -> (forall pool, stake pool = ledger_stake L e pool) ->
  perm_rel same_candidate
    ((fun '(pool, l) => {| stake_pool_public_key := pool; registrations := make_registration_data <$> l;
                           stake_delegation := stake pool |})
       <$> into_iter (group_candidates_by_mc_pub_key (convert_utxos_to_candidates rows)))
    (ledger_candidates L e addr).
Proof.
  intros Hiter Hrows Hstake. set (cs := convert_utxos_to_candidates rows).
  assert (forall l, candidates_of (ledger_stake L e) l = candidates_of stake l) as Heq.
  { intros l. apply list_fmap_ext. intros i pool _. by rewrite Hstake. }
  unfold ledger_candidates. rewrite Heq.
  eapply perm_rel_perm; [| |apply (candidates_of_same stake cs), convert_same, Hrows]; [|done].
  rewrite Hiter, groups_listed, <-list_fmap_compose. done.
Qed.

(** *** Positions *)

Definition outputs_unique L : Prop :=
  forall o o', o ∈ l_outputs L -> o' ∈ l_outputs L -> number_of (lo_tx o) = number_of (lo_tx o') ->
  t_block_index (lo_tx o) = t_block_index (lo_tx o') -> lo_index o = lo_index o' -> o = o'.

Lemma ledger_positions L e addr : outputs_unique L -> Forall positions_unique (ledger_candidates L e addr).
Proof.
  intros Hu. apply Forall_forall. intros cr (pool & -> & _)%list_elem_of_fmap.
  assert (forall r, r ∈ make_registration_data <$> filter (fun c => rc_stake_pool_pub_key c = pool)
      (convert_utxos_to_candidates (unspent_at L e addr)) ->
    exists o p, o ∈ l_outputs L /\ parse_candidate (output_of L o) = Some p /\ r = make_registration_data (convert_candidate p))
    as Horigin.
  { intros r (c & -> & [_ (p & -> & (x & Hx & Hp)%list_elem_of_omap)%list_elem_of_fmap]%list_elem_of_filter)%list_elem_of_fmap.
    apply list_elem_of_fmap in Hx as (o & -> & [_ [_ Ho]%list_elem_of_filter]%list_elem_of_filter). eauto 6. }
  intros x y (o & p & Ho & Hp & ->)%Horigin (o' & p' & Ho' & Hp' & ->)%Horigin.
  assert (forall o p, parse_candidate (output_of L o) = Some p ->
    ordering_key (utxo_info (make_registration_data (convert_candidate p))) =
    {| k_block_number := number_of (lo_tx o); k_tx_index := t_block_index (lo_tx o); k_utxo_index := lo_index o |}) as Hkey.
  { clear. intros o p. unfold parse_candidate. cbn. destruct (lo_datum o) as [dt|]; cbn; [|done].
    destruct (PlutusData.decode dt) as [r| |]; [|done..]. intros [= <-]. unfold convert_candidate. cbn. by destruct r. }
  rewrite (Hkey _ _ Hp), (Hkey _ _ Hp'). intros [= H1 H2 H3]. rewrite (Hu o o' Ho Ho' H1 H2 H3) in Hp. congruence.
Qed.

(** *** Stake *)

Lemma make_stake_map_lookup (g : Bytes -> Z) keys p :
  make_stake_map ((fun p => {| pool_hash := p; stake := g p |}) <$> keys) !! p = if decide (p ∈ keys) then Some (g p) else None.
Proof.
  unfold make_stake_map. induction keys as [|k keys IH] using rev_ind; [done|].
  rewrite fmap_app, foldl_app. cbn [fmap list_fmap foldl pool_hash stake].
  destruct (decide (k = p)) as [->|Hne].
  - rewrite lookup_insert, decide_True by done. by rewrite decide_True by set_solver.
  - rewrite lookup_insert_ne, IH by done. by apply decide_ext; set_solver.
Qed.

Lemma group_sum_absent p rows : p ∉ es_pool <$> rows -> group_sum p rows = 0.
Proof.
  intros Hp. unfold group_sum. rewrite filter_none; [done|]. intros es Hes <-. apply Hp. by apply list_elem_of_fmap_2.
Qed.

Lemma stake_answer c e L d :
  represents c e L d -> stake_ok L e ->
  exists entries, get_stake_distribution e d = Ok entries /\
    forall pool, get_stake_delegation from_vkey (make_stake_map entries) pool = ledger_stake L e pool.
Proof.
  intros Hrep Hok. destruct (stake_for_epoch c e L d Hrep Hok) as [Hp ->]. eexists. split; [done|]. intros pool.
  set (rows := filter _ (epoch_stake d)) in *. set (keys := remove_dups (es_pool <$> rows)).
  assert (forall p, p ∈ keys <-> p ∈ es_pool <$> stake_rows L e) as Hkeys.
  { intros p. unfold keys. rewrite elem_of_remove_dups. by rewrite Hp. }
  unfold get_stake_delegation, ledger_stake. set (m := make_stake_map _).
  assert (m = ∅ <-> stake_rows L e = []) as Hempty.
  { split.
    - intros Hm. destruct (stake_rows L e) as [|es l]; [done|]. assert (es_pool es ∈ keys) as Hin by (apply Hkeys; left).
      assert (m !! es_pool es = None) as Hl by by rewrite Hm. unfold m in Hl. by rewrite make_stake_map_lookup, decide_True in Hl.
    - intros Hnil. apply map_empty. intros p. unfold m. rewrite make_stake_map_lookup, decide_False; [done|].
      rewrite Hkeys, Hnil. apply not_elem_of_nil. }
  destruct (decide (stake_rows L e = [])) as [Hs|Hs]; [by rewrite decide_True by by apply Hempty|].
  rewrite decide_False by by rewrite Hempty. f_equal. unfold m. rewrite make_stake_map_lookup.
  case_decide as Hin; [done|]. cbn. rewrite group_sum_absent; [done|]. by rewrite <-Hkeys.
Qed.
End Ledger.

(** ** A node *)

(** Every outcome of [m] from a state with [P]: the result has [Q], and errors have [F]. *)
Definition triple {S E A} (P : S -> Prop) (m : M S E A) (Q : A -> S -> Prop) (F : E -> Prop) : Prop :=
  forall s, P s -> match m s with Ok (a, s') => Q a s' | Err e => F e | Panic => False end.

Lemma triple_bind {S E A B} P (m : M S E A) Q (k : A -> M S E B) R F :
  triple P m Q F -> (forall a, triple (Q a) (k a) R F) -> triple P (bind m k) R F.
Proof.
  intros Hm Hk s Hs. specialize (Hm s Hs). unfold bind. destruct (m s) as [[a s']|e|]; [|done..]. by apply Hk.
Qed.

Lemma triple_ret {S E A} (P : S -> Prop) (a : A) (Q : A -> S -> Prop) (F : E -> Prop) :
  (forall s, P s -> Q a s) -> triple P (ret a) Q F.
Proof. intros H s Hs. by apply H. Qed.

Lemma triple_errors {S E A} (P : S -> Prop) (m : M S E A) Q (F F' : E -> Prop) :
  triple P m Q F -> (forall e, F e -> F' e) -> triple P m Q F'.
Proof. intros Hm HF s Hs. specialize (Hm s Hs). repeat case_match; auto. Qed.

Section Node.
Context {csl : CardanoSerializationLib} {lru : LruCache} {lru_laws : LruCacheLaws}.
Context (from_vkey : Bytes -> Bytes).
Context (into_iter : gmap Bytes (list RegisteredCandidate) -> list (Bytes * list RegisteredCandidate)).
Context (world : nat -> option Db) (security_parameter : Z).
(** The main chain, Db-Sync's configuration, and whether there is a table [tx_in] *)
Context (L : Ledger) (c : TxInConfiguration) (tx_in_table : bool).

Definition config_of (d : Db) : TxInConfiguration := match tx_in d with Some (_ :: _) => Enabled | _ => Consumed end.

(** From query [t] on, the databases hold the ledger up to the end of epoch [e]. *)
Definition final (e : Z) (t : nat) : Prop := forall t' d, (t <= t')%nat -> world t' = Some d -> represents c e L d.

(** What the node relies on: hash maps are iterated in some order, Db-Sync's configuration
    and the identifiers of assets do not change, and an epoch that is stable, by the number
    of confirmations, stays as it is. *)
Record node_ok : Prop := {
  n_iter m : into_iter m ≡ₚ map_to_list m;
  n_config t d : world t = Some d -> tx_in_exists d = tx_in_table /\ config_of d = c;
  n_idents t t' d d' policy name id : (t <= t')%nat -> world t = Some d -> world t' = Some d' ->
    resolve_multi_asset_id policy name d = Some id -> resolve_multi_asset_id policy name d' = Some id;
  n_stable t d e : world t = Some d -> get_latest_stable_epoch security_parameter d = Ok (Some e) -> final e t
}.
Hypothesis Hnode : node_ok.
Hypothesis Hstake : forall e, stake_ok L e.

(** A query fails, or no epoch is over at the highest stable block. *)
Definition failure (e : DataSourceError) : Prop :=
  e = SqlxError /\ exists t, match world t with
                             | None => True
                             | Some d => get_latest_stable_epoch security_parameter d = Err ColumnDecode
                             end.

Record source_ok (t : nat) (s : Source) : Prop := {
  so_tick : (t <= tick s)%nat;
  so_idents policy name id : multi_asset_cache s !! (policy, name) = Some id ->
    forall t' d, (tick s <= t')%nat -> world t' = Some d -> resolve_multi_asset_id policy name d = Some id;
  so_config c' : tx_in_config s = Some c' -> c' = c
}.

Lemma source_ok_advance t s : source_ok t s -> source_ok t (advance s).
Proof. intros [Ht Hi Hc]. split; cbn; [lia| |done]. intros p n id Hid t' d Ht'. apply (Hi p n id Hid). lia. Qed.

(** A query that succeeds on all databases the node may see from here *)
Lemma triple_query {A} t (f : Db -> outcome DecodeError A) (Q : A -> Prop) :
  (forall t' d, (t <= t')%nat -> world t' = Some d -> exists a, f d = Ok a /\ Q a) ->
  triple (source_ok t) (query world f) (fun a s => source_ok t s /\ Q a) failure.
Proof.
  intros Hf s Hs. unfold query. destruct (world (tick s)) as [d|] eqn:Hd.
  - destruct (Hf _ d (so_tick _ _ Hs) Hd) as (a & -> & Ha). split; [by apply source_ok_advance|done].
  - split; [done|]. exists (tick s). by rewrite Hd.
Qed.

Lemma triple_config t : triple (source_ok t) (get_tx_in_config world) (fun c' s => source_ok t s /\ c' = c) failure.
Proof.
  intros s Hs. unfold get_tx_in_config, bind, gets. destruct (tx_in_config s) as [c'|] eqn:Hc.
  { split; [done|]. by apply (so_config _ _ Hs). }
  assert (triple (source_ok t) (from_connection world) (fun c' s => source_ok t s /\ c' = c) failure) as Hfc.
  { unfold from_connection. eapply triple_bind.
    - apply (triple_query t _ (fun b => b = tx_in_table /\ (b = false -> c = Consumed))). intros t' d _ Hd. eexists.
      split; [done|]. destruct (n_config Hnode t' d Hd) as [Ht <-]. split; [done|].
      unfold tx_in_exists, config_of. by destruct (tx_in d).
    - intros b s1 [Hs1 [-> Hf]]. destruct tx_in_table eqn:Htab.
      + eapply triple_bind; [|intros p; apply triple_ret|exact Hs1].
        * apply (triple_query t _ (fun p => (if p : bool then Enabled else Consumed) = c)). intros t' d _ Hd.
          destruct (n_config Hnode t' d Hd) as [Ht <-]. unfold tx_in_exists, tx_in_populated, config_of in *.
          destruct (tx_in d) as [[|i l]|]; [eexists; by split..|]. by rewrite Htab in Ht.
        * intros s2 [Hs2 Hp]. by split.
      + cbn. split; [done|]. by symmetry; apply Hf. }
  specialize (Hfc s Hs). destruct (from_connection world s) as [[c' s']|e|]; [|done..]. destruct Hfc as [[Ht Hi Hcc] ->].
  cbn. split; [|done]. split; cbn; [done|done|]. by intros c' [= <-].
Qed.

Lemma triple_data_epoch t e de :
  offset_data_epoch e = Some de -> triple (source_ok t) (get_epoch_of_data_storage e) (fun x s => source_ok t s /\ x = de) failure.
Proof. intros He s Hs. unfold get_epoch_of_data_storage, ok_or. by rewrite He. Qed.

Lemma triple_ident t e policy name :
  final e t -> one_per_transaction L policy name ->
  triple (source_ok t) (resolve_ident world policy name)
    (fun r s => source_ok t s /\
       match r with
       | Some id => forall t' d, (tick s <= t')%nat -> world t' = Some d -> resolve_multi_asset_id policy name d = Some id
       | None => latest_token L e policy name = None
       end) failure.
Proof.
  intros Hfin Hone s Hs. unfold resolve_ident, bind, gets.
  destruct (multi_asset_cache s !! (policy, name)) as [id|] eqn:Hid; [split; [done|]; by apply (so_idents _ _ Hs)|].
  unfold query. destruct (world (tick s)) as [d|] eqn:Hd; [|split; [done|]; exists (tick s); by rewrite Hd].
  pose proof (token_for_epoch c e L d policy name (Hfin _ _ (so_tick _ _ Hs) Hd) Hone) as Htok. unfold token_datum_of in Htok.
  destruct (resolve_multi_asset_id policy name d) as [id|] eqn:Hr; cbn.
  - assert (forall t' d', (S (tick s) <= t')%nat -> world t' = Some d' -> resolve_multi_asset_id policy name d' = Some id) as Hlater.
    { intros t' d' Ht' Hd'. eapply (n_idents Hnode (tick s) t'); [lia|exact Hd|exact Hd'|done]. }
    split; [|done]. destruct (source_ok_advance t s Hs) as [Ht Hi Hc]. split; cbn in *; [done| |done].
    intros p n i. destruct (decide ((policy, name) = (p, n))) as [[= <- <-]|Hne].
    + rewrite lookup_insert, decide_True by done. by intros [= <-].
    + rewrite lookup_insert_ne by done. by apply Hi.
  - split; [by apply source_ok_advance|]. by destruct (latest_token L e policy name).
Qed.

Lemma permissioned_candidates_total dt : permissioned_candidates_of dt <> Panic.
Proof.
  assert (forall A (o : option A) (err : DecodingError), some_or o err <> Panic) as Hso by by intros A [].
  unfold permissioned_candidates_of. destruct dt as [dt|]; cbn; [|done].
  assert (PlutusData.decode (T:=PermissionedCandidateDatums) dt <> Panic) as Hdec.
  { unfold PlutusData.decode. destruct (plutus_data_version_and_payload dt); [|apply Hso].
    cbn. repeat case_match; try apply Hso. done. }
  by destruct (PlutusData.decode dt).
Qed.

Section Request.
Context (t : nat) (e de : Z) (Hde : offset_data_epoch e = Some de) (Hfinal : final de t).

Lemma triple_parameters dp pp :
  one_per_transaction L pp [] ->
  triple (source_ok t) (src_get_ariadne_parameters world e dp pp)
    (fun a s => source_ok t s /\ ledger_parameters L de pp = Ok a)
    (fun err => failure err \/ ledger_parameters L de pp = Err err).
Proof.
  intros Hone. unfold src_get_ariadne_parameters. eapply triple_bind.
  { eapply triple_errors; [apply (triple_data_epoch t e de Hde)|by left]. }
  intros x s [Hs ->]. revert s Hs. eapply triple_bind.
  { eapply triple_errors; [apply (triple_ident t de pp [] Hfinal Hone)|by left]. }
  intros r. eapply (triple_bind _ _ (fun o s => source_ok t s /\ token_datum <$> o = lo_datum <$> latest_token L de pp [])).
  - destruct r as [id|]; [|apply triple_ret; intros s [Hs ->]; done].
    intros s [Hs Hid]. unfold query. destruct (world (tick s)) as [d|] eqn:Hd; [|left; split; [done|]; exists (tick s); by rewrite Hd].
    split; [by apply source_ok_advance|].
    pose proof (token_for_epoch c de L d pp [] (Hfinal _ _ (so_tick _ _ Hs) Hd) Hone) as Htok.
    unfold token_datum_of in Htok. by rewrite (Hid _ _ (le_n _) Hd) in Htok.
  - intros o s [Hs Ho]. unfold ledger_parameters. rewrite <-Ho. unfold bind.
    destruct o as [o|]; cbn; [|done]. destruct (permissioned_candidates_of (token_datum o)) as [l|err|] eqn:Hl; cbn; [done|by right|].
    by destruct (permissioned_candidates_total (token_datum o)).
Qed.

Lemma triple_registered addr :
  inputs_present L addr ->
  triple (source_ok t) (get_registered_candidates world de addr)
    (fun a s => source_ok t s /\ exists rows, perm_rel same_output rows (unspent_at L de addr) /\
                                a = convert_utxos_to_candidates rows) failure.
Proof.
  intros Hins. unfold get_registered_candidates, get_last_block_for_epoch.
  eapply triple_bind.
  { apply (triple_query t _ (fun n => match n with
      | Some n => forall t' d, (t <= t')%nat -> world t' = Some d ->
          exists rows, get_utxos_for_address addr n c d = Ok rows /\ perm_rel same_output rows (unspent_at L de addr)
      | None => unspent_at L de addr = []
      end)).
    intros t' d Ht' Hd. eexists. split; [done|]. pose proof (Hfinal _ _ Ht' Hd) as Hrep.
    destruct (get_latest_block_for_epoch de d) as [b|] eqn:Hb; cbn; [|by eapply no_utxos_for_epoch].
    intros t'' d' Ht'' Hd'. pose proof (Hfinal _ _ Ht'' Hd') as Hrep'.
    destruct (same_last_block c de L d d' b Hrep Hrep' Hb) as (b' & Hb' & ->). by apply (utxos_for_epoch c de L d' b'). }
  intros n. eapply (triple_bind _ _ (fun rows s => source_ok t s /\ perm_rel same_output rows (unspent_at L de addr))).
  - destruct n as [n|].
    + intros s [Hs Hn]. revert s Hs. eapply triple_bind; [apply triple_config|]. intros c' s [Hs ->]. revert s Hs.
      by apply triple_query.
    + apply triple_ret. intros s [Hs ->]. split; [done|]. exists []. by split.
  - intros rows. apply triple_ret. intros s [Hs Hrows]. eauto.
Qed.

Lemma triple_candidates addr :
  inputs_present L addr ->
  triple (source_ok t) (src_get_candidates from_vkey into_iter world e addr)
    (fun a s => source_ok t s /\ perm_rel same_candidate a (ledger_candidates from_vkey L de addr)) failure.
Proof.
  intros Hins. unfold src_get_candidates. eapply triple_bind; [apply (triple_data_epoch t e de Hde)|].
  intros x s [Hs ->]. revert s Hs. eapply triple_bind; [apply (triple_registered addr Hins)|].
  intros cs s [Hs (rows & Hrows & ->)]. revert s Hs. eapply triple_bind.
  - apply (triple_query t _ (fun entries => forall pool,
      get_stake_delegation from_vkey (make_stake_map entries) pool = ledger_stake from_vkey L de pool)).
    intros t' d Ht' Hd. apply (stake_answer from_vkey c de L d); [by apply (Hfinal t')|apply Hstake].
  - intros entries. apply triple_ret. intros s [Hs Hst]. split; [done|].
    apply (answer_same from_vkey L de addr rows into_iter); [apply (n_iter Hnode)|done|done].
Qed.

Lemma triple_nonce :
  triple (source_ok t) (src_get_epoch_nonce world e) (fun a s => source_ok t s /\ a = l_nonce L de) failure.
Proof.
  unfold src_get_epoch_nonce. eapply triple_bind; [apply (triple_data_epoch t e de Hde)|]. intros x s [Hs ->]. revert s Hs.
  apply (triple_query t _ (fun a => a = l_nonce L de)). intros t' d Ht' Hd. eexists. split; [done|].
  by apply (rp_nonce _ _ _ _ (Hfinal _ _ Ht' Hd)).
Qed.
End Request.

(** *** Requests for epochs that need not be final *)

Definition keeps {A} (m : M Source DataSourceError A) : Prop :=
  forall t, triple (source_ok t) m (fun _ s => source_ok t s) (fun _ => True).

Lemma keeps_bind {A B} (m : M Source DataSourceError A) (k : A -> M Source DataSourceError B) :
  keeps m -> (forall a, keeps (k a)) -> keeps (bind m k).
Proof. intros Hm Hk t. eapply triple_bind; [apply Hm|]. intros a. apply Hk. Qed.
Lemma keeps_ret {A} (a : A) : keeps (ret a).
Proof. by intros t s Hs. Qed.
Lemma keeps_query {A} (f : Db -> outcome DecodeError A) : keeps (query world f).
Proof.
  intros t s Hs. unfold query. destruct (world _) as [d|]; [|done]. destruct (f d); [|done..]. by apply source_ok_advance.
Qed.
Lemma keeps_ok_or {A} (o : option A) err : keeps (ok_or o err).
Proof. intros t s Hs. by destruct o. Qed.

Lemma keeps_ident policy name : keeps (resolve_ident world policy name).
Proof.
  intros t s Hs. unfold resolve_ident, bind, gets. destruct (multi_asset_cache s !! (policy, name)) as [id|]; [done|].
  unfold query. destruct (world (tick s)) as [d|] eqn:Hd; [|done].
  destruct (resolve_multi_asset_id policy name d) as [id|] eqn:Hr; cbn; [|by apply source_ok_advance].
  destruct (source_ok_advance t s Hs) as [Ht Hi Hc]. split; cbn in *; [done| |done].
  intros p n i. destruct (decide ((policy, name) = (p, n))) as [[= <- <-]|Hne].
  - rewrite lookup_insert, decide_True by done. intros [= <-] t' d' Ht' Hd'.
    eapply (n_idents Hnode (tick s) t'); [lia|exact Hd|exact Hd'|done].
  - rewrite lookup_insert_ne by done. by apply Hi.
Qed.

Lemma keeps_config : keeps (get_tx_in_config world).
Proof. intros t. eapply triple_errors; [|done]. intros s Hs. pose proof (triple_config t s Hs). repeat case_match; naive_solver. Qed.

Lemma keeps_parameters e dp pp : keeps (src_get_ariadne_parameters world e dp pp).
Proof.
  apply keeps_bind; [apply keeps_ok_or|intros de]. apply keeps_bind; [apply keeps_ident|intros r].
  apply keeps_bind; [destruct r; [apply keeps_query|apply keeps_ret]|intros o]. apply keeps_bind; [|intros; apply keeps_ret].
  destruct o as [o|]; [|apply keeps_ret]. intros t s Hs. pose proof (permissioned_candidates_total (token_datum o)).
  by destruct (permissioned_candidates_of _).
Qed.

Lemma keeps_candidates e addr : keeps (src_get_candidates from_vkey into_iter world e addr).
Proof.
  apply keeps_bind; [apply keeps_ok_or|intros de]. apply keeps_bind; [|intros cs].
  - apply keeps_bind; [apply keeps_query|intros n]. apply keeps_bind; [|intros; apply keeps_ret].
    destruct n; [|apply keeps_ret]. apply keeps_bind; [apply keeps_config|intros; apply keeps_query].
  - apply keeps_bind; [apply keeps_query|intros; apply keeps_ret].
Qed.

(** *** The caches *)

Record cached_ok (t : nat) (s : Cached) : Prop := {
  co_source : source_ok t (inner s);
  co_stable e : highest_seen_stable_epoch s = Some e -> final e (tick (inner s));
  co_parameters e dp pp v : stored (e, dp, pp) v (ariadne_parameters_cache s) -> one_per_transaction L pp [] ->
    exists de, offset_data_epoch e = Some de /\ ledger_parameters L de pp = Ok v;
  co_candidates e addr v : stored (e, addr) v (candidates_cache s) -> inputs_present L addr ->
    exists de, offset_data_epoch e = Some de /\ perm_rel same_candidate v (ledger_candidates from_vkey L de addr);
  co_nonces e v : stored e v (epoch_nonce_cache s) -> exists de, offset_data_epoch e = Some de /\ v = l_nonce L de
}.

Lemma source_ok_from t t' s : (t <= t')%nat -> source_ok t' s -> source_ok t s.
Proof. intros Ht [H1 H2 H3]. split; [lia|done..]. Qed.
Lemma source_ok_now t s : source_ok t s -> source_ok (tick s) s.
Proof. intros [H1 H2 H3]. by split. Qed.
Lemma final_later e t t' : (t <= t')%nat -> final e t -> final e t'.
Proof. intros Ht Hf t'' d Ht''. apply Hf. lia. Qed.
Lemma final_below e e' t : e' <= e -> final e t -> final e' t.
Proof. intros He Hf t' d Ht' Hd. eapply represents_mono; [exact He|by eapply Hf]. Qed.

Lemma on_inner_ok {A} t (m : M Source DataSourceError A) (Q : A -> Prop) F s :
  cached_ok t s -> triple (source_ok (tick (inner s))) m (fun a i => source_ok (tick (inner s)) i /\ Q a) F ->
  match on_inner m s with
  | Ok (a, s') => cached_ok t s' /\ (tick (inner s) <= tick (inner s'))%nat /\ Q a
  | Err err => F err
  | Panic => False
  end.
Proof.
  intros Hs Hm. specialize (Hm _ (source_ok_now _ _ (co_source _ _ Hs))). unfold on_inner.
  destruct (m (inner s)) as [[a i]|err|]; [|done..]. destruct Hm as [Hi Ha]. destruct Hs as [H1 H2 H3 H4 H5].
  split; [|split; [apply Hi|done]]. split; cbn; try done.
  - eapply source_ok_from; [|exact Hi]. apply H1.
  - intros e He. eapply final_later; [apply Hi|]. by apply H2.
Qed.

Lemma set_inner_id s : set_inner (inner s) s = s.
Proof. by destruct s. Qed.

Lemma triple_caching t e :
  triple (cached_ok t) (can_use_caching_for_request world security_parameter e)
    (fun b s => cached_ok t s /\ exists de, offset_data_epoch e = Some de /\ (b = true -> final de (tick (inner s))))
    (fun err => offset_data_epoch e <> None -> failure err).
Proof.
  intros s Hs. unfold can_use_caching_for_request, src_data_epoch, get_epoch_of_data_storage, bind, on_inner at 1.
  destruct (offset_data_epoch e) as [de|] eqn:Hde; cbn; [|done]. rewrite set_inner_id.
  assert (forall x, highest_seen_stable_epoch s = Some x -> de <= x -> final de (tick (inner s))) as Hhigh.
  { intros x Hx Hle. eapply final_below; [exact Hle|]. by apply (co_stable _ _ Hs). }
  destruct (match highest_seen_stable_epoch s with Some x => de <=? x | None => false end) eqn:Hc.
  { destruct (highest_seen_stable_epoch s) as [x|] eqn:Hx; [|done]. apply Z.leb_le in Hc. split; [done|]. exists de. eauto. }
  unfold on_inner, query. destruct (world (tick (inner s))) as [d|] eqn:Hd; cbn.
  2: { intros _. split; [done|]. exists (tick (inner s)). by rewrite Hd. }
  destruct (get_latest_stable_epoch security_parameter d) as [[x|]|err|] eqn:Hx; cbn.
  - pose proof (n_stable Hnode _ _ _ Hd Hx) as Hfin. destruct Hs as [H1 H2 H3 H4 H5]. split; [split; cbn; try done|].
    + by apply source_ok_advance.
    + intros y [= <-]. eapply final_later; [|exact Hfin]. lia.
    + exists de. split; [done|]. intros Hle%Z.leb_le. eapply final_below; [exact Hle|]. eapply final_later; [|exact Hfin]. lia.
  - destruct Hs as [H1 H2 H3 H4 H5]. split; [split; cbn; try done|by exists de]; [by apply source_ok_advance|].
    intros y Hy. eapply final_later; [|by apply H2]. lia.
  - intros _. split; [done|]. exists (tick (inner s)). rewrite Hd. by destruct err.
  - unfold get_latest_stable_epoch in Hx. by repeat case_match.
Qed.

Lemma triple_cond {A} (H : Prop) t (m : M Source DataSourceError A) (Q : A -> Prop) F :
  keeps m -> (H -> triple (source_ok t) m (fun a s => source_ok t s /\ Q a) F) ->
  triple (source_ok t) m (fun a s => source_ok t s /\ (H -> Q a)) (fun err => H -> F err).
Proof.
  intros Hk Hm s Hs. specialize (Hk t s Hs). destruct (m s) as [[a s']|err|] eqn:Hr; [|intros HH|done].
  - split; [done|]. intros HH. specialize (Hm HH s Hs). rewrite Hr in Hm. apply Hm.
  - specialize (Hm HH s Hs). by rewrite Hr in Hm.
Qed.

(** A request for [e] at query [t] asks for data that is final. *)
Definition settled (e : Z) (t : nat) : Prop := exists de, offset_data_epoch e = Some de /\ final de t.
Lemma settled_later e t t' : (t <= t')%nat -> settled e t -> settled e t'.
Proof. intros Ht (de & Hde & Hf). exists de. split; [done|]. by eapply final_later. Qed.

Definition right_candidates (e : Z) (addr : Bytes) (a : list CandidateRegistrations) : Prop :=
  exists de, offset_data_epoch e = Some de /\ perm_rel same_candidate a (ledger_candidates from_vkey L de addr).
Definition right_parameters (e : Z) (pp : Bytes) (a : AriadneParameters) : Prop :=
  exists de, offset_data_epoch e = Some de /\ ledger_parameters L de pp = Ok a.
Definition parameters_failure (e : Z) (pp : Bytes) (err : DataSourceError) : Prop :=
  failure err \/ exists de, offset_data_epoch e = Some de /\ ledger_parameters L de pp = Err err.

Lemma inner_candidates t e addr :
  triple (source_ok t) (src_get_candidates from_vkey into_iter world e addr)
    (fun a s => source_ok t s /\ (settled e t /\ inputs_present L addr -> right_candidates e addr a))
    (fun err => settled e t /\ inputs_present L addr -> failure err).
Proof.
  apply triple_cond; [apply keeps_candidates|]. intros [(de & Hde & Hf) Hins] s Hs.
  pose proof (triple_candidates t e de Hde Hf addr Hins s Hs) as Ht. unfold right_candidates. repeat case_match; naive_solver.
Qed.

Lemma inner_parameters t e dp pp :
  triple (source_ok t) (src_get_ariadne_parameters world e dp pp)
    (fun a s => source_ok t s /\ (settled e t /\ one_per_transaction L pp [] -> right_parameters e pp a))
    (fun err => settled e t /\ one_per_transaction L pp [] -> parameters_failure e pp err).
Proof.
  apply triple_cond; [apply keeps_parameters|]. intros [(de & Hde & Hf) Hone] s Hs.
  pose proof (triple_parameters t e de Hde Hf dp pp Hone s Hs) as Ht. unfold right_parameters, parameters_failure.
  repeat case_match; naive_solver.
Qed.

Lemma triple_cached_candidates t e addr :
  triple (cached_ok t) (cached_get_candidates from_vkey into_iter world security_parameter e addr)
    (fun a s => cached_ok t s /\ (settled e t /\ inputs_present L addr -> right_candidates e addr a))
    (fun err => settled e t /\ inputs_present L addr -> failure err).
Proof.
  unfold cached_get_candidates. eapply triple_bind.
  { eapply triple_errors; [apply triple_caching|]. intros err Herr [(de & Hde & _) _]. apply Herr. by rewrite Hde. }
  intros b s [Hs (de & Hde & Hb)]. pose proof (so_tick _ _ (co_source _ _ Hs)) as Htick. destruct b.
  - assert (settled e (tick (inner s))) as Hset by (exists de; auto).
    unfold get_candidates_with_caching, bind, cache_get.
    pose proof (stored_get (e, addr) (candidates_cache s)) as Hget. pose proof (fun k v => stored_after_get k (e, addr) (candidates_cache s) v) as Hafter.
    destruct (lru_get (e, addr) (candidates_cache s)) as [r lc]. cbn in Hget, Hafter.
    assert (cached_ok t (set_candidates lc s)) as Hs'.
    { destruct Hs. split; cbn; try done. intros e' a' v Hv. eauto. }
    destruct r as [v|]; [split; [done|]; intros [_ Hins]; by apply (co_candidates _ _ Hs _ _ _ (Hget v eq_refl))|].
    pose proof (on_inner_ok t _ _ _ _ Hs' (inner_candidates _ e addr)) as Hin. cbn [inner set_candidates] in Hin.
    destruct (on_inner _ _) as [[a s2]|err|]; [|intros [_ Hins]; by apply Hin|done].
    destruct Hin as ([H1 H2 H3 H4 H5] & _ & Ha). split; [split; cbn; try done|by intros [_ Hins]; apply Ha].
    intros e' a' v Hv Hins. destruct (stored_put _ _ _ _ _ Hv) as [[= -> -> ->]|Hold]; [by apply Ha|eauto].
  - pose proof (on_inner_ok t _ _ _ _ Hs (inner_candidates _ e addr)) as Hin.
    destruct (on_inner _ _) as [[a s2]|err|]; [|intros [Hset Hins]|done].
    + destruct Hin as (Hs2 & _ & Ha). split; [done|]. intros [Hset Hins]. apply Ha. split; [by eapply settled_later|done].
    + apply Hin. split; [by eapply settled_later|done].
Qed.

Lemma triple_cached_parameters t e dp pp :
  triple (cached_ok t) (cached_get_ariadne_parameters world security_parameter e dp pp)
    (fun a s => cached_ok t s /\ (settled e t /\ one_per_transaction L pp [] -> right_parameters e pp a))
    (fun err => settled e t /\ one_per_transaction L pp [] -> parameters_failure e pp err).
Proof.
  unfold cached_get_ariadne_parameters. eapply triple_bind.
  { eapply triple_errors; [apply triple_caching|]. intros err Herr [(de & Hde & _) _]. left. apply Herr. by rewrite Hde. }
  intros b s [Hs (de & Hde & Hb)]. pose proof (so_tick _ _ (co_source _ _ Hs)) as Htick. destruct b.
  - assert (settled e (tick (inner s))) as Hset by (exists de; auto).
    unfold get_ariadne_parameters_with_caching, bind, cache_get.
    pose proof (stored_get (e, dp, pp) (ariadne_parameters_cache s)) as Hget.
    pose proof (fun k v => stored_after_get k (e, dp, pp) (ariadne_parameters_cache s) v) as Hafter.
    destruct (lru_get (e, dp, pp) (ariadne_parameters_cache s)) as [r lc]. cbn in Hget, Hafter.
    assert (cached_ok t (set_parameters lc s)) as Hs'.
    { destruct Hs. split; cbn; try done. intros e' d' p' v Hv. eauto. }
    destruct r as [v|]; [split; [done|]; intros [_ Hone]; by apply (co_parameters _ _ Hs _ _ _ _ (Hget v eq_refl))|].
    pose proof (on_inner_ok t _ _ _ _ Hs' (inner_parameters _ e dp pp)) as Hin. cbn [inner set_parameters] in Hin.
    destruct (on_inner _ _) as [[a s2]|err|]; [|intros [_ Hone]; by apply Hin|done].
    destruct Hin as ([H1 H2 H3 H4 H5] & _ & Ha). split; [split; cbn; try done|by intros [_ Hone]; apply Ha].
    intros e' d' p' v Hv Hone. destruct (stored_put _ _ _ _ _ Hv) as [[= -> -> -> ->]|Hold]; [by apply Ha|eauto].
  - pose proof (on_inner_ok t _ _ _ _ Hs (inner_parameters _ e dp pp)) as Hin.
    destruct (on_inner _ _) as [[a s2]|err|]; [|intros [Hset Hone]|done].
    + destruct Hin as (Hs2 & _ & Ha). split; [done|]. intros [Hset Hone]. apply Ha. split; [by eapply settled_later|done].
    + apply Hin. split; [by eapply settled_later|done].
Qed.

(** Nonces are cached without a look at the stable epoch; the provider asks for final ones. *)
Lemma triple_cached_nonce t e :
  settled e t ->
  triple (cached_ok t) (cached_get_epoch_nonce world e)
    (fun a s => cached_ok t s /\ exists de, offset_data_epoch e = Some de /\ a = l_nonce L de) failure.
Proof.
  intros Hset s Hs. pose proof (so_tick _ _ (co_source _ _ Hs)) as Htick.
  destruct (settled_later _ _ _ Htick Hset) as (de & Hde & Hf).
  unfold cached_get_epoch_nonce, bind, cache_get.
  pose proof (stored_get e (epoch_nonce_cache s)) as Hget. pose proof (fun k v => stored_after_get k e (epoch_nonce_cache s) v) as Hafter.
  destruct (lru_get e (epoch_nonce_cache s)) as [r lc]. cbn in Hget, Hafter.
  assert (cached_ok t (set_nonces lc s)) as Hs'.
  { destruct Hs. split; cbn; try done. intros e' v Hv. eauto. }
  destruct r as [v|]; [split; [done|]; by apply (co_nonces _ _ Hs), Hget|].
  pose proof (on_inner_ok t _ _ _ _ Hs' (triple_nonce _ e de Hde Hf)) as Hin.
  destruct (on_inner _ _) as [[a s2]|err|]; [|done..]. destruct Hin as ([H1 H2 H3 H4 H5] & _ & ->).
  destruct (l_nonce L de) as [n|] eqn:Hn; cbn; (split; [split; cbn; try done|by exists de]).
  intros e' v Hv. destruct (stored_put _ _ _ _ _ Hv) as [[= -> ->]|Hold]; [by exists de|eauto].
Qed.

(** *** The provider *)

Notation source := (cached_source from_vkey into_iter world security_parameter).
Notation Scripts := (MainChainScripts (MainchainAddress:=Bytes) (PolicyId:=Bytes)).

Record scripts_ok (scripts : Scripts) : Prop := {
  sk_address : inputs_present L (committee_candidate_address scripts);
  sk_policy : one_per_transaction L (permissioned_candidates_policy_id scripts) []
}.

(** Errors: of queries, or a list of permissioned candidates on the ledger that is not one *)
Definition inputs_failure (e : Z) (scripts : Scripts)
    (err : @AuthoritySelectionInputsCreationError DataSourceError Bytes Bytes) : Prop :=
  (exists x, failure x /\ (err = AriadneParametersQuery e (d_parameter_policy_id scripts) (permissioned_candidates_policy_id scripts) (Some x) \/
     err = GetCandidatesQuery e (committee_candidate_address scripts) x \/ err = GetEpochNonceQuery e x)) \/
  (exists x de, offset_data_epoch e = Some de /\ ledger_inputs from_vkey L de scripts = Err x /\
     err = AriadneParametersQuery e (d_parameter_policy_id scripts) (permissioned_candidates_policy_id scripts) (Some x)).

Lemma triple_with_err {S E F A} (P : S -> Prop) (m : M S E A) Q (G : E -> Prop) (f : E -> F) (H : F -> Prop) :
  triple P m Q G -> (forall e, G e -> H (f e)) -> triple P (with_err f m) Q H.
Proof. intros Hm HG s Hs. specialize (Hm s Hs). unfold with_err. destruct (m s) as [[]| |]; auto. Qed.

Lemma triple_inputs t e scripts :
  settled e t -> scripts_ok scripts ->
  triple (cached_ok t) (@inputs_from_mc_data _ _ _ _ source e scripts)
    (fun a s => cached_ok t s /\ exists de ref, offset_data_epoch e = Some de /\
       ledger_inputs from_vkey L de scripts = Ok ref /\ same_inputs a ref)
    (inputs_failure e scripts).
Proof.
  intros Hset [Hins Hone]. unfold inputs_from_mc_data. eapply triple_bind.
  { eapply triple_with_err; [apply triple_cached_parameters|]. intros err Herr.
    destruct (Herr (conj Hset Hone)) as [Hf|(de & Hde & Hl)]; [left; eauto|]. right. exists err, de. split; [done|].
    split; [|done]. unfold ledger_inputs. by rewrite Hl. }
  intros params s [Hs Hp]. destruct (Hp (conj Hset Hone)) as (de & Hde & Hl). revert s Hs.
  assert (a_d_parameter params = {| num_permissioned_candidates := 0; num_registered_candidates := 0 |}) as Hd.
  { unfold ledger_parameters in Hl. destruct (match lo_datum <$> _ with Some _ => _ | None => _ end); cbn in Hl; naive_solver. }
  eapply (triple_bind _ _ (fun l s => cached_ok t s /\ l = default [] (a_permissioned_candidates params))).
  { rewrite Hd. destruct (a_permissioned_candidates params); by apply triple_ret. }
  intros l s [Hs ->]. revert s Hs. eapply triple_bind.
  { eapply triple_with_err; [apply triple_cached_candidates|]. intros err Herr. left. exists err. split; [by apply Herr|auto]. }
  intros cands s [Hs Hc]. destruct (Hc (conj Hset Hins)) as (de' & Hde' & Hperm). assert (de' = de) as -> by congruence. revert s Hs. eapply triple_bind.
  { eapply triple_with_err; [apply (triple_cached_nonce t e Hset)|]. intros err Herr. left. exists err. split; [done|auto]. }
  intros nonce. apply triple_ret. intros s [Hs (de'' & Hde'' & ->)]. assert (de'' = de) as -> by congruence. split; [done|].
  exists de. eexists. split; [done|]. unfold ledger_inputs. rewrite Hl. split; [done|]. by split.
Qed.

(** The states of a node: after requests for any epochs, but for nonces of final ones *)
Inductive node_reachable : Cached -> Prop :=
| nr_new size : node_reachable (new_cached {| tick := 0; multi_asset_cache := ∅; tx_in_config := None |} size)
| nr_parameters e dp pp s a s' : node_reachable s ->
    cached_get_ariadne_parameters world security_parameter e dp pp s = Ok (a, s') -> node_reachable s'
| nr_candidates e addr s a s' : node_reachable s ->
    cached_get_candidates from_vkey into_iter world security_parameter e addr s = Ok (a, s') -> node_reachable s'
| nr_nonce e s a s' : node_reachable s -> settled e (tick (inner s)) ->
    cached_get_epoch_nonce world e s = Ok (a, s') -> node_reachable s'.

Lemma cached_ok_now t s : cached_ok t s -> cached_ok (tick (inner s)) s.
Proof. intros [H1 H2 H3 H4 H5]. split; try done. by eapply source_ok_now. Qed.
Lemma cached_ok_from t t' s : (t <= t')%nat -> cached_ok t' s -> cached_ok t s.
Proof. intros Ht [H1 H2 H3 H4 H5]. split; try done. by eapply source_ok_from. Qed.

Lemma node_reachable_ok s : node_reachable s -> cached_ok 0 s.
Proof.
  induction 1 as [size|e dp pp s a s' _ IH Hr|e addr s a s' _ IH Hr|e s a s' _ IH Hset Hr].
  - split; cbn; [|done|intros * Hst; exfalso; by eapply stored_new..]. split; cbn; [lia|done|done].
  - pose proof (triple_cached_parameters 0 e dp pp s IH) as Ht. rewrite Hr in Ht. apply Ht.
  - pose proof (triple_cached_candidates 0 e addr s IH) as Ht. rewrite Hr in Ht. apply Ht.
  - pose proof (triple_cached_nonce _ e Hset s (cached_ok_now _ _ IH)) as Ht. rewrite Hr in Ht. destruct Ht as [Ht _].
    eapply cached_ok_from; [|exact Ht]. lia.
Qed.

Lemma with_err_Ok {S E F A} (f : E -> F) (m : M S E A) s r : with_err f m s = Ok r -> m s = Ok r.
Proof. unfold with_err. by destruct (m s) as [| |]; intros [=->]. Qed.

Lemma inputs_reachable e scripts s a s' :
  node_reachable s -> settled e (tick (inner s)) -> @inputs_from_mc_data _ _ _ _ source e scripts s = Ok (a, s') ->
  node_reachable s'.
Proof.
  intros Hs Hset. unfold inputs_from_mc_data. intros (p & s1 & H1%with_err_Ok & H)%bind_Ok_inv.
  apply bind_Ok_inv in H as (l & s1' & Hl & H).
  assert (s1' = s1) as -> by (destruct (a_permissioned_candidates p); [|destruct (_ =? _)]; unfold ret, throw in Hl; congruence).
  apply bind_Ok_inv in H as (cs & s2 & H2%with_err_Ok & H). apply bind_Ok_inv in H as (n & s3 & H3%with_err_Ok & [= _ <-]).
  pose proof (node_reachable_ok s Hs) as Hok. apply cached_ok_now in Hok.
  pose proof (nr_parameters _ _ _ _ _ _ Hs H1) as R1. pose proof (nr_candidates _ _ _ _ _ R1 H2) as R2.
  refine (nr_nonce _ _ _ _ R2 _ H3). eapply settled_later; [|exact Hset].
  pose proof (triple_cached_parameters _ e (d_parameter_policy_id scripts) (permissioned_candidates_policy_id scripts) s Hok) as T1. cbn in H1. rewrite H1 in T1. destruct T1 as [T1 _].
  pose proof (triple_cached_candidates _ e (committee_candidate_address scripts) s1 T1) as T2. cbn in H2. rewrite H2 in T2.
  apply (co_source _ _ (proj1 T2)).
Qed.

Lemma cached_data_epoch_eq e s :
  cached_data_epoch e s = match offset_data_epoch e with Some de => Ok (de, s) | None => Err (BadRequest e) end.
Proof.
  unfold cached_data_epoch, on_inner, src_data_epoch, get_epoch_of_data_storage, ok_or.
  destruct (offset_data_epoch e); [|done]. cbn. by rewrite set_inner_id.
Qed.

Notation mc_epoch := (mc_epoch_for_next_ariadne_cidp (DsErr:=DataSourceError) (Address:=Bytes) (Policy:=Bytes)).

Lemma provider_inputs next_unset scripts sc_config mc_config slot mc_reference_epoch s inputs s' :
  node_reachable s -> scripts_ok scripts -> (forall de, de < mc_reference_epoch -> final de (tick (inner s))) ->
  @new_provider _ _ _ _ source next_unset (Some scripts) sc_config mc_config slot mc_reference_epoch s = Ok (Some inputs, s') ->
  exists e de ref, mc_epoch next_unset sc_config mc_config slot = Ok e /\ offset_data_epoch e = Some de /\
    ledger_inputs from_vkey L de scripts = Ok ref /\ same_inputs inputs ref.
Proof.
  intros Hs Hsk Hfin. unfold new_provider. intros (e & s1 & He & H)%bind_Ok_inv.
  destruct (mc_epoch next_unset sc_config mc_config slot) as [e'|err|]; [|done..]. injection He as -> <-.
  apply bind_Ok_inv in H as (de & s1 & Hd%with_err_Ok & H). cbn [data_epoch cached_source] in Hd. rewrite cached_data_epoch_eq in Hd.
  destruct (offset_data_epoch e) as [de'|] eqn:Hde; [|done]. injection Hd as -> <-.
  apply bind_Ok_inv in H as (sk & s1 & [= <- <-] & H). destruct (Z.ltb_spec de mc_reference_epoch) as [Hlt|Hge]; [|done].
  apply bind_Ok_inv in H as (a & s2 & Ha%with_err_Ok & [= <- <-]). assert (settled e (tick (inner s))) as Hset by (exists de; auto).
  pose proof (triple_inputs _ e scripts Hset Hsk s (cached_ok_now _ _ (node_reachable_ok s Hs))) as Ht. rewrite Ha in Ht.
  destruct Ht as [_ (de' & ref & Hde' & Hl & Hsame)]. exists e, de', ref. auto.
Qed.

(** C8: the provider of a node, whatever the state of its caches and database beyond
    the epochs before the one of the main chain reference, offers the inputs that the ledger
    determines, up to orders, or none if the data epoch is not over yet; it fails only if a
    query fails, if the time or the epoch is out of range, or if the ledger has no readable
    list of permissioned candidates where it should have one. *)
Theorem provider_follows_ledger next_unset scripts sc_config mc_config slot mc_reference_epoch s :
  node_reachable s -> scripts_ok scripts -> (forall de, de < mc_reference_epoch -> final de (tick (inner s))) ->
  match @new_provider _ _ _ _ source next_unset (Some scripts) sc_config mc_config slot mc_reference_epoch s with
  | Ok (Some inputs, s') => node_reachable s' /\ exists e de ref,
      mc_epoch next_unset sc_config mc_config slot = Ok e /\ offset_data_epoch e = Some de /\ de < mc_reference_epoch /\
      ledger_inputs from_vkey L de scripts = Ok ref /\ same_inputs inputs ref
  | Ok (None, s') => s' = s /\ exists e de,
      mc_epoch next_unset sc_config mc_config slot = Ok e /\ offset_data_epoch e = Some de /\ mc_reference_epoch <= de
  | Err err => mc_epoch next_unset sc_config mc_config slot = Err err \/
      exists e, mc_epoch next_unset sc_config mc_config slot = Ok e /\
        ((offset_data_epoch e = None /\ err = ProviderDataSourceError (BadRequest e)) \/
         exists x, inputs_failure e scripts x /\ err = InputsCreationError x)
  | Panic => mc_epoch next_unset sc_config mc_config slot = Panic
  end.
Proof.
  intros Hs Hsk Hfin. unfold new_provider, bind at 1.
  destruct (mc_epoch next_unset sc_config mc_config slot) as [e|err|]; [|by left|done].
  unfold bind at 1, with_err at 1. cbn [data_epoch cached_source]. rewrite cached_data_epoch_eq.
  destruct (offset_data_epoch e) as [de|] eqn:Hde; [|right; exists e; auto]. unfold ok_or, ret, bind at 1. destruct (Z.ltb_spec de mc_reference_epoch) as [Hlt|Hge]; [|split; [done|]; exists e, de; auto].
  assert (settled e (tick (inner s))) as Hset by (exists de; auto).
  pose proof (triple_inputs _ e scripts Hset Hsk s (cached_ok_now _ _ (node_reachable_ok s Hs))) as Ht.
  pose proof (inputs_reachable e scripts s) as Hr. unfold bind, with_err.
  destruct (inputs_from_mc_data e scripts s) as [[a s']|err|]; [|right; eauto 6|done].
  split; [by eapply Hr|]. destruct Ht as [_ (de' & ref & Hde' & Hl & Hsame)]. assert (de' = de) as -> by congruence.
  exists e, de, ref. auto.
Qed.
End Node.

(** ** Two nodes *)

(** A node: the iteration order of its hash maps, what its queries see, and its security
    parameter; with the configuration of its Db-Sync *)
Record Node `{CardanoSerializationLib} := {
  nd_into_iter : gmap Bytes (list RegisteredCandidate) -> list (Bytes * list RegisteredCandidate);
  nd_world : nat -> option Db;
  nd_security_parameter : Z;
  nd_config : TxInConfiguration;
  nd_tx_in_table : bool
}.

Section Agreement.
Context {csl : CardanoSerializationLib} {lru : LruCache} {lru_laws : LruCacheLaws}.
Context (from_vkey : Bytes -> Bytes) (L : Ledger).
Notation Scripts := (MainChainScripts (MainchainAddress:=Bytes) (PolicyId:=Bytes)).

Definition valid_node (n : Node) : Prop :=
  node_ok (nd_into_iter n) (nd_world n) (nd_security_parameter n) L (nd_config n) (nd_tx_in_table n).
Definition states_of (n : Node) : Cached -> Prop :=
  node_reachable from_vkey (nd_into_iter n) (nd_world n) (nd_security_parameter n) L (nd_config n).
(** The databases of the node hold the ledger up to the end of the epochs before [e]. *)
Definition synced_before (e : Z) (n : Node) (s : Cached) : Prop :=
  forall de, de < e -> final (nd_world n) L (nd_config n) de (tick (inner s)).
Definition provides (n : Node) (next_unset : option Z) (scripts : Scripts) (sc_config : ScSlotConfig)
    (mc_config : MainchainEpochConfig) (slot mc_reference_epoch : Z) (s : Cached) (inputs : AuthoritySelectionInputs) : Prop :=
  exists s', @new_provider _ _ _ _ (cached_source from_vkey (nd_into_iter n) (nd_world n) (nd_security_parameter n))
    next_unset (Some scripts) sc_config mc_config slot mc_reference_epoch s = Ok (Some inputs, s').

Context {cbor : Minicbor} {crypto : Crypto} {u256 : U256Bytes}.
Context {Rng : Type} `{!ChaCha Rng Bytes}.
Context {AccountId Keys : Type} (account_of : Bytes -> AccountId) (maybe_from : CandidateKeys -> option Keys).
Context `{!EqDecision (Candidate AccountId Keys)}.
Context (candidate_le : Candidate AccountId Keys -> Candidate AccountId Keys -> Prop)
  `{!RelDecision candidate_le} `{!TotalOrder candidate_le}.

(** C7: nodes agree on the committee: from the inputs that the providers of two nodes
    offer for a block, the runtime selects the same committee, although the nodes see
    different databases beyond the epochs before the main chain reference, link inputs to
    outputs differently, get rows and hash map entries in different orders and have
    different caches. *)
Theorem nodes_select_the_same_committee {Hash} n1 n2 s1 s2 next_unset scripts sc_config mc_config slot mc_reference_epoch
    inputs1 inputs2 max genesis (parameters : SystemParameters.State Hash) epoch :
  valid_node n1 -> valid_node n2 -> states_of n1 s1 -> states_of n2 s2 ->
  synced_before mc_reference_epoch n1 s1 -> synced_before mc_reference_epoch n2 s2 ->
  scripts_ok L scripts -> outputs_unique L -> (forall e, stake_ok L e) ->
  provides n1 next_unset scripts sc_config mc_config slot mc_reference_epoch s1 inputs1 ->
  provides n2 next_unset scripts sc_config mc_config slot mc_reference_epoch s2 inputs2 ->
  select_authorities_optionally_overriding (Rng:=Rng) account_of maybe_from candidate_le max genesis parameters inputs1 epoch =
  select_authorities_optionally_overriding (Rng:=Rng) account_of maybe_from candidate_le max genesis parameters inputs2 epoch.
Proof.
  intros V1 V2 R1 R2 Y1 Y2 Hsk Hu Hst [s1' P1] [s2' P2].
  destruct (provider_inputs _ _ _ _ _ _ _ V1 Hst _ _ _ _ _ _ _ _ _ R1 Hsk Y1 P1) as (e & de & ref & He & Hde & Hl & Hs1).
  destruct (provider_inputs _ _ _ _ _ _ _ V2 Hst _ _ _ _ _ _ _ _ _ R2 Hsk Y2 P2) as (e' & de' & ref' & He' & Hde' & Hl' & Hs2).
  rewrite He in He'. injection He' as <-. rewrite Hde in Hde'. injection Hde' as <-. rewrite Hl in Hl'. injection Hl' as <-.
  assert (Forall positions_unique (registered_candidates ref)) as Hpos.
  { unfold ledger_inputs in Hl. destruct (ledger_parameters _ _ _) as [p| |]; cbn in Hl; simplify_eq. by apply ledger_positions. }
  rewrite (selection_of_same_inputs _ _ _ _ _ _ _ ref _ Hs1 Hpos). by rewrite (selection_of_same_inputs _ _ _ _ _ _ _ ref _ Hs2 Hpos).
Qed.
End Agreement.

(** ** An example: two registrations, seen by two nodes *)

Import Rfc8949 DatumLib.

Import ListLru.

Module AgreementExample.
Definition B (n : Z) : Block := {| block_no := n; epoch_no := n; slot_no := 10 * n |}.
Definition tx (h i : Z) : Tx := {| t_hash := replicate 32 h; t_block := B 0; t_block_index := i |}.
Definition funding := tx 200 0.
Definition registration_datum (n : Z) : Datum :=
  candidate_registration_to_plutus_data {|
    stake_ownership := {| pub_key := replicate 32 n; signature := replicate 64 n |};
    partner_chain_pub_key := replicate 33 n; partner_chain_signature := replicate 64 n;
    cr_registration_utxo := {| tx_hash := replicate 32 200; index := n |}; own_pkh := replicate 28 n;
    cr_keys := AuthorityExample.keys |}.
Definition permissioned_datum : Datum :=
  permissioned_candidates_to_plutus_data [{| sidechain_public_key := replicate 33 3; p_keys := AuthorityExample.keys |}].

(** The funding transaction has an output for each of the three others: two registrations
    and the list of permissioned candidates. *)
Definition output (t : Tx) (i : Z) (a : Bytes) (h : option Bytes) (by_ : option Tx) : TxOut :=
  {| o_tx := t; o_index := i; o_address := a; o_data_hash := h; o_consumed_by := by_ |}.
Definition outputs (c : TxInConfiguration) : list TxOut :=
  let by_ t := match c with Enabled => None | Consumed => Some t end in
  [output funding 1 [7] None (by_ (tx 1 1)); output funding 2 [7] None (by_ (tx 2 2)); output funding 3 [7] None (by_ (tx 3 3));
   output (tx 1 1) 0 [100] (Some [51]) None; output (tx 2 2) 0 [100] (Some [52]) None;
   output (tx 3 3) 0 [8] (Some [53]) None].
Definition input (n : Z) : TxIn := {| i_tx := tx n n; i_out_tx := funding; i_out_index := n |}.

Definition db (c : TxInConfiguration) : Db := {|
  CandidatesDb.block := B <$> seqZ 0 (match c with Enabled => 4 | Consumed => 5 end);
  tx_out := match c with Enabled => outputs c | Consumed => reverse (outputs c) end;
  tx_in := match c with Enabled => Some (input <$> [1; 2; 3]) | Consumed => None end;
  datum_table := [([51], registration_datum 1); ([52], registration_datum 2); ([53], permissioned_datum)];
  multi_asset := [{| ma_id := match c with Enabled => 1 | Consumed => 5 end; ma_policy := [77]; ma_name := [] |}];
  ma_tx_out := [{| m_ident := match c with Enabled => 1 | Consumed => 5 end;
                   m_tx_out := output (tx 3 3) 0 [8] (Some [53]) None |}];
  epoch_stake := [{| es_epoch := 0; es_pool := replicate 32 1; es_amount := 500 |};
                  {| es_epoch := 0; es_pool := replicate 32 2; es_amount := 300 |}];
  epoch_param := [(0, [42])]
|}.

Definition ledger : Ledger := {|
  l_blocks := B <$> seqZ 0 4;
  l_outputs := view_of (db Enabled) <$> outputs Enabled;
  l_spends := spends_in Enabled (db Enabled);
  l_tokens := [([77], [], view_of (db Enabled) (output (tx 3 3) 0 [8] (Some [53]) None))];
  l_stake := epoch_stake (db Enabled);
  l_nonce e := q_epoch_nonce e (db Enabled)
|}.

Definition node (c : TxInConfiguration) : Node := {|
  nd_into_iter m := match c with Enabled => map_to_list m | Consumed => reverse (map_to_list m) end;
  nd_world _ := Some (db c);
  nd_security_parameter := 1;
  nd_config := c;
  nd_tx_in_table := match c with Enabled => true | Consumed => false end
|}.
Definition scripts : MainChainScripts (MainchainAddress:=Bytes) (PolicyId:=Bytes) := {|
  committee_candidate_address := [100]; d_parameter_policy_id := [78]; permissioned_candidates_policy_id := [77] |}.
Definition fresh : Cached := new_cached {| tick := 0; multi_asset_cache := ∅; tx_in_config := None |} 64.
Definition sc_config : ScSlotConfig := {| slots_per_epoch := 10; slot_duration := 6000 |}.
Definition mc_config : MainchainEpochConfig := {|
  epoch_duration_millis := 60000; slot_duration_millis := 1000; first_epoch_timestamp_millis := 0; first_epoch_number := 0;
  mc_first_slot_number := 0 |}.

Lemma example_tables c : tables_ok c (db c).
Proof.
  assert (forall b, b ∈ CandidatesDb.block (db c) -> exists n, b = B n) as Hb by (by intros b (n & -> & _)%list_elem_of_fmap; eauto).
  split.
  - intros a b (n & ->)%Hb (m & ->)%Hb. cbn. lia.
  - intros a b (n & ->)%Hb (m & ->)%Hb. cbn. lia.
  - apply Forall_forall. apply (bool_decide_unpack _). by destruct c; vm_compute.
  - apply Forall_forall. apply (bool_decide_unpack _). by destruct c; vm_compute.
  - apply (bool_decide_unpack _). by destruct c; vm_compute.
  - apply (bool_decide_unpack _). by destruct c; vm_compute.
Qed.

Lemma example_views c : view_of (db c) <$> outputs c = view_of (db Enabled) <$> outputs Enabled.
Proof. by destruct c. Qed.

Lemma example_represents c : represents c 2 ledger (db c).
Proof.
  split; [apply example_tables|by destruct c; vm_compute| | | |done|done].
  - assert (filter (fun o => epoch_of (lo_tx o) <= 2) (view_of (db c) <$> outputs c)
      ≡ₚ filter (fun o => epoch_of (lo_tx o) <= 2) (l_outputs ledger)) as <- by by rewrite example_views.
    rewrite filter_fmap_comm. destruct c; [done|]. unfold db at 2. cbn [tx_out]. by rewrite reverse_Permutation.
  - destruct c; [done|]. assert (spends_in Consumed (db Consumed) = reverse (spends_in Enabled (db Enabled))) as -> by by vm_compute.
    by rewrite reverse_Permutation.
  - intros policy name. destruct (decide ([77] = policy /\ [] = name)) as [[<- <-]|Hne]; [by destruct c|].
    unfold tokens_in, resolve_multi_asset_id, tokens_of. cbn [multi_asset db l_tokens ledger].
    rewrite !filter_cons, !filter_nil. cbn [ma_policy ma_name fst]. rewrite decide_False by done. cbn [head fmap option_fmap option_map].
    rewrite decide_False; [done|]. intros [= <- <-]. by destruct Hne.
Qed.

Lemma example_final c e t : e <= 2 -> final (nd_world (node c)) ledger c e t.
Proof. intros He t' d _ [= <-]. eapply represents_mono; [exact He|apply example_represents]. Qed.

Lemma example_node c : valid_node ledger (node c).
Proof.
  split.
  - intros m. destruct c; cbn; [done|]. by rewrite reverse_Permutation.
  - intros t d [= <-]. by destruct c.
  - by intros t t' d d' policy name id _ [= <-] [= <-].
  - intros t d e [= <-] He. apply example_final. destruct c; vm_compute in He; injection He as <-; lia.
Qed.

Lemma example_scripts : scripts_ok ledger scripts.
Proof.
  split.
  - intros o Ho Ha. repeat (apply elem_of_cons in Ho as [->|Ho]; [vm_compute in Ha |- *; congruence|]). by apply elem_of_nil in Ho.
  - intros x y. change (tokens_of ledger (permissioned_candidates_policy_id scripts) [])
      with [view_of (db Enabled) (output (tx 3 3) 0 [8] (Some [53]) None)].
    by intros ->%list_elem_of_singleton ->%list_elem_of_singleton.
Qed.

Lemma example_unique : outputs_unique ledger.
Proof.
  intros o o' [i Hi]%list_elem_of_lookup [j Hj]%list_elem_of_lookup _ Hb Hx.
  assert (NoDup ((fun o => (t_block_index (lo_tx o), lo_index o)) <$> l_outputs ledger)) as Hnd
    by (apply (bool_decide_unpack _); by vm_compute).
  assert (i = j) as ->; [|congruence].
  eapply NoDup_lookup; [exact Hnd|by rewrite list_lookup_fmap, Hi|rewrite list_lookup_fmap, Hj; cbn; by rewrite Hb, Hx].
Qed.

Lemma example_stake e : stake_ok ledger e.
Proof.
  intros p. unfold stake_rows, group_sum. cbn [l_stake ledger epoch_stake db].
  repeat (rewrite filter_cons; case_decide); rewrite ?filter_nil; repeat (rewrite filter_cons; case_decide); rewrite ?filter_nil;
    unfold in_u, umax; cbn; lia.
Qed.
End AgreementExample.
Import AuthorityExample AgreementExample.

Lemma provider_follows_ledger_witness :
  exists inputs s', @new_provider _ _ _ _ (cached_source id map_to_list (nd_world (node Enabled)) 1)
    (Some 2) (Some scripts) sc_config mc_config 25 1 fresh = Ok (Some inputs, s') /\
  exists e de ref, mc_epoch_for_next_ariadne_cidp (DsErr:=DataSourceError) (Address:=Bytes) (Policy:=Bytes)
      (Some 2) sc_config mc_config 25 = Ok e /\ offset_data_epoch e = Some de /\
    ledger_inputs id ledger de scripts = Ok ref /\ same_inputs inputs ref.
Proof.
  pose proof (provider_follows_ledger id map_to_list (nd_world (node Enabled)) 1 ledger Enabled true (example_node Enabled)
    example_stake (Some 2) scripts sc_config mc_config 25 1 fresh (nr_new _ _ _ _ _ _ _) example_scripts
    (fun de H => example_final Enabled de _ ltac:(lia))) as Hp.
  destruct (new_provider _ _ _ _ _ _ _) as [[[inputs|] s']|err|] eqn:Hr; [|vm_compute in Hr; discriminate..].
  destruct Hp as [_ (e & de & ref & He & Hde & _ & Hl & Hs)]. exists inputs, s'. split; [reflexivity|]. by exists e, de, ref.
Defined.

(** The two nodes offer the candidates in different orders. *)
Lemma nodes_select_the_same_committee_witness :
  exists inputs1 inputs2,
    provides id (node Enabled) (Some 2) scripts sc_config mc_config 25 1 fresh inputs1 /\
    provides id (node Consumed) (Some 2) scripts sc_config mc_config 25 1 fresh inputs2 /\
    stake_pool_public_key <$> registered_candidates inputs1 = reverse (stake_pool_public_key <$> registered_candidates inputs2) /\
    length (registered_candidates inputs1) = 2%nat /\
    select_authorities_optionally_overriding (Rng:=Bytes * Z) (fun pk => pk) session_keys_maybe_from
      AuthorityExample.candidate_le 4 (AuthorityExample.utxo 0) AuthorityExample.parameters inputs1 12 =
    select_authorities_optionally_overriding (Rng:=Bytes * Z) (fun pk => pk) session_keys_maybe_from
      AuthorityExample.candidate_le 4 (AuthorityExample.utxo 0) AuthorityExample.parameters inputs2 12.
Proof.
  destruct (@new_provider _ _ _ _ (cached_source id map_to_list (nd_world (node Enabled)) 1)
    (Some 2) (Some scripts) sc_config mc_config 25 1 fresh) as [[[inputs1|] s1]|err|] eqn:H1; [|vm_compute in H1; discriminate..].
  destruct (@new_provider _ _ _ _ (cached_source id (nd_into_iter (node Consumed)) (nd_world (node Consumed)) 1)
    (Some 2) (Some scripts) sc_config mc_config 25 1 fresh) as [[[inputs2|] s2]|err|] eqn:H2; [|vm_compute in H2; discriminate..].
  assert (provides id (node Enabled) (Some 2) scripts sc_config mc_config 25 1 fresh inputs1) as P1 by by exists s1.
  assert (provides id (node Consumed) (Some 2) scripts sc_config mc_config 25 1 fresh inputs2) as P2 by by exists s2.
  exists inputs1, inputs2. split; [exact P1|]. split; [exact P2|].
  split; [|split].
  - vm_compute in H1. vm_compute in H2. injection H1 as <- _. injection H2 as <- _. by vm_compute.
  - vm_compute in H1. injection H1 as <- _. done.
  - apply (nodes_select_the_same_committee (Rng:=Bytes * Z) id ledger (fun pk => pk) session_keys_maybe_from
      AuthorityExample.candidate_le (node Enabled) (node Consumed) fresh fresh (Some 2) scripts sc_config mc_config 25 1
      inputs1 inputs2 4 (AuthorityExample.utxo 0) AuthorityExample.parameters 12);
      [apply example_node..|apply nr_new|apply nr_new|intros de Hde; apply (example_final Enabled); lia|
       intros de Hde; apply (example_final Consumed); lia|apply example_scripts|apply example_unique|apply example_stake|exact P1|exact P2].
Defined.

(** A registration whose datum is not known yet is left out, also from the cached answer for
    a stable epoch: when the datum is revealed by a later transaction, a node that asks
    then counts one candidate more for the same epoch. *)
Definition before_reveal : Db := {|
  CandidatesDb.block := CandidatesDb.block (db Enabled); tx_out := tx_out (db Enabled); tx_in := tx_in (db Enabled);
  datum_table := filter (fun x => fst x <> [51]) (datum_table (db Enabled));
  multi_asset := multi_asset (db Enabled); ma_tx_out := ma_tx_out (db Enabled);
  epoch_stake := epoch_stake (db Enabled); epoch_param := epoch_param (db Enabled)
|}.
(** The number of candidates in the answer of a node, and its state *)
Definition count_candidates (d : Db) (s : Cached) : option (nat * Cached) :=
  match cached_get_candidates id map_to_list (fun _ => Some d) 1 2 [100] s with
  | Ok (a, s') => Some (length a, s')
  | _ => None
  end.
Lemma late_datum_changes_candidates :
  fst <$> count_candidates before_reveal fresh = Some 1%nat /\
  fst <$> count_candidates (db Enabled) fresh = Some 2%nat /\
  ('(_, s) ← count_candidates before_reveal fresh; fst <$> count_candidates (db Enabled) s) = Some 1%nat.
Proof. by vm_compute. Qed.
