(* ===== verification/CNightWindow.v ===== *)
(** * Windows of observed UTXOs

    Models the pure part of
    [src/primitives/mainchain-follower/src/data_source/cnight_observation_bulk.rs]: the window
    of a sorted list of events between two positions, and its truncation to a number of
    transactions.  Shows that consecutive windows, each from the end of the one before, take
    every event once and in order, and that they reach the tip. *)

From stdpp Require Import sorting.
From S2P Require Import Prelude CNightPrimitives.

(** ** Positions *)

(** [p < q] *)
Definition position_lt (p q : CardanoPosition) : bool := negb (position_ge p q).

Lemma position_lt_spec p q : position_lt p q = true <->
  block_number p < block_number q \/ block_number p = block_number q /\ tx_index_in_block p < tx_index_in_block q.
Proof.
  unfold position_lt, position_ge, position_cmp.
  destruct (Z.compare_spec (block_number p) (block_number q)), (Z.compare_spec (tx_index_in_block p) (tx_index_in_block q));
    simpl; split; intros; try done; lia.
Qed.

Lemma position_lt_false p q : position_lt p q = false <->
  block_number q < block_number p \/ block_number p = block_number q /\ tx_index_in_block q <= tx_index_in_block p.
Proof. rewrite <- not_true_iff_false, position_lt_spec. lia. Qed.

Ltac positions := repeat rewrite position_lt_spec in *; repeat rewrite position_lt_false in *; simpl in *; try lia.

(** [increment] does not wrap. *)
Definition small (p : CardanoPosition) : Prop := 0 <= tx_index_in_block p < umax 32.

Lemma increment_lt p q : small p -> position_lt q (increment p) = true <-> position_lt p q = false.
Proof.
  intros Hp. assert (in_u 32 (tx_index_in_block p + 1)) by (unfold small, in_u in *; lia).
  positions. unfold increment. rewrite wrap_small by done. simpl. lia.
Qed.

Section Window.
Context {A K : Type}.
Notation Utxo := (ObservedUtxo A K).

(** [ObservedUtxos] *)
Record ObservedUtxos := { start : CardanoPosition; end_ : CardanoPosition; utxos : list Utxo }.

Definition pos (u : Utxo) : CardanoPosition := tx_position (header u).

(** The loop of [truncate_to_tx_capacity]: the accepted events and [num_txs] *)
Fixpoint accept (tx_capacity num_txs : Z) (cur_tx : option CardanoPosition) (events : list Utxo) : list Utxo * Z :=
  match events with
  | [] => ([], num_txs)
  | utxo :: rest =>
      let fresh := match cur_tx with None => true | Some tx => position_lt tx (pos utxo) end in
      let num_txs := if fresh then num_txs + 1 else num_txs in
      let cur_tx := if fresh then Some (pos utxo) else cur_tx in
      if num_txs =? tx_capacity then ([], num_txs)
      else let '(truncated, n) := accept tx_capacity num_txs cur_tx rest in (utxo :: truncated, n)
  end.

Definition truncate_to_tx_capacity (events : list Utxo) (tx_capacity : Z)
    (start_position fallback_end : CardanoPosition) : ObservedUtxos * bool :=
  let '(truncated, num_txs) := accept tx_capacity 0 None events in
  let full_window := num_txs <? tx_capacity in
  let end_ := if full_window then fallback_end
              else increment (default start_position (pos <$> last truncated)) in
  ({| start := start_position; end_ := end_; utxos := truncated |}, full_window).

(** [partition_point]: the length of the prefix that satisfies [p], in a list partitioned by it *)
Fixpoint partition_point (p : Utxo -> bool) (l : list Utxo) : nat :=
  match l with [] => O | x :: l' => if p x then S (partition_point p l') else O end.

(** [slice_range]; [&vec[a..b]] panics when [a > b] *)
Definition slice_range {E} (vec : list Utxo) (start end_ : CardanoPosition) : outcome E (list Utxo) :=
  let a := partition_point (fun u => position_lt (pos u) start) vec in
  let b := partition_point (fun u => position_lt (pos u) end_) vec in
  if (a <=? b)%nat then Ok (take (b - a) (drop a vec)) else Panic.

(** The windows of consecutive blocks of the chain: each starts where the one before ended, and
    goes up to the main chain block that its block refers to. *)
Fixpoint follow {E} (events : list Utxo) (tx_capacity : Z) (start : CardanoPosition) (tips : list CardanoPosition)
  : outcome E (list Utxo * CardanoPosition) :=
  match tips with
  | [] => Ok ([], start)
  | tip :: tips =>
      let! window := slice_range events start (increment tip) in
      let w := fst (truncate_to_tx_capacity window tx_capacity start (increment tip)) in
      let! rest := follow events tx_capacity (end_ w) tips in
      Ok (utxos w ++ fst rest, snd rest)
  end.

(** ** Sorted events *)

Definition in_window (s e : CardanoPosition) (u : Utxo) : Prop := position_lt (pos u) s = false /\ position_lt (pos u) e = true.
#[global] Instance in_window_dec s e u : Decision (in_window s e u).
Proof. apply _. Defined.

Notation sorted := (StronglySorted (fun a b : Utxo => position_lt (pos b) (pos a) = false)).

Lemma utxo_le_sorted (l : list Utxo) : StronglySorted utxo_le l -> sorted l.
Proof.
  induction 1 as [|a l Hs IH Hf]; constructor; [done|]. eapply Forall_impl; [done|].
  intros b Hab. unfold utxo_le, utxo_cmp, header_cmp in Hab. unfold position_lt, position_ge, pos, position_cmp in *.
  rewrite (Z.compare_antisym (block_number (tx_position (header a)))).
  rewrite (Z.compare_antisym (tx_index_in_block (tx_position (header a)))).
  destruct (block_number _ ?= _); simpl; [|done..]. by destruct (tx_index_in_block _ ?= _).
Qed.

(** A list that [p] partitions splits at its partition point. *)
Lemma partition_point_split (p : Utxo -> bool) (l : list Utxo) :
  StronglySorted (fun a b => p b = true -> p a = true) l ->
  take (partition_point p l) l = filter (fun u => p u = true) l /\
  drop (partition_point p l) l = filter (fun u => p u <> true) l.
Proof.
  induction 1 as [|a l Hs [IH1 IH2] Hf]; [done|]. simpl. destruct (p a) eqn:Ha; simpl.
  - rewrite filter_cons_True, filter_cons_False, IH1, IH2 by (rewrite Ha; congruence). done.
  - rewrite Forall_forall in Hf. rewrite filter_cons_False, filter_cons_True by (rewrite Ha; congruence). split.
    + symmetry. apply filter_none. intros x Hx Hp. specialize (Hf x Hx Hp). congruence.
    + f_equal. symmetry. apply filter_all. intros x Hx Hp. specialize (Hf x Hx Hp). congruence.
Qed.

Lemma sorted_partitioned l s : sorted l ->
  StronglySorted (fun a b : Utxo => position_lt (pos b) s = true -> position_lt (pos a) s = true) l.
Proof.
  induction 1 as [|a l Hs IH Hf]; constructor; [done|]. eapply Forall_impl; [done|]. intros b Hab Hb. positions.
Qed.

Lemma StronglySorted_filter {B} (R : B -> B -> Prop) (P : B -> Prop) `{!forall x, Decision (P x)} (l : list B) :
  StronglySorted R l -> StronglySorted R (filter P l).
Proof.
  induction 1 as [|a l Hs IH Hf]; [constructor|]. rewrite filter_cons. case_decide; [|done]. constructor; [done|].
  rewrite Forall_forall in *. intros x [_ Hx]%list_elem_of_filter. auto.
Qed.

(** A window that does not end before it starts has the events at its positions. *)
Lemma slice_range_filter {E} l s e : sorted l -> position_lt e s = false ->
  slice_range (E:=E) l s e = Ok (filter (in_window s e) l).
Proof.
  intros Hl Hse. unfold slice_range.
  set (ps := fun u => position_lt (pos u) s). set (pe := fun u => position_lt (pos u) e).
  destruct (partition_point_split ps l) as [Hs1 Hs2]; [by apply sorted_partitioned|].
  destruct (partition_point_split pe l) as [He1 He2]; [by apply sorted_partitioned|].
  assert (partition_point ps l <= partition_point pe l)%nat as Hle.
  { clear -Hse. induction l as [|x l IH]; simpl; [done|]. destruct (ps x) eqn:H1; [|lia].
    replace (pe x) with true; [lia|]. symmetry. unfold ps, pe in *. positions. }
  rewrite (proj2 (Nat.leb_le _ _) Hle). f_equal.
  rewrite <- skipn_firstn_comm, He1.
  assert (partition_point ps (filter (fun u => pe u = true) l) = partition_point ps l) as <-.
  { rewrite <- He1. revert Hle. generalize (partition_point pe l). clear.
    induction l as [|x l IH]; intros [|n]; simpl; try done; try lia.
    destruct (ps x); [|done]. intros. f_equal. apply IH. lia. }
  destruct (partition_point_split ps (filter (fun u => pe u = true) l)) as [_ ->].
  { apply sorted_partitioned. by apply StronglySorted_filter. }
  rewrite list_filter_filter. apply list_filter_iff. intros u. unfold in_window, ps, pe.
  rewrite not_true_iff_false. tauto.
Qed.

(** ** Truncation *)

(** The number of transactions in sorted events, after [cur_tx] *)
Fixpoint count_txs (cur_tx : option CardanoPosition) (l : list Utxo) : Z :=
  match l with
  | [] => 0
  | u :: l =>
      if match cur_tx with None => true | Some tx => position_lt tx (pos u) end
      then 1 + count_txs (Some (pos u)) l else count_txs cur_tx l
  end.

Lemma count_txs_nonneg cur l : 0 <= count_txs cur l.
Proof. revert cur. induction l as [|u l IH]; intros cur; simpl; [done|]. case_match; [specialize (IH (Some (pos u))); lia|auto]. Qed.

(** What the loop accepts after [cur_tx] is a prefix.  It stops only before the transaction
    that would be number [tx_capacity], and then every event left is after those accepted. *)
Lemma accept_spec cap n cur l :
  sorted l -> Forall (fun u => match cur with Some c => position_lt (pos u) c = false | None => True end) l -> n < cap ->
  exists rest, l = fst (accept cap n cur l) ++ rest /\ snd (accept cap n cur l) <= cap /\
    (snd (accept cap n cur l) < cap -> rest = []) /\
    (snd (accept cap n cur l) = cap -> rest <> [] /\
      Forall (fun v => (match cur with Some c => position_lt c (pos v) = true | None => True end) /\
                       Forall (fun u => position_lt (pos u) (pos v) = true) (fst (accept cap n cur l))) rest).
Proof.
  revert n cur. induction l as [|u l IH]; intros n cur Hs Hcur Hn; simpl.
  { exists []. repeat split; try done; try lia. all: simpl in *; lia. }
  apply StronglySorted_inv in Hs as [Hs Hu]. apply Forall_cons in Hcur as [Hcu Hcur].
  set (fresh := match cur with None => true | Some tx => position_lt tx (pos u) end).
  set (n' := if fresh then n + 1 else n). set (cur' := if fresh then Some (pos u) else cur).
  destruct (Z.eqb_spec n' cap) as [E|E]; simpl.
  { exists (u :: l). split; [done|]. split; [lia|]. split; [lia|]. intros _. split; [done|].
    assert (fresh = true) as Hf by (destruct fresh; [done|lia]).
    apply Forall_forall. intros v Hv. split; [|by constructor]. destruct cur as [c|]; [|done].
    simpl in Hf. apply elem_of_cons in Hv as [->|Hv]; [done|].
    rewrite Forall_forall in Hu. specialize (Hu v Hv). unfold fresh in Hf. positions. }
  destruct (IH n' cur' Hs) as (rest & Hl & Hle & Hlt & Heq).
  - unfold cur'. destruct fresh; [done|]. exact Hcur.
  - unfold n' in *. destruct fresh; lia.
  - destruct (accept cap n' cur' l) as [acc m] eqn:Ea. simpl in *. exists rest.
    split; [by rewrite Hl at 1|]. split; [done|]. split; [done|]. intros Hm. destruct (Heq Hm) as [Hne Hall].
    split; [done|]. eapply Forall_impl; [exact Hall|]. simpl. intros v [Hv1 Hv2]. unfold cur', fresh in *.
    destruct cur as [c|].
    + destruct (position_lt c (pos u)) eqn:Ec; (split; [|constructor; [|done]]); positions.
    + split; [done|]. by constructor.
Qed.

Lemma accept_count cap n cur l rest : n < cap -> l = fst (accept cap n cur l) ++ rest ->
  if snd (accept cap n cur l) <? cap then snd (accept cap n cur l) = n + count_txs cur l
  else count_txs cur l = cap - 1 - n + count_txs None rest.
Proof.
  revert n cur. induction l as [|u l IH]; intros n cur Hn Hl; simpl in *.
  { case_match; lia. }
  set (fresh := match cur with None => true | Some tx => position_lt tx (pos u) end) in *.
  destruct (Z.eqb_spec (if fresh then n + 1 else n) cap) as [E|E]; simpl in *.
  { rewrite (proj2 (Z.ltb_ge _ _)) by lia. subst rest. destruct fresh; [|lia]. simpl. lia. }
  destruct (accept cap _ _ l) as [acc m] eqn:Ea. simpl in *.
  specialize (IH (if fresh then n + 1 else n) (if fresh then Some (pos u) else cur)).
  rewrite Ea in IH. assert (l = acc ++ rest) as Hl' by congruence.
  assert ((if fresh then n + 1 else n) < cap) as Hn' by (destruct fresh; lia). specialize (IH Hn' Hl').
  simpl in IH. destruct (m <? cap), fresh; lia.
Qed.

(** A truncated window is a prefix of the events up to its end, which is not before its start. *)
Lemma truncate_spec cap l s e :
  2 <= cap -> sorted l -> Forall (in_window s e) l -> Forall (fun u => small (pos u)) l -> position_lt e s = false ->
  let w := fst (truncate_to_tx_capacity l cap s e) in
  utxos w = filter (in_window s (end_ w)) l /\ start w = s /\
  position_lt (end_ w) s = false /\ position_lt e (end_ w) = false /\
  (end_ w = e \/ 0 < count_txs None (filter (in_window (end_ w) e) l) /\
                 count_txs None l = cap - 1 + count_txs None (filter (in_window (end_ w) e) l)).
Proof.
  intros Hcap Hs Hw Hsm Hse. unfold truncate_to_tx_capacity.
  destruct (accept_spec cap 0 None l) as (rest & Hl & Hle & Hlt & Heq); [done|by apply Forall_true|lia|].
  pose proof (accept_count cap 0 None l rest ltac:(lia) Hl) as Hc.
  destruct (accept cap 0 None l) as [acc m] eqn:Ea. simpl in *.
  destruct (Z.ltb_spec m cap) as [Hm|Hm]; simpl.
  { rewrite (Hlt Hm), app_nil_r in Hl. subst acc. rewrite filter_all; [|by apply Forall_forall].
    repeat split; try done; [|by left]. apply position_lt_false. lia. }
  destruct (Heq ltac:(lia)) as [Hne Hafter]. clear Heq Hlt.
  assert (acc <> []) as Hacc.
  { intros ->. simpl in Hl. subst l. lia. }
  destruct (exists_last Hacc) as (acc' & z & ->). rewrite last_snoc. simpl.
  assert (forall u, u ∈ acc' ++ [z] -> position_lt (pos z) (pos u) = false) as Hmax.
  { rewrite Hl in Hs. apply StronglySorted_app in Hs as (_ & Hs & _). intros u [Hu| ->%list_elem_of_singleton]%elem_of_app.
    - apply StronglySorted_app in Hs as (Hx & _). apply (Hx u z Hu). by left.
    - positions. }
  assert (small (pos z)) as Hz.
  { rewrite Forall_forall in Hsm. apply Hsm. rewrite Hl. apply elem_of_app. left. apply elem_of_app. right. by left. }
  assert (forall u, position_lt (pos u) (increment (pos z)) = true <-> position_lt (pos z) (pos u) = false) as Hinc
    by (intros; by apply increment_lt).
  rewrite Forall_forall in Hw, Hafter.
  assert (forall u, u ∈ rest -> position_lt (pos u) (increment (pos z)) = false) as Hrest.
  { intros v Hv. apply not_true_iff_false. rewrite Hinc. destruct (Hafter v Hv) as [_ Hx]. rewrite Forall_forall in Hx.
    rewrite (Hx z); [done|]. apply elem_of_app. right. by left. }
  assert (forall u, u ∈ acc' ++ [z] -> in_window s e u) as Hacc1 by (intros u Hu; apply Hw; rewrite Hl; set_solver).
  assert (forall u, u ∈ rest -> in_window s e u) as Hrest1 by (intros u Hu; apply Hw; rewrite Hl; set_solver).
  assert (filter (in_window s (increment (pos z))) l = acc' ++ [z]) as Hf1.
  { rewrite Hl, filter_app, filter_all, filter_none, app_nil_r; [done|..].
    - intros u Hu [_ Hx]. by rewrite (Hrest u Hu) in Hx.
    - intros u Hu. split; [apply Hacc1, Hu|]. by apply Hinc, Hmax. }
  assert (filter (in_window (increment (pos z)) e) l = rest) as Hf2.
  { rewrite Hl, filter_app, filter_none, filter_all; [done|..].
    - intros u Hu. split; [by apply Hrest|apply Hrest1, Hu].
    - intros u Hu [Hx _]. rewrite (proj2 (Hinc u)) in Hx; [done|]. by apply Hmax. }
  assert (in_window s e z) as [Hz1 _] by (apply Hacc1; set_solver).
  destruct rest as [|v rest]; [done|]. destruct (Hrest1 v ltac:(left)) as [_ Hv]. specialize (Hrest v ltac:(left)).
  rewrite Hf1, Hf2. split; [done|]. split; [done|]. split; [|split; [|right; split; [simpl; pose proof (count_txs_nonneg (Some (pos v)) rest); lia|lia]]].
  - assert (position_lt (pos z) (increment (pos z)) = true) by (apply Hinc; positions). positions.
  - positions.
Qed.

(** ** Consecutive windows *)

Lemma window_app l s m e : sorted l -> position_lt m s = false -> position_lt e m = false ->
  filter (in_window s m) l ++ filter (in_window m e) l = filter (in_window s e) l.
Proof.
  intros Hl Hsm Hme. induction Hl as [|u l Hl IH Hu]; [done|]. rewrite Forall_forall in Hu.
  destruct (position_lt (pos u) m) eqn:Eu.
  - rewrite (filter_cons_False (in_window m e)) by (intros [H1 H2]; congruence).
    rewrite !filter_cons. destruct (decide (in_window s m u)) as [H1|H1], (decide (in_window s e u)) as [H2|H2];
      unfold in_window in *; simpl; rewrite ?IH; try done; exfalso; [apply H2|apply H1]; split; positions; tauto.
  - rewrite (filter_none (in_window s m)).
    + rewrite app_nil_l. apply filter_ext_elem. intros x Hx. unfold in_window.
      assert (position_lt (pos x) m = false).
      { apply elem_of_cons in Hx as [->|Hx]; [done|]. specialize (Hu x Hx). positions. }
      assert (position_lt (pos x) s = false) by positions. tauto.
    + intros x Hx [_ Hxm]. apply elem_of_cons in Hx as [->|Hx]; [congruence|]. specialize (Hu x Hx). positions.
Qed.

Lemma window_window (l : list Utxo) s m e : position_lt e m = false -> filter (in_window s m) (filter (in_window s e) l) = filter (in_window s m) l.
Proof.
  intros Hme. rewrite list_filter_filter. apply list_filter_iff. intros u. unfold in_window. split; [tauto|].
  intros [H1 H2]. repeat split; try done. positions.
Qed.
Lemma window_window_r (l : list Utxo) s m e : position_lt m s = false -> filter (in_window m e) (filter (in_window s e) l) = filter (in_window m e) l.
Proof.
  intros Hme. rewrite list_filter_filter. apply list_filter_iff. intros u. unfold in_window. split; [tauto|].
  intros [H1 H2]. repeat split; try done. positions.
Qed.

Section Follow.
Context (events : list Utxo) (tx_capacity : Z).
Hypothesis events_sorted : sorted events.
Hypothesis events_small : Forall (fun u => small (pos u)) events.
Hypothesis capacity_ok : 2 <= tx_capacity.

(** One window *)
Lemma window_step {E} s tip : small tip -> position_lt (increment tip) s = false ->
  exists w, slice_range (E:=E) events s (increment tip) = Ok w /\
    let r := fst (truncate_to_tx_capacity w tx_capacity s (increment tip)) in
    utxos r = filter (in_window s (end_ r)) events /\
    position_lt (end_ r) s = false /\ position_lt (increment tip) (end_ r) = false /\
    (end_ r = increment tip \/ 0 < count_txs None (filter (in_window (end_ r) (increment tip)) events) /\
       count_txs None (filter (in_window s (increment tip)) events) =
       tx_capacity - 1 + count_txs None (filter (in_window (end_ r) (increment tip)) events)).
Proof.
  intros Ht Hs. eexists. split; [by apply slice_range_filter|].
  destruct (truncate_spec tx_capacity (filter (in_window s (increment tip)) events) s (increment tip)) as (H1 & _ & H3 & H4 & H5).
  - done.
  - by apply StronglySorted_filter.
  - apply Forall_forall. by intros u [? _]%list_elem_of_filter.
  - rewrite Forall_forall in *. intros u [_ ?]%list_elem_of_filter. auto.
  - done.
  - simpl. rewrite H1 at 1. rewrite window_window by done. rewrite window_window_r in H5 by done. auto.
Qed.

Lemma follow_spec {E} tips s :
  StronglySorted (fun a b => position_lt b a = false) tips -> Forall small tips ->
  Forall (fun t => position_lt (increment t) s = false) tips ->
  exists p, follow (E:=E) events tx_capacity s tips = Ok (filter (in_window s p) events, p) /\ position_lt p s = false.
Proof.
  intros Hsorted. revert s. induction Hsorted as [|t tips Hs IH Ht]; intros s Hsm Hst; simpl.
  { exists s. split; [|apply position_lt_false; lia]. rewrite filter_none; [done|]. intros u _ [H1 H2]. congruence. }
  apply Forall_cons in Hsm as [Hsm Hsms], Hst as [Hst Hsts].
  destruct (window_step (E:=E) s t Hsm Hst) as (w & -> & H1 & H2 & H3 & _). simpl.
  set (r := fst _) in *. destruct (IH (end_ r) Hsms) as (p & -> & Hp).
  { rewrite Forall_forall in *. intros t' Ht'. specialize (Ht t' Ht').
    assert (position_lt t (increment t') = true) by (apply increment_lt; [by apply Hsms|done]).
    assert (position_lt (increment t') (increment t) = false).
    { apply not_true_iff_false. intros Hlt. rewrite increment_lt in Hlt by done. congruence. }
    positions. }
  simpl. exists p. rewrite H1, window_app by done. split; [done|]. positions.
Qed.

Lemma follow_reaches {E} n s tip : small tip -> position_lt (increment tip) s = false ->
  count_txs None (filter (in_window s (increment tip)) events) <= Z.of_nat n * (tx_capacity - 1) -> (0 < n)%nat ->
  exists us, follow (E:=E) events tx_capacity s (replicate n tip) = Ok (us, increment tip).
Proof.
  intros Ht. revert s. induction n as [|n IH]; intros s Hs Hc Hn; [lia|]. simpl.
  destruct (window_step (E:=E) s tip Ht Hs) as (w & -> & H1 & H2 & H3 & H4). simpl. set (r := fst _) in *.
  assert (position_lt (increment tip) (increment tip) = false) as Hrefl by positions.
  destruct H4 as [->|[Hpos H4]].
  - destruct n as [|n]; [by eexists|]. destruct (IH (increment tip)) as [us ->]; [done| |lia|by eexists].
    rewrite filter_none by (intros u _ [? ?]; congruence). cbn [count_txs]. nia.
  - destruct n as [|n]; [lia|]. destruct (IH (end_ r)) as [us ->]; [done|nia|lia|by eexists].
Qed.
End Follow.

End Window.
Arguments ObservedUtxos : clear implicits.

(** Consecutive windows lose no event and repeat none.  Let each block take the window from
    where the block before it stopped up to the main chain block that it refers to, truncated to
    the capacity.  If the references never go back and at least two transactions fit, then no
    window panics, and the windows together contain the events between the first start and the
    last end, in order and once each, wherever the capacity cuts them. *)
Theorem windows_take_every_event {A K E} (events : list (ObservedUtxo A K)) tx_capacity tips s :
  StronglySorted utxo_le events -> Forall (fun u => small (pos u)) events -> 2 <= tx_capacity ->
  StronglySorted (fun a b => position_lt b a = false) tips -> Forall small tips ->
  Forall (fun t => position_lt (increment t) s = false) tips ->
  exists p, follow (E:=E) events tx_capacity s tips = Ok (filter (in_window s p) events, p) /\ position_lt p s = false.
Proof. intros Hs%utxo_le_sorted Hsm Hc. by apply follow_spec. Qed.

(** Catching up.  While the main chain reference stays the same, the windows reach its end
    after as many blocks as it takes to pass the transactions left, [tx_capacity - 1] in a block. *)
Theorem windows_reach_tip {A K E} (events : list (ObservedUtxo A K)) tx_capacity n s tip :
  StronglySorted utxo_le events -> Forall (fun u => small (pos u)) events -> 2 <= tx_capacity ->
  small tip -> position_lt (increment tip) s = false ->
  count_txs None (filter (in_window s (increment tip)) events) <= Z.of_nat n * (tx_capacity - 1) -> (0 < n)%nat ->
  follow (E:=E) events tx_capacity s (replicate n tip) = Ok (filter (in_window s (increment tip)) events, increment tip).
Proof.
  intros Hs%utxo_le_sorted Hsm Hc Ht Hst Hn Hn0.
  destruct (follow_reaches (E:=E) events tx_capacity Hs Hsm Hc n s tip Ht Hst Hn Hn0) as [us Hus].
  destruct (follow_spec (E:=E) events tx_capacity Hs Hsm Hc (replicate n tip) s) as (p & Hp & _).
  - clear -Ht. induction n; constructor; [done|]. apply Forall_replicate. apply position_lt_false. lia.
  - by apply Forall_replicate.
  - by apply Forall_replicate.
  - rewrite Hp in Hus. by simplify_eq.
Qed.

Module WindowExample.
Definition at_ (b i : Z) : CardanoPosition :=
  {| block_hash := []; block_number := b; block_timestamp := 0; tx_index_in_block := i |}.
(** Two events of one transaction, and three transactions with one each *)
Definition events := [Example.utxo 5 0 true 1; Example.utxo 5 0 true 2; Example.utxo 5 3 true 3;
                      Example.utxo 7 1 false 4; Example.utxo 8 0 true 5].
Lemma events_sorted : StronglySorted utxo_le events.
Proof. repeat constructor; vm_compute; discriminate. Qed.
Lemma events_small : Forall (fun u => small (pos u)) events.
Proof. repeat constructor; vm_compute; congruence. Qed.
End WindowExample.

Lemma windows_take_every_event_witness :
  exists p, follow (E:=unit) WindowExample.events 2 (WindowExample.at_ 5 0) [WindowExample.at_ 6 4; WindowExample.at_ 7 2]
    = Ok (filter (in_window (WindowExample.at_ 5 0) p) WindowExample.events, p) /\ position_lt p (WindowExample.at_ 5 0) = false.
Proof.
  apply (windows_take_every_event WindowExample.events 2 [WindowExample.at_ 6 4; WindowExample.at_ 7 2] (WindowExample.at_ 5 0)).
  - apply WindowExample.events_sorted.
  - apply WindowExample.events_small.
  - lia.
  - repeat constructor.
  - repeat constructor; vm_compute; congruence.
  - repeat constructor.
Defined.

Lemma windows_reach_tip_witness :
  follow (E:=unit) WindowExample.events 2 (WindowExample.at_ 5 0) (replicate 4 (WindowExample.at_ 8 1))
    = Ok (filter (in_window (WindowExample.at_ 5 0) (WindowExample.at_ 8 2)) WindowExample.events, WindowExample.at_ 8 2).
Proof.
  apply (windows_reach_tip WindowExample.events 2 4 (WindowExample.at_ 5 0) (WindowExample.at_ 8 1)).
  - apply WindowExample.events_sorted.
  - apply WindowExample.events_small.
  - lia.
  - vm_compute. split; congruence.
  - reflexivity.
  - vm_compute. congruence.
  - lia.
Defined.

(** With a capacity of one, the window steps over the event at its start. *)
Lemma capacity_one_loses_event :
  follow (E:=unit) WindowExample.events 1 (WindowExample.at_ 5 0) [WindowExample.at_ 6 4] = Ok ([], WindowExample.at_ 5 1).
Proof. reflexivity. Qed.

(** A window that ends before it starts panics if there are events between. *)
Lemma backward_window_panics :
  slice_range (E:=unit) WindowExample.events (WindowExample.at_ 8 0) (WindowExample.at_ 5 1) = Panic.
Proof. reflexivity. Qed.
