(* ===== verification/CNightQueries.v ===== *)
(** * Queries for cNIGHT events

    Models the data source that reads cNIGHT events from a Db-Sync database:
    [src/primitives/mainchain-follower/src/db/queries/cnight_observation.rs] (the queries and the
    bounds of table ids that make them fast), [db/types.rs] (their rows),
    [data_source/cnight_observation.rs] (decoding of rows, and the source that queries at each
    call) and [bulk_pull] of [data_source/cnight_observation_bulk.rs].  A foreign key to a row is
    the row itself, and the database changes between the queries of a call: the query number [n]
    sees [world n], or fails if there is none.  The order of rows that [ORDER BY] leaves open is
    a parameter, [Postgres], and so are the addresses of the Cardano serialization library. *)

From stdpp Require Import sorting.
From S2P Require Import Prelude Frame Plutus Domain PlutusData CNightPrimitives CNightWindow.
Open Scope Z_scope.

(** ** Parameters *)

(** [order_by key l]: the rows [l] in ascending order of their keys *)
Class Postgres := { order_by : forall {A : Type}, (A -> list Z) -> list A -> list A }.
Class PostgresLaws {pg : Postgres} := {
  order_by_perm {A} (key : A -> list Z) (l : list A) : order_by key l ≡ₚ l;
  order_by_sorted {A} (key : A -> list Z) (l : list A) :
    StronglySorted (fun a b => bytes_cmp (key a) (key b) <> Gt) (order_by key l)
}.

(** Addresses and credentials of the Cardano serialization library *)
Class CardanoAddresses := {
  Address : Type;
  Credential : Type;
  from_bech32 : Bytes -> option Address;
  network_id : Address -> option Z;
  enterprise_payment_cred : Address -> option Credential; (* [EnterpriseAddress::from_address(a)?.payment_cred()] *)
  base_stake_cred : Address -> option Credential; (* [BaseAddress::from_address(a)?.stake_cred()] *)
  to_scripthash : Credential -> option Bytes;
  cred_from_keyhash : Bytes -> option Credential; (* [Ed25519KeyHash::from_bytes], [Credential::from_keyhash] *)
  cred_from_scripthash : Bytes -> option Credential; (* [ScriptHash::from_bytes], [Credential::from_scripthash] *)
  reward_address : Z -> Credential -> Bytes (* [RewardAddress::new(network, cred).to_address().to_bytes()] *)
}.
Class CardanoAddressesLaws {ca : CardanoAddresses} := {
  reward_address_length n c : len (reward_address n c) = 29
}.

(** [x as i32] *)
Definition as_i32 (x : Z) : Z := let y := wrap 32 x in if y <? 2 ^ 31 then y else y - 2 ^ 32.
Definition i32_max : Z := 2 ^ 31 - 1.
Definition i64_max : Z := 2 ^ 63 - 1.

(** ** Tables *)

(** [b_block_no], [b_epoch_no] and [b_slot_no] may be [NULL]; [b_time] is in milliseconds. *)
Record Block := {
  b_id : Z; b_hash : Bytes; b_block_no : option Z; b_epoch_no : option Z; b_slot_no : option Z;
  b_time : Z; b_tx_count : Z }.
Record Tx := { t_id : Z; t_hash : Bytes; t_block : Block; t_block_index : Z }.
Record TxOut := { o_id : Z; o_tx : Tx; o_index : Z; o_address : Bytes; o_data_hash : option Bytes }.
(** An input of [i_tx], the output [i_out_index] of the transaction with id [i_out_tx_id] *)
Record TxIn := { i_id : Z; i_tx : Tx; i_out_tx_id : Z; i_out_index : Z }.
Record MaTxOut := { m_id : Z; m_ident : Z; m_quantity : Z; m_tx_out : TxOut }.
Record MultiAsset := { ma_id : Z; ma_policy : Bytes; ma_name : Bytes }.

Record QueryBounds := { bound_tx_id : Z; bound_tx_out_id : Z; bound_ma_tx_out_id : Z; bound_tx_in_id : Z }.
Record PagedQuery := {
  q_start : CardanoPosition; q_end : CardanoPosition; q_limit : Z; q_offset : Z;
  low_bound : QueryBounds; high_bound : QueryBounds }.

Record CNightAddresses := {
  mapping_validator_address : Bytes; auth_token_asset_name : Bytes;
  cnight_policy_id : Bytes; cnight_asset_name : Bytes }.

Inductive SourceError :=
| MissingBlockReference (h : Bytes)
| DBQueryError
| InvalidMappingValidatorAddress
| NetworkId
| NotEnterpriseAddress
| MissingScriptHash
| MissingLowBounds (n : Z)
| MissingHighBounds (n : Z).

Inductive RegistrationDatumDecodeError :=
| CardanoCredentialNotBytes
| CardanoCredentialInvalidTag (tag : Z)
| CardanoCredentialInvalidKeyHash
| CardanoCredentialInvalidScriptHash
| DustAddressNotBytes
| DustAddressInvalidLength (n : Z).

Section Source.
Context {pg : Postgres} {ca : CardanoAddresses} {csl : CardanoSerializationLib}.
Notation Utxo := (ObservedUtxo Bytes Bytes).

(** [dt_value]: what [encode_json_value_to_plutus_datum] makes of the column, if anything *)
Record DatumRow := { dt_hash : Bytes; dt_value : option PlutusData }.
Record Db := {
  block : list Block; tx : list Tx; tx_out : list TxOut; tx_in : list TxIn;
  ma_tx_out : list MaTxOut; datum_table : list DatumRow; multi_asset : list MultiAsset }.

(** A row that the queries for registrations and deregistrations, or creations and spends,
    return: the observed transaction, the output and the transaction that created it *)
Record DatumUtxoRow := { dr_datum : PlutusData; dr_tx : Tx; dr_out : TxOut }.
Record AssetUtxoRow := { ar_quantity : Z; ar_tx : Tx; ar_out : TxOut }.

(** ** Queries *)

(** [LIMIT 1] after [ORDER BY] *)
Definition first_by {A} (key : A -> list Z) (l : list A) : option A := head (order_by key l).

Definition resolve_multi_asset_id (policy name : Bytes) (d : Db) : option Z :=
  ma_id <$> first_by (fun _ => []) (filter (fun a => ma_policy a = policy /\ ma_name a = name) (multi_asset d)).

(** The conditions on the block number and the index of a transaction *)
Definition in_range (q : PagedQuery) (t : Tx) : bool :=
  match b_block_no (t_block t) with
  | None => false
  | Some n =>
      let sb := as_i32 (block_number (q_start q)) in
      let si := as_i32 (tx_index_in_block (q_start q)) in
      let eb := as_i32 (block_number (q_end q)) in
      let ei := as_i32 (tx_index_in_block (q_end q)) in
      (sb <=? n) && (n <=? eb) && ((sb <? n) || ((n =? sb) && (si <=? t_block_index t)))
      && ((n <? eb) || ((n =? eb) && (t_block_index t <? ei)))
  end.
Definition within (field : QueryBounds -> Z) (q : PagedQuery) (id : Z) : bool :=
  (field (low_bound q) <=? id) && (id <=? field (high_bound q)).
Definition tx_within (q : PagedQuery) (t : Tx) : bool := within bound_tx_id q (t_id t).

(** [assert!] on the limit and the offset, then [LIMIT] and [OFFSET]; a row whose datum is no Plutus data fails the query *)
Definition paged {A B} (q : PagedQuery) (decode : A -> option B) (rows : list A) : outcome SourceError (list B) :=
  if (q_limit q <? i32_max) && (q_offset q <? i32_max) then
    some_or (mapM decode (take (Z.to_nat (q_limit q)) (drop (Z.to_nat (q_offset q)) rows))) DBQueryError
  else Panic.

(** [ORDER BY block.block_no, tx.block_index] and, for assets, [tx_out.index] *)
Definition tx_key (t : Tx) : list Z := [default 0 (b_block_no (t_block t)); t_block_index t].

(** [JOIN datum ON tx_out.data_hash = datum.hash] *)
Definition join_datum (d : Db) (o : TxOut) : list DatumRow :=
  filter (fun dt => o_data_hash o = Some (dt_hash dt)) (datum_table d).
(** [JOIN tx_out ON tx_out.tx_id = tx_in.tx_out_id AND tx_out.index = tx_in.tx_out_index] *)
Definition spent_out (d : Db) (i : TxIn) : list TxOut :=
  filter (fun o => t_id (o_tx o) = i_out_tx_id i /\ o_index o = i_out_index i) (tx_out d).
Definition datum_row (x : Tx * TxOut * DatumRow) : option DatumUtxoRow :=
  (fun v => {| dr_datum := v; dr_tx := fst (fst x); dr_out := snd (fst x) |}) <$> dt_value (snd x).

Definition registration_rows (d : Db) (address : Bytes) (ident : Z) (q : PagedQuery) : list (Tx * TxOut * DatumRow) :=
  m ← filter (fun m =>
        tx_within q (o_tx (m_tx_out m)) && within bound_tx_out_id q (o_id (m_tx_out m))
        && within bound_ma_tx_out_id q (m_id m) && in_range q (o_tx (m_tx_out m))
        && bool_decide (o_address (m_tx_out m) = address) && (m_ident m =? ident) && (m_quantity m =? 1)) (ma_tx_out d);
  dt ← join_datum d (m_tx_out m);
  [(o_tx (m_tx_out m), m_tx_out m, dt)].
Definition get_registrations (address : Bytes) (auth_token_ident : Z) (q : PagedQuery) (d : Db)
    : outcome SourceError (list DatumUtxoRow) :=
  paged q datum_row (order_by (fun x => tx_key (fst (fst x))) (registration_rows d address auth_token_ident q)).

Definition deregistration_rows (d : Db) (address : Bytes) (q : PagedQuery) : list (Tx * TxOut * DatumRow) :=
  i ← filter (fun i => in_range q (i_tx i) && tx_within q (i_tx i) && within bound_tx_in_id q (i_id i)) (tx_in d);
  o ← filter (fun o => o_address o = address) (spent_out d i);
  dt ← join_datum d o;
  [(i_tx i, o, dt)].
Definition get_deregistrations (address : Bytes) (q : PagedQuery) (d : Db) : outcome SourceError (list DatumUtxoRow) :=
  paged q datum_row (order_by (fun x => tx_key (fst (fst x))) (deregistration_rows d address q)).

Definition asset_key (r : AssetUtxoRow) : list Z := tx_key (ar_tx r) ++ [o_index (ar_out r)].
Definition create_rows (d : Db) (ident : Z) (q : PagedQuery) : list AssetUtxoRow :=
  (fun m => {| ar_quantity := m_quantity m; ar_tx := o_tx (m_tx_out m); ar_out := m_tx_out m |}) <$>
  filter (fun m =>
    tx_within q (o_tx (m_tx_out m)) && within bound_tx_out_id q (o_id (m_tx_out m))
    && within bound_ma_tx_out_id q (m_id m) && (m_ident m =? ident) && in_range q (o_tx (m_tx_out m))) (ma_tx_out d).
Definition get_asset_creates (ident : Z) (q : PagedQuery) (d : Db) : outcome SourceError (list AssetUtxoRow) :=
  paged q Some (order_by asset_key (create_rows d ident q)).

Definition spend_rows (d : Db) (ident : Z) (q : PagedQuery) : list AssetUtxoRow :=
  i ← filter (fun i => in_range q (i_tx i) && tx_within q (i_tx i) && within bound_tx_in_id q (i_id i)) (tx_in d);
  o ← spent_out d i;
  m ← filter (fun m => o_id (m_tx_out m) = o_id o /\ m_ident m = ident) (ma_tx_out d);
  [{| ar_quantity := m_quantity m; ar_tx := i_tx i; ar_out := o |}].
Definition get_asset_spends (ident : Z) (q : PagedQuery) (d : Db) : outcome SourceError (list AssetUtxoRow) :=
  paged q Some (order_by asset_key (spend_rows d ident q)).

(** [get_block_by_hash] and [From<Block> for CardanoPosition]; the columns of [Block] that may be [NULL] have to be there. *)
Definition get_block_by_hash (h : Bytes) (d : Db) : outcome SourceError (option CardanoPosition) :=
  match first_by (fun _ => []) (filter (fun b => b_hash b = h) (block d)) with
  | None => Ok None
  | Some b =>
      match b_block_no b, b_epoch_no b, b_slot_no b with
      | Some n, Some _, Some _ =>
          Ok (Some {| block_hash := b_hash b; block_number := n; block_timestamp := b_time b;
                      tx_index_in_block := wrap 32 (b_tx_count b) |})
      | _, _, _ => Err DBQueryError
      end
  end.

Definition get_low_bounds (block_no : Z) (d : Db) : option QueryBounds :=
  let block_id := default 0 (b_id <$> first_by (fun _ => []) (filter (fun b => b_block_no b = Some (as_i32 block_no)) (block d))) in
  let tx_id := default 0 (t_id <$> first_by (fun t => [- b_id (t_block t)]) (filter (fun t => b_id (t_block t) < block_id) (tx d))) in
  let tx_out_id := default 0 (o_id <$> first_by (fun o => [- t_id (o_tx o)]) (filter (fun o => t_id (o_tx o) <= tx_id) (tx_out d))) in
  let ma_tx_out_id := default 0 (m_id <$> first_by (fun m => [- o_id (m_tx_out m)]) (filter (fun m => o_id (m_tx_out m) <= tx_out_id) (ma_tx_out d))) in
  let tx_in_id := default 0 (i_id <$> first_by (fun i => [- t_id (i_tx i)]) (filter (fun i => t_id (i_tx i) <= tx_id) (tx_in d))) in
  Some {| bound_tx_id := tx_id; bound_tx_out_id := tx_out_id; bound_ma_tx_out_id := ma_tx_out_id; bound_tx_in_id := tx_in_id |}.

Definition get_high_bounds (block_no : Z) (d : Db) : option QueryBounds :=
  b ← first_by (fun _ => []) (filter (fun b => b_block_no b = Some (as_i32 block_no)) (block d));
  let tx_id := default i64_max (t_id <$> first_by (fun t => [b_id (t_block t)]) (filter (fun t => b_id (t_block t) > b_id b) (tx d))) in
  let tx_out_id := default i64_max (o_id <$> first_by (fun o => [t_id (o_tx o)]) (filter (fun o => t_id (o_tx o) >= tx_id) (tx_out d))) in
  let ma_tx_out_id := default i64_max (m_id <$> first_by (fun m => [o_id (m_tx_out m)]) (filter (fun m => o_id (m_tx_out m) >= tx_out_id) (ma_tx_out d))) in
  let tx_in_id := default i64_max (i_id <$> first_by (fun i => [t_id (i_tx i)]) (filter (fun i => t_id (i_tx i) >= tx_id) (tx_in d))) in
  Some {| bound_tx_id := tx_id; bound_tx_out_id := tx_out_id; bound_ma_tx_out_id := ma_tx_out_id; bound_tx_in_id := tx_in_id |}.

(** [max(block_no)] *)
Definition max_block_no (l : list Block) : option Z :=
  foldr (fun b acc => match b_block_no b, acc with
                      | Some n, Some m => Some (Z.max n m)
                      | Some n, None => Some n
                      | None, acc => acc
                      end) None l.
Definition latest_block (d : Db) : option Z := max_block_no (block d).
Definition highest_block_le (upper : Z) (d : Db) : option Z :=
  max_block_no (filter (fun b => Is_true (default false ((fun n => n <=? upper) <$> b_block_no b))) (block d)).

(** ** Events of rows *)

Definition decode_registration_datum (datum : Z * list PlutusData)
    : outcome RegistrationDatumDecodeError (Credential * Bytes) :=
  let list := snd datum in
  let! cardano_credential := some_or (d ← head list; as_constr_plutus_data d) CardanoCredentialNotBytes in
  let hash_bytes := d ← head (snd cardano_credential); as_bytes d in
  let! credential :=
    if fst cardano_credential =? 0 then some_or (b ← hash_bytes; cred_from_keyhash b) CardanoCredentialInvalidKeyHash
    else if fst cardano_credential =? 1 then some_or (b ← hash_bytes; cred_from_scripthash b) CardanoCredentialInvalidScriptHash
    else Err (CardanoCredentialInvalidTag (fst cardano_credential)) in
  let! dust_address := some_or (d ← list !! 1%nat; as_bytes d) DustAddressNotBytes in
  if len dust_address <=? 33 then Ok (credential, dust_address)
  else Err (DustAddressInvalidLength (len dust_address)).

(** The header of an output observed in a transaction *)
Definition header_of (t : Tx) (o : TxOut) : ObservedUtxoHeader :=
  {| tx_position := {| block_hash := b_hash (t_block t); block_number := default 0 (b_block_no (t_block t));
                       block_timestamp := b_time (t_block t); tx_index_in_block := t_block_index t |};
     tx_hash := t_hash t; utxo_tx_hash := t_hash (o_tx o); utxo_index := o_index o |}.

(** [to_bytes().try_into().unwrap()] to the 29 bytes of a reward address *)
Definition reward_address_bytes {E} (network : Z) (c : Credential) : outcome E Bytes :=
  some_or_panic (as_array_of 29 (reward_address network c)).

(** The loops over rows, which leave out those that do not decode *)
Fixpoint collect {E A B} (f : A -> outcome E (option B)) (l : list A) : outcome E (list B) :=
  match l with
  | [] => Ok []
  | x :: l => let! y := f x in let! ys := collect f l in Ok (match y with Some y => y :: ys | None => ys end)
  end.

(** A row of [get_registration_utxos] and of [get_deregistration_utxos], which differ in [make] *)
Definition datum_utxo {E} (make : Bytes -> Bytes -> ObservedUtxoData Bytes Bytes) (network : Z) (r : DatumUtxoRow)
    : outcome E (option Utxo) :=
  match as_constr_plutus_data (dr_datum r) with
  | None => Ok None
  | Some constr =>
      match decode_registration_datum constr with
      | Ok (credential, dust_public_key) =>
          let! cardano_address := reward_address_bytes network credential in
          Ok (Some {| header := header_of (dr_tx r) (dr_out r); data := make cardano_address dust_public_key |})
      | _ => Ok None
      end
  end.
Definition make_registration (a k : Bytes) : ObservedUtxoData Bytes Bytes :=
  Registration {| reg_reward_address := a; reg_dust_public_key := k |}.
Definition make_deregistration (a k : Bytes) : ObservedUtxoData Bytes Bytes :=
  Deregistration {| dereg_reward_address := a; dereg_dust_public_key := k |}.

(** A row of [get_asset_create_utxos] and of [get_asset_spend_utxos]; [quantity as u128] *)
Definition asset_utxo {E} (make : AssetUtxoRow -> Bytes -> Z -> ObservedUtxoData Bytes Bytes) (network : Z) (r : AssetUtxoRow)
    : outcome E (option Utxo) :=
  match a ← from_bech32 (o_address (ar_out r)); base_stake_cred a with
  | None => Ok None
  | Some stake_cred =>
      let! owner := reward_address_bytes network stake_cred in
      Ok (Some {| header := header_of (ar_tx r) (ar_out r); data := make r owner (wrap 128 (ar_quantity r)) |})
  end.
Definition make_create (r : AssetUtxoRow) (owner : Bytes) (value : Z) : ObservedUtxoData Bytes Bytes :=
  AssetCreate {| create_value := value; create_owner := owner;
                 create_tx_hash := t_hash (ar_tx r); create_tx_index := o_index (ar_out r) |}.
Definition make_spend (r : AssetUtxoRow) (owner : Bytes) (value : Z) : ObservedUtxoData Bytes Bytes :=
  AssetSpend {| spend_value := value; spend_owner := owner; spend_tx_hash := t_hash (o_tx (ar_out r));
                spend_tx_index := o_index (ar_out r); spending_tx_hash := t_hash (ar_tx r) |}.

(** ** The source

    Its state is the number of queries so far. *)
Context (world : nat -> option Db).
Notation Src := (M nat SourceError).

Definition query {A} (f : Db -> outcome SourceError A) : Src A := fun n =>
  match world n with
  | Some d => match f d with Ok a => Ok (a, S n) | Err e => Err e | Panic => Panic end
  | None => Err DBQueryError
  end.
Definition lift {A} (o : outcome SourceError A) : Src A := fun n =>
  match o with Ok a => Ok (a, n) | Err e => Err e | Panic => Panic end.

Definition get_registration_utxos (network ident : Z) (address : Bytes) (q : PagedQuery) : Src (list Utxo) :=
  let* rows := query (get_registrations address ident q) in
  lift (collect (datum_utxo make_registration network) rows).
Definition get_deregistration_utxos (network : Z) (address : Bytes) (q : PagedQuery) : Src (list Utxo) :=
  let* rows := query (get_deregistrations address q) in
  lift (collect (datum_utxo make_deregistration network) rows).
Definition get_asset_create_utxos (network ident : Z) (q : PagedQuery) : Src (list Utxo) :=
  let* rows := query (get_asset_creates ident q) in
  lift (collect (asset_utxo make_create network) rows).
Definition get_asset_spend_utxos (network ident : Z) (q : PagedQuery) : Src (list Utxo) :=
  let* rows := query (get_asset_spends ident q) in
  lift (collect (asset_utxo make_spend network) rows).

(** [sort] on [ObservedUtxo], which is stable *)
Fixpoint insert_utxo (u : Utxo) (l : list Utxo) : list Utxo :=
  match l with
  | [] => [u]
  | v :: l' => match utxo_cmp u v with Gt => v :: insert_utxo u l' | _ => u :: l end
  end.
Definition sort (l : list Utxo) : list Utxo := foldr insert_utxo [] l.

(** The address of the mapping validator: its network and the policy of the authorisation token *)
Definition mapping_validator (cfg : CNightAddresses) : outcome SourceError (Z * Bytes) :=
  let! address := some_or (from_bech32 (mapping_validator_address cfg)) InvalidMappingValidatorAddress in
  let! cardano_network := some_or (network_id address) NetworkId in
  let! payment_cred := some_or (enterprise_payment_cred address) NotEnterpriseAddress in
  let! policy_id := some_or (to_scripthash payment_cred) MissingScriptHash in
  Ok (cardano_network, policy_id).

Definition bulk_pull (cfg : CNightAddresses) (start end_ : CardanoPosition) (limit : Z) : Src (list Utxo) :=
  let* '(cardano_network, policy_id) := lift (mapping_validator cfg) in
  let* auth_token_ident := query (fun d => Ok (resolve_multi_asset_id policy_id (auth_token_asset_name cfg) d)) in
  let* cnight_ident := query (fun d => Ok (resolve_multi_asset_id (cnight_policy_id cfg) (cnight_asset_name cfg) d)) in
  let* low_bounds := query (fun d => Ok (get_low_bounds (block_number start) d)) in
  let* high_bounds := query (fun d => Ok (get_high_bounds (block_number end_) d)) in
  let* low_bounds := ok_or low_bounds (MissingLowBounds (block_number start)) in
  let* high_bounds := ok_or high_bounds (MissingHighBounds (block_number end_)) in
  let paged := {| q_start := start; q_end := end_; q_limit := limit; q_offset := 0;
                  low_bound := low_bounds; high_bound := high_bounds |} in
  let* registrations := match auth_token_ident with
                        | Some ident => get_registration_utxos cardano_network ident (mapping_validator_address cfg) paged
                        | None => ret []
                        end in
  let* deregistrations := get_deregistration_utxos cardano_network (mapping_validator_address cfg) paged in
  let* assets := match cnight_ident with
                 | Some ident =>
                     let* creates := get_asset_create_utxos cardano_network ident paged in
                     let* spends := get_asset_spend_utxos cardano_network ident paged in
                     ret (creates ++ spends)
                 | None => ret []
                 end in
  ret (sort (registrations ++ deregistrations ++ assets)).

(** [MidnightCNightObservationDataSourceImpl::get_utxos_up_to_capacity] *)
Definition get_utxos_up_to_capacity (config : CNightAddresses) (start_position : CardanoPosition) (current_tip : Bytes)
    (tx_capacity utxo_overestimate : Z) : Src (ObservedUtxos Bytes Bytes) :=
  let* tip := query (get_block_by_hash current_tip) in
  let* tip := ok_or tip (MissingBlockReference current_tip) in
  let end_ := increment tip in
  let* utxos := bulk_pull config start_position end_ utxo_overestimate in
  ret (fst (truncate_to_tx_capacity utxos tx_capacity start_position end_)).

(** The first query is [SELECT max(block_no)]; a number beyond [u32] counts as its maximum. *)
Definition get_highest_stable_block_le (upper stability_margin : Z) : Src (option Z) :=
  let* latest := query (fun d => Ok (latest_block d)) in
  match latest with
  | None => ret None
  | Some latest =>
      let latest := if (0 <=? latest) && (latest <=? umax 32) then latest else umax 32 in
      let stable_upper := saturating_sub latest stability_margin in
      let bounded_upper := Z.min upper stable_upper in
      let* max := query (fun d => Ok (highest_block_le bounded_upper d)) in
      ret (wrap 32 <$> max)
  end.
End Source.
