(* ===== verification/CNightLedger.v ===== *)
(** * cNIGHT events of the ledger

    What the queries of [CNightQueries] promise: the events of the main chain's ledger between two
    positions.  A database represents the ledger up to a height if its tables, joined, hold the
    ledger's tokens and spends up to there.  Shows that the bounds of table ids lose no row, and
    that a pull whose queries stay within their row limit returns exactly the ledger's events. *)

From stdpp Require Import sorting.
From S2P Require Import Prelude Frame Plutus Domain PlutusData CNightPrimitives CNightWindow CNightQueries.
Open Scope Z_scope.

Section Ledger.
Context {pg : Postgres} {ca : CardanoAddresses} {csl : CardanoSerializationLib}.
Notation Utxo := (ObservedUtxo Bytes Bytes).

(** ** The ledger *)

(** A transaction, without a position if its block has no number *)
Record LedgerTx := { lt_pos : option CardanoPosition; lt_hash : Bytes }.
Record LedgerOut := { lo_tx : LedgerTx; lo_index : Z; lo_address : Bytes; lo_datum : option PlutusData }.
(** [l_tokens]: policy, name, and quantity of an asset in an output; [l_blocks]: the blocks, with
    the number of their transactions in place of an index *)
Record Ledger := {
  l_blocks : list CardanoPosition;
  l_tokens : list (Bytes * Bytes * (Z * LedgerOut));
  l_spends : list (LedgerTx * LedgerOut) }.

Definition lo_id (o : LedgerOut) : Bytes * Z := (lt_hash (lo_tx o), lo_index o).
Definition tokens_of (policy name : Bytes) (L : Ledger) : list (Z * LedgerOut) :=
  snd <$> filter (fun k => fst k = (policy, name)) (l_tokens L).

(** An output with its datum or with a quantity, observed in a transaction *)
Record Fact (X : Type) := { f_payload : X; f_tx : LedgerTx; f_out : LedgerOut }.
#[global] Arguments f_payload {X} f.
#[global] Arguments f_tx {X} f.
#[global] Arguments f_out {X} f.
#[global] Arguments Build_Fact {X}.

Definition with_datum (t : LedgerTx) (o : LedgerOut) : option (Fact PlutusData) :=
  (fun d => Build_Fact d t o) <$> lo_datum o.
Definition registration_facts (address policy name : Bytes) (L : Ledger) : list (Fact PlutusData) :=
  omap (fun k => with_datum (lo_tx (snd k)) (snd k))
       (filter (fun k => fst k = 1 /\ lo_address (snd k) = address) (tokens_of policy name L)).
Definition deregistration_facts (address : Bytes) (L : Ledger) : list (Fact PlutusData) :=
  omap (fun s => with_datum (fst s) (snd s)) (filter (fun s => lo_address (snd s) = address) (l_spends L)).
Definition create_facts (policy name : Bytes) (L : Ledger) : list (Fact Z) :=
  (fun k => Build_Fact (fst k) (lo_tx (snd k)) (snd k)) <$> tokens_of policy name L.
Definition spend_facts (policy name : Bytes) (L : Ledger) : list (Fact Z) :=
  s ← l_spends L;
  k ← filter (fun k => lo_id (snd k) = lo_id (snd s)) (tokens_of policy name L);
  [Build_Fact (fst k) (fst s) (snd s)].

(** The header of a fact, if it has a position *)
Definition fact_header {X} (f : Fact X) : option ObservedUtxoHeader :=
  (fun p => {| tx_position := p; tx_hash := lt_hash (f_tx f);
               utxo_tx_hash := lt_hash (lo_tx (f_out f)); utxo_index := lo_index (f_out f) |}) <$> lt_pos (f_tx f).
Definition datum_event (make : Bytes -> Bytes -> ObservedUtxoData Bytes Bytes) (network : Z) (f : Fact PlutusData) : option Utxo :=
  h ← fact_header f;
  constr ← as_constr_plutus_data (f_payload f);
  match decode_registration_datum constr with
  | Ok (c, k) => Some {| header := h; data := make (reward_address network c) k |}
  | _ => None
  end.
Definition asset_event (make : Fact Z -> Bytes -> Z -> ObservedUtxoData Bytes Bytes) (network : Z) (f : Fact Z) : option Utxo :=
  h ← fact_header f;
  a ← from_bech32 (lo_address (f_out f));
  c ← base_stake_cred a;
  Some {| header := h; data := make f (reward_address network c) (wrap 128 (f_payload f)) |}.
Definition create_of (f : Fact Z) (owner : Bytes) (value : Z) : ObservedUtxoData Bytes Bytes :=
  AssetCreate {| create_value := value; create_owner := owner;
                 create_tx_hash := lt_hash (f_tx f); create_tx_index := lo_index (f_out f) |}.
Definition spend_of (f : Fact Z) (owner : Bytes) (value : Z) : ObservedUtxoData Bytes Bytes :=
  AssetSpend {| spend_value := value; spend_owner := owner; spend_tx_hash := lt_hash (lo_tx (f_out f));
                spend_tx_index := lo_index (f_out f); spending_tx_hash := lt_hash (f_tx f) |}.

(** The events of the ledger, by kind, for the addresses of the network and the policy of the
    mapping validator *)
Definition ledger_events (cfg : CNightAddresses) (network : Z) (policy : Bytes) (L : Ledger) : list Utxo :=
  omap (datum_event make_registration network)
       (registration_facts (mapping_validator_address cfg) policy (auth_token_asset_name cfg) L) ++
  omap (datum_event make_deregistration network) (deregistration_facts (mapping_validator_address cfg) L) ++
  omap (asset_event create_of network) (create_facts (cnight_policy_id cfg) (cnight_asset_name cfg) L) ++
  omap (asset_event spend_of network) (spend_facts (cnight_policy_id cfg) (cnight_asset_name cfg) L).

Definition events_between (cfg : CNightAddresses) (network : Z) (policy : Bytes) (L : Ledger) (s e : CardanoPosition) : list Utxo :=
  sort (filter (in_window s e) (ledger_events cfg network policy L)).

(** The rows between two positions *)
Definition fact_between (s e : CardanoPosition) {X} (f : Fact X) : bool :=
  match lt_pos (f_tx f) with Some p => negb (position_lt p s) && position_lt p e | None => false end.
Definition rows_between (s e : CardanoPosition) {X} (l : list (Fact X)) : Z := len (filter (fact_between s e) l).
(** Each of the four queries for the events between two positions has at most [limit] rows in the
    ledger.  The program does not check this: beyond it, rows are cut off. *)
Record within_limit (limit : Z) (cfg : CNightAddresses) (policy : Bytes) (L : Ledger) (s e : CardanoPosition) : Prop := {
  wl_registrations : rows_between s e (registration_facts (mapping_validator_address cfg) policy (auth_token_asset_name cfg) L) <= limit;
  wl_deregistrations : rows_between s e (deregistration_facts (mapping_validator_address cfg) L) <= limit;
  wl_creates : rows_between s e (create_facts (cnight_policy_id cfg) (cnight_asset_name cfg) L) <= limit;
  wl_spends : rows_between s e (spend_facts (cnight_policy_id cfg) (cnight_asset_name cfg) L) <= limit
}.

(** ** Databases *)

Definition view_tx (t : Tx) : LedgerTx :=
  {| lt_pos := (fun n => {| block_hash := b_hash (t_block t); block_number := n; block_timestamp := b_time (t_block t);
                            tx_index_in_block := t_block_index t |}) <$> b_block_no (t_block t);
     lt_hash := t_hash t |}.
Definition view_out (d : Db) (o : TxOut) : LedgerOut :=
  {| lo_tx := view_tx (o_tx o); lo_index := o_index o; lo_address := o_address o;
     lo_datum := dt ← head (join_datum d o); dt_value dt |}.
Definition tokens_in (policy name : Bytes) (d : Db) : list (Z * LedgerOut) :=
  match resolve_multi_asset_id policy name d with
  | Some id => (fun m => (m_quantity m, view_out d (m_tx_out m))) <$> filter (fun m => m_ident m = id) (ma_tx_out d)
  | None => []
  end.
Definition spends_in (d : Db) : list (LedgerTx * LedgerOut) :=
  i ← tx_in d; o ← spent_out d i; [(view_tx (i_tx i), view_out d o)].
Definition view_block (b : Block) : option CardanoPosition :=
  (fun n => {| block_hash := b_hash b; block_number := n; block_timestamp := b_time b; tx_index_in_block := wrap 32 (b_tx_count b) |})
  <$> b_block_no b.

(** In a block with a number up to [h] *)
Definition known (h : Z) (t : LedgerTx) : bool := match lt_pos t with Some p => block_number p <=? h | None => false end.

(** Db-Sync inserts blocks in their order, and gives growing ids to the rows it inserts. *)
Record db_ok (d : Db) : Prop := {
  ok_block_order a b x y : a ∈ block d -> b ∈ block d -> b_block_no a = Some x -> b_block_no b = Some y -> x < y -> b_id a < b_id b;
  ok_block_unique a b x : a ∈ block d -> b ∈ block d -> b_block_no a = Some x -> b_block_no b = Some x -> a = b;
  ok_block_hash a b : a ∈ block d -> b ∈ block d -> b_hash a = b_hash b -> a = b;
  ok_block_columns b : b ∈ block d -> is_Some (b_block_no b) -> is_Some (b_epoch_no b) /\ is_Some (b_slot_no b);
  ok_block_ids b : b ∈ block d -> 0 < b_id b;
  ok_tx_block t : t ∈ tx d -> t_block t ∈ block d;
  ok_tx_ids t : t ∈ tx d -> 0 < t_id t < i64_max;
  ok_tx_order t u : t ∈ tx d -> u ∈ tx d -> b_id (t_block t) < b_id (t_block u) -> t_id t < t_id u;
  ok_out_tx o : o ∈ tx_out d -> o_tx o ∈ tx d;
  ok_out_ids o : o ∈ tx_out d -> 0 < o_id o < i64_max;
  ok_out_order o p : o ∈ tx_out d -> p ∈ tx_out d -> t_id (o_tx o) < t_id (o_tx p) -> o_id o < o_id p;
  ok_out_unique o p : o ∈ tx_out d -> p ∈ tx_out d -> o_id o = o_id p \/ t_hash (o_tx o) = t_hash (o_tx p) /\ o_index o = o_index p -> o = p;
  ok_in_tx i : i ∈ tx_in d -> i_tx i ∈ tx d;
  ok_in_ids i : i ∈ tx_in d -> 0 < i_id i < i64_max;
  ok_in_order i j : i ∈ tx_in d -> j ∈ tx_in d -> t_id (i_tx i) < t_id (i_tx j) -> i_id i < i_id j;
  ok_ma_out m : m ∈ ma_tx_out d -> m_tx_out m ∈ tx_out d;
  ok_ma_ids m : m ∈ ma_tx_out d -> 0 < m_id m < i64_max;
  ok_ma_order m n : m ∈ ma_tx_out d -> n ∈ ma_tx_out d -> o_id (m_tx_out m) < o_id (m_tx_out n) -> m_id m < m_id n;
  ok_ma_numbered m : m ∈ ma_tx_out d -> is_Some (b_block_no (t_block (o_tx (m_tx_out m))));
  ok_spent_after i o x y : i ∈ tx_in d -> o ∈ spent_out d i -> b_block_no (t_block (o_tx o)) = Some x ->
    b_block_no (t_block (i_tx i)) = Some y -> x <= y;
  ok_datum_unique : NoDup (dt_hash <$> datum_table d);
  ok_datum_decodes dt : dt ∈ datum_table d -> is_Some (dt_value dt)
}.

(** The database has the ledger up to block [h].  An output's datum is part of what the ledger
    says of it, so the assumption includes that the database knows the datum as soon as it knows
    the block.  That holds of outputs with an inline datum and of those whose transaction reveals
    it; Db-Sync learns the datum of an output that commits to it by hash only, and reveals it
    later, with the revealing transaction, and until then does not represent a ledger that has
    it in [lo_datum]. *)
Record represents (h : Z) (L : Ledger) (d : Db) : Prop := {
  rep_blocks p : block_number p <= h -> p ∈ l_blocks L <-> exists b, b ∈ block d /\ view_block b = Some p;
  rep_tokens policy name :
    filter (fun k => known h (lo_tx (snd k))) (tokens_in policy name d)
    ≡ₚ filter (fun k => known h (lo_tx (snd k))) (tokens_of policy name L);
  rep_spends : filter (fun s => known h (fst s)) (spends_in d) ≡ₚ filter (fun s => known h (fst s)) (l_spends L)
}.

(** Outputs have their own ids, are spent once, after they were created, and hold an asset once. *)
Record ledger_ok (L : Ledger) : Prop := {
  lk_tokens policy name : NoDup (lo_id ∘ snd <$> tokens_of policy name L);
  lk_spends : NoDup (lo_id ∘ snd <$> l_spends L);
  lk_blocks a b : a ∈ l_blocks L -> b ∈ l_blocks L -> block_hash a = block_hash b -> a = b;
  lk_spent_after policy name s p k : s ∈ l_spends L -> lt_pos (fst s) = Some p -> k ∈ tokens_of policy name L ->
    lo_id (snd k) = lo_id (snd s) -> known (block_number p) (lo_tx (snd k));
  lk_indexes_out k p : k ∈ l_tokens L -> lt_pos (lo_tx (snd (snd k))) = Some p -> 0 <= tx_index_in_block p < i32_max;
  lk_indexes_spend s p : s ∈ l_spends L -> lt_pos (fst s) = Some p -> 0 <= tx_index_in_block p < i32_max
}.
End Ledger.
#[global] Arguments Fact {csl} X.

(** ** Bounds of table ids *)

Section Bounds.
Context {pg : Postgres} {pg_laws : PostgresLaws} {ca : CardanoAddresses} {csl : CardanoSerializationLib}.
Implicit Types (d : Db).

Lemma first_by_Some {A} key (l : list A) x : first_by key l = Some x -> x ∈ l.
Proof.
  unfold first_by. intros Hh. rewrite <- (order_by_perm key l). destruct (order_by key l); [done|].
  simpl in Hh. simplify_eq. by left.
Qed.
Lemma first_by_None {A} key (l : list A) : first_by key l = None -> l = [].
Proof.
  unfold first_by. intros Hh. destruct (order_by key l) eqn:E; [|done]. apply Permutation_nil. by rewrite <- E, order_by_perm.
Qed.

(** A bound is a column of a row that satisfies the filter, or the default. *)
Lemma first_by_default {A} key (P : A -> Prop) `{!forall x, Decision (P x)} (l : list A) (f : A -> Z) (z : Z) :
  (exists x, x ∈ l /\ P x /\ default z (f <$> first_by key (filter P l)) = f x) \/
  ((forall x, x ∈ l -> ~ P x) /\ default z (f <$> first_by key (filter P l)) = z).
Proof.
  destruct (first_by key (filter P l)) as [x|] eqn:E; simpl.
  - left. apply first_by_Some, list_elem_of_filter in E as [? ?]. eauto.
  - right. split; [|done]. apply first_by_None in E. intros x Hx Hp. assert (x ∈ filter P l) as Hf by by apply list_elem_of_filter.
    rewrite E in Hf. by apply elem_of_nil in Hf.
Qed.

(** The rows of transactions of the blocks from [s] to [e] are above the low bounds, *)
Definition above (lo : QueryBounds) (s e : Z) (d : Db) : Prop :=
  (forall t n, t ∈ tx d -> b_block_no (t_block t) = Some n -> s <= n <= e ->
     bound_tx_id lo < t_id t /\
     (forall o, o ∈ tx_out d -> o_tx o = t -> bound_tx_out_id lo < o_id o) /\
     (forall m, m ∈ ma_tx_out d -> o_tx (m_tx_out m) = t -> bound_ma_tx_out_id lo < m_id m) /\
     (forall i, i ∈ tx_in d -> i_tx i = t -> bound_tx_in_id lo < i_id i)).
(** and below the high ones. *)
Definition below (hi : QueryBounds) (s e : Z) (d : Db) : Prop :=
  (forall t n, t ∈ tx d -> b_block_no (t_block t) = Some n -> s <= n <= e ->
     t_id t < bound_tx_id hi /\
     (forall o, o ∈ tx_out d -> o_tx o = t -> o_id o < bound_tx_out_id hi) /\
     (forall m, m ∈ ma_tx_out d -> o_tx (m_tx_out m) = t -> m_id m < bound_ma_tx_out_id hi) /\
     (forall i, i ∈ tx_in d -> i_tx i = t -> i_id i < bound_tx_in_id hi)).

Lemma low_bounds_above s e d lo : db_ok d -> get_low_bounds s d = Some lo -> above lo (as_i32 s) e d.
Proof.
  intros Hd [= <-] t n Ht Hn [Hs _]. unfold bound_tx_id, bound_tx_out_id, bound_ma_tx_out_id, bound_tx_in_id.
  set (bid := default 0 (b_id <$> _)). set (tid := default 0 (t_id <$> _)). set (oid := default 0 (o_id <$> _)).
  assert (bid <= b_id (t_block t)) as Hb.
  { destruct (first_by_default (fun _ => []) (fun b => b_block_no b = Some (as_i32 s)) (block d) b_id 0)
      as [(b & Hb & Hbs & Heq)|[_ Heq]]; fold bid in Heq; rewrite Heq.
    - assert (t_block t ∈ block d) as Htb by by apply ok_tx_block. destruct (decide (as_i32 s = n)) as [<-|Hne].
      + by rewrite (ok_block_unique d Hd b (t_block t) _ Hb Htb Hbs Hn).
      + pose proof (ok_block_order d Hd b (t_block t) _ _ Hb Htb Hbs Hn). lia.
    - pose proof (ok_block_ids d Hd _ (ok_tx_block d Hd t Ht)). lia. }
  assert (tid < t_id t) as Htid.
  { destruct (first_by_default (fun t => [- b_id (t_block t)]) (fun t => b_id (t_block t) < bid) (tx d) t_id 0)
      as [(u & Hu & Hlt & Heq)|[_ Heq]]; fold tid in Heq; rewrite Heq.
    - apply (ok_tx_order d Hd); [done..|lia].
    - apply (ok_tx_ids d Hd t Ht). }
  assert (forall o, o ∈ tx_out d -> o_tx o = t -> oid < o_id o) as Ho.
  { intros o Ho Hot. destruct (first_by_default (fun o => [- t_id (o_tx o)]) (fun o => t_id (o_tx o) <= tid) (tx_out d) o_id 0)
      as [(p & Hp & Hlt & Heq)|[_ Heq]]; fold oid in Heq; rewrite Heq.
    - apply (ok_out_order d Hd); [done..|]. rewrite Hot. lia.
    - apply (ok_out_ids d Hd o Ho). }
  split; [done|]. split; [done|]. split.
  - intros m Hm Hmt. destruct (first_by_default (fun m => [- o_id (m_tx_out m)]) (fun m => o_id (m_tx_out m) <= oid) (ma_tx_out d) m_id 0)
      as [(p & Hp & Hlt & Heq)|[_ Heq]]; rewrite Heq.
    + apply (ok_ma_order d Hd); [done..|]. specialize (Ho _ (ok_ma_out d Hd m Hm) Hmt). lia.
    + apply (ok_ma_ids d Hd m Hm).
  - intros i Hi Hit. destruct (first_by_default (fun i => [- t_id (i_tx i)]) (fun i => t_id (i_tx i) <= tid) (tx_in d) i_id 0)
      as [(p & Hp & Hlt & Heq)|[_ Heq]]; rewrite Heq.
    + apply (ok_in_order d Hd); [done..|]. rewrite Hit. lia.
    + apply (ok_in_ids d Hd i Hi).
Qed.

Lemma high_bounds_below s e d hi : db_ok d -> get_high_bounds e d = Some hi -> below hi s (as_i32 e) d.
Proof.
  intros Hd Hhi t n Ht Hn [_ He]. unfold get_high_bounds in Hhi.
  destruct (first_by _ (filter (fun b => b_block_no b = Some (as_i32 e)) (block d))) as [b|] eqn:Eb; [|done].
  apply first_by_Some, list_elem_of_filter in Eb as [Hbe Hb]. injection Hhi as <-.
  unfold bound_tx_id, bound_tx_out_id, bound_ma_tx_out_id, bound_tx_in_id.
  set (tid := default i64_max (t_id <$> _)). set (oid := default i64_max (o_id <$> _)).
  assert (b_id (t_block t) <= b_id b) as Hle.
  { assert (t_block t ∈ block d) as Htb by by apply ok_tx_block. destruct (decide (as_i32 e = n)) as [<-|Hne].
    - by rewrite (ok_block_unique d Hd b (t_block t) _ Hb Htb Hbe Hn).
    - pose proof (ok_block_order d Hd (t_block t) b _ _ Htb Hb Hn Hbe). lia. }
  assert (t_id t < tid) as Htid.
  { destruct (first_by_default (fun t => [b_id (t_block t)]) (fun t => b_id (t_block t) > b_id b) (tx d) t_id i64_max)
      as [(u & Hu & Hlt & Heq)|[_ Heq]]; fold tid in Heq; rewrite Heq.
    - apply (ok_tx_order d Hd); [done..|lia].
    - apply (ok_tx_ids d Hd t Ht). }
  assert (forall o, o ∈ tx_out d -> o_tx o = t -> o_id o < oid) as Ho.
  { intros o Ho Hot. destruct (first_by_default (fun o => [t_id (o_tx o)]) (fun o => t_id (o_tx o) >= tid) (tx_out d) o_id i64_max)
      as [(p & Hp & Hlt & Heq)|[_ Heq]]; fold oid in Heq; rewrite Heq.
    - apply (ok_out_order d Hd); [done..|]. rewrite Hot. lia.
    - apply (ok_out_ids d Hd o Ho). }
  split; [done|]. split; [done|]. split.
  - intros m Hm Hmt. destruct (first_by_default (fun m => [o_id (m_tx_out m)]) (fun m => o_id (m_tx_out m) >= oid) (ma_tx_out d) m_id i64_max)
      as [(p & Hp & Hlt & Heq)|[_ Heq]]; rewrite Heq.
    + apply (ok_ma_order d Hd); [done..|]. specialize (Ho _ (ok_ma_out d Hd m Hm) Hmt). lia.
    + apply (ok_ma_ids d Hd m Hm).
  - intros i Hi Hit. destruct (first_by_default (fun i => [t_id (i_tx i)]) (fun i => t_id (i_tx i) >= tid) (tx_in d) i_id i64_max)
      as [(p & Hp & Hlt & Heq)|[_ Heq]]; rewrite Heq.
    + apply (ok_in_order d Hd); [done..|]. rewrite Hit. lia.
    + apply (ok_in_ids d Hd i Hi).
Qed.
End Bounds.

(** ** Queries return the ledger's facts *)

Lemma mapM_omap {A B} (f : A -> option B) (l : list A) : (forall x, x ∈ l -> is_Some (f x)) -> mapM f l = Some (omap f l).
Proof.
  induction l as [|x l IH]; intros Hl; [done|]. cbn [mapM]. rewrite omap_cons.
  destruct (Hl x) as [y ->]; [by left|]. simpl. by rewrite IH by (intros; apply Hl; by right).
Qed.
Lemma length_omap {A B} (f : A -> option B) (l : list A) : (forall x, x ∈ l -> is_Some (f x)) -> length (omap f l) = length l.
Proof.
  induction l as [|x l IH]; intros Hl; [done|]. rewrite omap_cons.
  destruct (Hl x) as [y ->]; [by left|]. simpl. by rewrite IH by (intros; apply Hl; by right).
Qed.
Lemma filter_bind {A B} (f : A -> list B) (P : B -> Prop) `{!forall x, Decision (P x)} (l : list A) :
  filter P (l ≫= f) = l ≫= (fun x => filter P (f x)).
Proof. induction l as [|x l IH]; [done|]. by rewrite !bind_cons, filter_app, IH. Qed.
Lemma bind_filter_l {A B} (f : A -> list B) (P : A -> Prop) `{!forall x, Decision (P x)} (l : list A) :
  filter P l ≫= f = l ≫= (fun x => if decide (P x) then f x else []).
Proof. induction l as [|x l IH]; [done|]. rewrite filter_cons, bind_cons. case_decide; [rewrite bind_cons|]; by rewrite IH. Qed.
Lemma bind_ext_elem {A B} (f g : A -> list B) (l : list A) : (forall x, x ∈ l -> f x = g x) -> l ≫= f = l ≫= g.
Proof.
  induction l as [|x l IH]; intros H; [done|]. rewrite !bind_cons, (H x) by left. f_equal. apply IH. intros y Hy. apply H. by right.
Qed.
Lemma fmap_bind {A B C} (f : A -> list B) (g : B -> C) (l : list A) : g <$> (l ≫= f) = l ≫= (fun x => g <$> f x).
Proof. induction l as [|x l IH]; [done|]. by rewrite !bind_cons, fmap_app, IH. Qed.
Lemma bind_singleton {A B} (f : A -> B) (l : list A) : l ≫= (fun x => [f x]) = f <$> l.
Proof. induction l as [|x l IH]; [done|]. by rewrite bind_cons, IH. Qed.

Lemma bind_bind {A B C} (f : A -> list B) (g : B -> list C) (l : list A) : (l ≫= f) ≫= g = l ≫= (fun x => f x ≫= g).
Proof. induction l as [|x l IH]; [done|]. by rewrite !bind_cons, bind_app, IH. Qed.
Lemma bind_fmap {A B C} (f : A -> B) (g : B -> list C) (l : list A) : (f <$> l) ≫= g = l ≫= (fun x => g (f x)).
Proof. induction l as [|x l IH]; [done|]. by rewrite fmap_cons, !bind_cons, IH. Qed.
Lemma bind_perm_ext {A B} (f g : A -> list B) (l : list A) : (forall x, x ∈ l -> f x ≡ₚ g x) -> l ≫= f ≡ₚ l ≫= g.
Proof.
  induction l as [|x l IH]; intros H; [done|]. rewrite !bind_cons, (H x) by left. f_equiv. apply IH. intros y Hy. apply H. by right.
Qed.
Lemma omap_fmap_comp {A B C} (f : B -> option C) (g : A -> B) (l : list A) : omap f (g <$> l) = omap (fun x => f (g x)) l.
Proof. induction l as [|x l IH]; [done|]. rewrite fmap_cons, !omap_cons, IH. done. Qed.
Lemma filter_omap {A B} (f : A -> option B) (P : B -> Prop) (Q : A -> Prop) `{!forall x, Decision (P x)} `{!forall x, Decision (Q x)} (l : list A) :
  (forall x y, f x = Some y -> P y <-> Q x) -> filter P (omap f l) = omap f (filter Q l).
Proof.
  intros Hpq. induction l as [|x l IH]; [done|]. rewrite omap_cons, filter_cons. destruct (f x) as [y|] eqn:Ef.
  - rewrite filter_cons, IH. specialize (Hpq x y Ef). repeat case_decide; rewrite ?omap_cons, ?Ef; naive_solver.
  - rewrite IH. case_decide; [|done]. by rewrite omap_cons, Ef.
Qed.

(** Numbers that [as i32] keeps *)
Definition i32_position (p : CardanoPosition) : Prop :=
  0 <= block_number p < 2 ^ 31 /\ 0 <= tx_index_in_block p < 2 ^ 31.
Lemma as_i32_small x : 0 <= x < 2 ^ 31 -> as_i32 x = x.
Proof.
  intros Hx. unfold as_i32. rewrite wrap_small by (unfold in_u, umax; lia). by rewrite (proj2 (Z.ltb_lt _ _)) by lia.
Qed.

Section Refine.
Context {pg : Postgres} {pg_laws : PostgresLaws} {ca : CardanoAddresses} {ca_laws : CardanoAddressesLaws}.
Context {csl : CardanoSerializationLib}.
Notation Utxo := (ObservedUtxo Bytes Bytes).
Implicit Types (d : Db) (L : Ledger) (q : PagedQuery).

Definition tx_between (s e : CardanoPosition) (t : LedgerTx) : bool :=
  match lt_pos t with Some p => negb (position_lt p s) && position_lt p e | None => false end.

Lemma in_range_between q t : i32_position (q_start q) -> i32_position (q_end q) ->
  in_range q t = tx_between (q_start q) (q_end q) (view_tx t).
Proof.
  intros [? ?] [? ?]. unfold in_range, tx_between, view_tx. simpl. destruct (b_block_no (t_block t)) as [n|]; [|done]. simpl.
  rewrite !as_i32_small by done. apply eq_true_iff_eq.
  rewrite !andb_true_iff, !orb_true_iff, !andb_true_iff, negb_true_iff, !Z.leb_le, !Z.ltb_lt, !Z.eqb_eq. positions.
Qed.

Lemma between_known s e h t : block_number e <= h -> tx_between s e t = true -> known h t = true.
Proof.
  unfold tx_between, known. intros He. destruct (lt_pos t) as [p|]; [|done].
  rewrite andb_true_iff, negb_true_iff, Z.leb_le. positions.
Qed.

Section Query.
Context d q (d_ok : db_ok d).
Hypothesis low_ok : above (low_bound q) (as_i32 (block_number (q_start q))) (as_i32 (block_number (q_end q))) d.
Hypothesis high_ok : below (high_bound q) (as_i32 (block_number (q_start q))) (as_i32 (block_number (q_end q))) d.

(** A row of a transaction in range passes the bounds. *)
Lemma range_within t : t ∈ tx d -> in_range q t = true ->
  tx_within q t = true /\
  (forall o, o ∈ tx_out d -> o_tx o = t -> within bound_tx_out_id q (o_id o) = true) /\
  (forall m, m ∈ ma_tx_out d -> o_tx (m_tx_out m) = t -> within bound_ma_tx_out_id q (m_id m) = true) /\
  (forall i, i ∈ tx_in d -> i_tx i = t -> within bound_tx_in_id q (i_id i) = true).
Proof.
  intros Ht Hr. unfold in_range in Hr. destruct (b_block_no (t_block t)) as [n|] eqn:En; [|done].
  rewrite !andb_true_iff, !Z.leb_le in Hr. destruct Hr as [[[Hs He] _] _].
  destruct (low_ok t n Ht En (conj Hs He)) as (l1 & l2 & l3 & l4), (high_ok t n Ht En (conj Hs He)) as (h1 & h2 & h3 & h4).
  unfold tx_within, within. setoid_rewrite andb_true_iff. setoid_rewrite Z.leb_le.
  split; [lia|]. split; [|split].
  - intros o Ho Hot. specialize (l2 o Ho Hot). specialize (h2 o Ho Hot). lia.
  - intros m Hm Hmt. specialize (l3 m Hm Hmt). specialize (h3 m Hm Hmt). lia.
  - intros i Hi Hit. specialize (l4 i Hi Hit). specialize (h4 i Hi Hit). lia.
Qed.

(** The conditions of the queries on tokens and on inputs without the bounds *)
Lemma token_range (P : MaTxOut -> bool) :
  filter (fun m => tx_within q (o_tx (m_tx_out m)) && within bound_tx_out_id q (o_id (m_tx_out m))
                   && within bound_ma_tx_out_id q (m_id m) && in_range q (o_tx (m_tx_out m)) && P m) (ma_tx_out d)
  = filter (fun m => in_range q (o_tx (m_tx_out m)) && P m) (ma_tx_out d).
Proof.
  apply filter_ext_elem. intros m Hm. rewrite !Is_true_true.
  destruct (in_range q (o_tx (m_tx_out m))) eqn:Hr; [|by rewrite !andb_false_r].
  pose proof (ok_ma_out d d_ok m Hm) as Ho. pose proof (ok_out_tx d d_ok _ Ho) as Ht.
  destruct (range_within _ Ht Hr) as (-> & H2 & H3 & _). by rewrite H2, H3.
Qed.
Lemma input_range :
  filter (fun i => in_range q (i_tx i) && tx_within q (i_tx i) && within bound_tx_in_id q (i_id i)) (tx_in d)
  = filter (fun i => in_range q (i_tx i)) (tx_in d).
Proof.
  apply filter_ext_elem. intros i Hi. rewrite !Is_true_true.
  destruct (in_range q (i_tx i)) eqn:Hr; [|done].
  destruct (range_within _ (ok_in_tx d d_ok i Hi) Hr) as (-> & _ & _ & H4). by rewrite H4.
Qed.

Lemma rows_in_range :
  (forall address ident, registration_rows d address ident q =
    m ← filter (fun m => in_range q (o_tx (m_tx_out m)) &&
      (bool_decide (o_address (m_tx_out m) = address) && ((m_ident m =? ident) && (m_quantity m =? 1)))) (ma_tx_out d);
    dt ← join_datum d (m_tx_out m); [(o_tx (m_tx_out m), m_tx_out m, dt)]) /\
  (forall address, deregistration_rows d address q =
    i ← filter (fun i => in_range q (i_tx i)) (tx_in d);
    o ← filter (fun o => o_address o = address) (spent_out d i); dt ← join_datum d o; [(i_tx i, o, dt)]) /\
  (forall ident, create_rows d ident q =
    (fun m => {| ar_quantity := m_quantity m; ar_tx := o_tx (m_tx_out m); ar_out := m_tx_out m |}) <$>
    filter (fun m => in_range q (o_tx (m_tx_out m)) && (m_ident m =? ident)) (ma_tx_out d)) /\
  (forall ident, spend_rows d ident q =
    i ← filter (fun i => in_range q (i_tx i)) (tx_in d); o ← spent_out d i;
    m ← filter (fun m => o_id (m_tx_out m) = o_id o /\ m_ident m = ident) (ma_tx_out d);
    [{| ar_quantity := m_quantity m; ar_tx := i_tx i; ar_out := o |}]).
Proof.
  split; [|split; [|split]].
  - intros address ident. unfold registration_rows. f_equal. rewrite <- token_range. apply list_filter_iff. intros m. by rewrite !andb_assoc.
  - intros address. unfold deregistration_rows. by rewrite input_range.
  - intros ident. unfold create_rows. f_equal. rewrite <- token_range. apply list_filter_iff. intros m.
    by rewrite <- !andb_assoc, (andb_comm (m_ident m =? ident)).
  - intros ident. unfold spend_rows. by rewrite input_range.
Qed.

Hypothesis start_ok : i32_position (q_start q).
Hypothesis end_ok : i32_position (q_end q).
Notation between := (tx_between (q_start q) (q_end q)).

Lemma token_filter (P : MaTxOut -> bool) :
  filter (fun m => tx_within q (o_tx (m_tx_out m)) && within bound_tx_out_id q (o_id (m_tx_out m))
                   && within bound_ma_tx_out_id q (m_id m) && in_range q (o_tx (m_tx_out m)) && P m) (ma_tx_out d)
  = filter (fun m => between (view_tx (o_tx (m_tx_out m))) && P m) (ma_tx_out d).
Proof. rewrite token_range. apply list_filter_iff. intros m. by rewrite in_range_between. Qed.
Lemma input_filter :
  filter (fun i => in_range q (i_tx i) && tx_within q (i_tx i) && within bound_tx_in_id q (i_id i)) (tx_in d)
  = filter (fun i => between (view_tx (i_tx i))) (tx_in d).
Proof. rewrite input_range. apply list_filter_iff. intros i. by rewrite in_range_between. Qed.

(** The join with the datums *)
Lemma join_datum_view o :
  (join_datum d o = [] /\ lo_datum (view_out d o) = None) \/
  (exists dt v, join_datum d o = [dt] /\ dt_value dt = Some v /\ lo_datum (view_out d o) = Some v).
Proof.
  unfold view_out, lo_datum. destruct (join_datum d o) as [|dt [|dt' l]] eqn:Ej; [by left|right|exfalso].
  - assert (dt ∈ join_datum d o) as [_ Hin]%list_elem_of_filter by (rewrite Ej; left).
    destruct (ok_datum_decodes d d_ok dt Hin) as [v Hv]. exists dt, v. simpl. by rewrite Hv.
  - pose proof (ok_datum_unique d d_ok) as Hnd. unfold join_datum in Ej.
    assert (NoDup (dt_hash <$> join_datum d o)) as Hnd'.
    { eapply sublist_NoDup; [exact Hnd|]. apply fmap_sublist. apply sublist_filter. }
    assert (forall x, x ∈ join_datum d o -> o_data_hash o = Some (dt_hash x)) as Hh by by intros x [? _]%list_elem_of_filter.
    unfold join_datum in *. rewrite Ej in *. rewrite !fmap_cons, !NoDup_cons in Hnd'.
    assert (dt_hash dt = dt_hash dt') as E.
    { pose proof (Hh dt ltac:(left)). pose proof (Hh dt' ltac:(right; left)). congruence. }
    destruct Hnd' as [Hn _]. apply Hn. rewrite E. left.
Qed.

(** What a row tells of the ledger *)
Definition dfact (r : DatumUtxoRow) : Fact PlutusData := Build_Fact (dr_datum r) (view_tx (dr_tx r)) (view_out d (dr_out r)).
Definition afact (r : AssetUtxoRow) : Fact Z := Build_Fact (ar_quantity r) (view_tx (ar_tx r)) (view_out d (ar_out r)).

Lemma datum_rows {X} (l : list X) (txf : X -> Tx) (outf : X -> TxOut) :
  let rows := x ← l; dt ← join_datum d (outf x); [(txf x, outf x, dt)] in
  (forall r, r ∈ rows -> is_Some (datum_row r)) /\
  dfact <$> omap datum_row rows = omap (fun x => with_datum (view_tx (txf x)) (view_out d (outf x))) l.
Proof.
  induction l as [|x l [IH1 IH2]]; [split; [by intros ? ?%elem_of_nil|done]|]. cbn zeta in *. rewrite bind_cons, omap_cons.
  unfold with_datum at 1. destruct (join_datum_view (outf x)) as [[-> ->]|(dt & v & -> & Hv & ->)]; simpl.
  - done.
  - split.
    + intros r [->|Hr]%elem_of_cons; [|by apply IH1]. unfold datum_row. simpl. rewrite Hv. by eexists.
    + unfold datum_row at 1. simpl. rewrite Hv. simpl. by f_equal.
Qed.

Lemma paged_all {A B} (f : A -> option B) (rows : list A) :
  q_offset q = 0 -> q_limit q < i32_max -> len rows <= q_limit q -> (forall x, x ∈ rows -> is_Some (f x)) ->
  paged q f rows = Ok (omap f rows).
Proof.
  intros Ho Hl Hlen Hf. unfold paged. rewrite Ho. rewrite (proj2 (Z.ltb_lt _ _) Hl). simpl.
  rewrite drop_0, take_ge by (unfold len in *; lia). by rewrite mapM_omap.
Qed.

Context h L (rep : represents h L d) (L_ok : ledger_ok L).
Hypothesis end_known : block_number (q_end q) <= h.

Lemma perm_restrict {A} (K P : A -> Prop) `{!forall x, Decision (K x)} `{!forall x, Decision (P x)} (l1 l2 : list A) :
  filter K l1 ≡ₚ filter K l2 -> (forall x, P x -> K x) -> filter P l1 ≡ₚ filter P l2.
Proof.
  intros Hp Hk. assert (forall l : list A, filter P l = filter P (filter K l)) as E.
  { intros l. rewrite list_filter_filter. apply list_filter_iff. naive_solver. }
  rewrite (E l1), (E l2). by rewrite Hp.
Qed.

Lemma tokens_between policy name (P : Z * LedgerOut -> Prop) `{!forall k, Decision (P k)} :
  filter (fun k => between (lo_tx (snd k)) /\ P k) (tokens_in policy name d)
  ≡ₚ filter (fun k => between (lo_tx (snd k)) /\ P k) (tokens_of policy name L).
Proof.
  eapply perm_restrict; [apply (rep_tokens h L d rep)|]. intros k [Hk _]. apply Is_true_true in Hk. apply Is_true_true.
  by eapply between_known.
Qed.
Lemma spends_between (P : LedgerTx * LedgerOut -> Prop) `{!forall k, Decision (P k)} :
  filter (fun s => between (fst s) /\ P s) (spends_in d) ≡ₚ filter (fun s => between (fst s) /\ P s) (l_spends L).
Proof.
  eapply perm_restrict; [apply (rep_spends h L d rep)|]. intros k [Hk _]. apply Is_true_true in Hk. apply Is_true_true.
  by eapply between_known.
Qed.

Hypothesis offset_ok : q_offset q = 0.
Hypothesis limit_ok : q_limit q < i32_max.

(** A query whose rows decode to the ledger's facts, and are not more than the limit, returns them. *)
Lemma paged_facts {A B X} (f : A -> option B) (fact : B -> Fact X) key rows (facts : list (Fact X)) :
  (forall r, r ∈ rows -> is_Some (f r)) -> fact <$> omap f rows ≡ₚ filter (fact_between (q_start q) (q_end q)) facts ->
  rows_between (q_start q) (q_end q) facts <= q_limit q ->
  exists rs, paged q f (order_by key rows) = Ok rs /\ fact <$> rs ≡ₚ filter (fact_between (q_start q) (q_end q)) facts.
Proof.
  intros Hf Hp Hlen. pose proof (order_by_perm key rows) as Ho. exists (omap f (order_by key rows)). split; [|by rewrite Ho].
  apply paged_all; try done.
  - unfold rows_between, len in *. rewrite Ho, <- (length_omap f rows Hf), <- (length_fmap fact), Hp. done.
  - intros r Hr. apply Hf. by rewrite <- Ho.
Qed.

Lemma get_registrations_facts address policy name ident :
  resolve_multi_asset_id policy name d = Some ident ->
  rows_between (q_start q) (q_end q) (registration_facts address policy name L) <= q_limit q ->
  exists rs, get_registrations address ident q d = Ok rs /\
    dfact <$> rs ≡ₚ filter (fact_between (q_start q) (q_end q)) (registration_facts address policy name L).
Proof.
  intros Hid Hlen. unfold get_registrations.
  assert (registration_rows d address ident q =
    (m ← filter (fun m => between (view_tx (o_tx (m_tx_out m))) &&
                          (bool_decide (o_address (m_tx_out m) = address) && ((m_ident m =? ident) && (m_quantity m =? 1)))) (ma_tx_out d);
     dt ← join_datum d (m_tx_out m); [(o_tx (m_tx_out m), m_tx_out m, dt)])) as E.
  { unfold registration_rows. f_equal. rewrite <- token_filter. apply list_filter_iff. intros m. by rewrite !andb_assoc. }
  rewrite E. edestruct (datum_rows (filter (fun m => between (view_tx (o_tx (m_tx_out m))) &&
    (bool_decide (o_address (m_tx_out m) = address) && ((m_ident m =? ident) && (m_quantity m =? 1)))) (ma_tx_out d))
    (fun m => o_tx (m_tx_out m)) m_tx_out) as [H1 H2].
  apply paged_facts; [exact H1| |done]. rewrite H2. unfold registration_facts.
  rewrite (filter_omap _ _ (fun k : Z * LedgerOut => Is_true (between (lo_tx (snd k))))).
  2: { intros k f. unfold with_datum. destruct (lo_datum (snd k)); [|done]. by intros [= <-]. }
  rewrite list_filter_filter, <- tokens_between. unfold tokens_in. rewrite Hid, filter_fmap_comm, omap_fmap_comp, list_filter_filter.
  apply reflexive_eq. f_equal. apply list_filter_iff. intros m. simpl.
  rewrite !Is_true_true, !andb_true_iff, bool_decide_eq_true, !Z.eqb_eq. tauto.
Qed.

Lemma get_asset_creates_facts policy name ident :
  resolve_multi_asset_id policy name d = Some ident ->
  rows_between (q_start q) (q_end q) (create_facts policy name L) <= q_limit q ->
  exists rs, get_asset_creates ident q d = Ok rs /\
    afact <$> rs ≡ₚ filter (fact_between (q_start q) (q_end q)) (create_facts policy name L).
Proof.
  intros Hid Hlen. unfold get_asset_creates. apply paged_facts; [by eexists| |done].
  assert (omap Some (create_rows d ident q) = create_rows d ident q) as ->.
  { induction (create_rows d ident q) as [|x l IH]; [done|]. by rewrite omap_cons, IH. }
  unfold create_facts. rewrite filter_fmap_comm.
  rewrite (list_filter_iff _ (fun k : Z * LedgerOut => Is_true (between (lo_tx (snd k))) /\ True)) by (intros k; unfold fact_between; simpl; tauto).
  rewrite <- tokens_between. unfold tokens_in. rewrite Hid, filter_fmap_comm. unfold create_rows.
  rewrite <- !list_fmap_compose, list_filter_filter.
  assert (filter (fun m => tx_within q (o_tx (m_tx_out m)) && within bound_tx_out_id q (o_id (m_tx_out m))
    && within bound_ma_tx_out_id q (m_id m) && (m_ident m =? ident) && in_range q (o_tx (m_tx_out m))) (ma_tx_out d)
    = filter (fun m => between (view_tx (o_tx (m_tx_out m))) && (m_ident m =? ident)) (ma_tx_out d)) as ->.
  { rewrite <- token_filter. apply list_filter_iff. intros m. by rewrite <- !andb_assoc, (andb_comm (m_ident m =? ident)). }
  apply reflexive_eq. f_equal. apply list_filter_iff. intros m. simpl. rewrite !Is_true_true, !andb_true_iff, Z.eqb_eq. tauto.
Qed.

(** The inputs in range with the outputs they spend *)
Definition spend_pairs (P : LedgerOut -> bool) : list (Tx * TxOut) :=
  i ← filter (fun i => between (view_tx (i_tx i))) (tx_in d); o ← filter (fun o => P (view_out d o)) (spent_out d i); [(i_tx i, o)].
Definition view_pair (x : Tx * TxOut) : LedgerTx * LedgerOut := (view_tx (fst x), view_out d (snd x)).

Lemma view_spend_pairs (P : LedgerOut -> bool) :
  view_pair <$> spend_pairs P = filter (fun s => between (fst s) /\ P (snd s)) (spends_in d).
Proof.
  unfold spend_pairs, spends_in. rewrite filter_bind, fmap_bind, bind_filter_l. apply bind_ext_elem. intros i _.
  rewrite filter_bind. case_decide as Hb.
  - rewrite fmap_bind, bind_filter_l. apply bind_ext_elem. intros o _. rewrite filter_cons, filter_nil. simpl.
    repeat case_decide; tauto || done.
  - symmetry. generalize (spent_out d i). intros l. induction l as [|o l IH]; [done|]. rewrite bind_cons, IH, filter_cons_False; [done|].
    simpl. tauto.
Qed.

Lemma get_deregistrations_facts address :
  rows_between (q_start q) (q_end q) (deregistration_facts address L) <= q_limit q ->
  exists rs, get_deregistrations address q d = Ok rs /\
    dfact <$> rs ≡ₚ filter (fact_between (q_start q) (q_end q)) (deregistration_facts address L).
Proof.
  intros Hlen. unfold get_deregistrations.
  set (P := fun o : LedgerOut => bool_decide (lo_address o = address)).
  assert (deregistration_rows d address q =
    (x ← spend_pairs P; dt ← join_datum d (snd x); [(fst x, snd x, dt)])) as E.
  { unfold deregistration_rows, spend_pairs. rewrite input_filter, bind_bind. apply bind_ext_elem. intros i _.
    rewrite bind_bind. rewrite (list_filter_iff _ (fun o => Is_true (P (view_out d o)))) by (intros o; unfold P; by rewrite bool_decide_spec).
    apply bind_ext_elem. intros o _. by rewrite bind_cons, app_nil_r. }
  rewrite E. destruct (datum_rows (spend_pairs P) fst snd) as [H1 H2].
  apply paged_facts; [exact H1| |done]. rewrite H2. unfold deregistration_facts.
  rewrite (filter_omap _ _ (fun s : LedgerTx * LedgerOut => Is_true (between (fst s)))).
  2: { intros k f. unfold with_datum. destruct (lo_datum (snd k)); [|done]. by intros [= <-]. }
  rewrite list_filter_filter.
  rewrite (list_filter_iff _ (fun s => Is_true (between (fst s)) /\ Is_true (P (snd s)))).
  2: { intros s. unfold P. by rewrite bool_decide_spec. }
  rewrite <- (spends_between (fun s => Is_true (P (snd s)))), <- (view_spend_pairs P), omap_fmap_comp. done.
Qed.

(** The tokens of an output that a transaction in range spends *)
Lemma spent_tokens policy name s : s ∈ spends_in d -> between (fst s) = true ->
  filter (fun k => lo_id (snd k) = lo_id (snd s)) (tokens_in policy name d)
  ≡ₚ filter (fun k => lo_id (snd k) = lo_id (snd s)) (tokens_of policy name L).
Proof.
  intros Hs Hb. pose proof (between_known _ _ _ _ end_known Hb) as Hk.
  assert (s ∈ l_spends L) as HsL.
  { assert (s ∈ filter (fun s => known h (fst s)) (l_spends L)) as [_ ?]%list_elem_of_filter; [|done].
    rewrite <- (rep_spends h L d rep). apply list_elem_of_filter. split; [by apply Is_true_true|done]. }
  assert (forall l : list (Z * LedgerOut), (forall k, k ∈ l -> lo_id (snd k) = lo_id (snd s) -> known h (lo_tx (snd k))) ->
    filter (fun k => lo_id (snd k) = lo_id (snd s)) l =
    filter (fun k => lo_id (snd k) = lo_id (snd s)) (filter (fun k => Is_true (known h (lo_tx (snd k)))) l)) as Hf.
  { intros l Hl. rewrite list_filter_filter. apply filter_ext_elem. intros k Hin. specialize (Hl k Hin). tauto. }
  rewrite (Hf (tokens_in policy name d)), (Hf (tokens_of policy name L)); [by rewrite (rep_tokens h L d rep policy name)|..].
  - intros k Hin Hid. unfold known in Hk. destruct (lt_pos (fst s)) as [p|] eqn:Ep; [|done].
    pose proof (lk_spent_after L L_ok policy name s p k HsL Ep Hin Hid) as Hkn. unfold known in *.
    destruct (lt_pos (lo_tx (snd k))); [|done]. rewrite Is_true_true, Z.leb_le in *. lia.
  - intros k Hin Hid. unfold tokens_in in Hin. destruct (resolve_multi_asset_id policy name d); [|by apply elem_of_nil in Hin].
    apply list_elem_of_fmap in Hin as (m & -> & [_ Hm]%list_elem_of_filter).
    apply list_elem_of_bind in Hs as (i & Hs & Hi). apply list_elem_of_bind in Hs as (o & ->%list_elem_of_singleton & Ho).
    simpl in *. assert (m_tx_out m = o) as Hmo.
    { apply (ok_out_unique d d_ok); [by apply ok_ma_out| |].
      - unfold spent_out in Ho. by apply list_elem_of_filter in Ho as [_ ?].
      - right. unfold lo_id in Hid. simpl in Hid. by simplify_eq. }
    rewrite Hmo in *. destruct (ok_ma_numbered d d_ok m Hm) as [x Hx]. rewrite Hmo in Hx.
    unfold known, view_tx in *. simpl in *. destruct (b_block_no (t_block (i_tx i))) as [y|] eqn:Ey; [|done].
    rewrite Hx. simpl in *. pose proof (ok_spent_after d d_ok i o x y Hi Ho Hx Ey). rewrite Is_true_true, Z.leb_le in *. lia.
Qed.

Lemma get_asset_spends_facts policy name ident :
  resolve_multi_asset_id policy name d = Some ident ->
  rows_between (q_start q) (q_end q) (spend_facts policy name L) <= q_limit q ->
  exists rs, get_asset_spends ident q d = Ok rs /\
    afact <$> rs ≡ₚ filter (fact_between (q_start q) (q_end q)) (spend_facts policy name L).
Proof.
  intros Hid Hlen. unfold get_asset_spends. apply paged_facts; [by eexists| |done].
  assert (omap Some (spend_rows d ident q) = spend_rows d ident q) as ->.
  { induction (spend_rows d ident q) as [|x l IH]; [done|]. by rewrite omap_cons, IH. }
  set (g (tokens : list (Z * LedgerOut)) (s : LedgerTx * LedgerOut) := (fun k : Z * LedgerOut => Build_Fact (fst k) (fst s) (snd s)) <$>
    filter (fun k => lo_id (snd k) = lo_id (snd s)) tokens).
  assert (afact <$> spend_rows d ident q = filter (fun s => between (fst s) /\ Is_true ((fun _ => true) (snd s))) (spends_in d) ≫= g (tokens_in policy name d)) as ->.
  { rewrite <- (view_spend_pairs (fun _ => true)). unfold spend_rows, spend_pairs. rewrite input_filter, bind_fmap, fmap_bind, bind_bind.
    apply bind_ext_elem. intros i _. rewrite fmap_bind, bind_filter_l, bind_bind.
    apply bind_ext_elem. intros o Ho. rewrite decide_True by done. rewrite bind_cons, app_nil_r, fmap_bind. unfold g. simpl.
    rewrite bind_singleton. unfold tokens_in. rewrite Hid, filter_fmap_comm, <- list_fmap_compose, list_filter_filter.
    f_equal. apply filter_ext_elem. intros m Hm. simpl. unfold spent_out in Ho. apply list_elem_of_filter in Ho as [_ Ho].
    pose proof (ok_ma_out d d_ok m Hm) as Hmo. split.
    - intros [E ->]. split; [|done]. by rewrite (ok_out_unique d d_ok _ o Hmo Ho (or_introl E)).
    - intros [E ->]. split; [|done]. unfold lo_id in E. simpl in E. f_equal. apply (ok_out_unique d d_ok); [done..|]. right. by simplify_eq. }
  rewrite (bind_perm_ext _ (g (tokens_of policy name L))).
  2: { intros s [[Hs _] Hin]%list_elem_of_filter. unfold g. by rewrite spent_tokens by (done || by apply Is_true_true). }
  rewrite spends_between. apply reflexive_eq. unfold spend_facts. rewrite filter_bind, bind_filter_l. apply bind_ext_elem. intros s _.
  rewrite bind_singleton, filter_fmap_comm. unfold fact_between. simpl. fold (tx_between (q_start q) (q_end q) (fst s)).
  case_decide as Hb.
  - rewrite list_filter_filter. unfold g. f_equal. apply list_filter_iff. intros k. tauto.
  - rewrite filter_none; [done|]. intros k _ Hx. tauto.
Qed.
End Query.
End Refine.

(** The bounds that every id satisfies *)
Definition unbounded (q : PagedQuery) : PagedQuery :=
  {| q_start := q_start q; q_end := q_end q; q_limit := q_limit q; q_offset := q_offset q;
     low_bound := {| bound_tx_id := 0; bound_tx_out_id := 0; bound_ma_tx_out_id := 0; bound_tx_in_id := 0 |};
     high_bound := {| bound_tx_id := i64_max; bound_tx_out_id := i64_max; bound_ma_tx_out_id := i64_max; bound_tx_in_id := i64_max |} |}.

(** The bounds on table ids lose no row.  In a database whose ids grow with the blocks, each of
    the four queries with the bounds computed for its first and its last block has the same rows as
    without bounds. *)
Theorem bounds_lose_no_row {pg : Postgres} {pg_laws : PostgresLaws} {ca : CardanoAddresses} {csl : CardanoSerializationLib}
    (d : Db) (q : PagedQuery) :
  db_ok d -> get_low_bounds (block_number (q_start q)) d = Some (low_bound q) ->
  get_high_bounds (block_number (q_end q)) d = Some (high_bound q) ->
  (forall address ident, registration_rows d address ident q = registration_rows d address ident (unbounded q)) /\
  (forall address, deregistration_rows d address q = deregistration_rows d address (unbounded q)) /\
  (forall ident, create_rows d ident q = create_rows d ident (unbounded q)) /\
  (forall ident, spend_rows d ident q = spend_rows d ident (unbounded q)).
Proof.
  intros Hd Hlo Hhi.
  assert (above (low_bound q) (as_i32 (block_number (q_start q))) (as_i32 (block_number (q_end q))) d) as H1
    by (by apply low_bounds_above).
  assert (below (high_bound q) (as_i32 (block_number (q_start q))) (as_i32 (block_number (q_end q))) d) as H2
    by (by apply high_bounds_below).
  assert (forall s e, above (low_bound (unbounded q)) s e d) as H3.
  { intros s e t n Ht _ _. simpl. pose proof (ok_tx_ids d Hd t Ht). split; [lia|]. repeat split; intros x Hx _.
    - apply (ok_out_ids d Hd x Hx).
    - apply (ok_ma_ids d Hd x Hx).
    - apply (ok_in_ids d Hd x Hx). }
  assert (forall s e, below (high_bound (unbounded q)) s e d) as H4.
  { intros s e t n Ht _ _. simpl. pose proof (ok_tx_ids d Hd t Ht). split; [lia|]. repeat split; intros x Hx _.
    - apply (ok_out_ids d Hd x Hx).
    - apply (ok_ma_ids d Hd x Hx).
    - apply (ok_in_ids d Hd x Hx). }
  destruct (rows_in_range d q Hd H1 H2) as (R1 & R2 & R3 & R4).
  destruct (rows_in_range d (unbounded q) Hd (H3 _ _) (H4 _ _)) as (U1 & U2 & U3 & U4).
  split; [|split; [|split]]; intros.
  - by rewrite R1, U1.
  - by rewrite R2, U2.
  - by rewrite R3, U3.
  - by rewrite R4, U4.
Qed.
