(* ===== verification/CNightPull.v ===== *)
(** * Pulls of cNIGHT events

    Shows that [bulk_pull], and the source that pulls at each call, return the ledger's events in
    their order, whatever order the database returns rows in and however it grows between the
    queries of a pull, as long as no query has more rows than its limit; and that beyond the limit
    events are lost. *)

From stdpp Require Import sorting.
From S2P Require Import Prelude Frame Plutus Domain PlutusData CNightPrimitives CNightWindow CNightQueries CNightLedger.
Open Scope Z_scope.

(** ** The stable sort *)

Notation Utxo := (ObservedUtxo Bytes Bytes).

Definition kind (u : Utxo) : Z :=
  match data u with Registration _ => 0 | Deregistration _ => 1 | AssetCreate _ => 2 | AssetSpend _ => 3 end.

(** The order of events, and of kinds where it leaves them equal *)
Definition event_cmp : Utxo -> Utxo -> comparison := lex utxo_cmp (fun a b => Z.compare (kind a) (kind b)).
Definition event_le (a b : Utxo) : Prop := event_cmp a b <> Gt.

#[export] Instance utxo_cmp_lawful : LawfulCmp (@utxo_cmp Bytes Bytes).
Proof.
  split; unfold utxo_cmp; intros *.
  - apply cmp_flip.
  - apply cmp_trans.
  - apply cmp_eq_l.
Qed.
#[export] Instance event_cmp_lawful : LawfulCmp event_cmp.
Proof. apply lex_lawful; apply _. Qed.

Lemma cmp_le_trans {A} (cmp : A -> A -> comparison) `{!LawfulCmp cmp} a b c : cmp a b <> Gt -> cmp b c <> Gt -> cmp a c <> Gt.
Proof.
  intros H1 H2 H3. destruct (cmp a b) eqn:E1; [by rewrite (cmp_eq_l a b c E1) in H3| |done].
  assert (cmp c a = Lt) as H4 by (rewrite cmp_flip, H3; done).
  apply H2. rewrite (cmp_flip c b). by rewrite (cmp_trans c a b Lt).
Qed.

Lemma sort_perm l : sort l ≡ₚ l.
Proof.
  induction l as [|u l IH]; [done|]. simpl. transitivity (u :: sort l); [|by rewrite IH]. generalize (sort l). clear.
  induction l as [|v l IH]; simpl; [done|]. destruct (utxo_cmp u v); [done|done|]. rewrite IH. apply perm_swap.
Qed.

Lemma insert_sorted u l : StronglySorted event_le l -> (forall v, v ∈ l -> kind u <= kind v) ->
  StronglySorted event_le (insert_utxo u l).
Proof.
  induction 1 as [|v l Hs IH Hv]; intros Hk; simpl; [by repeat constructor|].
  rewrite Forall_forall in Hv. assert (kind u <= kind v) as Hkv by (apply Hk; left).
  destruct (utxo_cmp u v) eqn:E.
  3: { constructor; [apply IH; intros w Hw; apply Hk; by right|]. apply Forall_forall. intros w Hw.
    assert (w ∈ u :: l) as Hw'.
    { clear -Hw. revert Hw. induction l as [|x l IH]; simpl; [done|]. destruct (utxo_cmp u x); set_solver. }
    apply elem_of_cons in Hw' as [->|Hw']; [|by apply Hv]. unfold event_le, event_cmp, lex. by rewrite cmp_flip, E. }
  all: assert (event_le u v) as Huv by (unfold event_le, event_cmp, lex; rewrite E; try done; by apply Z.compare_le_iff);
    constructor; [by constructor; [|apply Forall_forall]|]; apply Forall_cons; (split; [done|]); apply Forall_forall;
    intros w Hw; eapply cmp_le_trans; [apply _|exact Huv|by apply Hv].
Qed.

Lemma sort_sorted l : StronglySorted (fun a b => kind a <= kind b) l -> StronglySorted event_le (sort l).
Proof.
  induction 1 as [|u l Hs IH Hu]; [constructor|]. simpl. apply insert_sorted; [done|].
  intros v Hv. rewrite sort_perm in Hv. rewrite Forall_forall in Hu. by apply Hu.
Qed.

Lemma event_le_utxo_le l : StronglySorted event_le l -> StronglySorted utxo_le l.
Proof.
  induction 1 as [|a l Hs IH Ha]; constructor; [done|]. eapply Forall_impl; [exact Ha|]. intros b. unfold event_le, event_cmp, lex, utxo_le. by destruct (utxo_cmp a b).
Qed.

(** Events of the same kind with the same key are the same. *)
Definition keyed (l : list Utxo) : Prop :=
  forall a b, a ∈ l -> b ∈ l -> order_key a = order_key b -> kind a = kind b -> a = b.

Lemma event_le_antisym l a b : keyed l -> a ∈ l -> b ∈ l -> event_le a b -> event_le b a -> a = b.
Proof.
  intros Hk Ha Hb Hab Hba. unfold event_le, event_cmp, lex in *. rewrite (cmp_flip a b) in Hba.
  destruct (utxo_cmp a b) eqn:E; simpl in Hba; [|done..]. apply Hk; [done..| |].
  - apply utxo_le_antisym; unfold utxo_le; [by rewrite E|]. by rewrite cmp_flip, E.
  - destruct (Z.compare_spec (kind a) (kind b)), (Z.compare_spec (kind b) (kind a)); try done; lia.
Qed.

Lemma sort_unique l1 l2 : l1 ≡ₚ l2 -> keyed l1 ->
  StronglySorted (fun a b => kind a <= kind b) l1 -> StronglySorted (fun a b => kind a <= kind b) l2 -> sort l1 = sort l2.
Proof.
  intros Hp Hk H1 H2. apply (StronglySorted_unique_strong event_le); [|by apply sort_sorted..|by rewrite !sort_perm].
  intros a b Ha Hb. rewrite sort_perm in Ha. rewrite sort_perm, <- Hp in Hb. by apply (event_le_antisym l1).
Qed.

(** ** Events of rows *)

Section Pull.
Context {pg : Postgres} {pg_laws : PostgresLaws} {ca : CardanoAddresses} {ca_laws : CardanoAddressesLaws}.
Context {csl : CardanoSerializationLib}.
Implicit Types (d : Db) (L : Ledger) (q : PagedQuery).

Lemma reward_address_bytes_Ok {E} n c : reward_address_bytes (E:=E) n c = Ok (reward_address n c).
Proof. unfold reward_address_bytes, as_array_of. by rewrite reward_address_length. Qed.

Lemma collect_Ok {E A B} (f : A -> outcome E (option B)) (g : A -> option B) l :
  (forall x, x ∈ l -> f x = Ok (g x)) -> collect f l = Ok (omap g l).
Proof.
  induction l as [|x l IH]; intros Hf; [done|]. simpl. rewrite (Hf x) by left. simpl.
  rewrite IH by (intros; apply Hf; by right). simpl. by destruct (g x).
Qed.

Lemma header_of_view {X} d t o (x : X) : is_Some (lt_pos (view_tx t)) ->
  fact_header (Build_Fact x (view_tx t) (view_out d o)) = Some (header_of t o).
Proof.
  intros [p Hp]. unfold fact_header, header_of, view_tx in *. simpl in *.
  destruct (b_block_no (t_block t)); simplify_eq. done.
Qed.

Lemma datum_utxo_event {E} d make network r : is_Some (lt_pos (view_tx (dr_tx r))) ->
  datum_utxo (E:=E) make network r = Ok (datum_event make network (dfact d r)).
Proof.
  intros Hn. unfold datum_utxo, datum_event, dfact. rewrite header_of_view by done. simpl.
  destruct (as_constr_plutus_data (dr_datum r)) as [c|]; [|done]. simpl.
  destruct (decode_registration_datum c) as [[cr k]| |]; [|done..]. by rewrite reward_address_bytes_Ok.
Qed.
Lemma asset_utxo_event {E} d make make' network r : is_Some (lt_pos (view_tx (ar_tx r))) ->
  (forall owner v, make r owner v = make' (afact d r) owner v) ->
  asset_utxo (E:=E) make network r = Ok (asset_event make' network (afact d r)).
Proof.
  intros Hn Hm. unfold asset_utxo, asset_event, afact in *. rewrite header_of_view by done. simpl.
  destruct (from_bech32 (o_address (ar_out r))) as [a|]; [|done]. simpl.
  destruct (base_stake_cred a) as [c|]; [|done]. simpl. rewrite reward_address_bytes_Ok. simpl. by rewrite Hm.
Qed.

(** Rows that hold the facts between two positions give the events between them. *)
Lemma collect_events {E A X} (f : A -> outcome E (option Utxo)) (fact : A -> Fact X) (event : Fact X -> option Utxo) s e rs facts :
  fact <$> rs ≡ₚ filter (fact_between s e) facts ->
  (forall r, is_Some (lt_pos (f_tx (fact r))) -> f r = Ok (event (fact r))) ->
  (forall x u, event x = Some u -> lt_pos (f_tx x) = Some (pos u)) ->
  exists us, collect f rs = Ok us /\ us ≡ₚ filter (in_window s e) (omap event facts).
Proof.
  intros Hp Hf He. exists (omap event (fact <$> rs)). split.
  - rewrite omap_fmap_comp. apply collect_Ok. intros r Hr. apply Hf.
    assert (fact r ∈ filter (fact_between s e) facts) as [Hb _]%list_elem_of_filter by (rewrite <- Hp; by apply list_elem_of_fmap_2).
    unfold fact_between in Hb. destruct (lt_pos (f_tx (fact r))); [by eexists|done].
  - rewrite Hp. rewrite (filter_omap _ _ (fun x => Is_true (fact_between s e x))); [done|].
    intros x u Hu. unfold in_window, fact_between. rewrite (He x u Hu), Is_true_true, andb_true_iff, negb_true_iff. done.
Qed.

Lemma datum_event_pos make network x u : datum_event make network x = Some u -> lt_pos (f_tx x) = Some (pos u).
Proof.
  unfold datum_event, fact_header. destruct (lt_pos (f_tx x)); [|done]. simpl. destruct (as_constr_plutus_data _); [|done]. simpl.
  destruct (decode_registration_datum _) as [[]| |]; [|done..]. by intros [= <-].
Qed.
Lemma asset_event_pos make network x u : asset_event make network x = Some u -> lt_pos (f_tx x) = Some (pos u).
Proof.
  unfold asset_event, fact_header. destruct (lt_pos (f_tx x)); [|done]. simpl. destruct (from_bech32 _); [|done]. simpl.
  destruct (base_stake_cred _); [|done]. by intros [= <-].
Qed.

(** ** Events of the ledger *)

Definition fact_id {X} (f : Fact X) : Bytes * Z := lo_id (f_out f).
Definition unique_facts {X} (l : list (Fact X)) : Prop := forall f g, f ∈ l -> g ∈ l -> fact_id f = fact_id g -> f = g.

Lemma NoDup_fmap_inj {A B} (f : A -> B) (l : list A) x y : NoDup (f <$> l) -> x ∈ l -> y ∈ l -> f x = f y -> x = y.
Proof.
  intros Hnd [i Hi]%list_elem_of_lookup [j Hj]%list_elem_of_lookup Hf. assert (i = j) as ->; [|congruence].
  eapply (NoDup_lookup (f <$> l)); [done|..]; rewrite list_lookup_fmap; [by rewrite Hi|by rewrite Hj, Hf].
Qed.

Section Events.
Context L (L_ok : ledger_ok L).

Lemma registration_facts_unique a p n : unique_facts (registration_facts a p n L).
Proof.
  intros f g (k & [_ Hk]%list_elem_of_filter & Hf)%list_elem_of_omap (k' & [_ Hk']%list_elem_of_filter & Hg)%list_elem_of_omap Hid.
  unfold with_datum in *. destruct (lo_datum (snd k)) eqn:E1, (lo_datum (snd k')) eqn:E2; try done.
  injection Hf as <-. injection Hg as <-.
  assert (k = k') as ->; [|congruence]. by apply (NoDup_fmap_inj _ _ _ _ (lk_tokens L L_ok p n)).
Qed.
Lemma deregistration_facts_unique a : unique_facts (deregistration_facts a L).
Proof.
  intros f g (k & [_ Hk]%list_elem_of_filter & Hf)%list_elem_of_omap (k' & [_ Hk']%list_elem_of_filter & Hg)%list_elem_of_omap Hid.
  unfold with_datum in *. destruct (lo_datum (snd k)) eqn:E1, (lo_datum (snd k')) eqn:E2; try done.
  injection Hf as <-. injection Hg as <-.
  assert (k = k') as ->; [|congruence]. by apply (NoDup_fmap_inj _ _ _ _ (lk_spends L L_ok)).
Qed.
Lemma create_facts_unique p n : unique_facts (create_facts p n L).
Proof.
  intros f g (k & -> & Hk)%list_elem_of_fmap (k' & -> & Hk')%list_elem_of_fmap Hid.
  assert (k = k') as ->; [|done]. by apply (NoDup_fmap_inj _ _ _ _ (lk_tokens L L_ok p n)).
Qed.
Lemma spend_facts_unique p n : unique_facts (spend_facts p n L).
Proof.
  intros f g (s & Hf & Hs)%list_elem_of_bind (s' & Hg & Hs')%list_elem_of_bind Hid.
  apply list_elem_of_bind in Hf as (k & ->%list_elem_of_singleton & [Ek Hk]%list_elem_of_filter).
  apply list_elem_of_bind in Hg as (k' & ->%list_elem_of_singleton & [Ek' Hk']%list_elem_of_filter).
  unfold fact_id in Hid. simpl in Hid.
  assert (s = s') as -> by by apply (NoDup_fmap_inj _ _ _ _ (lk_spends L L_ok)).
  assert (k = k') as ->; [|done]. apply (NoDup_fmap_inj _ _ _ _ (lk_tokens L L_ok p n)); [done..|]. simpl. congruence.
Qed.
End Events.

Lemma keyed_omap {X} (event : Fact X -> option Utxo) facts a b :
  unique_facts facts -> (forall x u, event x = Some u -> snd (order_key u) = fact_id x) ->
  a ∈ omap event facts -> b ∈ omap event facts -> order_key a = order_key b -> a = b.
Proof.
  intros Hu He (x & Hx & Hxa)%list_elem_of_omap (y & Hy & Hyb)%list_elem_of_omap Hk.
  assert (x = y) as ->; [|congruence]. apply Hu; [done..|]. rewrite <- (He x a), <- (He y b) by done. congruence.
Qed.

Lemma datum_event_id make network x u : datum_event make network x = Some u -> snd (order_key u) = fact_id x.
Proof.
  unfold datum_event, fact_header. destruct (lt_pos (f_tx x)); [|done]. simpl. destruct (as_constr_plutus_data _); [|done]. simpl.
  destruct (decode_registration_datum _) as [[]| |]; [|done..]. by intros [= <-].
Qed.
Lemma asset_event_id make network x u : asset_event make network x = Some u -> snd (order_key u) = fact_id x.
Proof.
  unfold asset_event, fact_header. destruct (lt_pos (f_tx x)); [|done]. simpl. destruct (from_bech32 _); [|done]. simpl.
  destruct (base_stake_cred _); [|done]. by intros [= <-].
Qed.

Lemma datum_event_data make network x u : datum_event make network x = Some u -> exists a k, data u = make a k.
Proof.
  unfold datum_event. destruct (fact_header x); [|done]. simpl. destruct (as_constr_plutus_data _); [|done]. simpl.
  destruct (decode_registration_datum _) as [[]| |]; [|done..]. intros [= <-]. simpl. eauto.
Qed.
Lemma asset_event_data make network x u : asset_event make network x = Some u -> exists a v, data u = make x a v.
Proof.
  unfold asset_event. destruct (fact_header x); [|done]. simpl. destruct (from_bech32 _); [|done]. simpl.
  destruct (base_stake_cred _); [|done]. intros [= <-]. simpl. eauto.
Qed.
Lemma kinds_sorted (r e c t : list Utxo) :
  (forall u, u ∈ r -> kind u = 0) -> (forall u, u ∈ e -> kind u = 1) -> (forall u, u ∈ c -> kind u = 2) -> (forall u, u ∈ t -> kind u = 3) ->
  StronglySorted (fun a b => kind a <= kind b) (r ++ e ++ c ++ t).
Proof.
  assert (forall (l : list Utxo) k, (forall u, u ∈ l -> kind u = k) -> StronglySorted (fun a b => kind a <= kind b) l) as Hsame.
  { intros l k. induction l as [|u l IH]; intros Hl; constructor; [apply IH; intros; apply Hl; by right|].
    apply Forall_forall. intros v Hv. rewrite (Hl u), (Hl v) by (try left; by right). done. }
  intros Hr He Hc Ht. repeat (apply StronglySorted_app_2; [|by eapply Hsame|]); [..|by eapply Hsame];
    intros a b Ha Hb; rewrite ?elem_of_app in Hb; destruct_or?;
    repeat match goal with H : forall u, u ∈ ?l -> _, H' : _ ∈ ?l |- _ => apply H in H' end; lia.
Qed.

Lemma datum_kind make network (facts : list (Fact PlutusData)) k : (forall a b h, kind {| header := h; data := make a b |} = k) ->
  forall u, u ∈ omap (datum_event make network) facts -> kind u = k.
Proof.
  intros Hm u (x & _ & Hx)%list_elem_of_omap. apply datum_event_data in Hx as (a & b & Hd). destruct u as [h dt]. simpl in Hd. by rewrite Hd.
Qed.
Lemma asset_kind make network (facts : list (Fact Z)) k : (forall x a b h, kind {| header := h; data := make x a b |} = k) ->
  forall u, u ∈ omap (asset_event make network) facts -> kind u = k.
Proof.
  intros Hm u (x & _ & Hx)%list_elem_of_omap. apply asset_event_data in Hx as (a & b & Hd). destruct u as [h dt]. simpl in Hd. by rewrite Hd.
Qed.

(** The kinds of the four parts of [ledger_events] *)
Ltac kinds := match goal with
  | |- forall u, u ∈ omap (datum_event _ _) _ -> _ => by apply datum_kind
  | |- forall u, u ∈ omap (asset_event _ _) _ -> _ => by apply asset_kind
  end.

Lemma ledger_events_keyed cfg network policy L : ledger_ok L -> keyed (ledger_events cfg network policy L).
Proof.
  intros HL a b Ha Hb Hk Hkind. unfold ledger_events in *.
  set (r := omap (datum_event make_registration network) _) in *. set (e := omap (datum_event make_deregistration network) _) in *.
  set (c := omap (asset_event create_of network) _) in *. set (t := omap (asset_event spend_of network) _) in *.
  assert (forall u, u ∈ r -> kind u = 0) as Hr by (unfold r; kinds). assert (forall u, u ∈ e -> kind u = 1) as He by (unfold e; kinds).
  assert (forall u, u ∈ c -> kind u = 2) as Hc by (unfold c; kinds). assert (forall u, u ∈ t -> kind u = 3) as Ht by (unfold t; kinds).
  rewrite !elem_of_app in Ha, Hb.
  destruct Ha as [Ha|[Ha|[Ha|Ha]]], Hb as [Hb|[Hb|[Hb|Hb]]];
    try (exfalso; repeat match goal with H : forall u, u ∈ ?l -> _, H' : _ ∈ ?l |- _ => apply H in H' end; lia).
  - eapply keyed_omap; [by apply registration_facts_unique|apply datum_event_id|done..].
  - eapply keyed_omap; [by apply deregistration_facts_unique|apply datum_event_id|done..].
  - eapply keyed_omap; [by apply create_facts_unique|apply asset_event_id|done..].
  - eapply keyed_omap; [by apply spend_facts_unique|apply asset_event_id|done..].
Qed.

(** Events pulled in any order within their kinds are sorted like those of the ledger. *)
Lemma sort_pulled cfg network policy L s e r1 r2 r3 r4 : ledger_ok L ->
  r1 ≡ₚ filter (in_window s e) (omap (datum_event make_registration network)
    (registration_facts (mapping_validator_address cfg) policy (auth_token_asset_name cfg) L)) ->
  r2 ≡ₚ filter (in_window s e) (omap (datum_event make_deregistration network) (deregistration_facts (mapping_validator_address cfg) L)) ->
  r3 ≡ₚ filter (in_window s e) (omap (asset_event create_of network) (create_facts (cnight_policy_id cfg) (cnight_asset_name cfg) L)) ->
  r4 ≡ₚ filter (in_window s e) (omap (asset_event spend_of network) (spend_facts (cnight_policy_id cfg) (cnight_asset_name cfg) L)) ->
  sort (r1 ++ r2 ++ r3 ++ r4) = events_between cfg network policy L s e.
Proof.
  intros HL H1 H2 H3 H4. unfold events_between.
  assert (forall (l m : list Utxo) k, l ≡ₚ filter (in_window s e) m -> (forall u, u ∈ m -> kind u = k) -> forall u, u ∈ l -> kind u = k) as Hkind.
  { intros l m k Hp Hm u Hu. apply Hm. rewrite Hp in Hu. by apply list_elem_of_filter in Hu as [_ ?]. }
  pose proof (ledger_events_keyed cfg network policy L HL) as Hkey.
  assert (StronglySorted (fun a b => kind a <= kind b) (ledger_events cfg network policy L)) as Hs by (apply kinds_sorted; kinds).
  symmetry. apply sort_unique.
  - unfold ledger_events. rewrite !filter_app. by rewrite H1, H2, H3, H4.
  - intros a b [_ Ha]%list_elem_of_filter [_ Hb]%list_elem_of_filter. by apply Hkey.
  - by apply StronglySorted_filter.
  - apply kinds_sorted; (eapply Hkind; [eassumption|kinds]).
Qed.
End Pull.

(** ** Databases that follow the ledger *)

Section World.
Context {pg : Postgres} {pg_laws : PostgresLaws} {ca : CardanoAddresses} {ca_laws : CardanoAddressesLaws}.
Context {csl : CardanoSerializationLib}.
Implicit Types (d : Db) (L : Ledger).

(** A later database has the same rows of the blocks up to [h], with the same ids. *)
Record rows_kept (h : Z) (d d' : Db) : Prop := {
  kept_tx t : t ∈ tx d' -> known h (view_tx t) -> t ∈ tx d;
  kept_out o : o ∈ tx_out d' -> known h (view_tx (o_tx o)) -> o ∈ tx_out d;
  kept_in i : i ∈ tx_in d' -> known h (view_tx (i_tx i)) -> i ∈ tx_in d;
  kept_ma m : m ∈ ma_tx_out d' -> known h (view_tx (o_tx (m_tx_out m))) -> m ∈ ma_tx_out d;
  kept_asset policy name id : resolve_multi_asset_id policy name d = Some id -> resolve_multi_asset_id policy name d' = Some id
}.

(** The database that query [n] sees has the ledger up to block [height n]. *)
Record follows (world : nat -> option Db) (height : nat -> Z) (L : Ledger) : Prop := {
  fw_ok n d : world n = Some d -> db_ok d;
  fw_rep n d : world n = Some d -> represents (height n) L d;
  fw_height n m : (n <= m)%nat -> height n <= height m;
  fw_kept n m d d' : (n <= m)%nat -> world n = Some d -> world m = Some d' -> rows_kept (height n) d d';
  fw_ledger : ledger_ok L
}.

Lemma represents_within h h' L d : h' <= h -> represents h L d -> represents h' L d.
Proof.
  intros Hle [Hb Ht Hs]. assert (forall t, known h' t -> known h t) as Hk.
  { intros t. unfold known. destruct (lt_pos t); [|done]. rewrite !Is_true_true, !Z.leb_le. lia. }
  split.
  - intros p Hp. apply Hb. lia.
  - intros policy name. eapply (perm_restrict (fun k => known h (lo_tx (snd k)))); [apply Ht|]. intros k. apply Hk.
  - eapply (perm_restrict (fun s => known h (fst s))); [apply Hs|]. intros k. apply Hk.
Qed.

Lemma above_kept h lo s e d d' : rows_kept h d d' -> db_ok d' -> e <= h -> above lo s e d -> above lo s e d'.
Proof.
  intros Hk Hd' He Ha t n Ht Hn Hse. assert (known h (view_tx t)) as Hkn.
  { unfold known, view_tx. simpl. rewrite Hn. simpl. apply Is_true_true, Z.leb_le. lia. }
  destruct (Ha t n (kept_tx _ _ _ Hk t Ht Hkn) Hn Hse) as (H1 & H2 & H3 & H4). split; [done|]. split; [|split].
  - intros o Ho <-. apply H2; [|done]. by apply (kept_out _ _ _ Hk).
  - intros m Hm <-. apply H3; [|done]. by apply (kept_ma _ _ _ Hk).
  - intros i Hi <-. apply H4; [|done]. by apply (kept_in _ _ _ Hk).
Qed.
Lemma below_kept h hi s e d d' : rows_kept h d d' -> db_ok d' -> e <= h -> below hi s e d -> below hi s e d'.
Proof.
  intros Hk Hd' He Ha t n Ht Hn Hse. assert (known h (view_tx t)) as Hkn.
  { unfold known, view_tx. simpl. rewrite Hn. simpl. apply Is_true_true, Z.leb_le. lia. }
  destruct (Ha t n (kept_tx _ _ _ Hk t Ht Hkn) Hn Hse) as (H1 & H2 & H3 & H4). split; [done|]. split; [|split].
  - intros o Ho <-. apply H2; [|done]. by apply (kept_out _ _ _ Hk).
  - intros m Hm <-. apply H3; [|done]. by apply (kept_ma _ _ _ Hk).
  - intros i Hi <-. apply H4; [|done]. by apply (kept_in _ _ _ Hk).
Qed.

Context (world : nat -> option Db) (height : nat -> Z) (L : Ledger) (fw : follows world height L).

Lemma query_Ok {A} (f : Db -> outcome SourceError A) n d a : world n = Some d -> f d = Ok a -> query world f n = Ok (a, S n).
Proof. intros Hw Hf. unfold query. by rewrite Hw, Hf. Qed.

(** A token that the database does not know has no event up to its height. *)
Lemma unknown_token n d policy name (k : Z * LedgerOut) : world n = Some d -> resolve_multi_asset_id policy name d = None ->
  k ∈ tokens_of policy name L -> known (height n) (lo_tx (snd k)) -> False.
Proof.
  intros Hw Hr Hk Hkn. assert (k ∈ filter (fun k => known (height n) (lo_tx (snd k))) (tokens_of policy name L)) as Hin
    by by apply list_elem_of_filter.
  rewrite <- (rep_tokens _ _ _ (fw_rep _ _ _ fw n d Hw)) in Hin. apply list_elem_of_filter in Hin as [_ Hin].
  unfold tokens_in in Hin. rewrite Hr in Hin. by apply elem_of_nil in Hin.
Qed.

(** The bounds of a query hold from query [n] on. *)
Definition sound (n : nat) (q : PagedQuery) : Prop := forall m d, (n <= m)%nat -> world m = Some d ->
  above (low_bound q) (as_i32 (block_number (q_start q))) (as_i32 (block_number (q_end q))) d /\
  below (high_bound q) (as_i32 (block_number (q_start q))) (as_i32 (block_number (q_end q))) d.

Lemma sound_bounds n q dl dh : world n = Some dl -> world (S n) = Some dh ->
  get_low_bounds (block_number (q_start q)) dl = Some (low_bound q) ->
  get_high_bounds (block_number (q_end q)) dh = Some (high_bound q) ->
  i32_position (q_end q) -> block_number (q_end q) <= height n -> sound (S n) q.
Proof.
  intros Hl Hh Hlo Hhi [Hi _] He m d Hm Hd. pose proof (fw_height _ _ _ fw n (S n) ltac:(lia)).
  rewrite (as_i32_small (block_number (q_end q))) by done. split.
  - eapply above_kept; [apply (fw_kept _ _ _ fw n m); [lia|done..]|by eapply fw_ok|done|].
    apply low_bounds_above; [by eapply fw_ok|done].
  - eapply below_kept; [apply (fw_kept _ _ _ fw (S n) m); [lia|done..]|by eapply fw_ok|lia|].
    rewrite <- (as_i32_small (block_number (q_end q))) by done. apply high_bounds_below; [by eapply fw_ok|done].
Qed.

Section Paged.
Context (n : nat) (q : PagedQuery) (q_sound : sound n q).
Hypothesis start_ok : i32_position (q_start q).
Hypothesis end_ok : i32_position (q_end q).
Hypothesis end_known : block_number (q_end q) <= height n.
Hypothesis offset_ok : q_offset q = 0.
Hypothesis limit_ok : q_limit q < i32_max.
Hypothesis available : forall m, (n <= m)%nat -> is_Some (world m).
Notation window := (filter (in_window (q_start q) (q_end q))).

(** A query whose rows hold the facts in the window, and the loop over its rows *)
Lemma collect_query {A X} m d (get : Db -> outcome SourceError (list A)) (f : A -> outcome SourceError (option Utxo))
    (fact : A -> Fact X) (event : Fact X -> option Utxo) facts :
  world m = Some d ->
  (exists rs, get d = Ok rs /\ fact <$> rs ≡ₚ filter (fact_between (q_start q) (q_end q)) facts) ->
  (forall r, is_Some (lt_pos (f_tx (fact r))) -> f r = Ok (event (fact r))) ->
  (forall x u, event x = Some u -> lt_pos (f_tx x) = Some (pos u)) ->
  exists us, (let* rows := query world get in lift (collect f rows)) m = Ok (us, S m) /\ us ≡ₚ window (omap event facts).
Proof.
  intros Hd (rs & Hrs & Hp) Hf He. destruct (collect_events f fact event _ _ rs _ Hp Hf He) as (us & Hus & Hperm).
  exists us. split; [|done]. rewrite (bind_Ok _ _ m rs (S m)) by by apply (query_Ok _ m d). unfold lift. by rewrite Hus.
Qed.

Lemma pull_registrations m network address policy name ident : (n <= m)%nat ->
  (forall d, world m = Some d -> resolve_multi_asset_id policy name d = Some ident) ->
  rows_between (q_start q) (q_end q) (registration_facts address policy name L) <= q_limit q ->
  exists us, get_registration_utxos world network ident address q m = Ok (us, S m) /\
    us ≡ₚ window (omap (datum_event make_registration network) (registration_facts address policy name L)).
Proof.
  intros Hm Hid Hlen. destruct (available m Hm) as [d Hd]. destruct (q_sound m d Hm Hd) as [Ha Hb].
  pose proof (fw_height _ _ _ fw n m Hm).
  apply (collect_query m d _ _ (dfact d) _ _ Hd).
  - apply (get_registrations_facts d q (fw_ok _ _ _ fw m d Hd) Ha Hb start_ok end_ok (height m) L (fw_rep _ _ _ fw m d Hd)
    ltac:(lia) offset_ok limit_ok address policy name ident (Hid d Hd) Hlen).
  - intros r Hr. by apply datum_utxo_event.
  - apply datum_event_pos.
Qed.

Lemma pull_deregistrations m network address : (n <= m)%nat ->
  rows_between (q_start q) (q_end q) (deregistration_facts address L) <= q_limit q ->
  exists us, get_deregistration_utxos world network address q m = Ok (us, S m) /\
    us ≡ₚ window (omap (datum_event make_deregistration network) (deregistration_facts address L)).
Proof.
  intros Hm Hlen. destruct (available m Hm) as [d Hd]. destruct (q_sound m d Hm Hd) as [Ha Hb].
  pose proof (fw_height _ _ _ fw n m Hm).
  apply (collect_query m d _ _ (dfact d) _ _ Hd).
  - apply (get_deregistrations_facts d q (fw_ok _ _ _ fw m d Hd) Ha Hb start_ok end_ok (height m) L (fw_rep _ _ _ fw m d Hd)
    ltac:(lia) offset_ok limit_ok address Hlen).
  - intros r Hr. by apply datum_utxo_event.
  - apply datum_event_pos.
Qed.

Lemma pull_creates m network policy name ident : (n <= m)%nat ->
  (forall d, world m = Some d -> resolve_multi_asset_id policy name d = Some ident) ->
  rows_between (q_start q) (q_end q) (create_facts policy name L) <= q_limit q ->
  exists us, get_asset_create_utxos world network ident q m = Ok (us, S m) /\
    us ≡ₚ window (omap (asset_event create_of network) (create_facts policy name L)).
Proof.
  intros Hm Hid Hlen. destruct (available m Hm) as [d Hd]. destruct (q_sound m d Hm Hd) as [Ha Hb].
  pose proof (fw_height _ _ _ fw n m Hm).
  apply (collect_query m d _ _ (afact d) _ _ Hd).
  - apply (get_asset_creates_facts d q (fw_ok _ _ _ fw m d Hd) Ha Hb start_ok end_ok (height m) L (fw_rep _ _ _ fw m d Hd)
    ltac:(lia) offset_ok limit_ok policy name ident (Hid d Hd) Hlen).
  - intros r Hr. by apply asset_utxo_event.
  - apply asset_event_pos.
Qed.

Lemma pull_spends m network policy name ident : (n <= m)%nat ->
  (forall d, world m = Some d -> resolve_multi_asset_id policy name d = Some ident) ->
  rows_between (q_start q) (q_end q) (spend_facts policy name L) <= q_limit q ->
  exists us, get_asset_spend_utxos world network ident q m = Ok (us, S m) /\
    us ≡ₚ window (omap (asset_event spend_of network) (spend_facts policy name L)).
Proof.
  intros Hm Hid Hlen. destruct (available m Hm) as [d Hd]. destruct (q_sound m d Hm Hd) as [Ha Hb].
  pose proof (fw_height _ _ _ fw n m Hm).
  apply (collect_query m d _ _ (afact d) _ _ Hd).
  - apply (get_asset_spends_facts d q (fw_ok _ _ _ fw m d Hd) Ha Hb start_ok end_ok (height m) L (fw_rep _ _ _ fw m d Hd)
    (fw_ledger _ _ _ fw) ltac:(lia) offset_ok limit_ok policy name ident (Hid d Hd) Hlen).
  - intros r Hr. by apply asset_utxo_event.
  - apply asset_event_pos.
Qed.
End Paged.

(** Facts of a token that the database does not know *)
Lemma unknown_facts n d policy name s e : world n = Some d -> resolve_multi_asset_id policy name d = None -> block_number e <= height n ->
  (forall address network, filter (in_window s e) (omap (datum_event make_registration network) (registration_facts address policy name L)) = []) /\
  (forall network, filter (in_window s e) (omap (asset_event create_of network) (create_facts policy name L)) = []) /\
  (forall network, filter (in_window s e) (omap (asset_event spend_of network) (spend_facts policy name L)) = []).
Proof.
  intros Hd Hr He.
  assert (forall (k : Z * LedgerOut) p, k ∈ tokens_of policy name L -> lt_pos (lo_tx (snd k)) = Some p -> block_number p <= block_number e -> False) as Hno.
  { intros k p Hk Hp Hpe. apply (unknown_token n d policy name k Hd Hr Hk). unfold known. rewrite Hp. apply Is_true_true, Z.leb_le. lia. }
  assert (forall u : Utxo, in_window s e u -> block_number (pos u) <= block_number e) as Hwin by (intros u [_ Hu]; positions).
  split; [|split].
  - intros address network. apply filter_none. intros u (f & Hf & Hu)%list_elem_of_omap Hw%Hwin.
    apply list_elem_of_omap in Hf as (k & [_ Hk]%list_elem_of_filter & Hx). apply datum_event_pos in Hu.
    unfold with_datum in Hx. destruct (lo_datum (snd k)); [|done]. injection Hx as <-. by eapply Hno.
  - intros network. apply filter_none. intros u (f & Hf & Hu)%list_elem_of_omap Hw%Hwin.
    apply list_elem_of_fmap in Hf as (k & -> & Hk). apply asset_event_pos in Hu. by eapply Hno.
  - intros network. apply filter_none. intros u (f & Hf & Hu)%list_elem_of_omap Hw%Hwin.
    apply list_elem_of_bind in Hf as (x & Hf & Hx). apply list_elem_of_bind in Hf as (k & ->%list_elem_of_singleton & [Ek Hk]%list_elem_of_filter).
    apply asset_event_pos in Hu. simpl in Hu.
    pose proof (lk_spent_after L (fw_ledger _ _ _ fw) policy name x _ k Hx Hu Hk Ek) as Hkn. unfold known in Hkn.
    destruct (lt_pos (lo_tx (snd k))) as [p|] eqn:Ep; [|done]. apply Is_true_true, Z.leb_le in Hkn. eapply Hno; [done..|lia].
Qed.

Lemma high_bounds_found n d e : world n = Some d -> 0 <= block_number e < 2 ^ 31 -> block_number e <= height n ->
  (exists p, p ∈ l_blocks L /\ block_number p = block_number e) -> is_Some (get_high_bounds (block_number e) d).
Proof.
  intros Hd Hi He (p & Hp & Hpe). apply (rep_blocks _ _ _ (fw_rep _ _ _ fw n d Hd)) in Hp as (b & Hb & Hv); [|lia].
  unfold get_high_bounds. rewrite as_i32_small by done.
  destruct (first_by _ (filter (fun b => b_block_no b = Some (block_number e)) (block d))) eqn:E; [by eexists|].
  apply first_by_None in E. assert (b ∈ filter (fun b => b_block_no b = Some (block_number e)) (block d)) as Hin.
  { apply list_elem_of_filter. split; [|done]. unfold view_block in Hv. destruct (b_block_no b) as [x|]; [|done]. injection Hv as Hv. rewrite <- Hpe, <- Hv. done. }
  rewrite E in Hin. by apply elem_of_nil in Hin.
Qed.

Lemma bulk_pull_events n cfg network policy s e limit :
  mapping_validator cfg = Ok (network, policy) -> i32_position s -> i32_position e -> block_number e <= height n ->
  (exists p, p ∈ l_blocks L /\ block_number p = block_number e) ->
  limit < i32_max -> within_limit limit cfg policy L s e -> (forall m, (n <= m)%nat -> is_Some (world m)) ->
  exists n', (n <= n')%nat /\ bulk_pull world cfg s e limit n = Ok (events_between cfg network policy L s e, n').
Proof.
  intros Hmv Hs Hei He Hblock Hlim Hwl Hav. unfold bulk_pull. rewrite Hmv.
  destruct (Hav n) as [d0 Hd0]; [lia|]. destruct (Hav (S n)) as [d1 Hd1]; [lia|].
  destruct (Hav (S (S n))) as [d2 Hd2]; [lia|]. destruct (Hav (S (S (S n)))) as [d3 Hd3]; [lia|].
  pose proof (fun m => fw_height _ _ _ fw n m) as Hh.
  rewrite (bind_Ok _ _ n (network, policy) n) by done.
  erewrite bind_Ok by by apply (query_Ok _ n d0). erewrite bind_Ok by by apply (query_Ok _ (S n) d1).
  erewrite bind_Ok by by apply (query_Ok _ (S (S n)) d2). erewrite bind_Ok by by apply (query_Ok _ (S (S (S n))) d3).
  destruct (get_low_bounds (block_number s) d2) as [lo|] eqn:Elo; [|done].
  destruct (high_bounds_found (S (S (S n))) d3 e Hd3 (proj1 Hei) ltac:(specialize (Hh (S (S (S n)))); lia) Hblock) as [hi Ehi].
  rewrite Ehi. rewrite (bind_Ok _ _ _ lo (S (S (S (S n))))) by done. rewrite (bind_Ok _ _ _ hi (S (S (S (S n))))) by done.
  set (q := {| q_start := s; q_end := e; q_limit := limit; q_offset := 0; low_bound := lo; high_bound := hi |}).
  assert (sound (S (S (S n))) q) as Hsound.
  { apply (sound_bounds _ _ d2 d3); try done. simpl. specialize (Hh (S (S n))). lia. }
  assert (forall k m d d' p nm id, (n <= k)%nat -> (k <= m)%nat -> world k = Some d -> world m = Some d' ->
    resolve_multi_asset_id p nm d = Some id -> resolve_multi_asset_id p nm d' = Some id) as Hid.
  { intros k m d d' p nm id _ Hkm Hdk Hdm. apply (kept_asset _ _ _ (fw_kept _ _ _ fw k m d d' Hkm Hdk Hdm)). }
  assert (block_number (q_end q) <= height (S (S (S n)))) as Hend by (simpl; specialize (Hh (S (S (S n)))); lia).
  assert (forall m, (S (S (S n)) <= m)%nat -> is_Some (world m)) as Hav' by (intros; apply Hav; lia).
  destruct Hwl as [W1 W2 W3 W4].
  assert (exists m1 r1, (S (S (S (S n))) <= m1)%nat /\
    match resolve_multi_asset_id policy (auth_token_asset_name cfg) d0 with
    | Some ident => get_registration_utxos world network ident (mapping_validator_address cfg) q
    | None => ret []
    end (S (S (S (S n)))) = Ok (r1, m1) /\
    r1 ≡ₚ filter (in_window s e) (omap (datum_event make_registration network)
      (registration_facts (mapping_validator_address cfg) policy (auth_token_asset_name cfg) L))) as (m1 & r1 & Hm1 & E1 & P1).
  { destruct (resolve_multi_asset_id policy (auth_token_asset_name cfg) d0) as [ident|] eqn:Er.
    - destruct (pull_registrations (S (S (S n))) q Hsound Hs Hei Hend eq_refl Hlim Hav' (S (S (S (S n)))) network
        (mapping_validator_address cfg) policy (auth_token_asset_name cfg) ident ltac:(lia)
        ltac:(intros d Hd; apply (Hid n (S (S (S (S n)))) d0 d); try lia; done) W1) as (us & -> & Hp). exists (S (S (S (S (S n))))), us. split; [lia|done].
    - exists (S (S (S (S n)))), []. split; [done|]. split; [done|].
      destruct (unknown_facts n d0 policy (auth_token_asset_name cfg) s e Hd0 Er He) as (-> & _). done. }
  rewrite (bind_Ok _ _ _ r1 m1) by done.
  destruct (pull_deregistrations (S (S (S n))) q Hsound Hs Hei Hend eq_refl Hlim Hav' m1 network
    (mapping_validator_address cfg) ltac:(lia) W2) as (r2 & E2 & P2).
  rewrite (bind_Ok _ _ _ r2 (S m1)) by done.
  assert (exists m2 r3 r4, (S m1 <= m2)%nat /\
    match resolve_multi_asset_id (cnight_policy_id cfg) (cnight_asset_name cfg) d1 with
    | Some ident =>
        let* creates := get_asset_create_utxos world network ident q in
        let* spends := get_asset_spend_utxos world network ident q in
        ret (creates ++ spends)
    | None => ret []
    end (S m1) = Ok (r3 ++ r4, m2) /\
    r3 ≡ₚ filter (in_window s e) (omap (asset_event create_of network) (create_facts (cnight_policy_id cfg) (cnight_asset_name cfg) L)) /\
    r4 ≡ₚ filter (in_window s e) (omap (asset_event spend_of network) (spend_facts (cnight_policy_id cfg) (cnight_asset_name cfg) L)))
    as (m2 & r3 & r4 & Hm2 & E3 & P3 & P4).
  { destruct (resolve_multi_asset_id (cnight_policy_id cfg) (cnight_asset_name cfg) d1) as [ident|] eqn:Er.
    - destruct (pull_creates (S (S (S n))) q Hsound Hs Hei Hend eq_refl Hlim Hav' (S m1) network
        (cnight_policy_id cfg) (cnight_asset_name cfg) ident ltac:(lia)
        ltac:(intros d Hd; apply (Hid (S n) (S m1) d1 d); try lia; done) W3) as (r3 & E3 & P3).
      destruct (pull_spends (S (S (S n))) q Hsound Hs Hei Hend eq_refl Hlim Hav' (S (S m1)) network
        (cnight_policy_id cfg) (cnight_asset_name cfg) ident ltac:(lia)
        ltac:(intros d Hd; apply (Hid (S n) (S (S m1)) d1 d); try lia; done) W4) as (r4 & E4 & P4).
      exists (S (S (S m1))), r3, r4. rewrite (bind_Ok _ _ _ _ _ E3), (bind_Ok _ _ _ _ _ E4). split; [lia|]. split; [done|]. by split.
    - exists (S m1), [], []. split; [done|]. split; [done|].
      destruct (unknown_facts (S n) d1 (cnight_policy_id cfg) (cnight_asset_name cfg) s e Hd1 Er ltac:(specialize (Hh (S n)); lia)) as (_ & -> & ->). done. }
  rewrite (bind_Ok _ _ _ (r3 ++ r4) m2) by done. exists m2. split; [lia|]. unfold ret. do 2 f_equal.
  apply sort_pulled; try done. apply (fw_ledger _ _ _ fw).
Qed.

Lemma get_block_by_hash_Ok n d tip : world n = Some d -> tip ∈ l_blocks L -> block_number tip <= height n ->
  get_block_by_hash (block_hash tip) d = Ok (Some tip).
Proof.
  intros Hd Ht Hh. pose proof (fw_ok _ _ _ fw n d Hd) as Hok.
  apply (rep_blocks _ _ _ (fw_rep _ _ _ fw n d Hd)) in Ht as (b & Hb & Hv); [|done].
  unfold view_block in Hv. destruct (b_block_no b) as [x|] eqn:Ex; [|done]. injection Hv as <-. simpl.
  unfold get_block_by_hash. destruct (first_by _ _) as [b'|] eqn:E.
  - apply first_by_Some, list_elem_of_filter in E as [Hh' Hb']. rewrite (ok_block_hash d Hok b' b Hb' Hb Hh'), Ex.
    destruct (ok_block_columns d Hok b Hb) as [[? ->] [? ->]]; [by rewrite Ex|done].
  - apply first_by_None in E. assert (b ∈ filter (fun b0 => b_hash b0 = b_hash b) (block d)) as Hin by by apply list_elem_of_filter.
    rewrite E in Hin. by apply elem_of_nil in Hin.
Qed.

Lemma increment_small p : small p -> tx_index_in_block (increment p) = tx_index_in_block p + 1.
Proof. intros [? ?]. unfold increment. simpl. apply wrap_small. unfold in_u. lia. Qed.

(** The window of the ledger's events that a block with the main chain reference [tip] takes *)
Definition ledger_window (cfg : CNightAddresses) (network : Z) (policy : Bytes) (s tip : CardanoPosition) (tx_capacity : Z)
    : ObservedUtxos Bytes Bytes :=
  fst (truncate_to_tx_capacity (events_between cfg network policy L s (increment tip)) tx_capacity s (increment tip)).

Lemma get_utxos_window n cfg network policy s tip tx_capacity limit :
  mapping_validator cfg = Ok (network, policy) -> i32_position s -> i32_position tip -> tx_index_in_block tip + 1 < 2 ^ 31 ->
  tip ∈ l_blocks L -> block_number tip <= height n ->
  limit < i32_max -> within_limit limit cfg policy L s (increment tip) -> (forall m, (n <= m)%nat -> is_Some (world m)) ->
  exists n', (n <= n')%nat /\
    get_utxos_up_to_capacity world cfg s (block_hash tip) tx_capacity limit n = Ok (ledger_window cfg network policy s tip tx_capacity, n').
Proof.
  intros Hmv Hs Ht Hi Hin Hh Hlim Hwl Hav. destruct (Hav n) as [d Hd]; [done|].
  destruct (bulk_pull_events (S n) cfg network policy s (increment tip) limit) as (n' & Hn & Hb); try done.
  - split; [apply Ht|]. destruct Ht as [_ Ht]. rewrite increment_small by (unfold small, umax; lia). lia.
  - simpl. pose proof (fw_height _ _ _ fw n (S n)). lia.
  - by exists tip.
  - intros m Hm. apply Hav. lia.
  - exists n'. split; [lia|]. unfold get_utxos_up_to_capacity.
    rewrite (bind_Ok _ _ n (Some tip) (S n)) by (apply (query_Ok _ n d); [done|by eapply get_block_by_hash_Ok]).
    rewrite (bind_Ok _ _ (S n) tip (S n)) by done. by rewrite (bind_Ok _ _ _ _ _ Hb).
Qed.
End World.

(** C13: The source returns the ledger's events.  A node whose database follows the main chain's
    ledger up to the reference block, growing between the queries of the call and returning rows in
    any order that [ORDER BY] allows, answers with the window of the ledger: the registrations,
    deregistrations, creations and spends from the start to the end of the reference block, in the
    canonical order, truncated to the capacity.  Nodes therefore agree on it.  It holds as long as
    none of the four queries has more rows than its limit. *)
Theorem source_returns_ledger_window {pg : Postgres} {pg_laws : PostgresLaws} {ca : CardanoAddresses} {ca_laws : CardanoAddressesLaws}
    {csl : CardanoSerializationLib} world height L n cfg network policy s tip tx_capacity limit :
  follows world height L -> (forall m, (n <= m)%nat -> is_Some (world m)) ->
  mapping_validator cfg = Ok (network, policy) -> i32_position s -> i32_position tip -> tx_index_in_block tip + 1 < 2 ^ 31 ->
  tip ∈ l_blocks L -> block_number tip <= height n ->
  limit < i32_max -> within_limit limit cfg policy L s (increment tip) ->
  exists n', (n <= n')%nat /\
    get_utxos_up_to_capacity world cfg s (block_hash tip) tx_capacity limit n = Ok (ledger_window L cfg network policy s tip tx_capacity, n').
Proof. intros fw Hav. intros. by eapply get_utxos_window. Qed.

(** ** An example *)

Module PullExample.
Import DatumLib.
#[export] Instance pg : Postgres := { order_by A key l := merge_sort (fun a b => bytes_cmp (key a) (key b) <> Gt) l }.
#[export] Instance pg_laws : PostgresLaws.
Proof.
  split.
  - intros A key l. apply merge_sort_Permutation.
  - intros A key l. apply StronglySorted_merge_sort.
    + intros a b c. apply (cmp_le_trans (fun a b => bytes_cmp (key a) (key b))).
    + intros a b. rewrite (bytes_cmp_flip (key a) (key b)). destruct (bytes_cmp (key a) (key b)); simpl; auto.
Qed.
(** The first byte tells an address at a script (1) from one with a stake credential (2). *)
#[export] Instance ca : CardanoAddresses := {
  Address := Bytes; Credential := Bytes; from_bech32 a := if decide (a = []) then None else Some a; network_id _ := Some 0;
  enterprise_payment_cred a := match a with 1 :: c => Some c | _ => None end;
  base_stake_cred a := match a with 2 :: c => Some c | _ => None end;
  to_scripthash := Some; cred_from_keyhash := Some; cred_from_scripthash := Some;
  reward_address n c := take 29 (n :: c ++ replicate 29 0) }.
#[export] Instance ca_laws : CardanoAddressesLaws.
Proof. split. intros n c. cbn [reward_address ca]. unfold len. rewrite length_take, length_cons, length_app, length_replicate. lia. Qed.

Definition night : Bytes := replicate 28 7.
Definition addresses : CNightAddresses :=
  {| mapping_validator_address := [1; 9]; auth_token_asset_name := [65]; cnight_policy_id := night; cnight_asset_name := [78] |}.
Definition block_10 := {| b_id := 1; b_hash := [10]; b_block_no := Some 10; b_epoch_no := Some 1; b_slot_no := Some 100; b_time := 1000; b_tx_count := 1 |}.
Definition block_11 := {| b_id := 2; b_hash := [11]; b_block_no := Some 11; b_epoch_no := Some 1; b_slot_no := Some 120; b_time := 2000; b_tx_count := 1 |}.
(** A transaction with two outputs of cNIGHT, and one that spends the first of them and registers. *)
Definition tx_a := {| t_id := 1; t_hash := [21]; t_block := block_10; t_block_index := 0 |}.
Definition tx_b := {| t_id := 2; t_hash := [22]; t_block := block_11; t_block_index := 0 |}.
Definition out_1 := {| o_id := 1; o_tx := tx_a; o_index := 0; o_address := [2; 5]; o_data_hash := None |}.
Definition out_2 := {| o_id := 2; o_tx := tx_a; o_index := 1; o_address := [2; 6]; o_data_hash := None |}.
Definition out_3 := {| o_id := 3; o_tx := tx_b; o_index := 0; o_address := [1; 9]; o_data_hash := Some [31] |}.
Definition datum_3 : Datum := ConstructorDatum 0 [ConstructorDatum 0 [ByteStringDatum [5]]; ByteStringDatum [44]].
Definition d : Db := {|
  block := [block_10; block_11]; tx := [tx_a; tx_b]; tx_out := [out_1; out_2; out_3];
  tx_in := [{| i_id := 1; i_tx := tx_b; i_out_tx_id := 1; i_out_index := 0 |}];
  ma_tx_out := [{| m_id := 1; m_ident := 1; m_quantity := 5; m_tx_out := out_1 |};
                {| m_id := 2; m_ident := 1; m_quantity := 7; m_tx_out := out_2 |};
                {| m_id := 3; m_ident := 2; m_quantity := 1; m_tx_out := out_3 |}];
  datum_table := [{| dt_hash := [31]; dt_value := Some (datum_3 : PlutusData) |}];
  multi_asset := [{| ma_id := 1; ma_policy := night; ma_name := [78] |}; {| ma_id := 2; ma_policy := [9]; ma_name := [65] |}] |}.
Definition world (n : nat) : option Db := Some d.
Definition L : Ledger := {|
  l_blocks := omap view_block (block d);
  l_tokens := [(night, [78], (5, view_out d out_1)); (night, [78], (7, view_out d out_2)); ([9], [65], (1, view_out d out_3))];
  l_spends := spends_in d |}.

(** Cases of membership in the tables *)
Ltac rows := repeat match goal with
  | H : _ ∈ _ :: _ |- _ => apply elem_of_cons in H as [?|H]
  | H : _ ∈ [] |- _ => by apply elem_of_nil in H
  end; subst.

Lemma d_ok : db_ok d.
Proof.
  split; simpl; intros; rows; simpl in *; try done; try (unfold i64_max; lia); try congruence; try by eexists.
  all: try (destruct_or?; destruct_and?; (done || lia || congruence)).
  all: try set_solver.
  - apply list_elem_of_filter in H0 as [_ H0]. simpl in H0. rows; simpl in *; simplify_eq; lia.
  - apply NoDup_singleton.
Qed.

Lemma L_spends : l_spends L = [(view_tx tx_b, view_out d out_1)].
Proof. reflexivity. Qed.

Lemma L_ok : ledger_ok L.
Proof.
  split.
  - intros policy name. unfold tokens_of, L, l_tokens. rewrite !filter_cons, filter_nil.
    repeat case_decide; simpl in *; simplify_eq; apply (bool_decide_unpack _); vm_compute; reflexivity.
  - apply (bool_decide_unpack _). vm_compute. reflexivity.
  - intros a b Ha Hb. unfold L, l_blocks in Ha, Hb. simpl in Ha, Hb. rows; done.
  - intros policy name s p k Hs Hp Hk Hid. rewrite L_spends in Hs. rows. injection Hp as <-.
    apply list_elem_of_fmap in Hk as (x & -> & [_ Hx]%list_elem_of_filter). unfold L, l_tokens in Hx. rows; by vm_compute.
  - intros k p Hk Hp. unfold L, l_tokens in Hk. rows; vm_compute in Hp; injection Hp as <-; unfold i32_max; simpl; lia.
  - intros s p Hs Hp. rewrite L_spends in Hs. rows. injection Hp as <-. unfold i32_max. simpl. lia.
Qed.

Lemma follows_ok : follows world (fun _ => 11) L.
Proof.
  split.
  - intros n d' [= <-]. apply d_ok.
  - intros n d' [= <-]. split.
    + intros p _. unfold L, l_blocks. rewrite list_elem_of_omap. naive_solver.
    + intros policy name. apply reflexive_eq. f_equal. unfold tokens_of, tokens_in, resolve_multi_asset_id, L, l_tokens, multi_asset, d.
      rewrite !filter_cons, !filter_nil. simpl. 
      repeat case_decide; simpl in *; destruct_and?; subst; simplify_eq; try done; try congruence.
      all: tauto.
    + done.
  - done.
  - intros n m d1 d2 _ [= <-] [= <-]. by split.
  - apply L_ok.
Qed.
End PullExample.

Import PullExample DatumLib.
Definition example_start : CardanoPosition := WindowExample.at_ 10 0.
Definition example_tip : CardanoPosition :=
  {| block_hash := [11]; block_number := 11; block_timestamp := 2000; tx_index_in_block := 1 |}.

Lemma example_within_limit : within_limit 800 addresses [9] PullExample.L example_start (increment example_tip).
Proof. split; vm_compute; congruence. Qed.

Lemma source_returns_ledger_window_witness : exists n', (0 <= n')%nat /\
  get_utxos_up_to_capacity PullExample.world addresses example_start [11] 200 800 0%nat
  = Ok (ledger_window PullExample.L addresses 0 [9] example_start example_tip 200, n').
Proof.
  apply (source_returns_ledger_window PullExample.world (fun _ => 11) PullExample.L 0%nat addresses 0 [9] example_start example_tip 200 800).
  - apply follows_ok.
  - intros m _. by eexists.
  - reflexivity.
  - unfold i32_position. simpl. lia.
  - unfold i32_position. simpl. lia.
  - simpl. lia.
  - right. left.
  - simpl. lia.
  - unfold i32_max. lia.
  - apply example_within_limit.
Defined.

(** The window has all four events. *)
Lemma example_window : kind <$> utxos (ledger_window PullExample.L addresses 0 [9] example_start example_tip 200) = [2; 2; 0; 3].
Proof. reflexivity. Qed.

(** Beyond the row limit an event is lost for good: with a limit of one row, the second creation
    is missing although the window, which is not full, ends after the reference block. *)
Lemma row_limit_loses_event :
  match get_utxos_up_to_capacity PullExample.world addresses example_start [11] 200 1 0%nat with
  | Ok (w, _) => kind <$> utxos w = [2; 0; 3] /\ end_ w = increment example_tip
  | _ => False
  end.
Proof. vm_compute. split; reflexivity. Qed.

Definition no_bounds : QueryBounds := {| bound_tx_id := 0; bound_tx_out_id := 0; bound_ma_tx_out_id := 0; bound_tx_in_id := 0 |}.
Definition example_query : PagedQuery :=
  {| q_start := example_start; q_end := increment example_tip; q_limit := 800; q_offset := 0;
     low_bound := default no_bounds (get_low_bounds 10 PullExample.d); high_bound := default no_bounds (get_high_bounds 11 PullExample.d) |}.

Lemma bounds_lose_no_row_witness :
  spend_rows PullExample.d 1 example_query = spend_rows PullExample.d 1 (unbounded example_query).
Proof.
  apply (bounds_lose_no_row PullExample.d example_query).
  - apply d_ok.
  - vm_compute. reflexivity.
  - vm_compute. reflexivity.
Defined.
