(* ===== verification/CNightCache.v ===== *)
(** * The sliding window of cNIGHT events

    Models [BulkCachedCNightObservationDataSource] of
    [src/primitives/mainchain-follower/src/data_source/cnight_observation_bulk.rs]: a window of
    events in memory that serves the calls inside it, delegates the others to the source of
    [CNightQueries], and is moved forward by a background task.  Calls and the task interleave: a
    call checks the window before it reads the events, and the task writes the events before it
    writes the bounds of the window, each under its own lock.  Shows that calls for
    the cache's own addresses and one capacity, within their row limits, are answered with the
    ledger's window whenever the window is not moved under a reading call, and that they may not
    be otherwise. *)

From stdpp Require Import sorting.
From S2P Require Import Prelude Frame Plutus Domain PlutusData CNightPrimitives CNightWindow CNightQueries CNightLedger CNightPull.
Open Scope Z_scope.

Definition LARGE_LIMIT : Z := 5000000.
Definition REFRESH_THRESHOLD : Z := 10000.

(** [plan_refresh]: the start of the pull and of the new window *)
Definition plan_refresh (old_end follower_anchor existing_start : Z) (trim_anchor : option Z) (window_size : Z) : Z * Z :=
  let contiguous_from := saturating_add 32 old_end 1 in
  if contiguous_from <? follower_anchor then (follower_anchor, follower_anchor)
  else
    let new_window_start := match trim_anchor with
                            | Some anchor => Z.max existing_start (saturating_sub anchor window_size)
                            | None => existing_start
                            end in
    (contiguous_from, new_window_start).

Definition slide_events (existing extension : list Utxo) (new_window_start : Z) : list Utxo :=
  let trim_at := partition_point (fun u => block_number (pos u) <? new_window_start) existing in
  drop trim_at existing ++ extension.

Record LastObservation := {
  last_start_position : CardanoPosition; last_current_tip : Bytes; last_result : ObservedUtxos Bytes Bytes }.

(** The shared state of the source; [ticks] counts the queries to the database. *)
Record Cache := {
  all_events : list Utxo;
  block_position_cache : gmap (list Z) CardanoPosition;
  last_observation : option LastObservation;
  snapshot_start_block : option Z;
  snapshot_end_block : option Z;
  ticks : nat
}.
Record BulkCacheConfig := { cnight_addresses : CNightAddresses; stability_margin : Z; window_size : Z }.

(** The task that holds [refresh_in_flight], by what it has done so far *)
Inductive Task :=
| NoTask
| Kicked (follower_anchor target_end : Z)
| Clamped (follower_anchor target_end : Z)
| Planned (from_block target_end new_window_start : Z)
| Pulled (extension : list Utxo) (target_end new_window_start : Z)
| EventsWritten (target_end new_window_start : Z)
| StartWritten (target_end : Z).

Record Query := {
  q_config : CNightAddresses; q_start_position : CardanoPosition; q_current_tip : Bytes;
  q_tx_capacity : Z; q_utxo_overestimate : Z }.

(** A call after its first part: it has its answer, or reads the events up to a position. *)
Inductive Progress := Answered (r : ObservedUtxos Bytes Bytes) | Reading (end_ : CardanoPosition).

Definition set_ticks n c := {| all_events := all_events c; block_position_cache := block_position_cache c;
  last_observation := last_observation c; snapshot_start_block := snapshot_start_block c;
  snapshot_end_block := snapshot_end_block c; ticks := n |}.
Definition remember_position h p c := {| all_events := all_events c; block_position_cache := <[h := p]> (block_position_cache c);
  last_observation := last_observation c; snapshot_start_block := snapshot_start_block c;
  snapshot_end_block := snapshot_end_block c; ticks := ticks c |}.
Definition set_last o c := {| all_events := all_events c; block_position_cache := block_position_cache c;
  last_observation := Some o; snapshot_start_block := snapshot_start_block c;
  snapshot_end_block := snapshot_end_block c; ticks := ticks c |}.
Definition set_events l c := {| all_events := l; block_position_cache := block_position_cache c;
  last_observation := last_observation c; snapshot_start_block := snapshot_start_block c;
  snapshot_end_block := snapshot_end_block c; ticks := ticks c |}.
Definition set_start b c := {| all_events := all_events c; block_position_cache := block_position_cache c;
  last_observation := last_observation c; snapshot_start_block := Some b;
  snapshot_end_block := snapshot_end_block c; ticks := ticks c |}.
Definition set_end b c := {| all_events := all_events c; block_position_cache := block_position_cache c;
  last_observation := last_observation c; snapshot_start_block := snapshot_start_block c;
  snapshot_end_block := Some b; ticks := ticks c |}.

Section Cache.
Context {pg : Postgres} {ca : CardanoAddresses} {csl : CardanoSerializationLib}.
Context (world : nat -> option Db) (cfg : BulkCacheConfig).

(** [BulkCachedCNightObservationDataSource::new] *)
Definition new (events : list Utxo) (window_start_block window_end_block : Z) : Cache :=
  {| all_events := events; block_position_cache := ∅; last_observation := None;
     snapshot_start_block := Some window_start_block; snapshot_end_block := Some window_end_block; ticks := 0 |}.
(** [build_cnight_observation_data_source], with the genesis position of the observation *)
Definition build (next_cardano_position : CardanoPosition) : Cache :=
  let init_horizon := saturating_sub (block_number next_cardano_position) 1 in
  new [] init_horizon init_horizon.

(** [maybe_kick_refresh]: [try_lock_owned], and the task to run *)
Definition maybe_kick_refresh (follower_anchor target_end : Z) (t : Task) : Task :=
  match t with NoTask => Kicked follower_anchor target_end | _ => t end.

(** ** [refresh], in its atomic steps *)

Definition refresh_clamp (c : Cache) (follower_anchor target_end : Z) : Cache * Task :=
  match get_highest_stable_block_le world target_end (stability_margin cfg) (ticks c) with
  | Ok (Some highest, n) => (set_ticks n c, Clamped follower_anchor highest)
  | Ok (None, n) => (set_ticks n c, NoTask)
  | _ => (c, NoTask)
  end.
Definition refresh_plan (c : Cache) (follower_anchor target_end : Z) : Task :=
  let old_end := default 0 (snapshot_end_block c) in
  if target_end <=? old_end then NoTask
  else
    let existing_start := default (saturating_add 32 old_end 1) (snapshot_start_block c) in
    let trim_anchor := (fun last => block_number (last_start_position last)) <$> last_observation c in
    let '(from_block, new_window_start) := plan_refresh old_end follower_anchor existing_start trim_anchor (window_size cfg) in
    if target_end <? from_block then NoTask else Planned from_block target_end new_window_start.
Definition refresh_pull (c : Cache) (from_block target_end new_window_start : Z) : Cache * Task :=
  match bulk_pull world (cnight_addresses cfg) (min_for_block from_block) (max_for_block target_end) LARGE_LIMIT (ticks c) with
  | Ok (extension, n) => (set_ticks n c, Pulled extension target_end new_window_start)
  | _ => (c, NoTask)
  end.
Definition refresh_step (c : Cache) (t : Task) : Cache * Task :=
  match t with
  | NoTask => (c, NoTask)
  | Kicked follower_anchor target_end => refresh_clamp c follower_anchor target_end
  | Clamped follower_anchor target_end => (c, refresh_plan c follower_anchor target_end)
  | Planned from_block target_end new_window_start => refresh_pull c from_block target_end new_window_start
  | Pulled extension target_end new_window_start =>
      (set_events (slide_events (all_events c) extension new_window_start) c, EventsWritten target_end new_window_start)
  | EventsWritten target_end new_window_start => (set_start new_window_start c, StartWritten target_end)
  | StartWritten target_end => (set_end target_end c, NoTask)
  end.
(** The whole of [refresh], which has at most six steps *)
Definition refresh (c : Cache) (follower_anchor target_end : Z) : Cache :=
  fst (Nat.iter 6 (fun ct => refresh_step (fst ct) (snd ct)) (c, Kicked follower_anchor target_end)).

(** ** [get_utxos_up_to_capacity] *)

Definition resolve_tip (h : Bytes) (c : Cache) : Cache * outcome SourceError CardanoPosition :=
  match block_position_cache c !! h with
  | Some p => (c, Ok p)
  | None =>
      match query world (get_block_by_hash h) (ticks c) with
      | Ok (Some p, n) => (remember_position h p (set_ticks n c), Ok p)
      | Ok (None, n) => (set_ticks n c, Err (MissingBlockReference h))
      | Err e => (c, Err e)
      | Panic => (c, Panic)
      end
  end.

(** [db_fallback.get_utxos_up_to_capacity] *)
Definition delegate (q : Query) (c : Cache) : Cache * outcome SourceError Progress :=
  match get_utxos_up_to_capacity world (q_config q) (q_start_position q) (q_current_tip q) (q_tx_capacity q) (q_utxo_overestimate q) (ticks c) with
  | Ok (r, n) => (set_ticks n c, Ok (Answered r))
  | Err e => (c, Err e)
  | Panic => (c, Panic)
  end.

(** Up to the decision to read the events; a refresh that it kicks becomes the task.  The lookup of
    the reference, the comparison with the bounds and the delegation are one step: the source waits
    between them, but the bounds only move forward, and the moves that matter, those between the
    comparison and the read, are steps of their own. *)
Definition begin_query (q : Query) (c : Cache) (t : Task) : Cache * Task * outcome SourceError Progress :=
  let reused := match last_observation c with
  | Some last =>
      if bool_decide (last_current_tip last = q_current_tip q) && bool_decide (last_start_position last = q_start_position q)
      then Some (last_result last) else None
  | None => None
  end in
  match reused with
  | Some r => (c, t, Ok (Answered r))
  | None =>
      match resolve_tip (q_current_tip q) c with
      | (c, Ok tip_pos) =>
          match snapshot_end_block c with
          | None => let '(c, r) := delegate q c in (c, t, r)
          | Some snapshot_end =>
              let t := if snapshot_end <=? saturating_add 32 (block_number tip_pos) REFRESH_THRESHOLD
                       then maybe_kick_refresh (block_number (q_start_position q))
                              (saturating_add 32 (saturating_add 32 (block_number tip_pos) REFRESH_THRESHOLD) (stability_margin cfg)) t
                       else t in
              let tip_past_snapshot_end := snapshot_end <? block_number tip_pos in
              let start_below_snapshot_start :=
                match snapshot_start_block c with Some ss => block_number (q_start_position q) <? ss | None => false end in
              if tip_past_snapshot_end || start_below_snapshot_start
              then let '(c, r) := delegate q c in (c, t, r)
              else (c, t, Ok (Reading (increment tip_pos)))
          end
      | (c, Err e) => (c, t, Err e)
      | (c, Panic) => (c, t, Panic)
      end
  end.

(** The rest of a call that reads the events *)
Definition serve (q : Query) (end_ : CardanoPosition) (c : Cache) : outcome SourceError (ObservedUtxos Bytes Bytes * Cache) :=
  let! window := slice_range (all_events c) (q_start_position q) end_ in
  let result := fst (truncate_to_tx_capacity window (q_tx_capacity q) (q_start_position q) end_) in
  Ok (result, set_last {| last_start_position := q_start_position q; last_current_tip := q_current_tip q; last_result := result |} c).

(** A call that nothing interrupts *)
Definition cached_get_utxos_up_to_capacity (q : Query) (c : Cache) (t : Task)
    : Cache * Task * outcome SourceError (ObservedUtxos Bytes Bytes) :=
  match begin_query q c t with
  | (c, t, Ok (Answered r)) => (c, t, Ok r)
  | (c, t, Ok (Reading end_)) =>
      match serve q end_ c with Ok (r, c') => (c', t, Ok r) | Err e => (c, t, Err e) | Panic => (c, t, Panic) end
  | (c, t, Err e) => (c, t, Err e)
  | (c, t, Panic) => (c, t, Panic)
  end.

(** ** Interleavings *)

Record System := { cache : Cache; task : Task; reading : list (Query * CardanoPosition) }.

(** The first block whose events the cache still has *)
Definition low (c : Cache) (t : Task) : Z :=
  match t with EventsWritten _ new_window_start => new_window_start | _ => default 0 (snapshot_start_block c) end.

(** The steps of calls that satisfy [admissible] when they begin, and of the task.  The label is a
    call that ends, with its answer.  Unless [racy], a call that reads has its window in memory. *)
Inductive step (racy : bool) (admissible : nat -> Query -> Prop) : System -> option (Query * ObservedUtxos Bytes Bytes) -> System -> Prop :=
| step_task c t l c' t' : refresh_step c t = (c', t') -> step racy admissible (Build_System c t l) None (Build_System c' t' l)
| step_task_fails c t l :
    match t with Pulled _ _ _ | EventsWritten _ _ | StartWritten _ => False | _ => True end ->
    step racy admissible (Build_System c t l) None (Build_System c NoTask l)
| step_answer c t l c' t' q r : admissible (ticks c) q -> begin_query q c t = (c', t', Ok (Answered r)) ->
    step racy admissible (Build_System c t l) (Some (q, r)) (Build_System c' t' l)
| step_read c t l c' t' q end_ : admissible (ticks c) q -> begin_query q c t = (c', t', Ok (Reading end_)) ->
    step racy admissible (Build_System c t l) None (Build_System c' t' ((q, end_) :: l))
| step_error c t l c' t' q e : admissible (ticks c) q -> begin_query q c t = (c', t', Err e) ->
    step racy admissible (Build_System c t l) None (Build_System c' t' l)
| step_serve c t l1 l2 q end_ r c' : (racy = false -> low c t <= block_number (q_start_position q)) ->
    serve q end_ c = Ok (r, c') ->
    step racy admissible (Build_System c t (l1 ++ (q, end_) :: l2)) (Some (q, r)) (Build_System c' t (l1 ++ l2)).

Inductive reachable (racy : bool) (admissible : nat -> Query -> Prop) (next : CardanoPosition) : System -> Prop :=
| reachable_init : reachable racy admissible next (Build_System (build next) NoTask [])
| reachable_step s l s' : reachable racy admissible next s -> step racy admissible s l s' -> reachable racy admissible next s'.
End Cache.

(** ** The ledger's events in order *)

Section Sorted.
Context {ca : CardanoAddresses} {csl : CardanoSerializationLib}.
Context (L : Ledger) (L_ok : ledger_ok L) (addresses : CNightAddresses) (network : Z) (policy : Bytes).

Definition sorted_events : list Utxo := sort (ledger_events addresses network policy L).
(** The events of the blocks from [x] to [y] *)
Definition blocks (x y : Z) : list Utxo := filter (in_window (min_for_block x) (min_for_block (y + 1))) sorted_events.

Lemma ledger_kinds_sorted : StronglySorted (fun a b => kind a <= kind b) (ledger_events addresses network policy L).
Proof. apply kinds_sorted; (by apply datum_kind) || (by apply asset_kind). Qed.

Lemma sort_filter (P : Utxo -> Prop) `{!forall u, Decision (P u)} :
  sort (filter P (ledger_events addresses network policy L)) = filter P sorted_events.
Proof.
  pose proof (ledger_events_keyed addresses network policy L L_ok) as Hk. pose proof ledger_kinds_sorted as Hs.
  apply (StronglySorted_unique_strong event_le).
  - intros a b Ha Hb Hab Hba. rewrite sort_perm, list_elem_of_filter in Ha. apply list_elem_of_filter in Hb as [_ Hb].
    unfold sorted_events in Hb. rewrite sort_perm in Hb. destruct Ha as [_ Ha]. eapply event_le_antisym; [exact Hk|done..].
  - apply sort_sorted. by apply StronglySorted_filter.
  - apply StronglySorted_filter. by apply sort_sorted.
  - unfold sorted_events. by rewrite !sort_perm.
Qed.

Lemma events_between_sorted s e : events_between addresses network policy L s e = filter (in_window s e) sorted_events.
Proof. apply sort_filter. Qed.

Lemma sorted_events_sorted : StronglySorted (fun a b : Utxo => position_lt (pos b) (pos a) = false) sorted_events.
Proof. apply utxo_le_sorted, event_le_utxo_le, sort_sorted, ledger_kinds_sorted. Qed.

Lemma sorted_events_index u : u ∈ sorted_events -> 0 <= tx_index_in_block (pos u) < i32_max.
Proof.
  unfold sorted_events. rewrite sort_perm. unfold ledger_events. rewrite !elem_of_app.
  intros [H|[H|[H|H]]]; apply list_elem_of_omap in H as (f & Hf & Hu).
  - apply list_elem_of_omap in Hf as (k & [_ Hk]%list_elem_of_filter & Hx). apply datum_event_pos in Hu.
    unfold with_datum in Hx. destruct (lo_datum (snd k)); [|done]. injection Hx as <-.
    apply list_elem_of_fmap in Hk as (x & -> & [_ Hk]%list_elem_of_filter). by apply (lk_indexes_out L L_ok x).
  - apply list_elem_of_omap in Hf as (k & [_ Hk]%list_elem_of_filter & Hx). apply datum_event_pos in Hu.
    unfold with_datum in Hx. destruct (lo_datum (snd k)); [|done]. injection Hx as <-. by apply (lk_indexes_spend L L_ok k).
  - apply list_elem_of_fmap in Hf as (k & -> & Hk). apply asset_event_pos in Hu.
    apply list_elem_of_fmap in Hk as (x & -> & [_ Hk]%list_elem_of_filter). by apply (lk_indexes_out L L_ok x).
  - apply list_elem_of_bind in Hf as (s & Hf & Hs). apply list_elem_of_bind in Hf as (k & ->%list_elem_of_singleton & _).
    apply asset_event_pos in Hu. by apply (lk_indexes_spend L L_ok s).
Qed.

(** What a refresh pulls *)
Lemma pulled_blocks x y : events_between addresses network policy L (min_for_block x) (max_for_block y) = blocks x y.
Proof.
  rewrite events_between_sorted. apply filter_ext_elem. intros u Hu%sorted_events_index. unfold in_window.
  unfold i32_max in *. positions.
Qed.

Lemma blocks_app x y t : x <= y + 1 -> y <= t -> blocks x y ++ blocks (y + 1) t = blocks x t.
Proof. intros. apply window_app; [apply sorted_events_sorted|..]; positions. Qed.

Lemma blocks_empty x y : y < x -> blocks x y = [].
Proof. intros. apply filter_none. intros u _ [H1 H2]. positions. Qed.

Lemma blocks_sorted x y : StronglySorted (fun a b : Utxo => position_lt (pos b) (pos a) = false) (blocks x y).
Proof. apply StronglySorted_filter, sorted_events_sorted. Qed.

(** Trimming the window *)
Lemma slide_blocks x y n extension : slide_events (blocks x y) extension n = blocks (Z.max x n) y ++ extension.
Proof.
  unfold slide_events. f_equal.
  destruct (partition_point_split (fun u => block_number (pos u) <? n) (blocks x y)) as [_ ->].
  { generalize (blocks_sorted x y). induction 1 as [|a l Hs IH Ha]; constructor; [done|].
    eapply Forall_impl; [exact Ha|]. intros b Hab. rewrite !Z.ltb_lt. positions. }
  unfold blocks. rewrite list_filter_filter. apply filter_ext_elem. intros u Hu%sorted_events_index. unfold in_window.
  rewrite not_true_iff_false, Z.ltb_ge. positions.
Qed.

(** Reading the window *)
Lemma slice_blocks {E} x y s e : x <= block_number s -> 0 <= tx_index_in_block s -> block_number e <= y -> position_lt e s = false ->
  slice_range (E:=E) (blocks x y) s e = Ok (events_between addresses network policy L s e).
Proof.
  intros Hx H0 Hy Hse. rewrite slice_range_filter by (apply blocks_sorted || done). f_equal.
  rewrite events_between_sorted. unfold blocks. rewrite list_filter_filter. apply filter_ext_elem. intros u _. unfold in_window.
  split; [tauto|]. intros [H1 H2]. repeat split; try done; positions.
Qed.
End Sorted.

(** ** The invariant *)

Lemma max_block_no_Some l x : max_block_no l = Some x -> exists b, b ∈ l /\ b_block_no b = Some x.
Proof.
  revert x. induction l as [|b l IH]; intros x; [done|].
  change (match b_block_no b, max_block_no l with
          | Some n, Some m => Some (Z.max n m) | Some n, None => Some n | None, acc => acc end = Some x ->
          exists b0, b0 ∈ b :: l /\ b_block_no b0 = Some x).
  destruct (b_block_no b) as [n|] eqn:En.
  - destruct (max_block_no l) as [m|] eqn:Em; intros [= <-].
    + destruct (Z.max_spec n m) as [[_ ->]|[_ ->]].
      * destruct (IH m eq_refl) as (b' & Hb & Hx). exists b'. split; [by right|done].
      * exists b. split; [left|done].
    + exists b. split; [left|done].
  - intros H. destruct (IH x H) as (b' & Hb & Hx). exists b'. split; [by right|done].
Qed.

Section Invariant.
Context {pg : Postgres} {pg_laws : PostgresLaws} {ca : CardanoAddresses} {ca_laws : CardanoAddressesLaws}.
Context {csl : CardanoSerializationLib}.
Context (world : nat -> option Db) (height : nat -> Z) (L : Ledger) (cfg : BulkCacheConfig).
Context (network : Z) (policy : Bytes) (tx_capacity : Z) (next : CardanoPosition).

(** The database follows the ledger and always answers.  Blocks deeper than the stability margin
    are those of the ledger.  The row limit of a refresh is never reached ([st_limit]).  The
    observation starts after block 0 ([st_next]): the cache counts the block before its first
    position as covered, and block 0 has none before it. *)
Record setting : Prop := {
  st_follows : follows world height L;
  st_available n : is_Some (world n);
  st_numbers n d b x : world n = Some d -> b ∈ block d -> b_block_no b = Some x -> 0 <= x < 2 ^ 31;
  st_stable n d x : world n = Some d -> latest_block d = Some x -> Z.max 0 (x - stability_margin cfg) <= height n;
  st_margin : 0 <= stability_margin cfg;
  st_window_size : 0 <= window_size cfg;
  st_validator : mapping_validator (cnight_addresses cfg) = Ok (network, policy);
  st_limit s e : within_limit LARGE_LIMIT (cnight_addresses cfg) policy L s e;
  st_next : 0 < block_number next < 2 ^ 31
}.
Context (st : setting).

(** A call of the runtime with the main chain reference [tip].  The source takes any configuration
    and capacity, but answers from memory without looking at them, and keeps its last answer by
    start and reference only: so the call is for the cache's own addresses ([co_config]), and all
    calls of a run have one capacity ([co_capacity]).  It starts at or after the position that the
    cache was built for ([co_next]), the database knows its reference ([co_known]), and the ledger
    has at most [q_utxo_overestimate] rows for each query ([co_rows]), since a call that is
    delegated to the database is cut off there and one that is answered from memory is not. *)
Record call_ok (n : nat) (q : Query) (tip : CardanoPosition) : Prop := {
  co_config : q_config q = cnight_addresses cfg;
  co_capacity : q_tx_capacity q = tx_capacity;
  co_start : i32_position (q_start_position q);
  co_next : block_number next <= block_number (q_start_position q);
  co_order : position_lt (increment tip) (q_start_position q) = false;
  co_tip : tip ∈ l_blocks L;
  co_hash : block_hash tip = q_current_tip q;
  co_tip_i32 : i32_position tip;
  co_tip_index : tx_index_in_block tip + 1 < 2 ^ 31;
  co_known : block_number tip <= height n;
  co_limit : q_utxo_overestimate q < i32_max;
  co_rows : within_limit (q_utxo_overestimate q) (cnight_addresses cfg) policy L (q_start_position q) (increment tip)
}.
Definition admissible (n : nat) (q : Query) : Prop := exists tip, call_ok n q tip.

Notation blocks := (blocks L (cnight_addresses cfg) network policy).
Notation g := (block_number next).
Notation answer q tip := (ledger_window L (cnight_addresses cfg) network policy (q_start_position q) tip tx_capacity).

Definition block_of_ledger (n : nat) (t : Z) : Prop :=
  0 <= t < 2 ^ 31 /\ t <= height n /\ exists p, p ∈ l_blocks L /\ block_number p = t.

(** What the plan of a task promises, for a window from [a] to [b] *)
Definition plan_ok (n : nat) (a b from t nws : Z) : Prop :=
  block_of_ledger n t /\ b < t /\ from <= t /\ a <= nws /\
  (from = b + 1 /\ nws <= b + 1 \/ from = nws /\ b + 1 < from /\ g <= from).

Definition task_ok (c : Cache) (a b : Z) (t : Task) : Prop :=
  match t with
  | NoTask => all_events c = blocks (Z.max a g) b
  | Kicked f _ => g <= f < 2 ^ 31 /\ all_events c = blocks (Z.max a g) b
  | Clamped f t => g <= f < 2 ^ 31 /\ block_of_ledger (ticks c) t /\ all_events c = blocks (Z.max a g) b
  | Planned from t nws => plan_ok (ticks c) a b from t nws /\ 0 <= from /\ all_events c = blocks (Z.max a g) b
  | Pulled ext t nws =>
      exists from, plan_ok (ticks c) a b from t nws /\ ext = blocks from t /\ all_events c = blocks (Z.max a g) b
  | EventsWritten t nws => b < t < 2 ^ 31 /\ a <= nws <= t /\ all_events c = blocks (Z.max nws g) t
  | StartWritten t => b < t < 2 ^ 31 /\ a <= t /\ all_events c = blocks (Z.max a g) t
  end.

Record inv (s : System) : Prop := {
  inv_window : exists a b, snapshot_start_block (cache s) = Some a /\ snapshot_end_block (cache s) = Some b /\
    0 <= b < 2 ^ 31 /\ g <= b + 1 /\ task_ok (cache s) a b (task s) /\
    (match task s with StartWritten _ => True | _ => a <= b + 1 end) /\
    (forall o, last_observation (cache s) = Some o -> block_number (last_start_position o) <= b) /\
    Forall (fun x => exists n tip, call_ok n (fst x) tip /\ snd x = increment tip /\ block_number tip <= b) (reading s);
  inv_last o : last_observation (cache s) = Some o -> exists tip, tip ∈ l_blocks L /\ block_hash tip = last_current_tip o /\
    last_result o = ledger_window L (cnight_addresses cfg) network policy (last_start_position o) tip tx_capacity;
  inv_positions h p : block_position_cache (cache s) !! h = Some p -> p ∈ l_blocks L /\ block_hash p = h
}.

Lemma height_mono n m : (n <= m)%nat -> height n <= height m.
Proof. apply (fw_height _ _ _ (st_follows st)). Qed.
Lemma block_of_ledger_mono n m t : (n <= m)%nat -> block_of_ledger n t -> block_of_ledger m t.
Proof. intros Hm%height_mono (? & ? & ?). unfold block_of_ledger. split; [done|]. split; [lia|done]. Qed.

Lemma clamp_spec n target : exists r n', get_highest_stable_block_le world target (stability_margin cfg) n = Ok (r, n') /\
  (n <= n')%nat /\ forall x, r = Some x -> block_of_ledger n' x.
Proof.
  destruct (st_available st n) as [d Hd], (st_available st (S n)) as [d' Hd']. unfold get_highest_stable_block_le.
  rewrite (bind_Ok _ _ n (latest_block d) (S n)) by by apply (query_Ok world _ n d).
  destruct (latest_block d) as [x|] eqn:Ex; [|exists None, (S n); split; [done|split; [lia|done]]].
  pose proof (st_stable st n d x Hd Ex) as Hst.
  destruct (max_block_no_Some _ _ Ex) as (b & Hb & Hbx). pose proof (st_numbers st n d b x Hd Hb Hbx) as Hx.
  assert ((0 <=? x) && (x <=? umax 32) = true) as Hcond.
  { rewrite andb_true_iff, !Z.leb_le. unfold umax. lia. }
  cbv beta iota zeta. rewrite Hcond.
  set (u := Z.min target (saturating_sub x (stability_margin cfg))).
  rewrite (bind_Ok _ _ (S n) (highest_block_le u d') (S (S n))) by by apply (query_Ok world _ (S n) d').
  exists (wrap 32 <$> highest_block_le u d'), (S (S n)). split; [done|]. split; [lia|].
  intros y Hy. destruct (highest_block_le u d') as [z|] eqn:Ez; [|done]. injection Hy as <-.
  destruct (max_block_no_Some _ _ Ez) as (b' & [Hle Hb']%list_elem_of_filter & Hz). rewrite Hz in Hle. simpl in Hle.
  apply Is_true_true, Z.leb_le in Hle. pose proof (st_numbers st (S n) d' b' z Hd' Hb' Hz) as Hzr.
  rewrite wrap_small by (unfold in_u, umax; lia). pose proof (height_mono n (S (S n)) ltac:(lia)). pose proof (height_mono n (S n) ltac:(lia)).
  unfold u, saturating_sub in Hle. split; [lia|]. split; [lia|].
  exists {| block_hash := b_hash b'; block_number := z; block_timestamp := b_time b'; tx_index_in_block := wrap 32 (b_tx_count b') |}.
  split; [|done]. apply (rep_blocks _ _ _ (fw_rep _ _ _ (st_follows st) (S n) d' Hd')); [simpl; lia|].
  exists b'. split; [done|]. unfold view_block. by rewrite Hz.
Qed.

Lemma refresh_bulk_pull n from t : 0 <= from < 2 ^ 31 -> block_of_ledger n t -> exists n', (n <= n')%nat /\
  bulk_pull world (cnight_addresses cfg) (min_for_block from) (max_for_block t) LARGE_LIMIT n = Ok (blocks from t, n').
Proof.
  intros Hf (Ht & Hh & Hp).
  destruct (bulk_pull_events world height L (st_follows st) n (cnight_addresses cfg) network policy
    (min_for_block from) (max_for_block t) LARGE_LIMIT) as (n' & Hn & E).
  - apply (st_validator st).
  - unfold i32_position. simpl. lia.
  - unfold i32_position. simpl. lia.
  - done.
  - done.
  - unfold LARGE_LIMIT, i32_max. lia.
  - apply (st_limit st).
  - intros m _. apply (st_available st).
  - exists n'. split; [done|]. rewrite E. by rewrite pulled_blocks by apply (fw_ledger _ _ _ (st_follows st)).
Qed.

Lemma task_ok_frame c c' a b t : all_events c' = all_events c -> (ticks c <= ticks c')%nat -> task_ok c a b t -> task_ok c' a b t.
Proof.
  intros He Ht. unfold task_ok, plan_ok. rewrite He. destruct t; try done.
  - intros (? & ? & ?). repeat split; try apply H; try done; try by eapply block_of_ledger_mono. all: lia.
  - intros ((? & ?) & ?). split; [|done]. split; [by eapply block_of_ledger_mono|done].
  - intros (from & (? & ?) & ?). exists from. split; [|done]. split; [by eapply block_of_ledger_mono|done].
Qed.

(** Steps that leave the window as it is *)
Lemma inv_frame c c' t l l' :
  inv (Build_System c t l) ->
  all_events c' = all_events c -> snapshot_start_block c' = snapshot_start_block c -> snapshot_end_block c' = snapshot_end_block c ->
  (ticks c <= ticks c')%nat -> last_observation c' = last_observation c ->
  (forall h p, block_position_cache c' !! h = Some p -> p ∈ l_blocks L /\ block_hash p = h) ->
  (forall b, snapshot_end_block c = Some b ->
    Forall (fun x => exists n tip, call_ok n (fst x) tip /\ snd x = increment tip /\ block_number tip <= b) l ->
    Forall (fun x => exists n tip, call_ok n (fst x) tip /\ snd x = increment tip /\ block_number tip <= b) l') ->
  inv (Build_System c' t l').
Proof.
  intros [(a & b & Ha & Hb & Hr & Hg & Htask & Hab & Hlast & Hread) Hl Hp] He Hs Hen Ht Hlo Hpos Hread'. simpl in *. split; simpl.
  - exists a, b. rewrite Hs, Hen, Hlo. repeat split; try done; try lia; [by eapply task_ok_frame|by apply Hread'].
  - rewrite Hlo. apply Hl.
  - done.
Qed.

Lemma plan_refresh_ok c a b f t l : inv (Build_System c (Clamped f t) l) -> snapshot_start_block c = Some a -> snapshot_end_block c = Some b ->
  match refresh_plan cfg c f t with
  | NoTask => True
  | Planned from t' nws => plan_ok (ticks c) a b from t' nws /\ 0 <= from
  | _ => False
  end.
Proof.
  intros [(a' & b' & Ha & Hb & Hr & Hg & (Hf & Hblock & Hev) & Hab & Hlast & _) _ _] Ea Eb. simpl in *.
  assert (a' = a) as -> by congruence. assert (b' = b) as -> by congruence.
  unfold refresh_plan. rewrite Ea, Eb. simpl. destruct (Z.leb_spec t b) as [|Hbt]; [done|].
  assert (saturating_add 32 b 1 = b + 1) as Hsat by (unfold saturating_add, umax; lia).
  unfold plan_refresh. rewrite Hsat. destruct (Z.ltb_spec (b + 1) f) as [Hjump|Hcont]; simpl.
  - destruct (Z.ltb_spec t f); [done|]. unfold plan_ok. repeat split; try apply Hblock; try lia.
  - destruct (Z.ltb_spec t (b + 1)); [done|]. unfold plan_ok. pose proof (st_window_size st).
    destruct (last_observation c) as [o|]; simpl; [specialize (Hlast o eq_refl); unfold saturating_sub|];
      (split; [|lia]); (split; [apply Hblock|]); lia.
Qed.

Lemma inv_task c t l c' t' : inv (Build_System c t l) -> refresh_step world cfg c t = (c', t') -> inv (Build_System c' t' l).
Proof.
  intros Hinv Hstep. pose proof Hinv as [(a & b & Ha & Hb & Hr & Hg & Htask & Hab & Hlast & Hread) Hl Hp]. simpl in *.
  destruct t as [|f t|f t|from t nws|ext t nws|t nws|t]; simpl in Hstep.
  - by simplify_eq.
  - unfold refresh_clamp in Hstep. destruct (clamp_spec (ticks c) t) as (r & n' & E & Hn & Hx). rewrite E in Hstep.
    destruct Htask as [Hf Hev]. destruct r as [x|]; simplify_eq; (split; [exists a, b|done|done]);
      simpl; repeat split; try done; try lia; by apply Hx.
  - pose proof (plan_refresh_ok c a b f t l Hinv Ha Hb) as Hplan. destruct Htask as (_ & _ & Hev). simplify_eq.
    split; simpl; [|done|done]. exists a, b. destruct (refresh_plan cfg c' f t); try done; simpl; by destruct_and?.
  - unfold refresh_pull in Hstep. destruct Htask as (Hplan & Hfrom & Hev).
    assert (from < 2 ^ 31) as Hlt by (destruct Hplan as (((? & ?) & _) & _ & ? & _); lia).
    destruct (refresh_bulk_pull (ticks c) from t (conj Hfrom Hlt) (proj1 Hplan)) as (n' & Hn & E). rewrite E in Hstep. simplify_eq.
    split; simpl; [|done|done]. exists a, b. repeat split; try done; try lia. exists from. split; [|done].
    destruct Hplan as [Hblock Hrest]. split; [by eapply block_of_ledger_mono|done].
  - destruct Htask as (from & (Hblock & Hbt & Hft & Han & Hcase) & -> & Hev). simplify_eq.
    assert (b < t < 2 ^ 31 /\ a <= nws <= t) as [Hbt' Hanws] by (destruct Hblock as ((? & ?) & _); lia).
    split; simpl; [|done|done]. exists a, b. do 4 (split; [done|]). split; [|done]. do 2 (split; [done|]).
    rewrite Hev, slide_blocks by apply (fw_ledger _ _ _ (st_follows st)).
    destruct Hcase as [[-> Hnws]|(-> & Hjump & _)].
    + replace (Z.max (Z.max a g) nws) with (Z.max nws g) by lia.
      apply blocks_app; lia.
    + rewrite blocks_empty by lia. simpl. f_equal. lia.
  - destruct Htask as (Hbt & Han & Hev). simplify_eq. split; simpl; [|done|done]. exists nws, b.
    repeat split; try done; lia.
  - destruct Htask as (Hbt & Hat & Hev). simplify_eq. split; simpl; [|done|done]. exists a, t.
    repeat split; try done; try lia.
    + intros o Ho. specialize (Hlast o Ho). lia.
    + eapply Forall_impl; [exact Hread|]. intros x (n & tip & ? & ? & ?). exists n, tip. split; [done|]. split; [done|lia].
Qed.

Lemma inv_kick c t l f x : inv (Build_System c t l) -> g <= f < 2 ^ 31 -> inv (Build_System c (maybe_kick_refresh f x t) l).
Proof.
  intros [(a & b & Ha & Hb & Hr & Hg & Htask & Hab & Hlast & Hread) Hl Hp] Hf. by destruct t; (split; [exists a, b|..]).
Qed.

Lemma resolve_tip_ok c t l q tip : inv (Build_System c t l) -> call_ok (ticks c) q tip ->
  exists c', resolve_tip world (q_current_tip q) c = (c', Ok tip) /\ inv (Build_System c' t l) /\
    (ticks c <= ticks c')%nat /\ last_observation c' = last_observation c.
Proof.
  intros Hinv Hq. unfold resolve_tip. pose proof (inv_positions _ Hinv) as Hpos. simpl in Hpos.
  destruct (block_position_cache c !! q_current_tip q) as [p|] eqn:Ep.
  - destruct (Hpos _ _ Ep) as [Hp Hh]. exists c. split; [|done]. do 2 f_equal.
    apply (lk_blocks L (fw_ledger _ _ _ (st_follows st))); [done|apply (co_tip _ _ _ Hq)|]. by rewrite Hh, (co_hash _ _ _ Hq).
  - destruct (st_available st (ticks c)) as [d Hd].
    pose proof (get_block_by_hash_Ok world height L (st_follows st) (ticks c) d tip Hd (co_tip _ _ _ Hq) (co_known _ _ _ Hq)) as Hb.
    rewrite (co_hash _ _ _ Hq) in Hb. rewrite (query_Ok world _ (ticks c) d _ Hd Hb).
    eexists. split; [done|]. split; [|simpl; split; [lia|done]].
    eapply inv_frame; try done; [simpl; lia|]. intros h p. simpl. rewrite lookup_insert. case_decide as Eh; [|apply Hpos].
    intros [= <-]. split; [apply (co_tip _ _ _ Hq)|]. by rewrite (co_hash _ _ _ Hq).
Qed.

Lemma call_ok_later n m q tip : (n <= m)%nat -> call_ok n q tip -> call_ok m q tip.
Proof. intros Hm%height_mono []. split; try done. lia. Qed.

Lemma delegate_ok c t l q tip : inv (Build_System c t l) -> call_ok (ticks c) q tip ->
  exists c', delegate world q c = (c', Ok (Answered (answer q tip))) /\ inv (Build_System c' t l).
Proof.
  intros Hinv Hq. unfold delegate.
  destruct (get_utxos_window world height L (st_follows st) (ticks c) (cnight_addresses cfg) network policy
    (q_start_position q) tip tx_capacity (q_utxo_overestimate q)) as (n' & Hn & E); try apply Hq.
  - apply (st_validator st).
  - intros m _. apply (st_available st).
  - rewrite (co_config _ _ _ Hq), (co_capacity _ _ _ Hq), <- (co_hash _ _ _ Hq), E. eexists. split; [done|].
    eapply inv_frame; try done. apply (inv_positions _ Hinv).
Qed.

(** A call starts with its answer, or finds its window in memory. *)
Lemma begin_ok c t l q tip : inv (Build_System c t l) -> call_ok (ticks c) q tip ->
  exists c' t' r, begin_query world cfg q c t = (c', t', Ok r) /\ inv (Build_System c' t' l) /\
    (t' = t \/ exists f x, t' = Kicked f x) /\
    match r with
    | Answered x => x = answer q tip
    | Reading e => e = increment tip /\ exists a b, snapshot_start_block c' = Some a /\ snapshot_end_block c' = Some b /\
        a <= block_number (q_start_position q) /\ block_number tip <= b
    end.
Proof.
  intros Hinv Hq. unfold begin_query. set (reused := match last_observation c with Some _ => _ | None => _ end).
  destruct reused as [r|] eqn:Er.
  - exists c, t, (Answered r). split; [done|]. split; [done|]. split; [by left|]. unfold reused in Er.
    destruct (last_observation c) as [o|] eqn:Eo; [|done]. destruct (bool_decide _ && bool_decide _) eqn:Eb; [|done]. injection Er as <-.
    apply andb_true_iff in Eb as [Ht Hs]. apply bool_decide_eq_true in Ht, Hs.
    destruct (inv_last _ Hinv o Eo) as (tip' & Hin & Hh & ->). rewrite Hs. f_equal.
    apply (lk_blocks L (fw_ledger _ _ _ (st_follows st))); [done|apply (co_tip _ _ _ Hq)|]. by rewrite Hh, Ht, (co_hash _ _ _ Hq).
  - destruct (resolve_tip_ok c t l q tip Hinv Hq) as (c1 & -> & Hinv1 & Hticks & _).
    pose proof (call_ok_later _ _ _ _ Hticks Hq) as Hq1.
    pose proof Hinv1 as [(a & b & Ha & Hb & _) _ _]. simpl in Ha, Hb. rewrite Ha, Hb.
    set (t1 := if b <=? _ then _ else t).
    assert (inv (Build_System c1 t1 l)) as Hinv2.
    { unfold t1. case_match; [|done]. apply inv_kick; [done|]. destruct (co_start _ _ _ Hq) as [? _]. pose proof (co_next _ _ _ Hq). lia. }
    assert (t1 = t \/ exists f x, t1 = Kicked f x) as Ht1.
    { unfold t1. case_match; [|by left]. unfold maybe_kick_refresh. destruct t; eauto. }
    destruct ((b <? block_number tip) || (block_number (q_start_position q) <? a)) eqn:Eout.
    + destruct (delegate_ok c1 t1 l q tip Hinv2 Hq1) as (c2 & -> & Hinv3). by exists c2, t1, (Answered (answer q tip)).
    + apply orb_false_iff in Eout as [?%Z.ltb_ge ?%Z.ltb_ge]. exists c1, t1, (Reading (increment tip)).
      do 4 (split; [done|]). by exists a, b.
Qed.

Lemma serve_ok c t l1 l2 q e tip n : inv (Build_System c t (l1 ++ (q, e) :: l2)) -> call_ok n q tip -> e = increment tip ->
  (exists b, snapshot_end_block c = Some b /\ block_number tip <= b) -> low c t <= block_number (q_start_position q) ->
  exists c', serve q e c = Ok (answer q tip, c') /\ inv (Build_System c' t (l1 ++ l2)).
Proof.
  intros Hinv Hq -> (b' & Hb' & Htip) Hlow.
  pose proof Hinv as [(a & b & Ha & Hb & Hr & Hg & Htask & Hab & Hlast & Hread) Hl Hp]. simpl in *.
  assert (b' = b) as -> by congruence.
  assert (exists x y, all_events c = blocks x y /\ x <= block_number (q_start_position q) /\ b <= y) as (x & y & Hev & Hx & Hy).
  { pose proof (co_next _ _ _ Hq). unfold low in Hlow. rewrite Ha in Hlow.
    destruct t; simpl in *; destruct_and?; try (exists (Z.max a g), b; split; [done|lia]).
    - destruct Htask as (from & _ & _ & Hev). exists (Z.max a g), b. split; [done|lia].
    - exists (Z.max new_window_start g), target_end. split; [done|lia].
    - exists (Z.max a g), target_end. split; [done|lia]. }
  unfold serve. rewrite Hev, slice_blocks.
  - simpl. rewrite (co_capacity _ _ _ Hq). eexists. split; [done|]. split; simpl.
    + exists a, b. do 3 (split; [done|]). split; [done|]. split; [by eapply task_ok_frame|]. split; [done|]. split.
      * intros o [= <-]. simpl. pose proof (co_order _ _ _ Hq) as Ho. positions.
      * apply Forall_app in Hread as [? [_ ?]%Forall_cons]. by apply Forall_app.
    + intros o [= <-]. exists tip. simpl. split; [apply Hq|]. split; [apply Hq|done].
    + done.
  - apply (fw_ledger _ _ _ (st_follows st)).
  - done.
  - apply (co_start _ _ _ Hq).
  - simpl. lia.
  - apply (co_order _ _ _ Hq).
Qed.

Lemma inv_init : inv (Build_System (build next) NoTask []).
Proof.
  pose proof (st_next st). split; simpl; [|done|]; [|intros h p; by rewrite lookup_empty].
  assert (saturating_sub g 1 = g - 1) as -> by (unfold saturating_sub; lia).
  exists (g - 1), (g - 1). do 2 (split; [done|]). split; [lia|]. split; [lia|]. split; [|split; [lia|done]].
  symmetry. apply blocks_empty. lia.
Qed.

Lemma inv_step s l s' : inv s -> step world cfg false admissible s l s' ->
  inv s' /\ forall q r, l = Some (q, r) -> exists n tip, call_ok n q tip /\ r = answer q tip.
Proof.
  intros Hinv. destruct 1 as [c t l c' t' Hstep|c t l Ht|c t l c' t' q r (tip & Hq) Hb|c t l c' t' q e (tip & Hq) Hb|c t l c' t' q e (tip & Hq) Hb|
    c t l1 l2 q e r c' Hlow Hserve].
  - split; [by eapply inv_task|done].
  - split; [|done]. destruct Hinv as [(a & b & Ha & Hb & Hr & Hg & Htask & Hab & Hlast & Hread) Hl Hp].
    split; [|done..]. exists a, b. destruct t; try done; simpl in *; destruct_and?; by repeat (split; [done|]).
  - destruct (begin_ok c t l q tip Hinv Hq) as (c1 & t1 & r1 & E & Hinv' & _ & Hr). rewrite E in Hb. simplify_eq.
    split; [done|]. intros q' r' [= <- <-]. eauto.
  - destruct (begin_ok c t l q tip Hinv Hq) as (c1 & t1 & r1 & E & Hinv' & _ & Hr). rewrite E in Hb. simplify_eq.
    split; [|done]. destruct Hr as (-> & a & b & Ha & Hb & _ & Htip).
    eapply inv_frame; [exact Hinv'|done..|apply (inv_positions _ Hinv')|].
    intros b' Hb' Hl. constructor; [|done]. exists (ticks c), tip. simpl. split; [done|]. split; [done|]. by simplify_eq.
  - destruct (begin_ok c t l q tip Hinv Hq) as (c1 & t1 & r1 & E & _). rewrite E in Hb. done.
  - pose proof Hinv as [(a & b & Ha & Hb & _ & _ & _ & _ & _ & Hread) _ _]. simpl in *.
    apply Forall_app in Hread as [_ [(n & tip & Hq & He & Htip) _]%Forall_cons]. simpl in *.
    destruct (serve_ok c t l1 l2 q e tip n Hinv Hq He) as (c1 & E & Hinv'); [by exists b|by apply Hlow|].
    rewrite E in Hserve. simplify_eq. split; [done|]. intros q' r' [= <- <-]. eauto.
Qed.

Lemma inv_reachable s : reachable world cfg false admissible next s -> inv s.
Proof. induction 1 as [|s l s' _ IH Hstep]; [apply inv_init|]. by apply (inv_step s l s'). Qed.

(** A call that nothing interrupts *)
Lemma cached_get_ok c t l q tip : inv (Build_System c t l) -> call_ok (ticks c) q tip ->
  match t with EventsWritten _ new_window_start => new_window_start <= block_number (q_start_position q) | _ => True end ->
  exists c' t', cached_get_utxos_up_to_capacity world cfg q c t = (c', t', Ok (answer q tip)) /\ inv (Build_System c' t' l).
Proof.
  intros Hs Hq Htask. unfold cached_get_utxos_up_to_capacity.
  destruct (begin_ok c t l q tip Hs Hq) as (c1 & t1 & r & -> & Hinv & Ht1 & Hr).
  destruct r as [x|e]; [subst x; by eauto 10|]. destruct Hr as (-> & a & b & Ha & Hb & Hlow & Htip).
  assert (inv (Build_System c1 t1 ([] ++ (q, increment tip) :: l))) as Hinv'.
  { eapply inv_frame; [exact Hinv|done..|apply (inv_positions _ Hinv)|].
    intros b' Hb' Hl. constructor; [|done]. exists (ticks c), tip. simpl. split; [done|]. split; [done|]. by simplify_eq. }
  destruct (serve_ok c1 t1 [] l q (increment tip) tip (ticks c) Hinv' Hq)
    as (c2 & -> & ?); [done|by exists b| |by eauto 10].
  destruct Ht1 as [->|(f & x & ->)]; [|simpl; by rewrite Ha]. destruct t; simpl in *; try by rewrite Ha. done.
Qed.
End Invariant.

(** C14: Every answer of the cache is the ledger's.  In a run of calls and of the background task
    that moves the window, interleaved between the check of the window, the read of the events,
    and the writes of the events and of the bounds, every call that ends returns the window of the
    ledger for its start and its main chain reference.  The conditions: the task has not dropped
    the events of a call between its check and its read ([step] with [racy] false); all calls are
    for the addresses that the cache was built with, have the same capacity, start at or after the
    cache's first position, name a reference that the database knows, and ask for a range with no
    more rows than their limit ([admissible]); the cache was built for a position after block 0,
    and no refresh reaches its row limit ([setting]).  Outside of them answers can be wrong. *)
Theorem answers_are_the_ledgers {pg : Postgres} {pg_laws : PostgresLaws} {ca : CardanoAddresses} {ca_laws : CardanoAddressesLaws}
    {csl : CardanoSerializationLib} world height L cfg network policy tx_capacity next s q r s' :
  setting world height L cfg network policy next ->
  reachable world cfg false (admissible height L cfg policy tx_capacity next) next s ->
  step world cfg false (admissible height L cfg policy tx_capacity next) s (Some (q, r)) s' ->
  exists tip, tip ∈ l_blocks L /\ block_hash tip = q_current_tip q /\
    r = ledger_window L (cnight_addresses cfg) network policy (q_start_position q) tip tx_capacity.
Proof.
  intros st Hs Hstep. apply (inv_reachable world height L cfg network policy tx_capacity next st) in Hs.
  destruct (inv_step world height L cfg network policy tx_capacity next st s _ s' Hs Hstep) as [_ Hr].
  destruct (Hr q r eq_refl) as (n & tip & Hq & ->). exists tip. split; [apply Hq|]. split; [apply Hq|done].
Qed.

(** The cache is equivalent to the source it stands for.  In every state that such a run reaches,
    a call that nothing interrupts returns, and returns what the source that queries the database
    at each call returns, unless the task is between its two writes and has dropped the events of
    the call. *)
Theorem cache_is_equivalent_to_source {pg : Postgres} {pg_laws : PostgresLaws} {ca : CardanoAddresses} {ca_laws : CardanoAddressesLaws}
    {csl : CardanoSerializationLib} world height L cfg network policy tx_capacity next s q tip :
  setting world height L cfg network policy next ->
  reachable world cfg false (admissible height L cfg policy tx_capacity next) next s ->
  call_ok height L cfg policy tx_capacity next (ticks (cache s)) q tip ->
  match task s with EventsWritten _ new_window_start => new_window_start <= block_number (q_start_position q) | _ => True end ->
  exists c t r n, cached_get_utxos_up_to_capacity world cfg q (cache s) (task s) = (c, t, Ok r) /\
    get_utxos_up_to_capacity world (q_config q) (q_start_position q) (q_current_tip q) (q_tx_capacity q) (q_utxo_overestimate q)
      (ticks (cache s)) = Ok (r, n).
Proof.
  intros st Hs Hq Htask. apply (inv_reachable world height L cfg network policy tx_capacity next st) in Hs.
  destruct s as [c t l]. simpl in *.
  destruct (get_utxos_window world height L (st_follows _ _ _ _ _ _ _ st) (ticks c) (cnight_addresses cfg) network policy
    (q_start_position q) tip tx_capacity (q_utxo_overestimate q)) as (n & _ & E); try apply Hq.
  { apply (st_validator _ _ _ _ _ _ _ st). }
  { intros m _. apply (st_available _ _ _ _ _ _ _ st). }
  rewrite (co_config _ _ _ _ _ _ _ _ _ Hq), (co_capacity _ _ _ _ _ _ _ _ _ Hq), <- (co_hash _ _ _ _ _ _ _ _ _ Hq), E.
  destruct (cached_get_ok world height L cfg network policy tx_capacity next st c t l q tip Hs Hq Htask) as (c1 & t1 & -> & _).
  by eauto 10.
Qed.

(** ** Examples *)

Module CacheExample.
Import PullExample DatumLib.
Definition next : CardanoPosition := WindowExample.at_ 10 0.
Definition cfg : BulkCacheConfig := {| cnight_addresses := addresses; stability_margin := 0; window_size := 100 |}.
Definition call (start : CardanoPosition) (tip : Bytes) : Query :=
  {| q_config := addresses; q_start_position := start; q_current_tip := tip; q_tx_capacity := 200; q_utxo_overestimate := 800 |}.

(** A script of steps: the task, the start of a call, and the rest of the call that started last *)
Inductive Action := DoTask | DoCall (q : Query) | DoServe.
Definition perform (world : nat -> option Db) (s : System) (a : Action) : System * option (Query * ObservedUtxos Bytes Bytes) :=
  match a with
  | DoTask => let '(c, t) := refresh_step world cfg (cache s) (task s) in (Build_System c t (reading s), None)
  | DoCall q =>
      match begin_query world cfg q (cache s) (task s) with
      | (c, t, Ok (Answered r)) => (Build_System c t (reading s), Some (q, r))
      | (c, t, Ok (Reading e)) => (Build_System c t ((q, e) :: reading s), None)
      | _ => (s, None)
      end
  | DoServe =>
      match reading s with
      | (q, e) :: l => match serve q e (cache s) with Ok (r, c) => (Build_System c (task s) l, Some (q, r)) | _ => (s, None) end
      | [] => (s, None)
      end
  end.
Definition run (world : nat -> option Db) (l : list Action) : System :=
  foldl (fun s a => fst (perform world s a)) (Build_System (build next) NoTask []) l.

Lemma perform_step world racy s a adm :
  (forall q, a = DoCall q -> adm (ticks (cache s)) q) -> (a = DoServe -> racy = true) -> perform world s a = (s, None) \/
  step world cfg racy adm s (snd (perform world s a)) (fst (perform world s a)).
Proof.
  intros Hadm Hracy. destruct s as [c t l], a as [|q|]; simpl in *.
  - right. destruct (refresh_step world cfg c t) eqn:E. by constructor.
  - destruct (begin_query world cfg q c t) as [[c' t'] [[r|e]|e|]] eqn:E; [right..|by left|by left].
    + constructor; [by apply Hadm|done].
    + constructor; [by apply Hadm|done].
  - destruct l as [|[q e] l]; [by left|]. destruct (serve q e c) as [[r c']|e'|] eqn:E; [|by left|by left].
    right. simpl. apply (step_serve _ _ _ _ c t [] l); [|done]. by rewrite (Hracy eq_refl).
Qed.

Lemma run_snoc world racy adm l a : reachable world cfg racy adm next (run world l) ->
  (forall q, a = DoCall q -> adm (ticks (cache (run world l))) q) -> (a = DoServe -> racy = true) ->
  reachable world cfg racy adm next (run world (l ++ [a])).
Proof.
  intros Hr Hadm Hracy. unfold run at 1. rewrite foldl_snoc. fold (run world l).
  destruct (perform_step world racy (run world l) a adm Hadm Hracy) as [->|Hs]; [done|]. eapply reachable_step; eauto.
Qed.

Lemma rows_between_le s e {X} (l : list (Fact X)) : rows_between s e l <= len l.
Proof. unfold rows_between, len. pose proof (length_filter (fun f => Is_true (fact_between s e f)) l). lia. Qed.

Lemma setting_ok : setting PullExample.world (fun _ => 11) PullExample.L cfg 0 [9] next.
Proof.
  split; try done.
  - apply follows_ok.
  - intros n d' b x [= <-] Hb Hx. simpl in Hb. rows; simpl in Hx; simplify_eq; lia.
  - intros n d' x [= <-] Hx. vm_compute in Hx. simplify_eq. simpl. lia.
  - intros s e. split; (etrans; [apply rows_between_le|]); vm_compute; congruence.
Qed.

Lemma call_example n : call_ok (fun _ => 11) PullExample.L cfg [9] 200 next n (call example_start [11]) example_tip.
Proof.
  split; try done; try (unfold i32_position; simpl; lia); try (simpl; lia); try (right; left).
Qed.

(** A call, and the refresh that it started *)
Definition warm : list Action := DoCall (call example_start [11]) :: replicate 6 DoTask.

Lemma warm_reachable : reachable PullExample.world cfg false (admissible (fun _ => 11) PullExample.L cfg [9] 200 next) next (run PullExample.world warm).
Proof.
  assert (reachable PullExample.world cfg false (admissible (fun _ => 11) PullExample.L cfg [9] 200 next) next
    (run PullExample.world ([] ++ [DoCall (call example_start [11])]))) as H0.
  { apply run_snoc; [constructor| |done]. intros q [= <-]. exists example_tip. apply call_example. }
  do 6 (apply (run_snoc _ _ _ _ DoTask) in H0; [|done|done]). exact H0.
Qed.
(** The window is in memory. *)
Lemma warm_window : kind <$> all_events (cache (run PullExample.world warm)) = [2; 2; 0; 3] /\
  snapshot_end_block (cache (run PullExample.world warm)) = Some 11 /\ task (run PullExample.world warm) = NoTask.
Proof. vm_compute. repeat split. Qed.

(** The main chain grows by a block 30 after the first refresh, which ends after 20 queries. *)
Definition block_30 := {| b_id := 3; b_hash := [30]; b_block_no := Some 30; b_epoch_no := Some 1; b_slot_no := Some 500; b_time := 9000; b_tx_count := 0 |}.
Definition d_30 : Db := {| block := [block_10; block_11; block_30]; tx := tx d; tx_out := tx_out d; tx_in := tx_in d;
  ma_tx_out := ma_tx_out d; datum_table := datum_table d; multi_asset := multi_asset d |}.
Definition growing (n : nat) : option Db := if (n <? 20)%nat then Some d else Some d_30.
(** A call past the window starts to move it; another finds its window and, before it reads the
    events, they are replaced. *)
Definition race : list Action :=
  [DoCall (call example_start [11])] ++ replicate 6 DoTask ++
  [DoCall (call (WindowExample.at_ 20 0) [30]); DoCall (call example_start [11])] ++ replicate 4 DoTask.
End CacheExample.
Import PullExample DatumLib CacheExample.


Definition reading_state : System := run PullExample.world (warm ++ [DoCall (call example_start [11])]).
Definition served : ObservedUtxos Bytes Bytes * Cache :=
  match serve (call example_start [11]) (increment example_tip) (cache reading_state) with
  | Ok x => x
  | _ => ({| start := example_start; end_ := example_start; utxos := [] |}, cache reading_state)
  end.

Lemma answers_are_the_ledgers_witness :
  exists tip, tip ∈ l_blocks PullExample.L /\ block_hash tip = [11] /\
    fst served = ledger_window PullExample.L addresses 0 [9] example_start tip 200.
Proof.
  apply (answers_are_the_ledgers PullExample.world (fun _ => 11) PullExample.L cfg 0 [9] 200 CacheExample.next
    reading_state (call example_start [11]) (fst served) (Build_System (snd served) (task reading_state) [])).
  - apply setting_ok.
  - apply run_snoc; [apply warm_reachable| |done]. intros q [= <-]. exists example_tip. apply call_example.
  - assert (reading_state = Build_System (cache reading_state) (task reading_state) ([] ++ (call example_start [11], increment example_tip) :: []))
      as -> by (vm_compute; reflexivity).
    apply (step_serve _ _ _ _ (cache reading_state) (task reading_state) [] []).
    + intros _. vm_compute. congruence.
    + vm_compute. reflexivity.
Defined.

Lemma cache_is_equivalent_to_source_witness :
  exists c t r n, cached_get_utxos_up_to_capacity PullExample.world cfg (call example_start [11])
      (cache (run PullExample.world warm)) (task (run PullExample.world warm)) = (c, t, Ok r) /\
    get_utxos_up_to_capacity PullExample.world addresses example_start [11] 200 800 (ticks (cache (run PullExample.world warm))) = Ok (r, n).
Proof.
  apply (cache_is_equivalent_to_source PullExample.world (fun _ => 11) PullExample.L cfg 0 [9] 200 CacheExample.next
    (run PullExample.world warm) (call example_start [11]) example_tip).
  - apply setting_ok.
  - apply warm_reachable.
  - apply call_example.
  - vm_compute. exact I.
Defined.

(** Without the condition on the reading call the answer may be wrong: the call returns no event,
    while the source that queries the database returns four. *)
Lemma moved_window_loses_events :
  let s := run growing race in
  let x := perform growing s DoServe in
  reachable growing cfg true (fun _ _ => True) CacheExample.next s /\
  step growing cfg true (fun _ _ => True) s (snd x) (fst x) /\
  (fun a => (q_start_position (fst a), q_current_tip (fst a), utxos (snd a))) <$> snd x = Some (example_start, [11], []) /\
  match get_utxos_up_to_capacity growing addresses example_start [11] 200 800 (ticks (cache s)) with
  | Ok (w, _) => kind <$> utxos w = [2; 2; 0; 3]
  | _ => False
  end.
Proof.
  intros s x.
  assert ((fun a => (q_start_position (fst a), q_current_tip (fst a), utxos (snd a))) <$> snd x = Some (example_start, [11], [])) as Hx
    by (vm_compute; reflexivity).
  split; [|split; [|split]].
  - unfold s. generalize race. intros l. induction l as [|a l IH] using rev_ind; [constructor|]. apply run_snoc; done.
  - destruct (perform_step growing true s DoServe (fun _ _ => True)) as [E|Hs]; [done|done| |exact Hs].
    unfold x in Hx. rewrite E in Hx. discriminate Hx.
  - exact Hx.
  - vm_compute. reflexivity.
Qed.
