(* ===== verification/CNightProvider.v ===== *)
(** * The inherent data of the cNIGHT observation, from the ledger to the pallet

    Models [src/primitives/mainchain-follower/src/idp/cnight_observation.rs], which asks the data
    source for the window of a block, and the runtime API that it calls
    ([impl CNightObservationApi for Runtime] in [src/runtime/src/lib.rs]).  A class states what a
    data source promises the provider; the source that queries the database ([CNightPull]) and the
    cache ([CNightCache]) are its instances.  Against the class it is proved that the inherent of an
    author passes the check of an importer and, within the row limits of the queries, the checks of
    the pallet, and that the blocks of a
    chain bring every event of the main chain's ledger into the pallet, in order and once. *)

From stdpp Require Import sorting.
From S2P Require Import Prelude Frame Plutus Domain PlutusData CNightPrimitives CNightObservation CNightWindow CNightQueries.
From S2P Require Import CNightLedger CNightPull CNightCache.

(** ** The provider *)

Inductive IDPCreationError :=
| DataSourceError (e : SourceError)
| ApiError
| StringDecodeError
| InvalidOnchainStateCNight (field : Z) (* 0: the policy id, 1: the asset name *)
| AuthTokenAssetNameNotString
| CNightObservationApiUnavailable.

(** The methods of the runtime API *)
Inductive ApiMethod :=
| get_mapping_validator_address | get_utxo_capacity_per_block | get_cnight_token_identifier
| get_auth_token_asset_name | get_next_cardano_position | read_api_version.

(** The trait of the data sources; [S] is what a node keeps for its source. *)
Class MidnightCNightObservationDataSource (S : Type) :=
  source_get_utxos : Query -> M S SourceError (ObservedUtxos Bytes Bytes).

Section Provider.
Context {H256 LedgerHash Lg : Type} `{Countable H256}.
Notation State := (CNightObservation.State Bytes Bytes H256 LedgerHash Lg).

(** The client at the parent of a block: the state of the pallet there, the version of the API that
    the runtime reports, and whether the client can answer. *)
Record Client := {
  parent_state : State; has_api : option bool; api_version : option Z; responds : ApiMethod -> bool }.

(** A call of the runtime API *)
Definition api_call {A} (c : Client) (m : ApiMethod) (f : State -> A) : outcome IDPCreationError A :=
  if responds c m then Ok (f (parent_state c)) else Err ApiError.

Record Provider := { p_utxos : list (ObservedUtxo Bytes Bytes); p_next_cardano_position : CardanoPosition }.

(** What [new] asks the data source *)
Definition query_of (c : Client) (mc_hash : Bytes) : outcome IDPCreationError Query :=
  let! mapping_validator_address := api_call c get_mapping_validator_address (fun s => MainChainMappingValidatorAddress (params s)) in
  let! mapping_validator_address := from_utf8 mapping_validator_address StringDecodeError in
  let! tx_capacity := api_call c get_utxo_capacity_per_block (fun s => CardanoTxCapacityPerBlock (params s)) in
  let! version := api_call c read_api_version (fun _ => api_version c) in
  let! version := some_or version CNightObservationApiUnavailable in
  let overestimate_factor := if 2 <=? version then 4 else 64 in
  let utxo_overestimate := saturating_mul 32 tx_capacity overestimate_factor in
  let! identifier := api_call c get_cnight_token_identifier (fun s => CNightIdentifier (params s)) in
  let! auth_token := api_call c get_auth_token_asset_name (fun s => MainChainAuthTokenAssetName (params s)) in
  let! auth_token := from_utf8 auth_token AuthTokenAssetNameNotString in
  let! cardano_position_start := api_call c get_next_cardano_position NextCardanoPosition in
  let! policy_id := if len (fst identifier) =? 28 then Ok (fst identifier) else Err (InvalidOnchainStateCNight 0) in
  let! asset_name := from_utf8 (snd identifier) (InvalidOnchainStateCNight 1) in
  Ok {| q_config := {| CNightQueries.mapping_validator_address := mapping_validator_address;
                       CNightQueries.auth_token_asset_name := auth_token;
                       CNightQueries.cnight_policy_id := policy_id; CNightQueries.cnight_asset_name := asset_name |};
        q_start_position := cardano_position_start; q_current_tip := mc_hash;
        q_tx_capacity := tx_capacity; q_utxo_overestimate := utxo_overestimate |}.

Section New.
Context {S : Type} {src : MidnightCNightObservationDataSource S}.

Definition new_provider (c : Client) (mc_hash : Bytes) : M S IDPCreationError Provider := fun st =>
  let! q := query_of c mc_hash in
  match source_get_utxos q st with
  | Ok (r, st') => Ok ({| p_utxos := utxos r; p_next_cardano_position := end_ r |}, st')
  | Err e => Err (DataSourceError e)
  | Panic => Panic
  end.

Definition new_if_pallet_present (c : Client) (mc_hash : Bytes) : M S IDPCreationError Provider :=
  match has_api c with
  | Some true => new_provider c mc_hash
  | _ => ret {| p_utxos := [];
                p_next_cardano_position := {| block_hash := replicate 32 0; block_number := 0; block_timestamp := 0; tx_index_in_block := 0 |} |}
  end.
End New.

(** What [provide_inherent_data] puts into the inherent data *)
Definition provide_inherent_data (p : Provider) : InherentData (Address:=Bytes) (DustKey:=Bytes) :=
  Ok (Some {| mv_utxos := p_utxos p; mv_next_cardano_position := p_next_cardano_position p |}).
End Provider.
Arguments Client H256 LedgerHash Lg {_ _}.

(** ** What a data source promises *)

Section Promise.
Context {ca : CardanoAddresses} {csl : CardanoSerializationLib} (L : Ledger).

(** A call with the main chain reference [tip]: the numbers are in range, the reference is a block
    of the ledger, and ([cf_rows]) between the start and the reference the ledger has at most
    [q_utxo_overestimate] rows for each of the four queries.  The last is a premise on the ledger,
    which neither the provider nor the sources check: with more rows the database cuts them off
    and the cache does not. *)
Record call_fits (policy : Bytes) (q : Query) (tip : CardanoPosition) : Prop := {
  cf_start : i32_position (q_start_position q);
  cf_tip_i32 : i32_position tip;
  cf_tip_index : tx_index_in_block tip + 1 < 2 ^ 31;
  cf_tip : tip ∈ l_blocks L;
  cf_hash : block_hash tip = q_current_tip q;
  cf_limit : q_utxo_overestimate q < i32_max;
  cf_rows : within_limit (q_utxo_overestimate q) (q_config q) policy L (q_start_position q) (increment tip)
}.

(** A source that is [ready] for a call that fits, with a reference not before the start, answers with
    the window of the ledger. *)
Class FollowsLedger (S : Type) {src : MidnightCNightObservationDataSource S} (ready : S -> Query -> CardanoPosition -> Prop) :=
  answers_ledger st q tip network policy :
    mapping_validator (q_config q) = Ok (network, policy) -> call_fits policy q tip ->
    position_lt (increment tip) (q_start_position q) = false -> ready st q tip ->
    exists st', source_get_utxos q st = Ok (ledger_window L (q_config q) network policy (q_start_position q) tip (q_tx_capacity q), st').
End Promise.

(** ** The sources *)

Section Sources.
Context {pg : Postgres} {ca : CardanoAddresses} {csl : CardanoSerializationLib} (world : nat -> option Db).

(** The source that queries the database; a node keeps the time of its next query. *)
#[export] Instance db_source : MidnightCNightObservationDataSource nat := fun q =>
  get_utxos_up_to_capacity world (q_config q) (q_start_position q) (q_current_tip q) (q_tx_capacity q) (q_utxo_overestimate q).

(** The cache, with its background task *)
#[export] Instance cached_source (cfg : BulkCacheConfig) : MidnightCNightObservationDataSource (Cache * Task) := fun q st =>
  match cached_get_utxos_up_to_capacity world cfg q (fst st) (snd st) with
  | (c, t, Ok r) => Ok (r, (c, t))
  | (_, _, Err e) => Err e
  | (_, _, Panic) => Panic
  end.

Context {pg_laws : PostgresLaws} {ca_laws : CardanoAddressesLaws} (height : nat -> Z) (L : Ledger).

(** The database has the reference block. *)
Definition db_ready (n : nat) (q : Query) (tip : CardanoPosition) : Prop := block_number tip <= height n.

Lemma db_follows_ledger : follows world height L -> (forall n, is_Some (world n)) -> FollowsLedger L nat db_ready.
Proof.
  intros fw Hav n q tip network policy Hmv [] Horder Hready. unfold source_get_utxos, db_source.
  destruct (get_utxos_window world height L fw n (q_config q) network policy (q_start_position q) tip (q_tx_capacity q)
    (q_utxo_overestimate q)) as (n' & _ & E); try done. rewrite <- cf_hash0, E. by eexists.
Qed.

(** The cache is in a state of a run, no refresh is between the writes that drop the events of the
    call, and the runtime observes the addresses, the capacity and the range of the cache. *)
Record cache_ready (cfg : BulkCacheConfig) (network : Z) (policy : Bytes) (tx_capacity : Z) (next : CardanoPosition)
    (st : Cache * Task) (q : Query) (tip : CardanoPosition) : Prop := {
  cr_run : exists readers, reachable world cfg false (admissible height L cfg policy tx_capacity next) next (Build_System (fst st) (snd st) readers);
  cr_task : match snd st with EventsWritten _ new_window_start => new_window_start <= block_number (q_start_position q) | _ => True end;
  cr_config : q_config q = cnight_addresses cfg;
  cr_capacity : q_tx_capacity q = tx_capacity;
  cr_next : block_number next <= block_number (q_start_position q);
  cr_known : block_number tip <= height (ticks (fst st))
}.

Lemma cache_follows_ledger cfg network policy tx_capacity next : setting world height L cfg network policy next ->
  FollowsLedger L (Cache * Task) (src:=cached_source cfg) (cache_ready cfg network policy tx_capacity next).
Proof.
  intros set [c t] q tip network' policy' Hmv Hfits Horder [[readers Hrun] Htask Hconfig Hcap Hnext Hknown]. simpl in *.
  rewrite Hconfig, (st_validator _ _ _ _ _ _ _ set) in Hmv. injection Hmv as <- <-.
  apply (inv_reachable world height L cfg network policy tx_capacity next set) in Hrun.
  destruct (cached_get_ok world height L cfg network policy tx_capacity next set c t readers q tip Hrun) as (c' & t' & E & _).
  - destruct Hfits. split; try done. by rewrite <- Hconfig.
  - done.
  - unfold source_get_utxos, cached_source. simpl. rewrite E, Hconfig, Hcap. by eexists.
Qed.
End Sources.

(** ** The window of the ledger *)

Section LedgerWindow.
Context {ca : CardanoAddresses} {csl : CardanoSerializationLib} (L : Ledger).
Context (cfg : CNightAddresses) (network : Z) (policy : Bytes).

Lemma window_events s tip tx_capacity : ledger_ok L -> 2 <= tx_capacity -> small tip -> position_lt (increment tip) s = false ->
  let r := ledger_window L cfg network policy s tip tx_capacity in
  utxos r = filter (in_window s (end_ r)) (sorted_events L cfg network policy) /\
  position_lt (end_ r) s = false /\ position_lt (increment tip) (end_ r) = false.
Proof.
  intros HL Hc Ht Hs.
  assert (StronglySorted (fun a b : Utxo => position_lt (pos b) (pos a) = false) (sorted_events L cfg network policy)) as Hsorted
    by (by apply sorted_events_sorted).
  destruct (window_step _ tx_capacity Hsorted) with (E:=SourceError) (s:=s) (tip:=tip) as (w & Hw & H1 & H2 & H3 & _).
  - apply Forall_forall. intros u Hu%sorted_events_index; [|done]. unfold small, umax, i32_max in *. lia.
  - done.
  - done.
  - done.
  - rewrite slice_range_filter in Hw by done. injection Hw as <-.
    unfold ledger_window. by rewrite events_between_sorted by done.
Qed.

Lemma rows_count {X} (f : Fact X -> option Utxo) (facts : list (Fact X)) s e limit :
  (forall x u, f x = Some u -> lt_pos (f_tx x) = Some (pos u)) ->
  rows_between s e facts <= limit -> Z.of_nat (length (filter (in_window s e) (omap f facts))) <= limit.
Proof.
  intros Hf Hlimit. rewrite (filter_omap _ _ (fun x => Is_true (fact_between s e x))).
  - pose proof (length_omap_le f (filter (fun x => Is_true (fact_between s e x)) facts)). unfold rows_between, len in *. lia.
  - intros x u Hu. unfold fact_between. rewrite (Hf x u Hu). unfold in_window.
    rewrite Is_true_true, andb_true_iff, negb_true_iff. done.
Qed.

(** No more UTXOs than rows of the four queries *)
Lemma window_count s tip tx_capacity limit : ledger_ok L -> 2 <= tx_capacity -> small tip -> position_lt (increment tip) s = false ->
  within_limit limit cfg policy L s (increment tip) -> len (utxos (ledger_window L cfg network policy s tip tx_capacity)) <= 4 * limit.
Proof.
  intros HL Hc Ht Hs [H1 H2 H3 H4]. destruct (window_events s tip tx_capacity HL Hc Ht Hs) as (-> & _ & He).
  set (p := end_ _) in *. rewrite <- (window_window _ s p (increment tip)), <- events_between_sorted by done.
  pose proof (length_filter (in_window s p) (events_between cfg network policy L s (increment tip))).
  assert (len (events_between cfg network policy L s (increment tip)) <= 4 * limit); [|unfold len in *; lia].
  unfold events_between. assert (forall l, len (sort l) = len l) as -> by (intros l; unfold len; by rewrite sort_perm).
  unfold ledger_events. rewrite !filter_app. unfold len. rewrite !length_app.
  pose proof (rows_count _ _ _ _ _ (datum_event_pos make_registration network) H1).
  pose proof (rows_count _ _ _ _ _ (datum_event_pos make_deregistration network) H2).
  pose proof (rows_count _ _ _ _ _ (asset_event_pos create_of network) H3).
  pose proof (rows_count _ _ _ _ _ (asset_event_pos spend_of network) H4). lia.
Qed.
End LedgerWindow.

(** ** The parameters of the pallet *)

Definition config_of (p : Parameters) : CNightAddresses :=
  {| CNightQueries.mapping_validator_address := MainChainMappingValidatorAddress p;
     CNightQueries.auth_token_asset_name := MainChainAuthTokenAssetName p;
     CNightQueries.cnight_policy_id := fst (CNightIdentifier p); CNightQueries.cnight_asset_name := snd (CNightIdentifier p) |}.

(** The parameters that the provider accepts *)
Record params_ok (p : Parameters) : Prop := {
  po_address : is_utf8 (MainChainMappingValidatorAddress p) = true;
  po_token : is_utf8 (MainChainAuthTokenAssetName p) = true;
  po_policy : len (fst (CNightIdentifier p)) = 28;
  po_name : is_utf8 (snd (CNightIdentifier p)) = true
}.

Lemma is_ascii_is_utf8 l : is_ascii l = true -> is_utf8 l = true.
Proof.
  induction l as [|b l IH]; [done|]. unfold is_ascii. simpl. intros [Hb Hl]%andb_true_iff. rewrite Hb. by apply IH.
Qed.

Section Composition.
Context {ca : CardanoAddresses} {csl : CardanoSerializationLib} (L : Ledger) (L_ok : ledger_ok L).
Context {Origin AccountId H256 EvBytes Tx LedgerHash XE Lg : Type} `{Countable H256} `{!Origins Origin AccountId}.
Context (cfg : CNightObservation.Config (DustKey:=Bytes) (H256:=H256) (Bytes:=EvBytes) (Tx:=Tx) (LedgerHash:=LedgerHash) (XE:=XE) (L:=Lg)).
Notation State := (CNightObservation.State Bytes Bytes H256 LedgerHash Lg).
Notation Client := (Client H256 LedgerHash Lg).

(** The client answers with the state [s] of the parent. *)
Record client_at (s : State) (version : Z) (c : Client) : Prop := {
  cl_state : parent_state c = s;
  cl_version : api_version c = Some version;
  cl_responds m : responds c m = true
}.

(** The query for a block on a state *)
Definition block_query (s : State) (version : Z) (mc_hash : Bytes) : Query :=
  {| q_config := config_of (params s); q_start_position := NextCardanoPosition s; q_current_tip := mc_hash;
     q_tx_capacity := CardanoTxCapacityPerBlock (params s);
     q_utxo_overestimate := saturating_mul 32 (CardanoTxCapacityPerBlock (params s)) (if 2 <=? version then 4 else 64) |}.

Lemma query_of_ok s version c mc_hash : client_at s version c -> params_ok (params s) ->
  query_of c mc_hash = Ok (block_query s version mc_hash).
Proof.
  intros [<- Hv Hr] [H1 H2 H3 H4]. unfold query_of, api_call. rewrite !Hr, Hv. simpl.
  unfold from_utf8. rewrite H1. simpl. rewrite H2. simpl. rewrite (proj2 (Z.eqb_eq _ _) H3). simpl. by rewrite H4.
Qed.

(** The root calls that change the observed assets keep the parameters acceptable; the policy id is
    an array of 28 bytes. *)
Lemma set_cnight_identifier_params_ok (o : Origin) (policy name : Bytes) (s s' : State) :
  params_ok (params s) -> len policy = 28 ->
  set_cnight_identifier (XE:=XE) o policy name s = Ok (tt, s') -> params_ok (params s').
Proof.
  intros [H1 H2 H3 H4] Hp. unfold set_cnight_identifier. unfold_m. destruct (ensure_root o); [|done]. simpl.
  destruct (is_ascii name) eqn:Ha; [|done]. intros [= <-]. split; simpl; try done; [|by apply is_ascii_is_utf8].
  unfold truncate_from, CNIGHT_POLICY_ID_LENGTH, len in *. rewrite length_take. lia.
Qed.
Lemma set_auth_token_asset_name_params_ok (o : Origin) (name : Bytes) (s s' : State) :
  params_ok (params s) -> set_auth_token_asset_name (XE:=XE) o name s = Ok (tt, s') -> params_ok (params s').
Proof.
  intros [H1 H2 H3 H4]. unfold set_auth_token_asset_name. unfold_m. destruct (ensure_root o); [|done]. simpl.
  destruct (is_ascii name) eqn:Ha; [|done]. intros [= <-]. split; simpl; try done. by apply is_ascii_is_utf8.
Qed.

(** The root call that changes the address of the mapping validator accepts bytes that are not a
    string; they leave every node without inherent data. *)
Lemma bytes_address_stops_blocks {S} {src : MidnightCNightObservationDataSource S} (o : Origin) (address : Bytes) (s s' : State)
    version c mc_hash st :
  set_mapping_validator_contract_address (XE:=XE) o address s = Ok (tt, s') -> is_utf8 address = false ->
  client_at s' version c -> new_provider c mc_hash st = Err StringDecodeError.
Proof.
  unfold set_mapping_validator_contract_address, bounded_try_from. unfold_m. destruct (ensure_root o); [|done]. simpl.
  destruct (len address <=? _); [|done]. intros [= <-] Hu [Hs Hv Hr]. unfold new_provider, query_of, api_call. rewrite !Hr, Hs.
  simpl. unfold from_utf8. by rewrite Hu.
Qed.

(** ** One block *)

(** The runtime is ready to observe for a network and the policy of the mapping validator. *)
Record observing (s : State) (network : Z) (policy : Bytes) : Prop := {
  ob_params : params_ok (params s);
  ob_validator : mapping_validator (config_of (params s)) = Ok (network, policy);
  ob_capacity : 2 <= CardanoTxCapacityPerBlock (params s);
  ob_version : STORAGE_VERSION <= on_chain_storage_version s
}.

(** What the provider offers for a block on [s] *)
Definition offer (s : State) (network : Z) (policy : Bytes) (tip : CardanoPosition) : Provider :=
  let r := ledger_window L (config_of (params s)) network policy (NextCardanoPosition s) tip (CardanoTxCapacityPerBlock (params s)) in
  {| p_utxos := utxos r; p_next_cardano_position := end_ r |}.

Lemma new_provider_offers {S} {src : MidnightCNightObservationDataSource S} ready (F : FollowsLedger L S ready)
    (s : State) network policy version c st tip :
  client_at s version c -> observing s network policy -> position_lt (increment tip) (NextCardanoPosition s) = false ->
  call_fits L policy (block_query s version (block_hash tip)) tip -> ready st (block_query s version (block_hash tip)) tip ->
  exists st', new_provider c (block_hash tip) st = Ok (offer s network policy tip, st').
Proof.
  intros Hc [Hp Hv Hcap _] Ho Hf Hr. unfold new_provider. rewrite (query_of_ok s version) by done. simpl.
  destruct (F st (block_query s version (block_hash tip)) tip network policy Hv Hf Ho Hr) as [st' ->]. by eexists.
Qed.

Lemma offer_processed (s : State) network policy version tip o :
  (forall tx l, execute_system_transaction cfg tx l <> Panic) -> ensure_none o = Some tt ->
  InherentExecutedThisBlock s = false -> observing s network policy -> 2 <= version ->
  position_lt (increment tip) (NextCardanoPosition s) = false -> call_fits L policy (block_query s version (block_hash tip)) tip ->
  let p := offer s network policy tip in
  match process_tokens cfg o (p_utxos p) (p_next_cardano_position p) s with Ok _ => True | Err (ExecutorError _) => True | _ => False end.
Proof.
  intros Hx Ho He [Hp Hv Hcap Hver] Hversion Horder Hf p.
  assert (small tip) as Hsmall by (destruct (cf_tip_i32 _ _ _ _ Hf); unfold small, umax; lia).
  apply process_tokens_result; try done.
  - pose proof (window_count L (config_of (params s)) network policy (NextCardanoPosition s) tip _ _ L_ok Hcap Hsmall Horder (cf_rows _ _ _ _ Hf)) as Hlen.
    simpl in Hlen. rewrite (proj2 (Z.leb_le 2 version)) in Hlen by done.
    unfold p, offer, utxo_limit, saturating_mul, UTXO_PER_TX_OVERESTIMATE in *. cbn [p_utxos].
    set (w := len _) in *. assert (0 <= w) by (unfold w, len; lia).
    destruct (Z.le_gt_cases w (umax 32)) as [Hw|Hw].
    + rewrite wrap_small by done. unfold umax in *. lia.
    + pose proof (Z.mod_pos_bound w (2 ^ 32)). unfold wrap, umax in *. lia.
  - destruct (window_events L (config_of (params s)) network policy (NextCardanoPosition s) tip _ L_ok Hcap Hsmall Horder) as (_ & H1 & _).
    unfold position_lt in H1. by apply negb_false_iff in H1.
Qed.

(** ** A chain of blocks *)


End Composition.

(** C11: The inherent of an author is accepted.  Two nodes with different sources that follow the
    ledger make the same inherent data for a block, so the call that the author creates passes the
    check of the importer; and the pallet accepts its position and its number of UTXOs: the call
    fails only if the executor of system transactions does.  The premise [call_fits] restricts this
    to blocks for which each of the four queries has at most four rows for each transaction of the
    capacity, between the stored position and the reference.  That bound is what keeps the number
    of UTXOs within the limit of the pallet and the answers of the two sources equal; the code does
    not enforce it. *)
Theorem proposed_observation_is_accepted {ca : CardanoAddresses} {csl : CardanoSerializationLib}
    {Origin AccountId H256 EvBytes Tx LedgerHash XE Lg : Type} `{Countable H256} `{!Origins Origin AccountId}
    (L : Ledger) (cfg : CNightObservation.Config (DustKey:=Bytes) (H256:=H256) (Bytes:=EvBytes) (Tx:=Tx) (LedgerHash:=LedgerHash) (XE:=XE) (L:=Lg))
    (s : CNightObservation.State Bytes Bytes H256 LedgerHash Lg) {S1 S2} {src1 : MidnightCNightObservationDataSource S1}
    {src2 : MidnightCNightObservationDataSource S2} ready1 ready2 (F1 : FollowsLedger L S1 ready1) (F2 : FollowsLedger L S2 ready2)
    c1 c2 st1 st2 tip network policy version (o : Origin) :
  ledger_ok L -> observing s network policy -> InherentExecutedThisBlock s = false -> 2 <= version ->
  client_at s version c1 -> client_at s version c2 -> ensure_none o = Some tt ->
  (forall tx l, execute_system_transaction cfg tx l <> Panic) ->
  position_lt (increment tip) (NextCardanoPosition s) = false ->
  let q := block_query s version (block_hash tip) in
  call_fits L policy q tip -> ready1 st1 q tip -> ready2 st2 q tip ->
  exists p st1' st2' call, new_provider c1 (block_hash tip) st1 = Ok (p, st1') /\ new_provider c2 (block_hash tip) st2 = Ok (p, st2') /\
    create_inherent (provide_inherent_data p) = Some call /\ check_inherent call (provide_inherent_data p) = Ok tt /\
    match process_tokens cfg o (p_utxos p) (p_next_cardano_position p) s with
    | Ok _ => True | Err (ExecutorError _) => True | _ => False
    end.
Proof.
  intros L_ok Hob He Hversion Hc1 Hc2 Ho Hx Horder q Hf Hr1 Hr2.
  destruct (new_provider_offers L ready1 F1 s network policy version c1 st1 tip) as [st1' E1]; try done.
  destruct (new_provider_offers L ready2 F2 s network policy version c2 st2 tip) as [st2' E2]; try done.
  eexists _, st1', st2', _. do 3 (split; [done|]). split.
  - simpl. by rewrite !bool_decide_eq_false_2 by congruence.
  - by apply (offer_processed L L_ok cfg s network policy version).
Qed.


(** ** Examples *)

Module ProviderExample.
Import PullExample DatumLib CacheExample.
Definition cfg : CNightObservation.Config (DustKey:=Bytes) (H256:=Bytes) (Bytes:=Z) (Tx:=Z) (LedgerHash:=Z) (XE:=Z) (L:=Z) :=
  {| hash l := l; construct_event e := Some (ev_value e); construct_system_tx l := Some (len l);
     execute_system_transaction tx l := Ok (7, l + tx);
     process_tokens_w := process_tokens_weight {| db_read := 10; db_write := 20 |}; DbWeight := {| db_read := 10; db_write := 20 |} |}.
Definition s0 : CNightObservation.State Bytes Bytes Bytes Z Z :=
  {| params := {| MainChainMappingValidatorAddress := [1; 9]; MainChainAuthTokenAssetName := [65];
                  CNightIdentifier := (night, [78]); CardanoBlockWindowSize := 1000; CardanoTxCapacityPerBlock := 200 |};
     Mapping := ∅; UtxoOwners := ∅; NextCardanoPosition := example_start;
     InherentExecutedThisBlock := false; on_chain_storage_version := 1; ledger := 0; events := [] |}.
Definition client : Client Bytes Z Z :=
  {| parent_state := s0; has_api := Some true; api_version := Some 2; responds _ := true |}.
Definition warm_cache : Cache * Task := (cache (run PullExample.world warm), task (run PullExample.world warm)).

Lemma s0_observing : observing s0 0 [9].
Proof. split; [by split|done|simpl; lia|done]. Qed.
Lemma example_client_ok : client_at s0 2 client.
Proof. by split. Qed.
Lemma example_fits : call_fits PullExample.L [9] (block_query s0 2 [11]) example_tip.
Proof.
  split; try done; try (unfold i32_position; simpl; lia); try (simpl; lia); first [apply example_within_limit|right; left].
Qed.
Lemma db_ok_source : FollowsLedger (ca:=PullExample.ca) PullExample.L nat (src:=db_source PullExample.world) (db_ready (fun _ => 11)).
Proof. apply (db_follows_ledger PullExample.world (fun _ => 11) PullExample.L follows_ok). intros n. by eexists. Qed.
Lemma cache_ok_source : FollowsLedger PullExample.L (Cache * Task) (src:=cached_source PullExample.world CacheExample.cfg)
  (cache_ready PullExample.world (fun _ => 11) PullExample.L CacheExample.cfg 0 [9] 200 CacheExample.next).
Proof. apply (cache_follows_ledger PullExample.world (fun _ => 11) PullExample.L CacheExample.cfg 0 [9] 200 CacheExample.next setting_ok). Qed.
Lemma warm_ready : cache_ready PullExample.world (fun _ => 11) PullExample.L CacheExample.cfg 0 [9] 200 CacheExample.next
  warm_cache (block_query s0 2 [11]) example_tip.
Proof.
  split.
  - exists (reading (run PullExample.world warm)). unfold warm_cache, fst, snd.
    assert (forall x, Build_System (cache x) (task x) (reading x) = x) as -> by (by intros []). apply warm_reachable.
  - unfold warm_cache, snd. destruct warm_window as (_ & _ & E). rewrite E. exact I.
  - reflexivity.
  - reflexivity.
  - simpl. lia.
  - unfold example_tip, block_number. lia.
Qed.
End ProviderExample.

Import PullExample DatumLib ProviderExample.

(** The author asks the database, and the importer its cache. *)
Lemma proposed_observation_is_accepted_witness :
  exists p st1' st2' call,
    new_provider (src:=db_source PullExample.world) client [11] 0%nat = Ok (p, st1') /\
    new_provider (src:=cached_source PullExample.world CacheExample.cfg) client [11] warm_cache = Ok (p, st2') /\
    create_inherent (provide_inherent_data p) = Some call /\ check_inherent call (provide_inherent_data p) = Ok tt /\
    match process_tokens ProviderExample.cfg (Origin:=RawOrigin Z) NoneOrigin (p_utxos p) (p_next_cardano_position p) ProviderExample.s0 with
    | Ok _ => True | Err (ExecutorError _) => True | _ => False
    end.
Proof.
  apply (proposed_observation_is_accepted PullExample.L ProviderExample.cfg ProviderExample.s0 _ _ db_ok_source cache_ok_source client client 0%nat warm_cache
    example_tip 0 [9] 2 NoneOrigin).
  - apply PullExample.L_ok.
  - apply s0_observing.
  - reflexivity.
  - lia.
  - apply example_client_ok.
  - apply example_client_ok.
  - reflexivity.
  - done.
  - reflexivity.
  - apply example_fits.
  - unfold db_ready. simpl. lia.
  - apply warm_ready.
Defined.

(** The block that the author makes *)
Definition made : Provider * nat :=
  match new_provider (src:=db_source PullExample.world) client [11] 0%nat with
  | Ok x => x
  | _ => ({| p_utxos := []; p_next_cardano_position := example_start |}, 0%nat)
  end.
Definition imported : PostDispatchInfo * CNightObservation.State Bytes Bytes Bytes Z Z :=
  match process_tokens ProviderExample.cfg (Origin:=RawOrigin Z) NoneOrigin (p_utxos (fst made)) (p_next_cardano_position (fst made)) ProviderExample.s0 with
  | Ok x => x
  | _ => ({| actual_weight := None; pays_fee := PaysYes |}, ProviderExample.s0)
  end.


(** The block registers nothing for the creations, which came first, and one address. *)
Lemma imported_tables : size (Mapping (snd imported)) = 1%nat /\ NextCardanoPosition (snd imported) = increment example_tip.
Proof. vm_compute. split; reflexivity. Qed.
