(* ===== verification/GovernanceSource.v ===== *)
(** * The governance bodies on the main chain

    Models [src/primitives/mainchain-follower/src/data_source/federated_authority_observation.rs] and
    [src/primitives/mainchain-follower/src/db/queries/federated_authority_observation.rs], which find
    the latest output of each governance body, decode its datum and cache the result, and the
    inherent data provider [src/primitives/mainchain-follower/src/idp/federated_authority_observation.rs].
    The tables, the ledger and the growing database are those of the cNIGHT source.  It is proved that
    every answer is the one that the ledger determines, whatever the cache went through, and that the
    inherent of an author installs the members that the main chain names and passes the importers'
    check. *)

From stdpp Require Import sorting.
From S2P Require Import Prelude Frame Governance FederatedAuthorityObservation Plutus Domain PlutusData CNightPrimitives.
From S2P Require Import CNightWindow CNightQueries CNightLedger CNightPull.

(** Maps of the Cardano serialization library *)
Class PlutusMaps {csl : CardanoSerializationLib} := {
  PlutusMap : Type;
  as_map : PlutusData -> option PlutusMap;
  map_keys : PlutusMap -> list PlutusData;
  map_get : PlutusMap -> PlutusData -> option (list PlutusData) (* the values under a key *)
}.

(** The messages of [decode_governance_datum] *)
Inductive DatumError :=
| NotAList | TooFewElements (n : Z) | DataNotAList | DataTooFewElements (n : Z)
| RoundNotU64 | RoundNotU8 | MembersNotAMap | MainchainMemberLength (n : Z) | Sr25519KeyLength (n : Z).

Notation AuthoritiesData := (FederatedAuthorityObservation.AuthoritiesData (Key:=Bytes) (Member:=Bytes)).
Notation FederatedAuthorityData := (FederatedAuthorityObservation.FederatedAuthorityData (Key:=Bytes) (Member:=Bytes) (McBlockHash:=Bytes)).

(** [AuthBodyConfig], without the members of genesis, and [FederatedAuthorityObservationConfig] *)
Record AuthBodyConfig := { address : Bytes; policy_id : Bytes }.
Record FederatedAuthorityObservationConfig := { council_body : AuthBodyConfig; technical_committee_body : AuthBodyConfig }.

(** [FederatedAuthorityCacheKey]: the block hash, and address and policy of each body *)
Definition CacheKey : Type := Bytes * Bytes * Bytes * Bytes * Bytes.
Definition cache_key (config : FederatedAuthorityObservationConfig) (mc_block_hash : Bytes) : CacheKey :=
  (mc_block_hash, address (council_body config), policy_id (council_body config),
   address (technical_committee_body config), policy_id (technical_committee_body config)).

Section Source.
Context {pg : Postgres} {csl : CardanoSerializationLib} {maps : PlutusMaps} {lru : LruCache}.

(** ** Datums *)

(** One key of the map of members *)
Definition decode_member (members_map : PlutusMap) (key : PlutusData) : outcome DatumError (option (Bytes * Bytes)) :=
  match as_bytes key with
  | None => Ok None
  | Some key_bytes =>
      if negb (len key_bytes =? 32) then Err (MainchainMemberLength (len key_bytes))
      else
        let mainchain_member := take 28 (drop 4 key_bytes) in
        match map_get members_map key with
        | None => Ok None
        | Some values =>
            match head values with
            | None => Ok None
            | Some value_data =>
                match as_bytes value_data with
                | None => Ok None
                | Some sr25519_key =>
                    if negb (len sr25519_key =? 32) then Err (Sr25519KeyLength (len sr25519_key))
                    else Ok (Some (sr25519_key, mainchain_member))
                end
            end
        end
  end.

Definition decode_governance_datum (datum : PlutusData) : outcome DatumError AuthoritiesData :=
  let! versioned_list := some_or (as_list datum) NotAList in
  match versioned_list with
  | data_field :: round_field :: _ =>
      let! data_list := some_or (as_list data_field) DataNotAList in
      match data_list with
      | _ :: members_data :: _ =>
          let! round_u64 := some_or (as_integer_u64 round_field) RoundNotU64 in
          let! round := some_or (try_into_u 8 round_u64) RoundNotU8 in
          let! members_map := some_or (as_map members_data) MembersNotAMap in
          let! members := collect (decode_member members_map) (map_keys members_map) in
          Ok {| authorities := members; round := round |}
      | _ => Err (DataTooFewElements (len data_list))
      end
  | _ => Err (TooFewElements (len versioned_list))
  end.

(** ** The query *)

(** [JOIN multi_asset ma ON ma.id = ma_tx_out.ident] *)
Definition assets (d : Db) : list (MultiAsset * MaTxOut) :=
  m ← ma_tx_out d; a ← filter (fun a => ma_id a = m_ident m) (multi_asset d); [(a, m)].
Definition body_rows (script_address policy : Bytes) (block_number : Z) (d : Db) : list (Tx * TxOut * DatumRow) :=
  x ← filter (fun x => bool_decide (o_address (m_tx_out (snd x)) = script_address)
                       && bool_decide (ma_policy (fst x) = policy)
                       && match b_block_no (t_block (o_tx (m_tx_out (snd x)))) with
                          | Some n => n <=? as_i32 block_number
                          | None => false
                          end) (assets d);
  dt ← join_datum d (m_tx_out (snd x));
  [(o_tx (m_tx_out (snd x)), m_tx_out (snd x), dt)].
(** [ORDER BY block.block_no DESC, tx.block_index DESC LIMIT 1] *)
Definition get_governance_body_utxo (script_address policy : Bytes) (block_number : Z) (d : Db)
    : outcome SourceError (option DatumUtxoRow) :=
  match first_by (fun x => [- default 0 (b_block_no (t_block (fst (fst x)))); - t_block_index (fst (fst x))])
          (body_rows script_address policy block_number d) with
  | None => Ok None
  | Some x => let! row := some_or (datum_row x) DBQueryError in Ok (Some row)
  end.

(** ** The source *)

(** The cache, and the time of the next query *)
Record Source := { f_cache : Lru CacheKey FederatedAuthorityData; f_ticks : nat }.
Notation Src := (M Source SourceError).
Definition new_source (cache_size : Z) (n : nat) : Source := {| f_cache := lru_new (Z.max cache_size 1); f_ticks := n |}.

Context (world : nat -> option Db).
Definition ask {A} (f : Db -> outcome SourceError A) : Src A := fun s =>
  match query world f (f_ticks s) with
  | Ok (a, n) => Ok (a, {| f_cache := f_cache s; f_ticks := n |})
  | Err e => Err e
  | Panic => Panic
  end.
Definition no_authorities : AuthoritiesData := {| authorities := []; round := 0 |}.
(** The authorities in the output of a body; the source has this once for each body. *)
Definition authorities_of (utxo : option PlutusData) : AuthoritiesData :=
  match utxo with
  | Some datum => match decode_governance_datum datum with Ok a => a | _ => no_authorities end
  | None => no_authorities
  end.

Definition get_federated_authority_data (config : FederatedAuthorityObservationConfig) (mc_hash : Bytes) : Src FederatedAuthorityData :=
  let key := cache_key config mc_hash in
  let* s := get in
  let '(cached, c) := lru_get key (f_cache s) in
  do* put {| f_cache := c; f_ticks := f_ticks s |} in
  match cached with
  | Some v => ret v
  | None =>
      let* block := ask (get_block_by_hash mc_hash) in
      let* block := ok_or block (MissingBlockReference mc_hash) in
      let* council_utxo := ask (get_governance_body_utxo (address (council_body config)) (policy_id (council_body config)) (block_number block)) in
      let* technical_committee_utxo :=
        ask (get_governance_body_utxo (address (technical_committee_body config)) (policy_id (technical_committee_body config)) (block_number block)) in
      let result := {| council_authorities := authorities_of (dr_datum <$> council_utxo);
                       technical_committee_authorities := authorities_of (dr_datum <$> technical_committee_utxo);
                       mc_block_hash := mc_hash |} in
      do* modify (fun s => {| f_cache := lru_put key result (f_cache s); f_ticks := f_ticks s |}) in
      ret result
  end.

(** ** The provider *)

Inductive ProviderError := SourceFailed (e : SourceError) | ApiError | NotUtf8.
Inductive ApiMethod :=
| get_council_address | get_council_policy_id | get_technical_committee_address | get_technical_committee_policy_id.

Section Provider.
Context {AccountId H : Type}.
Notation State := (FederatedAuthorityObservation.State AccountId Bytes Bytes Bytes H).

(** The client at the parent of a block: the state of the pallet there, and whether it can answer *)
Record Client := { parent_state : State; responds : ApiMethod -> bool }.
Definition api_call {A} (c : Client) (m : ApiMethod) (f : State -> A) : outcome ProviderError A :=
  if responds c m then Ok (f (parent_state c)) else Err ApiError.

Definition config_of (c : Client) : outcome ProviderError FederatedAuthorityObservationConfig :=
  let! council_address := api_call c get_council_address MainChainCouncilAddress in
  let! council_address := from_utf8 council_address NotUtf8 in
  let! council_policy_id := api_call c get_council_policy_id MainChainCouncilPolicyId in
  let! technical_committee_address := api_call c get_technical_committee_address MainChainTechnicalCommitteeAddress in
  let! technical_committee_address := from_utf8 technical_committee_address NotUtf8 in
  let! technical_committee_policy_id := api_call c get_technical_committee_policy_id MainChainTechnicalCommitteePolicyId in
  Ok {| council_body := {| address := council_address; policy_id := council_policy_id |};
        technical_committee_body := {| address := technical_committee_address; policy_id := technical_committee_policy_id |} |}.

Definition new_provider (c : Client) (mc_hash : Bytes) : M Source ProviderError FederatedAuthorityData := fun s =>
  let! config := config_of c in
  match get_federated_authority_data config mc_hash s with
  | Ok x => Ok x
  | Err e => Err (SourceFailed e)
  | Panic => Panic
  end.
End Provider.
End Source.

(** ** The bodies of the ledger *)

Section Bodies.
Context {csl : CardanoSerializationLib}.

(** The outputs at an address with a token of a policy, and a datum that is known *)
Definition body_facts (script_address policy : Bytes) (L : Ledger) : list (Fact PlutusData) :=
  omap (fun k => with_datum (lo_tx (snd (snd k))) (snd (snd k)))
    (filter (fun k => bool_decide (lo_address (snd (snd k)) = script_address) && bool_decide (fst (fst k) = policy)) (l_tokens L)).
Definition fact_lt (f g : Fact PlutusData) : bool :=
  match lt_pos (f_tx f), lt_pos (f_tx g) with Some p, Some q => position_lt p q | _, _ => false end.
Definition latest (l : list (Fact PlutusData)) : option (Fact PlutusData) :=
  foldr (fun x best => match best with None => Some x | Some y => Some (if fact_lt y x then x else y) end) None l.
(** The datum of a body after block [h] *)
Definition body_at (script_address policy : Bytes) (L : Ledger) (h : Z) : option PlutusData :=
  f_payload <$> latest (filter (fun f => known h (f_tx f)) (body_facts script_address policy L)).

(** A transaction puts one datum into the outputs of a body. *)
Definition bodies_ok (L : Ledger) : Prop := forall script_address policy f g p q,
  f ∈ body_facts script_address policy L -> g ∈ body_facts script_address policy L ->
  lt_pos (f_tx f) = Some p -> lt_pos (f_tx g) = Some q -> position_lt p q = false -> position_lt q p = false ->
  f_payload f = f_payload g.

Definition view_asset (d : Db) (x : MultiAsset * MaTxOut) : Bytes * Bytes * (Z * LedgerOut) :=
  (ma_policy (fst x), ma_name (fst x), (m_quantity (snd x), view_out d (m_tx_out (snd x)))).
(** The database has all assets of the ledger up to block [h]. *)
Definition rep_assets (h : Z) (L : Ledger) (d : Db) : Prop :=
  filter (fun k => known h (lo_tx (snd (snd k)))) (view_asset d <$> assets d)
  ≡ₚ filter (fun k => known h (lo_tx (snd (snd k)))) (l_tokens L).

Lemma latest_spec l f : latest l = Some f -> (forall x, x ∈ l -> is_Some (lt_pos (f_tx x))) ->
  f ∈ l /\ forall g, g ∈ l -> fact_lt f g = false.
Proof.
  revert f. induction l as [|x l IH]; intros f; [done|]. intros Hl Hpos.
  change (match latest l with None => Some x | Some y => Some (if fact_lt y x then x else y) end = Some f) in Hl.
  assert (forall y, y ∈ l -> is_Some (lt_pos (f_tx y))) as Hpos' by (intros y Hy; apply Hpos; by right).
  destruct (Hpos x ltac:(left)) as [px Hx]. destruct (latest l) as [y|] eqn:El.
  - destruct (IH y eq_refl Hpos') as [Hy Hmax]. destruct (Hpos' y Hy) as [py Hpy].
    destruct (fact_lt y x) eqn:E; injection Hl as <-.
    + split; [left|]. intros g [->|Hg]%elem_of_cons.
      * unfold fact_lt. rewrite Hx. positions.
      * destruct (Hpos' g Hg) as [pg Hpg]. specialize (Hmax g Hg). unfold fact_lt in *. rewrite Hx, Hpy, Hpg in *. positions.
    + split; [by right|]. intros g [->|Hg]%elem_of_cons; [done|by apply Hmax].
  - injection Hl as <-. destruct l as [|y l].
    + split; [left|]. intros g [->|?%elem_of_nil]%elem_of_cons; [|done]. unfold fact_lt. rewrite Hx. positions.
    + exfalso. change (match latest l with None => Some y | Some z => Some (if fact_lt z y then y else z) end = None) in El.
      by destruct (latest l).
Qed.
Lemma latest_None l : latest l = None -> l = [].
Proof.
  destruct l as [|x l]; [done|]. change (match latest l with None => Some x | Some y => Some (if fact_lt y x then x else y) end = None -> x :: l = []).
  by destruct (latest l).
Qed.
End Bodies.

Section Refine.
Context {pg : Postgres} {pg_laws : PostgresLaws} {csl : CardanoSerializationLib} {maps : PlutusMaps}.

Lemma first_by_least {A} (key : A -> list Z) l x : first_by key l = Some x -> forall y, y ∈ l -> bytes_cmp (key x) (key y) <> Gt.
Proof.
  unfold first_by. intros Hx y Hy. pose proof (order_by_sorted key l) as Hs. rewrite <- (order_by_perm key l) in Hy.
  destruct (order_by key l) as [|z l']; [done|]. injection Hx as ->. apply elem_of_cons in Hy as [->|Hy].
  - induction (key x) as [|a k IH]; [done|]. simpl. by rewrite Z.compare_refl.
  - apply StronglySorted_inv in Hs as [_ Hs]. rewrite Forall_forall in Hs. by apply Hs.
Qed.

Lemma body_rows_facts script_address policy n d h L : db_ok d -> rep_assets h L d -> 0 <= n < 2 ^ 31 -> n <= h ->
  (forall r, r ∈ body_rows script_address policy n d -> is_Some (datum_row r)) /\
  dfact d <$> omap datum_row (body_rows script_address policy n d)
  ≡ₚ filter (fun f => known n (f_tx f)) (body_facts script_address policy L).
Proof.
  intros Hok Hrep Hn Hh. unfold body_rows.
  edestruct (datum_rows d Hok (filter (fun x => bool_decide (o_address (m_tx_out (snd x)) = script_address)
    && bool_decide (ma_policy (fst x) = policy)
    && match b_block_no (t_block (o_tx (m_tx_out (snd x)))) with Some b => b <=? as_i32 n | None => false end) (assets d))
    (fun x => o_tx (m_tx_out (snd x))) (fun x => m_tx_out (snd x))) as [H1 H2]. split; [exact H1|]. rewrite H2. clear H1 H2.
  set (P := fun k : Bytes * Bytes * (Z * LedgerOut) => known n (lo_tx (snd (snd k))) &&
    (bool_decide (lo_address (snd (snd k)) = script_address) && bool_decide (fst (fst k) = policy))).
  assert (filter (fun k => P k) (view_asset d <$> assets d) ≡ₚ filter (fun k => P k) (l_tokens L)) as Hp.
  { eapply perm_restrict; [exact Hrep|]. intros k. unfold P. rewrite !Is_true_true, andb_true_iff. intros [Hk _].
    unfold known in *. destruct (lt_pos _); [|done]. rewrite Z.leb_le in *. lia. }
  unfold body_facts. rewrite (filter_omap _ _ (fun k : Bytes * Bytes * (Z * LedgerOut) => Is_true (known n (lo_tx (snd (snd k)))))).
  2: { intros k f. unfold with_datum. destruct (lo_datum _); [|done]. by intros [= <-]. }
  rewrite list_filter_filter.
  rewrite (list_filter_iff _ (fun k => Is_true (P k))) by (intros k; unfold P; rewrite !Is_true_true, !andb_true_iff; tauto).
  rewrite <- Hp, filter_fmap_comm, omap_fmap_comp. apply reflexive_eq. f_equal. apply list_filter_iff. intros [a m]. unfold P. simpl.
  rewrite !Is_true_true, !andb_true_iff. unfold known. simpl. rewrite as_i32_small by done.
  destruct (b_block_no _); simpl; tauto.
Qed.

Lemma body_query script_address policy n d h L : db_ok d -> rep_assets h L d -> bodies_ok L -> 0 <= n < 2 ^ 31 -> n <= h ->
  exists r, get_governance_body_utxo script_address policy n d = Ok r /\ dr_datum <$> r = body_at script_address policy L n.
Proof.
  intros Hok Hrep Hb Hn Hh. destruct (body_rows_facts script_address policy n d h L Hok Hrep Hn Hh) as [Hdec Hp].
  unfold get_governance_body_utxo, body_at. set (fs := filter _ (body_facts _ _ _)) in *.
  assert (forall f, f ∈ fs -> exists p, lt_pos (f_tx f) = Some p /\ f ∈ body_facts script_address policy L) as Hpos.
  { intros f [Hk Hf]%list_elem_of_filter. unfold known in Hk. destruct (lt_pos (f_tx f)); [by eauto|done]. }
  destruct (first_by _ _) as [x|] eqn:E.
  - destruct (Hdec x (first_by_Some _ _ _ E)) as [row Hrow]. rewrite Hrow. exists (Some row). split; [done|]. simpl.
    assert (dfact d row ∈ fs) as Hin.
    { rewrite <- Hp. apply list_elem_of_fmap. exists row. split; [done|]. apply list_elem_of_omap. eauto using first_by_Some. }
    destruct (latest fs) as [f|] eqn:El; [|apply latest_None in El; rewrite El in Hin; by apply elem_of_nil in Hin].
    destruct (latest_spec fs f El) as [Hf Hmax]; [intros y Hy; destruct (Hpos y Hy) as (p & Hy' & _); by eexists|].
    pose proof Hf as Hf'. rewrite <- Hp in Hf'. apply list_elem_of_fmap in Hf' as (row' & -> & (y & Hy & Hrow')%list_elem_of_omap).
    pose proof (first_by_least _ _ _ E y Hy) as Hcmp. specialize (Hmax _ Hin).
    destruct (Hpos _ Hin) as (p & Hlp & Hfp), (Hpos _ Hf) as (q & Hlq & Hfq). simpl. f_equal.
    apply (Hb script_address policy (dfact d row) (dfact d row') p q Hfp Hfq Hlp Hlq).
    + unfold datum_row in Hrow, Hrow'. destruct (dt_value (snd x)); [|done]. destruct (dt_value (snd y)); [|done].
      injection Hrow as <-. injection Hrow' as <-. simpl in Hlp, Hlq.
      cbn beta in Hcmp.
      destruct (b_block_no (t_block (fst (fst x)))) as [bx|]; [|done]. destruct (b_block_no (t_block (fst (fst y)))) as [by_|]; [|done].
      simpl in Hlp, Hlq, Hcmp. injection Hlp as <-. injection Hlq as <-. positions.
      destruct (Z.compare_spec (- bx) (- by_)), (Z.compare_spec (- t_block_index (fst (fst x))) (- t_block_index (fst (fst y)))); simpl in Hcmp; try (by destruct Hcmp); lia.
    + unfold fact_lt in Hmax. by rewrite Hlp, Hlq in Hmax.
  - exists None. split; [done|]. apply first_by_None in E. rewrite E in Hp. simpl in Hp. apply Permutation_nil_l in Hp.
    by rewrite <- Hp.
Qed.
End Refine.

(** ** The source follows the ledger *)

(** What the ledger has of the bodies at a block *)
Definition ledger_bodies {csl : CardanoSerializationLib} {maps : PlutusMaps} (L : Ledger)
    (config : FederatedAuthorityObservationConfig) (tip : CardanoPosition) : FederatedAuthorityData :=
  {| council_authorities := authorities_of (body_at (address (council_body config)) (policy_id (council_body config)) L (block_number tip));
     technical_committee_authorities :=
       authorities_of (body_at (address (technical_committee_body config)) (policy_id (technical_committee_body config)) L (block_number tip));
     mc_block_hash := block_hash tip |}.

Section Follows.
Context {pg : Postgres} {pg_laws : PostgresLaws} {csl : CardanoSerializationLib} {maps : PlutusMaps}.
Context {lru : LruCache} {lru_laws : LruCacheLaws}.
Context (world : nat -> option Db) (height : nat -> Z) (L : Ledger).

(** The database follows the ledger, with all its assets, and always answers. *)
Record governed : Prop := {
  gv_follows : follows world height L;
  gv_assets n d : world n = Some d -> rep_assets (height n) L d;
  gv_available n : is_Some (world n);
  gv_bodies : bodies_ok L
}.
Context (gv : governed).

(** The cache holds what the ledger has. *)
Definition cache_ok (s : Source) : Prop := forall k v, stored k v (f_cache s) ->
  exists config tip, tip ∈ l_blocks L /\ k = cache_key config (block_hash tip) /\ v = ledger_bodies L config tip.

Lemma cache_ok_new n t : cache_ok (new_source n t).
Proof. intros k v Hs. by apply stored_new in Hs. Qed.

Lemma ask_Ok {A} (f : Db -> outcome SourceError A) s d a : world (f_ticks s) = Some d -> f d = Ok a ->
  ask world f s = Ok (a, {| f_cache := f_cache s; f_ticks := S (f_ticks s) |}).
Proof. intros Hd Hf. unfold ask. by rewrite (query_Ok world f _ d a Hd Hf). Qed.

Lemma ask_body script_address policy n s : 0 <= n < 2 ^ 31 -> n <= height (f_ticks s) ->
  exists r, ask world (get_governance_body_utxo script_address policy n) s = Ok (r, {| f_cache := f_cache s; f_ticks := S (f_ticks s) |}) /\
    dr_datum <$> r = body_at script_address policy L n.
Proof.
  intros Hn Hh. destruct (gv_available gv (f_ticks s)) as [d Hd].
  destruct (body_query script_address policy n d _ L (fw_ok _ _ _ (gv_follows gv) _ d Hd) (gv_assets gv _ d Hd) (gv_bodies gv) Hn Hh)
    as (r & Hr & Hb). exists r. split; [by apply (ask_Ok _ s d)|done].
Qed.

Lemma get_data_ok config tip s : cache_ok s -> tip ∈ l_blocks L -> 0 <= block_number tip < 2 ^ 31 -> block_number tip <= height (f_ticks s) ->
  exists s', get_federated_authority_data world config (block_hash tip) s = Ok (ledger_bodies L config tip, s') /\
    cache_ok s' /\ (f_ticks s <= f_ticks s')%nat.
Proof.
  intros Hc Ht Hn Hh. unfold get_federated_authority_data. unfold bind at 1, get.
  destruct (lru_get (cache_key config (block_hash tip)) (f_cache s)) as [cached c] eqn:Eg. unfold bind at 1, put.
  assert (forall k v, stored k v c -> stored k v (f_cache s)) as Hsub.
  { intros k v Hk. apply (stored_after_get k (cache_key config (block_hash tip))). by rewrite Eg. }
  destruct cached as [v|].
  - exists {| f_cache := c; f_ticks := f_ticks s |}. split; [|split; [intros k v' Hk; by apply Hc, Hsub|simpl; done]]. unfold ret. do 2 f_equal.
    assert (stored (cache_key config (block_hash tip)) v (f_cache s)) as Hs by (apply stored_get; by rewrite Eg).
    destruct (Hc _ _ Hs) as (config' & tip' & Ht' & Hk & ->). unfold cache_key in Hk. destruct config as [[] []], config' as [[] []].
    simpl in Hk. injection Hk as Hh' -> -> -> ->. by rewrite (lk_blocks L (fw_ledger _ _ _ (gv_follows gv)) tip tip' Ht Ht' Hh').
  - set (s1 := {| f_cache := c; f_ticks := f_ticks s |}).
    assert (forall n, block_number tip <= height (n + f_ticks s)) as Hh'.
    { intros n. pose proof (fw_height _ _ _ (gv_follows gv) (f_ticks s) (n + f_ticks s)). lia. }
    destruct (gv_available gv (f_ticks s)) as [d Hd].
    rewrite (bind_Ok _ _ _ _ _ (ask_Ok (get_block_by_hash (block_hash tip)) s1 d (Some tip) Hd
      (get_block_by_hash_Ok world height L (gv_follows gv) _ d tip Hd Ht Hh))).
    rewrite (bind_Ok _ _ _ tip _) by done. set (s2 := Build_Source _ _).
    destruct (ask_body (address (council_body config)) (policy_id (council_body config)) (block_number tip) s2) as (r1 & E1 & H1);
      [done|apply (Hh' 1%nat)|]. rewrite (bind_Ok _ _ _ _ _ E1). set (s3 := Build_Source _ _).
    destruct (ask_body (address (technical_committee_body config)) (policy_id (technical_committee_body config)) (block_number tip) s3)
      as (r2 & E2 & H2); [done|apply (Hh' 2%nat)|]. rewrite (bind_Ok _ _ _ _ _ E2), H1, H2.
    eexists. split; [done|]. split.
    + intros k v [[= -> ->]|Hk]%stored_put; [by eauto|by apply Hc, Hsub].
    + simpl. lia.
Qed.

(** A sequence of calls *)
Fixpoint calls (l : list (FederatedAuthorityObservationConfig * Bytes)) : M Source SourceError (list FederatedAuthorityData) :=
  match l with
  | [] => ret []
  | (config, mc_hash) :: l =>
      let* data := get_federated_authority_data world config mc_hash in
      let* rest := calls l in
      ret (data :: rest)
  end.

Lemma calls_ok l s : cache_ok s ->
  Forall (fun x => snd x ∈ l_blocks L /\ 0 <= block_number (snd x) < 2 ^ 31 /\ block_number (snd x) <= height (f_ticks s)) l ->
  exists s', calls ((fun x => (fst x, block_hash (snd x))) <$> l) s = Ok ((fun x => ledger_bodies L (fst x) (snd x)) <$> l, s').
Proof.
  revert s. induction l as [|[config tip] l IH]; intros s Hc Hl; [by eexists|]. apply Forall_cons in Hl as [(Ht & Hn & Hh) Hl].
  simpl in Ht, Hn, Hh. destruct (get_data_ok config tip s Hc Ht Hn Hh) as (s1 & E & Hc1 & Hticks).
  destruct (IH s1 Hc1) as [s2 E2].
  { eapply Forall_impl; [exact Hl|]. intros x (H1 & H2 & H3). split; [done|]. split; [done|].
    pose proof (fw_height _ _ _ (gv_follows gv) _ _ Hticks). lia. }
  exists s2. rewrite fmap_cons. simpl. rewrite (bind_Ok _ _ _ _ _ E), (bind_Ok _ _ _ _ _ E2). done.
Qed.
End Follows.

(** The source returns the bodies of the ledger.  Whatever sequence of calls filled the cache, and
    while the database grows between the queries, every call for a block of the main chain returns
    the authorities in the latest outputs of the two bodies up to that block. *)
Theorem bodies_are_the_ledgers {pg : Postgres} {pg_laws : PostgresLaws} {csl : CardanoSerializationLib} {maps : PlutusMaps}
    {lru : LruCache} {lru_laws : LruCacheLaws} (world : nat -> option Db) (height : nat -> Z) (L : Ledger) (cache_size : Z) (n : nat)
    (l : list (FederatedAuthorityObservationConfig * CardanoPosition)) :
  governed world height L ->
  Forall (fun x => snd x ∈ l_blocks L /\ 0 <= block_number (snd x) < 2 ^ 31 /\ block_number (snd x) <= height n) l ->
  exists s, calls world ((fun x => (fst x, block_hash (snd x))) <$> l) (new_source cache_size n)
    = Ok ((fun x => ledger_bodies L (fst x) (snd x)) <$> l, s).
Proof. intros gv Hl. apply (calls_ok world height L gv l); [apply cache_ok_new|done]. Qed.

(** ** From the ledger to the pallet *)

Section Composition.
Context {AccountId Origin H : Type} `{Countable AccountId} `{!Origins Origin AccountId}.
Context (leA : AccountId -> AccountId -> Prop) `{!RelDecision leA} `{!Membership H AccountId} `{!TotalOrder leA}.
Context (cfg : FederatedAuthorityObservation.Config) (decode_account : Bytes -> option AccountId).
Context {council_laws : MembershipLaws H AccountId leA (CouncilMaxMembers cfg)}.
Context {tc_laws : MembershipLaws H AccountId leA (TechnicalCommitteeMaxMembers cfg)}.
Notation State := (FederatedAuthorityObservation.State AccountId Bytes Bytes Bytes H).

Definition observed_config (s : State) : FederatedAuthorityObservationConfig :=
  {| council_body := {| address := MainChainCouncilAddress s; policy_id := MainChainCouncilPolicyId s |};
     technical_committee_body := {| address := MainChainTechnicalCommitteeAddress s; policy_id := MainChainTechnicalCommitteePolicyId s |} |}.

(** The client answers with the state [s], whose addresses are strings. *)
Record client_at (s : State) (c : Client (AccountId:=AccountId) (H:=H)) : Prop := {
  cl_state : parent_state c = s;
  cl_responds m : responds c m = true;
  cl_council : is_utf8 (MainChainCouncilAddress s) = true;
  cl_technical_committee : is_utf8 (MainChainTechnicalCommitteeAddress s) = true
}.

Lemma config_of_ok s c : client_at s c -> config_of c = Ok (observed_config s).
Proof.
  intros [<- Hr H1 H2]. unfold config_of, api_call, from_utf8. rewrite !Hr. simpl. rewrite H1. simpl. by rewrite H2.
Qed.

Lemma provider_ok {pg : Postgres} {pg_laws : PostgresLaws} {csl : CardanoSerializationLib} {maps : PlutusMaps}
    {lru : LruCache} {lru_laws : LruCacheLaws} world height L s c st tip :
  governed world height L -> client_at s c -> cache_ok L st -> tip ∈ l_blocks L -> 0 <= block_number tip < 2 ^ 31 ->
  block_number tip <= height (f_ticks st) ->
  exists st', new_provider world c (block_hash tip) st = Ok (ledger_bodies L (observed_config s) tip, st').
Proof.
  intros gv Hc Hs Ht Hn Hh. unfold new_provider. rewrite (config_of_ok s c Hc). simpl.
  destruct (get_data_ok world height L gv (observed_config s) tip st Hs Ht Hn Hh) as (st' & -> & _). by eexists.
Qed.

(** The root call that changes the address of the council accepts bytes that are not a string; they
    leave every node without inherent data. *)
Lemma bytes_council_stops_blocks {pg : Postgres} {csl : CardanoSerializationLib} {maps : PlutusMaps} {lru : LruCache}
    world (o : Origin) (a : Bytes) (s s' : State) (c : Client) mc_hash st :
  set_council_address o a s = Ok (tt, s') -> is_utf8 a = false ->
  parent_state c = s' -> (forall m, responds c m = true) -> new_provider world c mc_hash st = Err NotUtf8.
Proof.
  unfold set_council_address. unfold_m. destruct (ensure_root o); [|done]. simpl. intros [= <-] Hu Hs Hr.
  unfold new_provider, config_of, api_call, from_utf8. rewrite !Hr, Hs. simpl. by rewrite Hu.
Qed.

(** A created inherent installs the members in its data. *)
Lemma created_inherent_installs (data : FederatedAuthorityData) call (o : Origin) (s : State) :
  create_inherent cfg decode_account (Ok (Some data)) = Some call -> ensure_none o = Some tt -> InherentExecutedThisBlock s = false ->
  exists ca ta, call = Call_reset_members ca ta /\ check_inherent cfg decode_account call (Ok (Some data)) = Ok tt /\
    decode_auth_members decode_account (CouncilMaxMembers cfg) (authorities (council_authorities data)) = Ok ca /\
    decode_auth_members decode_account (TechnicalCommitteeMaxMembers cfg) (authorities (technical_committee_authorities data)) = Ok ta /\
    exists post s', reset_members leA cfg o ca ta s = Ok (post, s') /\
      Permutation (zip (sorted_members (council s')) (CouncilMainchainMembers s')) ca /\
      Permutation (zip (sorted_members (technical_committee s')) (TechnicalCommitteeMainchainMembers s')) ta.
Proof.
  intros (d & ca & ta & [= <-] & -> & Hca & Hta & Hce & Hte & _ & _)%create_inherent_inv Ho Hx.
  exists ca, ta. split; [done|]. split.
  { unfold check_inherent. simpl. rewrite Hca, Hta. by rewrite !bool_decide_false by naive_solver. }
  split; [done|]. split; [done|]. apply decode_auth_members_Ok in Hca, Hta.
  eexists _, _. split; [by apply reset_members_nonempty|]. simpl.
  rewrite (new_handler_members leA (CouncilMaxMembers cfg)) by done.
  rewrite (new_handler_members leA (TechnicalCommitteeMaxMembers cfg)) by done.
  rewrite !zip_pairs. split; apply sort_pairs_perm.
Qed.
End Composition.

(** C16: The governance bodies are those of the main chain.  An author and an importer, with their own
    databases and caches, get the same data for a block, the one that the ledger determines.  If the
    author creates an inherent from it, the importer's check accepts it, and it gives the council and
    the technical committee exactly the members in the data, each with its main chain identifier. *)
Theorem governance_follows_ledger {pg : Postgres} {pg_laws : PostgresLaws} {csl : CardanoSerializationLib} {maps : PlutusMaps}
    {lru : LruCache} {lru_laws : LruCacheLaws} {AccountId Origin H : Type} `{Countable AccountId} `{!Origins Origin AccountId}
    (leA : AccountId -> AccountId -> Prop) `{!RelDecision leA} `{!Membership H AccountId} `{!TotalOrder leA}
    (cfg : FederatedAuthorityObservation.Config) (decode_account : Bytes -> option AccountId)
    {council_laws : MembershipLaws H AccountId leA (CouncilMaxMembers cfg)}
    {tc_laws : MembershipLaws H AccountId leA (TechnicalCommitteeMaxMembers cfg)}
    (L : Ledger) world1 height1 world2 height2 (s : FederatedAuthorityObservation.State AccountId Bytes Bytes Bytes H)
    (c1 c2 : Client) (st1 st2 : Source) (tip : CardanoPosition) (o : Origin) :
  governed world1 height1 L -> governed world2 height2 L -> client_at s c1 -> client_at s c2 -> cache_ok L st1 -> cache_ok L st2 ->
  tip ∈ l_blocks L -> 0 <= block_number tip < 2 ^ 31 -> block_number tip <= height1 (f_ticks st1) -> block_number tip <= height2 (f_ticks st2) ->
  ensure_none o = Some tt -> InherentExecutedThisBlock s = false ->
  let data := ledger_bodies L (observed_config s) tip in
  (exists st1' st2', new_provider world1 c1 (block_hash tip) st1 = Ok (data, st1') /\ new_provider world2 c2 (block_hash tip) st2 = Ok (data, st2')) /\
  forall call, create_inherent cfg decode_account (Ok (Some data)) = Some call ->
    exists ca ta, call = Call_reset_members ca ta /\ check_inherent cfg decode_account call (Ok (Some data)) = Ok tt /\
      decode_auth_members decode_account (CouncilMaxMembers cfg) (authorities (council_authorities data)) = Ok ca /\
      decode_auth_members decode_account (TechnicalCommitteeMaxMembers cfg) (authorities (technical_committee_authorities data)) = Ok ta /\
      exists post s', reset_members leA cfg o ca ta s = Ok (post, s') /\
        Permutation (zip (sorted_members (council s')) (CouncilMainchainMembers s')) ca /\
        Permutation (zip (sorted_members (technical_committee s')) (TechnicalCommitteeMainchainMembers s')) ta.
Proof.
  intros g1 g2 Hc1 Hc2 Hs1 Hs2 Ht Hn Hh1 Hh2 Ho Hx data. split.
  - destruct (provider_ok world1 height1 L s c1 st1 tip) as [st1' E1]; [done..|].
    destruct (provider_ok world2 height2 L s c2 st2 tip) as [st2' E2]; [done..|]. eauto.
  - intros call Hcall. by apply created_inherent_installs.
Qed.

(** ** Examples *)

Module GovernanceExample.
Import DatumLib PullExample ListLru FederatedAuthorityObservation.Example.
(** Maps with bytes as keys *)
#[export] Instance maps : PlutusMaps := {
  PlutusMap := list (Datum * Datum);
  as_map d := match d with MapDatum m => Some m | _ => None end;
  map_keys m := fst <$> m;
  map_get m k := Some (snd <$> filter (fun e => as_bytestring (fst e) = as_bytestring k) m) }.

Definition body (keys : list Z) : Datum :=
  ListDatum [ListDatum [IntegerDatum 1; MapDatum ((fun k => (ByteStringDatum (replicate 32 k), ByteStringDatum (replicate 32 (k + 100)))) <$> keys)];
             IntegerDatum 0].
(** Block 10 has the first council, and block 11 the second and the technical committee. *)
Definition council_1 := {| o_id := 1; o_tx := tx_a; o_index := 0; o_address := [67]; o_data_hash := Some [1] |}.
Definition council_2 := {| o_id := 2; o_tx := tx_b; o_index := 0; o_address := [67]; o_data_hash := Some [2] |}.
Definition tc_1 := {| o_id := 3; o_tx := tx_b; o_index := 1; o_address := [84]; o_data_hash := Some [3] |}.
Definition gd : Db := {|
  block := [block_10; block_11]; tx := [tx_a; tx_b]; tx_out := [council_1; council_2; tc_1]; tx_in := [];
  ma_tx_out := [{| m_id := 1; m_ident := 1; m_quantity := 1; m_tx_out := council_1 |};
                {| m_id := 2; m_ident := 1; m_quantity := 1; m_tx_out := council_2 |};
                {| m_id := 3; m_ident := 2; m_quantity := 1; m_tx_out := tc_1 |}];
  datum_table := [{| dt_hash := [1]; dt_value := Some (body [1] : PlutusData) |}; {| dt_hash := [2]; dt_value := Some (body [2; 1] : PlutusData) |};
                  {| dt_hash := [3]; dt_value := Some (body [5] : PlutusData) |}];
  multi_asset := [{| ma_id := 1; ma_policy := [8]; ma_name := [] |}; {| ma_id := 2; ma_policy := [9]; ma_name := [] |}] |}.
Definition gworld (n : nat) : option Db := Some gd.
Definition gL : Ledger := {| l_blocks := omap view_block (block gd); l_tokens := view_asset gd <$> assets gd; l_spends := [] |}.

Lemma gd_ok : db_ok gd.
Proof.
  split; simpl; intros; rows; simpl in *; try done; try (unfold i64_max; lia); try congruence; try by eexists.
  all: try (destruct_or?; destruct_and?; (done || lia || congruence)).
  all: try set_solver.
  all: apply (bool_decide_unpack _); vm_compute; reflexivity.
Qed.

Lemma gL_tokens : l_tokens gL = [([8], [], (1, view_out gd council_1)); ([8], [], (1, view_out gd council_2)); ([9], [], (1, view_out gd tc_1))].
Proof. reflexivity. Qed.
Lemma gL_ok : ledger_ok gL.
Proof.
  split.
  - intros policy name. unfold tokens_of. rewrite gL_tokens, !filter_cons, filter_nil.
    repeat case_decide; simpl in *; simplify_eq; apply (bool_decide_unpack _); vm_compute; reflexivity.
  - constructor.
  - intros a b Ha Hb. unfold gL, l_blocks in Ha, Hb. simpl in Ha, Hb. rows; done.
  - intros policy name s p k Hs. by apply elem_of_nil in Hs.
  - intros k p Hk Hp. rewrite gL_tokens in Hk. rows; vm_compute in Hp; injection Hp as <-; unfold i32_max; simpl; lia.
  - intros s p Hs. by apply elem_of_nil in Hs.
Qed.
Lemma gfollows : follows gworld (fun _ => 11) gL.
Proof.
  split.
  - intros n d' [= <-]. apply gd_ok.
  - intros n d' [= <-]. split.
    + intros p _. unfold gL, l_blocks. rewrite list_elem_of_omap. naive_solver.
    + intros policy name. apply reflexive_eq. f_equal. unfold tokens_of. rewrite gL_tokens. unfold tokens_in, resolve_multi_asset_id, multi_asset, gd.
      rewrite !filter_cons, !filter_nil. simpl.
      repeat case_decide; simpl in *; destruct_and?; subst; simplify_eq; try done; try congruence.
      all: tauto.
    + done.
  - done.
  - intros n m d1 d2 _ [= <-] [= <-]. by split.
  - apply gL_ok.
Qed.
Lemma gbodies : bodies_ok gL.
Proof.
  intros a policy f g p q Hf Hg Hp Hq H1 H2. unfold body_facts in *. rewrite gL_tokens in *.
  apply list_elem_of_omap in Hf as (k & [Hk Hin]%list_elem_of_filter & Hf), Hg as (k' & [Hk' Hin']%list_elem_of_filter & Hg).
  rewrite Is_true_true, andb_true_iff, !bool_decide_eq_true in Hk, Hk'. destruct Hk as [Ha _], Hk' as [Ha' _].
  assert (forall (k : Bytes * Bytes * (Z * LedgerOut)) f, with_datum (lo_tx (snd (snd k))) (snd (snd k)) = Some f ->
    f_tx f = lo_tx (snd (snd k)) /\ lo_datum (snd (snd k)) = Some (f_payload f)) as Hw.
  { intros x y. unfold with_datum. destruct (lo_datum _); [|done]. by intros [= <-]. }
  destruct (Hw k f Hf) as [Htf Hdf], (Hw k' g Hg) as [Htg Hdg]. rewrite Htf in Hp. rewrite Htg in Hq. clear Hw Hf Hg Htf Htg.
  apply elem_of_cons in Hin as [->|[->|[->|Hin%elem_of_nil]%elem_of_cons]%elem_of_cons]; [..|done];
  apply elem_of_cons in Hin' as [->|[->|[->|Hin'%elem_of_nil]%elem_of_cons]%elem_of_cons]; try done; try congruence;
    try (simpl in Ha, Ha'; congruence); simpl in Hp, Hq; injection Hp as <-; injection Hq as <-; discriminate.
Qed.
Lemma gv_ok : governed gworld (fun _ => 11) gL.
Proof.
  split; [apply gfollows| |by eexists|apply gbodies]. intros n d' [= <-]. unfold rep_assets. done.
Qed.
End GovernanceExample.

Import DatumLib PullExample ListLru FederatedAuthorityObservation.Example GovernanceExample.

Definition gconfig : FederatedAuthorityObservationConfig :=
  {| council_body := {| address := [67]; policy_id := [8] |}; technical_committee_body := {| address := [84]; policy_id := [9] |} |}.
Definition tip_10 : CardanoPosition := {| block_hash := [10]; block_number := 10; block_timestamp := 1000; tx_index_in_block := 1 |}.

(** Block 11, block 10, and block 11 from the cache *)
Lemma bodies_are_the_ledgers_witness :
  exists s, calls gworld [(gconfig, [11]); (gconfig, [10]); (gconfig, [11])] (new_source 5 0) =
    Ok ([ledger_bodies gL gconfig example_tip; ledger_bodies gL gconfig tip_10; ledger_bodies gL gconfig example_tip], s).
Proof.
  apply (bodies_are_the_ledgers gworld (fun _ => 11) gL 5 0 [(gconfig, example_tip); (gconfig, tip_10); (gconfig, example_tip)] gv_ok).
  repeat (constructor; [split; [first [left | right; left]|simpl; lia]|]). constructor.
Defined.

(** The second council has two members; at block 10 there was one, and no technical committee. *)
Lemma example_bodies :
  (length (authorities (council_authorities (ledger_bodies gL gconfig example_tip))),
   length (authorities (technical_committee_authorities (ledger_bodies gL gconfig example_tip))),
   length (authorities (council_authorities (ledger_bodies gL gconfig tip_10))),
   length (authorities (technical_committee_authorities (ledger_bodies gL gconfig tip_10)))) = (2, 1, 1, 0)%nat.
Proof. vm_compute. reflexivity. Qed.

(** Accounts are the first bytes of the keys. *)
Definition gstate : FederatedAuthorityObservation.State Z Bytes Bytes Bytes (list Z) :=
  {| MainChainCouncilAddress := [67]; MainChainCouncilPolicyId := [8];
     MainChainTechnicalCommitteeAddress := [84]; MainChainTechnicalCommitteePolicyId := [9];
     CouncilMainchainMembers := []; TechnicalCommitteeMainchainMembers := [];
     InherentExecutedThisBlock := false; council := []; technical_committee := []; events := [] |}.
Definition gclient : Client (AccountId:=Z) (H:=list Z) := {| parent_state := gstate; responds _ := true |}.

Lemma governance_follows_ledger_witness :
  let data := ledger_bodies gL gconfig example_tip in
  exists post s', reset_members (Origin:=RawOrigin Z) Z.le Example.cfg NoneOrigin [(102, replicate 28 2); (101, replicate 28 1)] [(105, replicate 28 5)] gstate
      = Ok (post, s') /\
    (exists st1' st2', new_provider gworld gclient [11] (new_source 5 0) = Ok (data, st1') /\ new_provider gworld gclient [11] (new_source 0 7) = Ok (data, st2')) /\
    Permutation (zip (sorted_members (council s')) (CouncilMainchainMembers s')) [(102, replicate 28 2); (101, replicate 28 1)].
Proof.
  intros data.
  destruct (governance_follows_ledger (Origin:=RawOrigin Z) Z.le Example.cfg head gL gworld (fun _ => 11) gworld (fun _ => 11) gstate
    gclient gclient (new_source 5 0) (new_source 0 7) example_tip NoneOrigin) as [H1 H2].
  - apply gv_ok.
  - apply gv_ok.
  - by split.
  - by split.
  - apply cache_ok_new.
  - apply cache_ok_new.
  - right. left.
  - simpl. lia.
  - simpl. lia.
  - simpl. lia.
  - reflexivity.
  - reflexivity.
  - destruct (H2 (Call_reset_members [(102, replicate 28 2); (101, replicate 28 1)] [(105, replicate 28 5)])) as (ca & ta & Hc & _ & _ & _ & post & s' & Hr & Hp & _).
    + vm_compute. reflexivity.
    + injection Hc as <- <-. exists post, s'. split; [exact Hr|]. split; [exact H1|exact Hp].
Defined.
