(* ===== verification/BridgeDb.v ===== *)
(** * Bridge transactions in the tables of Db-Sync

    Models the part of [src/partner-chains/toolkit/data-sources/db-sync/src/db_model.rs] that
    serves the token bridge: the query for the transactions that lock tokens at the address of the
    illiquid circulating supply (ICS) or release them from the reserve, in its two variants, and
    the position of a transaction.  A row that refers to a row of another table contains it, and
    transactions are told apart by their rows.  The order of rows that [ORDER BY] leaves open is
    the parameter [Postgres].

    The reference is [Ledger], the transactions of Cardano with the tokens that they create and
    spend; [bridge_query] shows that both variants of the query return [window], the ledger's
    bridge transactions between a checkpoint and a block, in the order of the chain. *)

From stdpp Require Import sorting.
From S2P Require Import Prelude Frame Plutus Domain CNightPrimitives CNightWindow CNightQueries CardanoBlocks.
Open Scope Z_scope.

(** ** Tables *)

Record Tx := { t_hash : Bytes; t_block : Block; t_block_index : Z }.
Record TxOut := { o_tx : Tx; o_index : Z; o_address : Bytes; o_consumed_by : option Tx }.
(** An input of [i_tx], which is the output [i_out_index] of [i_out_tx] *)
Record TxIn := { i_tx : Tx; i_out_tx : Tx; i_out_index : Z }.
Record MultiAsset := { ma_policy : Bytes; ma_name : Bytes }.
Record MaTxOut := { m_tx_out : TxOut; m_ident : MultiAsset; m_quantity : Z }.
(** [serde_json::Value], as far as the source tells its cases apart *)
Inductive JsonValue := JString (s : Bytes) | JArray (l : list JsonValue) | JOther.
Record TxMetadata := { md_tx : Tx; md_key : Z; md_json : option JsonValue }.

#[export] Instance tx_eq_dec : EqDecision Tx.
Proof. solve_decision. Defined.

(** [tx_in]: [None] if there is no such table *)
Record Db := {
  block : list Block;
  tx : list Tx;
  tx_out : list TxOut;
  tx_in : option (list TxIn);
  ma_tx_out : list MaTxOut;
  tx_metadata : list TxMetadata
}.

Inductive TxInConfiguration := Enabled | Consumed.

Record Asset := { policy_id : Bytes; asset_name : Bytes }.

Record BridgeTx := {
  block_number : Z;
  tx_ix : Z;
  tx_hash : Bytes;
  c2m_metadata : option JsonValue;
  bridge_in : Z;
  bridge_out : Z;
  reserve_in : Z;
  reserve_out : Z
}.
Definition tx_id (t : BridgeTx) : Bytes := tx_hash t.
Definition TxOrderingKey : Type := Z * Z.
Definition ordering_key (t : BridgeTx) : TxOrderingKey := (block_number t, tx_ix t).

Inductive ResolvedBridgeDataCheckpoint :=
| AtTx (block_number tx_ix : Z)
| AtBlock (number : Z).
Definition get_block_number (c : ResolvedBridgeDataCheckpoint) : Z :=
  match c with AtBlock number => number | AtTx block_number _ => block_number end.

Record TxBlockInfo := { info_block_number : Z; info_tx_ix : Z }.

Inductive QueryError := SqlxError.

(** ** Queries *)

(** The derived order of [TxOrderingKey], and that of rows in SQL *)
Definition key_le (a b : TxOrderingKey) : bool := (fst a <? fst b) || (fst a =? fst b) && (snd a <=? snd b).

Definition get_block_info_for_tx_hash (h : Bytes) (d : Db) : option TxBlockInfo :=
  (fun t => {| info_block_number := block_no (t_block t); info_tx_ix := t_block_index t |})
  <$> head (filter (fun t => t_hash t = h) (tx d)).

(** The rows of [tx_out], [ma_tx_out] and [multi_asset] for a token at an address *)
Definition tokens_at (address : Bytes) (native_token : Asset) (d : Db) : list MaTxOut :=
  filter (fun m => ma_policy (m_ident m) = policy_id native_token /\ ma_name (m_ident m) = asset_name native_token /\
                   o_address (m_tx_out m) = address) (ma_tx_out d).
(** [tx_out.tx_id = tx_in.tx_out_id AND tx_out.index = tx_in.tx_out_index] *)
Definition links (i : TxIn) (o : TxOut) : bool := bool_decide (o_tx o = i_out_tx i) && (o_index o =? i_out_index i).

(** [bridge_inputs_subquery] and [reserve_inputs_subquery]: the consuming transactions with the quantities *)
Definition inputs_subquery (c : TxInConfiguration) (address : Bytes) (native_token : Asset) (d : Db)
    : outcome QueryError (list (Tx * Z)) :=
  match c with
  | Consumed =>
      Ok (omap (fun m => (fun t => (t, m_quantity m)) <$> o_consumed_by (m_tx_out m)) (tokens_at address native_token d))
  | Enabled =>
      let! tx_in := some_or (tx_in d) SqlxError in
      Ok (i ← tx_in;
          m ← filter (fun m => links i (m_tx_out m) = true) (tokens_at address native_token d);
          [(i_tx i, m_quantity m)])
  end.
(** [bridge_outputs_subquery] and [reserve_outputs_subquery] *)
Definition outputs_subquery (address : Bytes) (native_token : Asset) (d : Db) : list (Tx * Z) :=
  (fun m => (o_tx (m_tx_out m), m_quantity m)) <$> tokens_at address native_token d.

(** [COALESCE((SELECT sum(quantity) FROM rows WHERE .. = tx.id), 0)] *)
Definition sum_of (t : Tx) (rows : list (Tx * Z)) : Z := sumZ (snd <$> filter (fun r => fst r = t) rows).

Definition TOKEN_TRANSFER_METADATUM_KEY : Z := 6500973.

Definition after_checkpoint (c : ResolvedBridgeDataCheckpoint) (k : TxOrderingKey) : bool :=
  match c with
  | AtBlock number => number <? fst k
  | AtTx block_number tx_ix => negb (key_le k (block_number, tx_ix))
  end.

Definition moves_tokens (t : BridgeTx) : bool := (bridge_in t <? bridge_out t) || (reserve_out t <? reserve_in t).

(** [NativeTokenAmount::decode] *)
Definition decodes (t : BridgeTx) : bool :=
  forallb (fun x => (0 <=? x) && (x <=? umax 64)) [bridge_in t; bridge_out t; reserve_in t; reserve_out t].

(** A left join has a row without partner where there is none. *)
Definition left_join {A} (l : list A) : list (option A) := match l with [] => [None] | _ => Some <$> l end.

Section Query.
Context {pg : Postgres}.

Definition get_bridge_txs (tx_in_configuration : TxInConfiguration) (ics_address reserve_address : Bytes)
    (native_token : Asset) (checkpoint : ResolvedBridgeDataCheckpoint) (to_block : Z) (max_transfers : option Z) (d : Db)
    : outcome QueryError (list BridgeTx) :=
  let! bridge_inputs := inputs_subquery tx_in_configuration ics_address native_token d in
  let bridge_outputs := outputs_subquery ics_address native_token d in
  let! reserve_inputs := inputs_subquery tx_in_configuration reserve_address native_token d in
  let reserve_outputs := outputs_subquery reserve_address native_token d in
  let relevant_txs := remove_dups (fst <$> bridge_outputs) in
  let bridge_tx_totals :=
    t ← filter (fun t => block_no (t_block t) <= as_i32 to_block /\
                         after_checkpoint checkpoint (block_no (t_block t), t_block_index t) = true) (tx d);
    _ ← filter (fun r => r = t) relevant_txs;
    m ← left_join (filter (fun m => md_tx m = t /\ md_key m = TOKEN_TRANSFER_METADATUM_KEY) (tx_metadata d));
    [{| block_number := block_no (t_block t); tx_ix := t_block_index t; tx_hash := t_hash t;
        c2m_metadata := m ≫= md_json;
        bridge_in := sum_of t bridge_inputs; bridge_out := sum_of t bridge_outputs;
        reserve_in := sum_of t reserve_inputs; reserve_out := sum_of t reserve_outputs |}] in
  let ordered := order_by (fun r => [block_number r; tx_ix r]) (filter (fun r => moves_tokens r = true) bridge_tx_totals) in
  let rows := match max_transfers with Some n => take (Z.to_nat n) ordered | None => ordered end in
  if forallb decodes rows then Ok rows else Err SqlxError.
End Query.

(** The two queries of [TxInConfiguration::from_connection]; the second one fails without the table. *)
Definition tx_in_exists (d : Db) : bool := match tx_in d with Some _ => true | None => false end.
Definition tx_in_populated (d : Db) : outcome QueryError bool :=
  match tx_in d with Some l => Ok (negb (bool_decide (length l = 0%nat))) | None => Err SqlxError end.

(** ** The ledger *)

(** A token in an output, [tk_id], of [tk_tx] *)
Definition OutId : Type := Tx * Z.
Record Token := { tk_tx : Tx; tk_index : Z; tk_address : Bytes; tk_policy : Bytes; tk_name : Bytes; tk_quantity : Z }.
Definition tk_id (t : Token) : OutId := (tk_tx t, tk_index t).

(** The transactions in the order of the chain, the tokens in their outputs, what they spend, and
    the metadatum of a transfer *)
Record Ledger := {
  l_blocks : list Block;
  l_txs : list Tx;
  l_tokens : list Token;
  l_spends : list (Tx * OutId);
  l_metadata : Tx -> option JsonValue
}.

Definition tx_number (t : Tx) : Z := block_no (t_block t).
Definition tx_key (t : Tx) : TxOrderingKey := (tx_number t, t_block_index t).

Section Amounts.
Variables (L : Ledger) (address : Bytes) (native_token : Asset).

Definition is_at (t : Token) : bool :=
  bool_decide (tk_policy t = policy_id native_token) && bool_decide (tk_name t = asset_name native_token)
  && bool_decide (tk_address t = address).
(** The tokens in an output, those that a transaction creates and those that it spends *)
Definition value_of (tokens : list Token) (o : OutId) : Z :=
  sumZ ((fun k => if is_at k && bool_decide (tk_id k = o) then tk_quantity k else 0) <$> tokens).
Definition created (tokens : list Token) (t : Tx) : Z :=
  sumZ ((fun k => if is_at k && bool_decide (tk_tx k = t) then tk_quantity k else 0) <$> tokens).
Definition spent (tokens : list Token) (spends : list (Tx * OutId)) (t : Tx) : Z :=
  sumZ ((fun s => if bool_decide (fst s = t) then value_of tokens (snd s) else 0) <$> spends).
Definition creates (tokens : list Token) (t : Tx) : bool :=
  existsb (fun k => is_at k && bool_decide (tk_tx k = t)) tokens.
End Amounts.

Definition bridge_tx_of (L : Ledger) (ics reserve : Bytes) (asset : Asset) (t : Tx) : BridgeTx :=
  {| block_number := tx_number t; tx_ix := t_block_index t; tx_hash := t_hash t; c2m_metadata := l_metadata L t;
     bridge_in := spent ics asset (l_tokens L) (l_spends L) t; bridge_out := created ics asset (l_tokens L) t;
     reserve_in := spent reserve asset (l_tokens L) (l_spends L) t; reserve_out := created reserve asset (l_tokens L) t |}.

(** The transactions of the bridge: those that create an output of the token at the ICS and increase
    the ICS or decrease the reserve *)
Definition bridge_txs (L : Ledger) (ics reserve : Bytes) (asset : Asset) : list BridgeTx :=
  filter (fun r => moves_tokens r = true)
    (bridge_tx_of L ics reserve asset <$> filter (fun t => creates ics asset (l_tokens L) t = true) (l_txs L)).

(** Those after a checkpoint, up to a block *)
Definition between (c : ResolvedBridgeDataCheckpoint) (to_block : Z) (r : BridgeTx) : bool :=
  after_checkpoint c (ordering_key r) && (block_number r <=? to_block).
Definition window (L : Ledger) (ics reserve : Bytes) (asset : Asset) (c : ResolvedBridgeDataCheckpoint) (to_block : Z)
    : list BridgeTx :=
  filter (fun r => between c to_block r = true) (bridge_txs L ics reserve asset).

(** ** What the tables hold *)

Definition out_id (o : TxOut) : OutId := (o_tx o, o_index o).
Definition view_token (m : MaTxOut) : Token :=
  {| tk_tx := o_tx (m_tx_out m); tk_index := o_index (m_tx_out m); tk_address := o_address (m_tx_out m);
     tk_policy := ma_policy (m_ident m); tk_name := ma_name (m_ident m); tk_quantity := m_quantity m |}.
Definition spends_in (c : TxInConfiguration) (d : Db) : list (Tx * OutId) :=
  match c with
  | Enabled => (fun i => (i_tx i, (i_out_tx i, i_out_index i))) <$> default [] (tx_in d)
  | Consumed => omap (fun o => (fun t => (t, out_id o)) <$> o_consumed_by o) (tx_out d)
  end.
Definition metadata_rows (t : Tx) (d : Db) : list TxMetadata :=
  filter (fun m => md_tx m = t /\ md_key m = TOKEN_TRANSFER_METADATUM_KEY) (tx_metadata d).

(** An output is spent after it is created. *)
Definition spent_later (tokens : list Token) (spends : list (Tx * OutId)) : Prop := forall k s,
  k ∈ tokens -> s ∈ spends -> tk_id k = snd s -> tx_number (tk_tx k) <= tx_number (fst s).

(** The tables are consistent. *)
Record tables_ok (c : TxInConfiguration) (d : Db) : Prop := {
  ok_config : c = Enabled -> is_Some (tx_in d);
  ok_out_ids : NoDup (out_id <$> tx_out d);
  ok_outputs m : m ∈ ma_tx_out d -> m_tx_out m ∈ tx_out d;
  ok_spent_later : spent_later (view_token <$> ma_tx_out d) (spends_in c d)
}.
Record ledger_ok (L : Ledger) : Prop := {
  lg_order : StronglySorted (fun a b => key_le (tx_key b) (tx_key a) = false) (l_txs L);
  lg_hashes a b : a ∈ l_txs L -> b ∈ l_txs L -> t_hash a = t_hash b -> a = b;
  lg_bounds t : t ∈ l_txs L -> 0 < tx_number t < 2 ^ 31;
  lg_spent_later : spent_later (l_tokens L) (l_spends L);
  lg_amounts ics reserve asset t : t ∈ l_txs L -> decodes (bridge_tx_of L ics reserve asset t) = true
}.
(** They hold the ledger up to the block [h]. *)
Record represents (c : TxInConfiguration) (h : Z) (L : Ledger) (d : Db) : Prop := {
  rp_tables : tables_ok c d;
  rp_blocks : filter (fun b => block_no b <= h) (block d) ≡ₚ filter (fun b => block_no b <= h) (l_blocks L);
  rp_txs : filter (fun t => tx_number t <= h) (tx d) ≡ₚ filter (fun t => tx_number t <= h) (l_txs L);
  rp_tokens : filter (fun k => tx_number (tk_tx k) <= h) (view_token <$> ma_tx_out d)
              ≡ₚ filter (fun k => tx_number (tk_tx k) <= h) (l_tokens L);
  rp_spends : filter (fun s => tx_number (fst s) <= h) (spends_in c d)
              ≡ₚ filter (fun s => tx_number (fst s) <= h) (l_spends L);
  rp_metadata t : tx_number t <= h ->
    match metadata_rows t d with
    | [] => l_metadata L t = None
    | [m] => md_json m = l_metadata L t
    | _ => False
    end
}.

(** ** Lists *)

Lemma filter_eq_NoDup {A} `{!EqDecision A} (x : A) (l : list A) : NoDup l -> x ∈ l -> filter (fun y => y = x) l = [x].
Proof.
  induction 1 as [|y l Hni Hnd IH]; intros Hx; [by apply elem_of_nil in Hx|]. rewrite filter_cons.
  apply elem_of_cons in Hx as [->|Hx]; [rewrite decide_True by done|rewrite decide_False by (by intros ->); by apply IH].
  f_equal. apply filter_none. by intros z Hz ->.
Qed.
Lemma strongly_sorted_elems {A} (R : relation A) l x y : StronglySorted R l -> x ∈ l -> y ∈ l -> x = y \/ R x y \/ R y x.
Proof.
  induction 1 as [|z l Hs IH Hz]; intros Hx Hy; [by apply elem_of_nil in Hx|]. rewrite Forall_forall in Hz.
  apply elem_of_cons in Hx as [->|Hx]; apply elem_of_cons in Hy as [->|Hy]; auto.
Qed.
Lemma strongly_sorted_impl {A} (R S : relation A) l : (forall x y, R x y -> S x y) -> StronglySorted R l -> StronglySorted S l.
Proof. intros HRS. induction 1 as [|z l Hs IH Hz]; constructor; [done|]. eapply Forall_impl; eauto. Qed.

Lemma filter_within {A} (P Q : A -> Prop) `{!forall x, Decision (P x), !forall x, Decision (Q x)} (l1 l2 : list A) :
  (forall x, P x -> Q x) -> filter Q l1 ≡ₚ filter Q l2 -> filter P l1 ≡ₚ filter P l2.
Proof.
  intros HPQ Hp. assert (forall l : list A, filter P l = filter P (filter Q l)) as Hsub.
  { intros l. rewrite list_filter_filter. apply list_filter_iff. intros x. split; [auto|tauto]. }
  by rewrite (Hsub l1), (Hsub l2), Hp.
Qed.

(** ** Amounts *)

Section Sums.
Variables (address : Bytes) (asset : Asset).
Notation is_at := (is_at address asset).
Notation value_of := (value_of address asset).
Notation created := (created address asset).
Notation spent := (spent address asset).

Lemma is_at_row m : is_at (view_token m) = true <->
  ma_policy (m_ident m) = policy_id asset /\ ma_name (m_ident m) = asset_name asset /\ o_address (m_tx_out m) = address.
Proof. unfold is_at. rewrite !andb_true_iff, !bool_decide_eq_true. simpl. tauto. Qed.

Lemma sum_tokens_at (f : MaTxOut -> Z) d :
  sumZ (f <$> tokens_at address asset d) = sumZ ((fun m => if is_at (view_token m) then f m else 0) <$> ma_tx_out d).
Proof.
  unfold tokens_at. rewrite sumZ_filter. apply sumZ_ext. intros m _. pose proof (is_at_row m) as Hat.
  case_decide as Hm; destruct (is_at (view_token m)); naive_solver.
Qed.

Lemma sum_of_fmap {A} t (f : A -> Tx * Z) l : sum_of t (f <$> l) = sumZ ((fun x => if bool_decide (fst (f x) = t) then snd (f x) else 0) <$> l).
Proof.
  unfold sum_of. rewrite filter_fmap_comm, <-list_fmap_compose, sumZ_filter. apply sumZ_ext. intros x _. simpl.
  by repeat case_match; rewrite ?bool_decide_eq_true, ?bool_decide_eq_false in *.
Qed.
Lemma sum_of_app t l1 l2 : sum_of t (l1 ++ l2) = sum_of t l1 + sum_of t l2.
Proof. unfold sum_of. by rewrite filter_app, fmap_app, sumZ_app. Qed.

Lemma outputs_sum t d : sum_of t (outputs_subquery address asset d) = created (view_token <$> ma_tx_out d) t.
Proof.
  unfold outputs_subquery, created. rewrite sum_of_fmap, sum_tokens_at, <-list_fmap_compose. apply sumZ_ext. intros m _. simpl.
  by destruct (is_at (view_token m)).
Qed.

Lemma spent_cons tokens s l t :
  spent tokens (s :: l) t = (if bool_decide (fst s = t) then value_of tokens (snd s) else 0) + spent tokens l t.
Proof. done. Qed.
Lemma sum_of_cons r l t : sum_of t (r :: l) = (if bool_decide (fst r = t) then snd r else 0) + sum_of t l.
Proof. unfold sum_of. rewrite filter_cons. case_decide; case_bool_decide; [done..|]. lia. Qed.

Lemma links_id i m : links i (m_tx_out m) = bool_decide (tk_id (view_token m) = (i_out_tx i, i_out_index i)).
Proof.
  unfold links, tk_id. simpl. apply eq_iff_eq_true. rewrite andb_true_iff, !bool_decide_eq_true, Z.eqb_eq.
  split; [by intros [-> ->]|by intros [= -> ->]].
Qed.

(** The variant with the table of inputs *)
Lemma enabled_sum t (ins : list TxIn) d :
  sum_of t (i ← ins; m ← filter (fun m => links i (m_tx_out m) = true) (tokens_at address asset d); [(i_tx i, m_quantity m)])
  = spent (view_token <$> ma_tx_out d) ((fun i => (i_tx i, (i_out_tx i, i_out_index i))) <$> ins) t.
Proof.
  induction ins as [|i ins IH]; [done|]. rewrite bind_cons, sum_of_app, IH, fmap_cons, spent_cons. f_equal. cbn [fst snd]. unfold value_of.
  rewrite (bind_if_fmap _ (fun _ => true) (fun m => (i_tx i, m_quantity m))) by done. rewrite sum_of_fmap. cbn [fst snd].
  rewrite (filter_all (fun _ => true = true)) by done.
  destruct (decide (i_tx i = t)) as [Ht|Ht].
  - rewrite bool_decide_true by done. rewrite (sumZ_ext _ m_quantity) by done.
    rewrite sumZ_filter, sum_tokens_at, <-list_fmap_compose. apply sumZ_ext. intros m _. simpl.
    destruct (is_at (view_token m)); [|done]. rewrite <-links_id. cbn [andb]. by destruct (links i (m_tx_out m)).
  - rewrite bool_decide_false by done. by apply sumZ_zero.
Qed.

(** The variant with the column of consumers *)
Lemma consumed_sum t d : tables_ok Consumed d ->
  sum_of t (omap (fun m => (fun t => (t, m_quantity m)) <$> o_consumed_by (m_tx_out m)) (tokens_at address asset d))
  = spent (view_token <$> ma_tx_out d) (spends_in Consumed d) t.
Proof.
  intros Hok.
  assert (forall l, sum_of t (omap (fun m => (fun t => (t, m_quantity m)) <$> o_consumed_by (m_tx_out m)) l)
    = sumZ ((fun m => if bool_decide (o_consumed_by (m_tx_out m) = Some t) then m_quantity m else 0) <$> l)) as Hl.
  { induction l as [|m l IH]; [done|]. rewrite omap_cons, fmap_cons, sumZ_cons, <-IH.
    destruct (o_consumed_by (m_tx_out m)) as [t'|]; cbn [fmap option_fmap option_map]; [|by rewrite bool_decide_false].
    rewrite sum_of_cons. f_equal. cbn [fst snd]. do 2 case_bool_decide; congruence. }
  assert (forall outs, spent (view_token <$> ma_tx_out d) (omap (fun o => (fun t => (t, out_id o)) <$> o_consumed_by o) outs) t
    = sumZ ((fun o => if bool_decide (o_consumed_by o = Some t) then value_of (view_token <$> ma_tx_out d) (out_id o) else 0) <$> outs)) as Hs.
  { induction outs as [|o outs IH]; [done|]. rewrite omap_cons, fmap_cons, sumZ_cons, <-IH.
    destruct (o_consumed_by o) as [t'|]; cbn [fmap option_fmap option_map]; [|by rewrite bool_decide_false].
    rewrite spent_cons. f_equal. cbn [fst snd]. do 2 case_bool_decide; congruence. }
  rewrite Hl. unfold spends_in. rewrite Hs, sum_tokens_at. clear Hl Hs. pose proof (ok_outputs _ _ Hok) as Hfk.
  induction (ma_tx_out d) as [|m ms IH]; [symmetry; apply sumZ_zero; intros o _; by case_bool_decide|].
  rewrite !fmap_cons, sumZ_cons, IH by (intros; apply Hfk; by right).
  pose proof (sumZ_single out_id (fun o => if is_at (view_token m) then if bool_decide (o_consumed_by o = Some t) then m_quantity m else 0 else 0)
    (tx_out d) (m_tx_out m) (ok_out_ids _ _ Hok) (Hfk m ltac:(left))) as Hone. cbn beta in Hone. rewrite <-Hone, <-sumZ_add.
  apply sumZ_ext. intros o _. unfold value_of. rewrite fmap_cons, sumZ_cons. change (tk_id (view_token m)) with (out_id (m_tx_out m)).
  destruct (is_at (view_token m)); cbn [andb]; repeat case_bool_decide; done || lia || congruence.
Qed.

(** *** Amounts depend on the ledger up to the transaction's block *)

Lemma created_agree h t tokens1 tokens2 :
  filter (fun k => tx_number (tk_tx k) <= h) tokens1 ≡ₚ filter (fun k => tx_number (tk_tx k) <= h) tokens2 ->
  tx_number t <= h -> created tokens1 t = created tokens2 t.
Proof.
  intros Hp Ht.
  assert (forall l, created l t = created (filter (fun k => tx_number (tk_tx k) <= h) l) t) as Hr.
  { intros l. symmetry. apply sumZ_restrict. intros k _ Hk. case_bool_decide; [subst; lia|]. by rewrite andb_false_r. }
  rewrite (Hr tokens1), (Hr tokens2). unfold created. by rewrite Hp.
Qed.

Lemma creates_spec tokens t : creates address asset tokens t = true <-> exists k, k ∈ tokens /\ is_at k = true /\ tk_tx k = t.
Proof.
  unfold creates. rewrite existsb_exists. split.
  - intros (k & Hin%list_elem_of_In & [Hat Hk%bool_decide_eq_true]%andb_true_iff). by exists k.
  - intros (k & Hin%list_elem_of_In & Hat & Hk). exists k. split; [done|]. by rewrite Hat, bool_decide_true.
Qed.

Lemma creates_agree h t tokens1 tokens2 :
  filter (fun k => tx_number (tk_tx k) <= h) tokens1 ≡ₚ filter (fun k => tx_number (tk_tx k) <= h) tokens2 ->
  tx_number t <= h -> creates address asset tokens1 t = creates address asset tokens2 t.
Proof.
  intros Hp Ht. apply eq_iff_eq_true. rewrite !creates_spec.
  split; intros (k & Hk & Hat & <-); exists k; (split; [|done]).
  - assert (k ∈ filter (fun k => tx_number (tk_tx k) <= h) tokens2) as Hin by (rewrite <-Hp; by apply list_elem_of_filter).
    by apply list_elem_of_filter in Hin as [_ ?].
  - assert (k ∈ filter (fun k => tx_number (tk_tx k) <= h) tokens1) as Hin by (rewrite Hp; by apply list_elem_of_filter).
    by apply list_elem_of_filter in Hin as [_ ?].
Qed.

Lemma spent_agree h t tokens1 tokens2 spends1 spends2 :
  filter (fun k => tx_number (tk_tx k) <= h) tokens1 ≡ₚ filter (fun k => tx_number (tk_tx k) <= h) tokens2 ->
  filter (fun s => tx_number (fst s) <= h) spends1 ≡ₚ filter (fun s => tx_number (fst s) <= h) spends2 ->
  spent_later tokens1 spends1 -> spent_later tokens2 spends2 -> tx_number t <= h ->
  spent tokens1 spends1 t = spent tokens2 spends2 t.
Proof.
  intros Hp Hs Hl1 Hl2 Ht.
  assert (forall tokens spends, spent_later tokens spends -> spent tokens spends t =
    spent (filter (fun k => tx_number (tk_tx k) <= h) tokens) (filter (fun s => tx_number (fst s) <= h) spends) t) as Hr.
  { intros tokens spends Hl. unfold spent at 2. rewrite sumZ_restrict.
    - apply sumZ_ext. intros s Hin. case_bool_decide as Hst; [|done]. symmetry. apply sumZ_restrict. intros k Hk Hn.
      case_bool_decide as Hid; [|by rewrite andb_false_r]. specialize (Hl k s Hk Hin Hid). rewrite Hst in Hl. lia.
    - intros s _ Hn. rewrite bool_decide_false; [done|]. intros Heq. by rewrite Heq in Hn. }
  rewrite (Hr tokens1), (Hr tokens2) by done. unfold spent. rewrite Hs. apply sumZ_ext. intros s _.
  case_bool_decide; [|done]. unfold value_of. by rewrite Hp.
Qed.
End Sums.

(** ** The query *)

Lemma order_key_total a b : key_le a b = false -> key_le b a = true.
Proof. unfold key_le. destruct a, b. simpl. rewrite orb_true_iff, orb_false_iff, andb_true_iff, andb_false_iff. lia. Qed.
Lemma key_le_iff a b : key_le a b = true <-> fst a < fst b \/ fst a = fst b /\ snd a <= snd b.
Proof. unfold key_le. rewrite orb_true_iff, andb_true_iff. lia. Qed.
Lemma key_le_cmp a b : key_le (ordering_key a) (ordering_key b) = false ->
  bytes_cmp [block_number a; tx_ix a] [block_number b; tx_ix b] = Gt.
Proof.
  unfold key_le, ordering_key. simpl. rewrite orb_false_iff, andb_false_iff. intros [H1 H2].
  destruct (Z.compare_spec (block_number a) (block_number b)); [|lia|done].
  destruct (Z.compare_spec (tx_ix a) (tx_ix b)); [lia|lia|done].
Qed.

Lemma window_sorted L ics reserve asset c to_block : ledger_ok L ->
  StronglySorted (fun a b => key_le (ordering_key b) (ordering_key a) = false) (window L ics reserve asset c to_block).
Proof.
  intros HL. apply StronglySorted_filter, StronglySorted_filter.
  eapply StronglySorted_fmap; [|apply StronglySorted_filter, (lg_order _ HL)]. done.
Qed.

Section Refine.
Context {pg : Postgres} {pg_laws : PostgresLaws}.
Variables (c : TxInConfiguration) (h : Z) (L : Ledger) (d : Db).
Hypothesis HL : ledger_ok L.
Hypothesis Hd : represents c h L d.

Lemma inputs_answer address asset : exists ins, inputs_subquery c address asset d = Ok ins /\
  forall t, tx_number t <= h -> sum_of t ins = spent address asset (l_tokens L) (l_spends L) t.
Proof.
  assert (exists ins, inputs_subquery c address asset d = Ok ins /\
    forall t, sum_of t ins = spent address asset (view_token <$> ma_tx_out d) (spends_in c d) t) as (ins & Hins & Hsum).
  { pose proof (rp_tables _ _ _ _ Hd) as Hok. destruct c; simpl.
    - destruct (ok_config _ _ Hok eq_refl) as [l Hl]. rewrite Hl. eexists. split; [done|]. intros t. apply enabled_sum.
    - eexists. split; [done|]. intros t. by apply consumed_sum. }
  exists ins. split; [done|]. intros t Ht. rewrite Hsum.
  apply (spent_agree _ _ h); [apply Hd|apply Hd|apply (rp_tables _ _ _ _ Hd)|apply HL|done].
Qed.

Lemma outputs_answer address asset t : tx_number t <= h ->
  sum_of t (outputs_subquery address asset d) = created address asset (l_tokens L) t.
Proof. intros Ht. rewrite outputs_sum. apply (created_agree _ _ h); [apply Hd|done]. Qed.

Lemma relevant_answer address asset t : tx_number t <= h ->
  filter (fun r => r = t) (remove_dups (fst <$> outputs_subquery address asset d)) =
  if creates address asset (l_tokens L) t then [t] else [].
Proof.
  intros Ht.
  assert (t ∈ fst <$> outputs_subquery address asset d <-> creates address asset (l_tokens L) t = true) as Hin.
  { rewrite <-(creates_agree _ _ h t (view_token <$> ma_tx_out d)) by (apply Hd || done). rewrite creates_spec.
    unfold outputs_subquery. rewrite <-list_fmap_compose, list_elem_of_fmap. split.
    - intros (m & -> & Hm). apply list_elem_of_filter in Hm as [Hat Hm]. exists (view_token m).
      split; [by apply list_elem_of_fmap_2|]. split; [by apply is_at_row|done].
    - intros (k & Hk & Hat & <-). apply list_elem_of_fmap in Hk as (m & -> & Hm). exists m. split; [done|].
      apply list_elem_of_filter. by apply is_at_row in Hat. }
  rewrite <-elem_of_remove_dups in Hin. pose proof (NoDup_remove_dups (fst <$> outputs_subquery address asset d)) as Hnd.
  destruct (creates address asset (l_tokens L) t) eqn:Hc.
  - apply filter_eq_NoDup; [done|]. by apply Hin.
  - apply filter_none. intros x Hx ->. by apply Hin in Hx.
Qed.

Lemma metadata_answer {A} t (f : option JsonValue -> A) : tx_number t <= h ->
  left_join (metadata_rows t d) ≫= (fun m => [f (m ≫= md_json)]) = [f (l_metadata L t)].
Proof.
  intros Ht. pose proof (rp_metadata _ _ _ _ Hd t Ht) as Hm.
  destruct (metadata_rows t d) as [|m [|m' l]]; [|by simpl; rewrite Hm|done]. simpl. by rewrite Hm.
Qed.

(** The rows that the query selects, before their order *)
Lemma totals_answer ics reserve asset checkpoint to_block bridge_inputs reserve_inputs : 0 <= to_block <= h -> to_block < 2 ^ 31 ->
  (forall t, tx_number t <= h -> sum_of t bridge_inputs = spent ics asset (l_tokens L) (l_spends L) t) ->
  (forall t, tx_number t <= h -> sum_of t reserve_inputs = spent reserve asset (l_tokens L) (l_spends L) t) ->
  filter (fun r => moves_tokens r = true)
    (t ← filter (fun t => block_no (t_block t) <= as_i32 to_block /\
                          after_checkpoint checkpoint (block_no (t_block t), t_block_index t) = true) (tx d);
     _ ← filter (fun r => r = t) (remove_dups (fst <$> outputs_subquery ics asset d));
     m ← left_join (filter (fun m => md_tx m = t /\ md_key m = TOKEN_TRANSFER_METADATUM_KEY) (tx_metadata d));
     [{| block_number := block_no (t_block t); tx_ix := t_block_index t; tx_hash := t_hash t;
         c2m_metadata := m ≫= md_json;
         bridge_in := sum_of t bridge_inputs; bridge_out := sum_of t (outputs_subquery ics asset d);
         reserve_in := sum_of t reserve_inputs; reserve_out := sum_of t (outputs_subquery reserve asset d) |}])
  ≡ₚ window L ics reserve asset checkpoint to_block.
Proof.
  intros Hto Hto' Hbi Hri.
  assert (as_i32 to_block = to_block) as Hi.
  { unfold as_i32. rewrite wrap_small by (unfold in_u, umax; lia). rewrite (proj2 (Z.ltb_lt _ _)) by lia. done. }
  rewrite Hi.
  rewrite (bind_if_fmap _ (creates ics asset (l_tokens L)) (bridge_tx_of L ics reserve asset)).
  2: { intros t [[Hn _] _]%list_elem_of_filter. assert (tx_number t <= h) as Ht by (unfold tx_number; lia).
    rewrite relevant_answer by done. destruct (creates ics asset (l_tokens L) t); [|done]. rewrite bind_cons. change ([] ≫= _) with (@nil BridgeTx). rewrite app_nil_r.
    fold (metadata_rows t d).
    rewrite (metadata_answer t (fun m => {| block_number := block_no (t_block t); tx_ix := t_block_index t; tx_hash := t_hash t;
      c2m_metadata := m; bridge_in := sum_of t bridge_inputs; bridge_out := sum_of t (outputs_subquery ics asset d);
      reserve_in := sum_of t reserve_inputs; reserve_out := sum_of t (outputs_subquery reserve asset d) |})) by done.
    unfold bridge_tx_of. by rewrite Hbi, Hri, !outputs_answer by done. }
  rewrite (filter_within _ (fun t => tx_number t <= h) (tx d) (l_txs L)) by (apply Hd || (intros t [Hn _]; unfold tx_number; lia)).
  unfold window, bridge_txs.
  rewrite !filter_fmap_comm, !list_filter_filter.
  apply reflexive_eq. f_equal. apply list_filter_iff. intros t. unfold between. rewrite andb_true_iff, Z.leb_le.
  unfold ordering_key, bridge_tx_of, tx_number. simpl. tauto.
Qed.

(** Both variants of the query return the ledger's window. *)
Lemma bridge_query ics reserve asset checkpoint to_block max_transfers : 0 <= to_block <= h -> to_block < 2 ^ 31 ->
  get_bridge_txs c ics reserve asset checkpoint to_block max_transfers d =
  Ok (let w := window L ics reserve asset checkpoint to_block in
      match max_transfers with Some n => take (Z.to_nat n) w | None => w end).
Proof.
  intros Hto Hto'. destruct (inputs_answer ics asset) as (bi & Hbi & Hbi'), (inputs_answer reserve asset) as (ri & Hri & Hri').
  unfold get_bridge_txs. rewrite Hbi, Hri. cbn [obind]. cbv zeta.
  pose proof (totals_answer ics reserve asset checkpoint to_block bi ri Hto Hto' Hbi' Hri') as Hp.
  set (totals := filter (fun r => moves_tokens r = true) _) in *.
  set (w := window L ics reserve asset checkpoint to_block) in *.
  assert (order_by (fun r => [block_number r; tx_ix r]) totals = w) as ->.
  { apply (StronglySorted_unique_strong (fun a b => bytes_cmp [block_number a; tx_ix a] [block_number b; tx_ix b] <> Gt)).
    - intros a b Ha Hb Hab Hba. rewrite order_by_perm, Hp in Ha.
      pose proof (window_sorted L ics reserve asset checkpoint to_block HL) as Hs. fold w in Hs.
      destruct (strongly_sorted_elems _ _ _ _ Hs Ha Hb) as [->|[Hlt|Hlt]]; [done| |]; by apply key_le_cmp in Hlt.
    - apply order_by_sorted.
    - eapply strongly_sorted_impl; [|apply window_sorted, HL]. intros a b Hlt%key_le_cmp.
      rewrite bytes_cmp_flip, Hlt. done.
    - by rewrite order_by_perm. }
  assert (forall r, r ∈ w -> decodes r = true) as Hdec.
  { intros r [_ [_ (t & -> & [_ Ht]%list_elem_of_filter)%list_elem_of_fmap]%list_elem_of_filter]%list_elem_of_filter. by apply HL. }
  assert (forallb decodes (match max_transfers with Some n => take (Z.to_nat n) w | None => w end) = true) as ->; [|done].
  apply forallb_forall. intros r Hr%list_elem_of_In. apply Hdec.
  destruct max_transfers; [by apply elem_of_take in Hr as (i & ?%list_elem_of_lookup_2 & _)|done].
Qed.
End Refine.
