(* ===== verification/BridgeSource.v ===== *)
(** * The data source of the token bridge, from the ledger to the pallet

    Models [src/partner-chains/toolkit/data-sources/db-sync/src/bridge]: how transactions become
    transfers ([mod.rs]), the source that queries at each call ([mod.rs]) and the one that keeps a
    range of blocks in memory ([cache.rs]); [DbSyncConfigurationProvider] of [db_model.rs]; and the
    inherent data provider of [src/partner-chains/toolkit/bridge/primitives/src/lib.rs] with the
    runtime API that it calls.  The database changes between queries, as in [CandidatesSource].
    Hexadecimal decoding and the recipients of the chain are parameters.

    Shows that both sources answer with the ledger's window ([BridgeDb]), whatever was asked
    before, and that the blocks of a chain hand every transfer of the ledger to the pallet's
    handler, in order and once. *)

From stdpp Require Import sorting.
From S2P Require Import Prelude Frame Plutus Domain CNightPrimitives CNightWindow CNightQueries CNightPull Epochs McHash CardanoBlocks BridgeDb PartnerChainsBridge.
Open Scope Z_scope.

(** ** Iterators *)

Fixpoint skip_while {A} (p : A -> bool) (l : list A) : list A :=
  match l with [] => [] | x :: l' => if p x then skip_while p l' else l end.
Fixpoint take_while {A} (p : A -> bool) (l : list A) : list A :=
  match l with [] => [] | x :: l' => if p x then x :: take_while p l' else [] end.

(** ** Scripts *)

Record MainChainScripts := {
  token_policy_id : Bytes;
  token_asset_name : Bytes;
  illiquid_circulation_supply_validator_address : Bytes;
  reserve_validator_address : Bytes
}.
#[export] Instance scripts_eq_dec : EqDecision MainChainScripts.
Proof. solve_decision. Defined.
Definition asset_id (s : MainChainScripts) : Asset :=
  {| policy_id := token_policy_id s; asset_name := token_asset_name s |}.
(** [MainChainScripts::default] *)
Definition default_scripts : MainChainScripts :=
  {| token_policy_id := replicate 28 0; token_asset_name := [];
     illiquid_circulation_supply_validator_address := []; reserve_validator_address := [] |}.

Section Transfers.
Context {Recipient : Type}.
(** [hex::decode] and [RecipientAddress::try_from] *)
Context (hex_decode : Bytes -> option Bytes) (recipient_try_from : Bytes -> option Recipient).
Notation Transfer := (BridgeTransferV1 Bytes Recipient).
Notation Checkpoint := (BridgeDataCheckpoint Bytes Z).

(** [strip_prefix("0x")] *)
Definition strip_0x (s : Bytes) : option Bytes :=
  match s with 48 :: 120 :: s' => Some s' | _ => None end.

Definition metadata_to_recipient (metadata : option JsonValue) : TransferRecipient Recipient :=
  match metadata with
  | Some (JArray [JString str]) =>
      match (str ← strip_0x str; bytes ← hex_decode str; recipient_try_from bytes) with
      | Some recipient => Address recipient
      | None => Invalid
      end
  | _ => Invalid
  end.

Definition tx_to_transfers (tx : BridgeTx) : list Transfer :=
  let reserve_debit := saturating_sub (reserve_in tx) (reserve_out tx) in
  let ics_credit := saturating_sub (bridge_out tx) (bridge_in tx) in
  let locked_amount := saturating_sub ics_credit reserve_debit in
  (if 0 <? reserve_debit then [{| mc_tx_hash := tx_id tx; amount := reserve_debit; recipient := Reserve |}] else []) ++
  (if 0 <? locked_amount
   then [{| mc_tx_hash := tx_id tx; amount := locked_amount; recipient := metadata_to_recipient (c2m_metadata tx) |}] else []).

Fixpoint transfers_loop (max_transfers block_bound : Z) (txs : list BridgeTx) (transfers : list Transfer) (checkpoint : Checkpoint)
    : list Transfer * Checkpoint :=
  match txs with
  | [] => (transfers, if len transfers =? max_transfers then checkpoint else CheckpointBlock block_bound)
  | tx :: txs' =>
      let tx_transfers := tx_to_transfers tx in
      if max_transfers <? len transfers + len tx_transfers then (transfers, checkpoint)
      else transfers_loop max_transfers block_bound txs' (transfers ++ tx_transfers) (CheckpointTx (tx_id tx))
  end.
Definition txs_to_transfers (txs : list BridgeTx) (max_transfers block_bound : Z) : list Transfer * Checkpoint :=
  transfers_loop max_transfers block_bound txs [] (CheckpointBlock block_bound).
End Transfers.

(** ** The cache *)

Record TokenUtxoCache := {
  mc_scripts : MainChainScripts;
  start_block : Z;
  end_block : Z;
  cached_transfers : list BridgeTx;
  tx_cache : gmap Bytes BridgeTx
}.
Definition new_cache : TokenUtxoCache :=
  {| mc_scripts := default_scripts; start_block := 0; end_block := 0; cached_transfers := []; tx_cache := ∅ |}.

Definition set_mc_scripts (scripts : MainChainScripts) (c : TokenUtxoCache) : TokenUtxoCache :=
  if bool_decide (mc_scripts c <> scripts)
  then {| mc_scripts := scripts; start_block := 0; end_block := 0; cached_transfers := []; tx_cache := tx_cache c |}
  else c.

(** [collect] into a hash map: the last one of a key stays *)
Definition set_cached_transfers (start_block end_block : Z) (transfers : list BridgeTx) (c : TokenUtxoCache) : TokenUtxoCache :=
  {| mc_scripts := mc_scripts c; start_block := start_block; end_block := end_block; cached_transfers := transfers;
     tx_cache := foldl (fun m tx => <[tx_id tx := tx]> m) ∅ transfers |}.

Definition serve_from_cache (checkpoint : ResolvedBridgeDataCheckpoint) (to_block max_transfers : Z) (c : TokenUtxoCache)
    : option (list BridgeTx) :=
  if end_block c <? to_block then None
  else
    skip_pred ← match checkpoint with
                | AtBlock number =>
                    if start_block c <=? saturating_add 32 number 1
                    then Some (fun utxo => block_number utxo <=? number) else None
                | AtTx block_number tx_ix =>
                    if start_block c <=? block_number
                    then Some (fun utxo => key_le (ordering_key utxo) (block_number, tx_ix)) else None
                end;
    Some (take (Z.to_nat max_transfers)
            (take_while (fun utxo => block_number utxo <=? to_block) (skip_while skip_pred (cached_transfers c)))).

Definition try_resolve_checkpoint_from_cache (h : Bytes) (c : TokenUtxoCache) : option ResolvedBridgeDataCheckpoint :=
  (fun tx => AtTx (block_number tx) (tx_ix tx)) <$> tx_cache c !! h.

(** ** The sources *)

Inductive SourceError :=
| QueryFailed
| BlockNotFound (h : Bytes)
| TxNotFound (h : Bytes)
| BlockSourceFailed (e : DataSourceErr)
| NotInCache.

(** [blocks]: the cache of the block source, which other sources share; [ticks]: the number of
    queries so far *)
Record Source := {
  cache : TokenUtxoCache;
  tx_in_config : option TxInConfiguration;
  blocks : Cache;
  ticks : nat
}.
Definition set_cache c (s : Source) : Source := {| cache := c; tx_in_config := tx_in_config s; blocks := blocks s; ticks := ticks s |}.
Definition set_config c (s : Source) : Source := {| cache := cache s; tx_in_config := Some c; blocks := blocks s; ticks := ticks s |}.
Definition set_blocks b (s : Source) : Source := {| cache := cache s; tx_in_config := tx_in_config s; blocks := b; ticks := ticks s |}.
Definition advance (n : nat) (s : Source) : Source :=
  {| cache := cache s; tx_in_config := tx_in_config s; blocks := blocks s; ticks := ticks s + n |}.

Section Sources.
Context {pg : Postgres} {Recipient : Type}.
Context (hex_decode : Bytes -> option Bytes) (recipient_try_from : Bytes -> option Recipient).
Context (world : nat -> option Db) (cfg : BlockDataSourceConfig) (cache_lookahead : Z).
Notation Src := (M Source SourceError).
Notation Transfer := (BridgeTransferV1 Bytes Recipient).
Notation Checkpoint := (BridgeDataCheckpoint Bytes Z).

Definition ask {A} (f : Db -> outcome QueryError A) : Src A := fun s =>
  match world (ticks s) with
  | Some d => match f d with Ok a => Ok (a, advance 1 s) | _ => Err QueryFailed end
  | None => Err QueryFailed
  end.

(** A call of the block source, which makes at most [n] queries *)
Definition on_blocks {A} (n : nat) (m : (nat -> option Table) -> M Cache DataSourceErr A) : Src A := fun s =>
  match m (fun i => block <$> world (ticks s + i)%nat) (blocks s) with
  | Ok (a, b) => Ok (a, advance n (set_blocks b s))
  | Err e => Err (BlockSourceFailed e)
  | Panic => Panic
  end.

(** [TxInConfiguration::from_connection] and [DbSyncConfigurationProvider::get_tx_in_config] *)
Definition from_connection : Src TxInConfiguration :=
  let* exists_ := ask (fun d => Ok (tx_in_exists d)) in
  if exists_ then
    let* populated := ask tx_in_populated in
    ret (if populated : bool then Enabled else Consumed)
  else ret Consumed.
Definition get_tx_in_config : Src TxInConfiguration :=
  let* config := gets tx_in_config in
  match config with
  | Some c => ret c
  | None => let* c := from_connection in do* modify (set_config c) in ret c
  end.

(** [resolve_checkpoint_for_tx_hash] *)
Definition resolve_checkpoint_for_tx_hash (h : Bytes) : Src ResolvedBridgeDataCheckpoint :=
  let* info := ask (fun d => Ok (get_block_info_for_tx_hash h d)) in
  let* info := ok_or info (TxNotFound h) in
  ret (AtTx (info_block_number info) (info_tx_ix info)).

(** [TokenBridgeDataSourceImpl::get_transfers] *)
Definition db_get_transfers (scripts : MainChainScripts) (data_checkpoint : Checkpoint) (max_transfers : Z) (current_mc_block_hash : Bytes)
    : Src (list Transfer * Checkpoint) :=
  let* current_mc_block := ask (fun d => Ok (q_block_by_hash current_mc_block_hash (block d))) in
  let* current_mc_block := ok_or current_mc_block (BlockNotFound current_mc_block_hash) in
  let* data_checkpoint :=
    match data_checkpoint with
    | CheckpointTx tx_hash => resolve_checkpoint_for_tx_hash tx_hash
    | CheckpointBlock number => ret (AtBlock number)
    end in
  let* config := get_tx_in_config in
  let* txs := ask (get_bridge_txs config (illiquid_circulation_supply_validator_address scripts) (reserve_validator_address scripts)
                     (asset_id scripts) data_checkpoint (block_no current_mc_block) (Some max_transfers)) in
  ret (txs_to_transfers hex_decode recipient_try_from txs max_transfers (block_no current_mc_block)).

(** *** [CachedTokenBridgeDataSourceImpl] *)

Definition new_source (b : Cache) (n : nat) : Source :=
  {| cache := new_cache; tx_in_config := None; blocks := b; ticks := n |}.

Definition get_block_by_hash (h : Bytes) : Src MainchainBlock :=
  let* b := on_blocks 1 (fun db => src_block_by_hash db h) in ok_or b (BlockNotFound h).

(** The timestamp of the latest block is in seconds, and is passed on as milliseconds. *)
Definition get_latest_stable_block : Src (option Z) :=
  let* latest := on_blocks 1 (fun db => get_latest_block_info db 0) in
  let* stable := on_blocks 2 (fun db => src_latest_stable_block_for cfg db (timestamp latest)) in
  ret (number <$> stable).

Definition resolve_data_checkpoint (data_checkpoint : Checkpoint) : Src ResolvedBridgeDataCheckpoint :=
  match data_checkpoint with
  | CheckpointBlock number => ret (AtBlock number)
  | CheckpointTx tx_hash =>
      let* c := gets cache in
      match try_resolve_checkpoint_from_cache tx_hash c with
      | Some checkpoint => ret checkpoint
      | None => resolve_checkpoint_for_tx_hash tx_hash
      end
  end.

Definition fill_cache (scripts : MainChainScripts) (data_checkpoint : ResolvedBridgeDataCheckpoint) (to_block : Z) : Src unit :=
  let from_block := get_block_number data_checkpoint in
  let effective_data_checkpoint := AtBlock (saturating_sub from_block 1) in
  let* latest_block := get_latest_stable_block in
  let latest_block := default to_block latest_block in
  let to_block := Z.min (saturating_add 32 to_block cache_lookahead) latest_block in
  let* config := get_tx_in_config in
  let* utxos := ask (get_bridge_txs config (illiquid_circulation_supply_validator_address scripts) (reserve_validator_address scripts)
                       (asset_id scripts) effective_data_checkpoint to_block None) in
  modify (fun s => set_cache (set_cached_transfers from_block to_block utxos (cache s)) s).

Definition try_serve_from_cache (data_checkpoint : ResolvedBridgeDataCheckpoint) (to_block max_transfers : Z) : Src (option (list BridgeTx)) :=
  gets (fun s => serve_from_cache data_checkpoint to_block max_transfers (cache s)).

Definition cached_get_transfers (scripts : MainChainScripts) (data_checkpoint : Checkpoint) (max_transfers : Z) (current_mc_block_hash : Bytes)
    : Src (list Transfer * Checkpoint) :=
  do* modify (fun s => set_cache (set_mc_scripts scripts (cache s)) s) in
  let* b := get_block_by_hash current_mc_block_hash in
  let to_block := number b in
  let* data_checkpoint := resolve_data_checkpoint data_checkpoint in
  let* served := try_serve_from_cache data_checkpoint to_block max_transfers in
  let* txs :=
    match served with
    | Some utxos => ret utxos
    | None =>
        do* fill_cache scripts data_checkpoint to_block in
        let* served := try_serve_from_cache data_checkpoint to_block max_transfers in
        ok_or served NotInCache
    end in
  ret (txs_to_transfers hex_decode recipient_try_from txs max_transfers to_block).
End Sources.

(** ** Transfers of a window *)

Section Steps.
Context {Recipient : Type}.
Context (hex_decode : Bytes -> option Bytes) (recipient_try_from : Bytes -> option Recipient).
Notation to_transfers := (tx_to_transfers hex_decode recipient_try_from).
Notation loop := (transfers_loop hex_decode recipient_try_from).
Notation Checkpoint := (BridgeDataCheckpoint Bytes Z).

(** A transaction of the bridge has one or two transfers, and the amounts are what the ICS
    gained or, if that is more, what the reserve released. *)
Lemma tx_to_transfers_bounds tx : moves_tokens tx = true -> 1 <= len (to_transfers tx) <= 2.
Proof.
  unfold moves_tokens, tx_to_transfers, saturating_sub, len. rewrite orb_true_iff, !Z.ltb_lt. intros Hm.
  repeat match goal with |- context [Z.ltb ?a ?b] => destruct (Z.ltb_spec a b) end; simpl; lia.
Qed.
Lemma tx_to_transfers_amount tx :
  sumZ (amount <$> to_transfers tx) =
  Z.max (saturating_sub (bridge_out tx) (bridge_in tx)) (saturating_sub (reserve_in tx) (reserve_out tx)).
Proof.
  unfold tx_to_transfers, saturating_sub.
  repeat match goal with |- context [Z.ltb ?a ?b] => destruct (Z.ltb_spec a b) end; simpl; lia.
Qed.

Lemma loop_spec max bound txs acc cp :
  len acc <= max -> Forall (fun tx => moves_tokens tx = true) txs ->
  exists l1 l2, txs = l1 ++ l2 /\ fst (loop max bound txs acc cp) = acc ++ (l1 ≫= to_transfers) /\
    len (fst (loop max bound txs acc cp)) <= max /\
    (l2 = [] /\ len (acc ++ (l1 ≫= to_transfers)) < max /\ snd (loop max bound txs acc cp) = CheckpointBlock bound \/
     snd (loop max bound txs acc cp) = match last l1 with Some tx => CheckpointTx (tx_id tx) | None => cp end) /\
    (l1 = [] -> txs = [] \/ max < len acc + 2).
Proof.
  revert acc cp. induction txs as [|tx txs IH]; intros acc cp Hacc Hm.
  - exists [], []. simpl. rewrite app_nil_r. split_and!; [done..| |by left].
    destruct (Z.eqb_spec (len acc) max); [by right|left]. split_and!; [done|lia|done].
  - apply Forall_cons in Hm as [Htx Hm]. pose proof (tx_to_transfers_bounds tx Htx). cbn [transfers_loop].
    destruct (Z.ltb_spec max (len acc + len (to_transfers tx))) as [Hlt|Hle].
    + exists [], (tx :: txs). simpl. rewrite app_nil_r. split_and!; [done..|by right|]. right. lia.
    + destruct (IH (acc ++ to_transfers tx) (CheckpointTx (tx_id tx))) as (l1 & l2 & -> & Hf & Hl & Hc & _); [|done|].
      { unfold len in *. rewrite length_app. lia. }
      exists (tx :: l1), l2. rewrite bind_cons, app_assoc. split_and!; [done..| |done].
      destruct Hc as [Hc|Hc]; [by left|right]. rewrite Hc. destruct l1 as [|y l1 _] using rev_ind; [done|].
      by rewrite app_comm_cons, !last_snoc.
Qed.

Lemma bind_transfers_length txs : Forall (fun tx => moves_tokens tx = true) txs -> len txs <= len (txs ≫= to_transfers).
Proof.
  induction 1 as [|tx txs Htx _ IH]; [done|]. rewrite bind_cons. pose proof (tx_to_transfers_bounds tx Htx).
  unfold len in *. rewrite length_app. simpl. lia.
Qed.
End Steps.

(** ** Checkpoints *)

Section Windows.
Variables (L : Ledger) (scripts : MainChainScripts).
Hypothesis HL : ledger_ok L.
Let txs := bridge_txs L (illiquid_circulation_supply_validator_address scripts) (reserve_validator_address scripts) (asset_id scripts).
(** The transactions of the bridge after a checkpoint, up to a block *)
Definition pending (c : ResolvedBridgeDataCheckpoint) (to_block : Z) : list BridgeTx :=
  window L (illiquid_circulation_supply_validator_address scripts) (reserve_validator_address scripts) (asset_id scripts) c to_block.
Notation lt := (fun a b => key_le (ordering_key b) (ordering_key a) = false).

Lemma pending_sorted c to_block : StronglySorted lt (pending c to_block).
Proof. by apply window_sorted. Qed.
Lemma txs_sorted : StronglySorted lt txs.
Proof. apply StronglySorted_filter. eapply StronglySorted_fmap; [|apply StronglySorted_filter, (lg_order _ HL)]. done. Qed.
Lemma pending_moves c to_block : Forall (fun tx => moves_tokens tx = true) (pending c to_block).
Proof. apply Forall_forall. by intros tx [_ [? _]%list_elem_of_filter]%list_elem_of_filter. Qed.
Lemma pending_tx c to_block r : r ∈ pending c to_block ->
  exists t, t ∈ l_txs L /\ t_hash t = tx_id r /\ block_number r = tx_number t /\ tx_ix r = t_block_index t.
Proof.
  intros [_ [_ (t & -> & [_ Ht]%list_elem_of_filter)%list_elem_of_fmap]%list_elem_of_filter]%list_elem_of_filter. by exists t.
Qed.

(** A sorted list in two parts *)
Lemma filter_split (p p1 p2 : BridgeTx -> bool) (l : list BridgeTx) :
  StronglySorted lt l -> (forall x, x ∈ l -> p x = p1 x || p2 x) -> (forall x, x ∈ l -> p1 x = true -> p2 x = false) ->
  (forall x y, x ∈ l -> y ∈ l -> lt x y -> p2 x = true -> p1 y = false) ->
  filter (fun x => p x = true) l = filter (fun x => p1 x = true) l ++ filter (fun x => p2 x = true) l.
Proof.
  induction 1 as [|x l Hs IH Hx]; intros Hp Hd Ho; [done|]. rewrite Forall_forall in Hx. rewrite !filter_cons.
  assert (filter (fun x => p x = true) l = filter (fun x => p1 x = true) l ++ filter (fun x => p2 x = true) l) as ->.
  { apply IH; intros; [apply Hp|apply Hd|eapply Ho]; eauto; by right. }
  rewrite (Hp x) by left. destruct (p1 x) eqn:H1.
  - rewrite (Hd x) by (done || left). done.
  - destruct (p2 x) eqn:H2; [|done]. simpl.
    rewrite (filter_none (fun x => p1 x = true)) by (intros y Hy; rewrite (Ho x y); [done|left|by right|by apply Hx|done]).
    done.
Qed.

Lemma pending_split c to_block T : get_block_number c <= to_block <= T ->
  pending c T = pending c to_block ++ pending (AtBlock to_block) T.
Proof.
  intros Hc. apply filter_split; [apply txs_sorted|..]; unfold between, ordering_key, after_checkpoint; simpl.
  - intros x _. destruct c as [b i|b]; simpl in *; unfold key_le; simpl;
      apply eq_iff_eq_true; rewrite ?orb_true_iff, ?andb_true_iff, ?negb_true_iff, ?orb_false_iff, ?andb_false_iff; lia.
  - intros x _. rewrite andb_true_iff, andb_false_iff. lia.
  - intros x y _ _ Hlt. rewrite andb_true_iff, andb_false_iff. unfold key_le in Hlt. simpl in Hlt.
    apply orb_false_iff in Hlt as [Hlt _]. lia.
Qed.

(** After the last one of a part that has been taken *)
Lemma after_last (l1 l2 : list BridgeTx) r : StronglySorted lt (l1 ++ l2) -> last l1 = Some r ->
  filter (fun x => after_checkpoint (AtTx (block_number r) (tx_ix r)) (ordering_key x) = true) (l1 ++ l2) = l2.
Proof.
  intros Hs Hr. apply last_Some in Hr as [l ->]. rewrite <-app_assoc in Hs |- *. simpl in *.
  apply StronglySorted_app in Hs as (Hl & _ & Hs). inversion Hs as [|? ? Hs' Hr]; subst. rewrite Forall_forall in Hr.
  rewrite filter_app, filter_cons. change (block_number r, tx_ix r) with (ordering_key r).
  rewrite (filter_none _ l), decide_False, (filter_all _ l2).
  - done.
  - intros x Hx. apply negb_true_iff. by apply Hr.
  - rewrite negb_true_iff. unfold key_le. rewrite Z.eqb_refl, Z.ltb_irrefl, Z.leb_refl. done.
  - intros x Hx. rewrite negb_true_iff, not_false_iff_true. apply order_key_total. apply Hl; [done|left].
Qed.

Lemma pending_after c to_block T l1 l2 r : get_block_number c <= to_block <= T -> pending c to_block = l1 ++ l2 -> last l1 = Some r ->
  pending (AtTx (block_number r) (tx_ix r)) T = l2 ++ pending (AtBlock to_block) T.
Proof.
  intros Hc Hw Hr.
  assert (r ∈ pending c to_block) as Hin by (rewrite Hw; apply last_Some in Hr as [l ->]; set_solver).
  assert (pending (AtTx (block_number r) (tx_ix r)) T =
    filter (fun x => after_checkpoint (AtTx (block_number r) (tx_ix r)) (ordering_key x) = true) (pending c T)) as ->.
  { unfold pending, window. rewrite list_filter_filter. apply list_filter_iff. intros x.
    apply list_elem_of_filter in Hin as [Hin _]. unfold between in *. rewrite !andb_true_iff in *.
    split; [|tauto]. intros [Ha Ht]. split; [done|]. split; [|done]. destruct Hin as [Hin _]. revert Ha Hin.
    unfold ordering_key, after_checkpoint. destruct c; rewrite ?negb_true_iff; unfold key_le; simpl;
      rewrite ?orb_false_iff, ?andb_false_iff; lia. }
  pose proof (pending_sorted c T) as Hs. rewrite (pending_split c to_block T), Hw, <-app_assoc in * by done.
  by apply after_last.
Qed.

(** What a checkpoint of the pallet stands for *)
Definition resolves (h : Z) (c : BridgeDataCheckpoint Bytes Z) (r : ResolvedBridgeDataCheckpoint) : Prop :=
  match c with
  | CheckpointBlock n => r = AtBlock n /\ 0 <= n < 2 ^ 32
  | CheckpointTx hash => exists t, t ∈ l_txs L /\ t_hash t = hash /\ tx_number t <= h /\ r = AtTx (tx_number t) (t_block_index t)
  end.
End Windows.

(** ** Answers *)

Section Answers.
Context {Recipient : Type}.
Context (hex_decode : Bytes -> option Bytes) (recipient_try_from : Bytes -> option Recipient) (L : Ledger).

(** What both sources answer *)
Definition answer (scripts : MainChainScripts) (r : ResolvedBridgeDataCheckpoint) (max_transfers to_block : Z) :=
  txs_to_transfers hex_decode recipient_try_from (take (Z.to_nat max_transfers) (pending L scripts r to_block)) max_transfers to_block.

Hypothesis HL : ledger_ok L.

(** One answer after the other *)

Lemma answer_step scripts r max_transfers to_block : 2 <= max_transfers -> 0 <= to_block < 2 ^ 31 -> get_block_number r <= to_block ->
  exists l1 l2 r', pending L scripts r to_block = l1 ++ l2 /\
    fst (answer scripts r max_transfers to_block) = l1 ≫= tx_to_transfers hex_decode recipient_try_from /\
    len (fst (answer scripts r max_transfers to_block)) <= max_transfers /\
    resolves L to_block (snd (answer scripts r max_transfers to_block)) r' /\ get_block_number r' <= to_block /\
    (forall T, to_block <= T -> pending L scripts r' T = l2 ++ pending L scripts (AtBlock to_block) T) /\
    (pending L scripts r to_block <> [] -> l1 <> []).
Proof.
  intros Hmax Hto Hr. unfold answer, txs_to_transfers. set (w := pending L scripts r to_block).
  pose proof (pending_moves L scripts r to_block) as Hm. fold w in Hm.
  destruct (loop_spec hex_decode recipient_try_from max_transfers to_block (take (Z.to_nat max_transfers) w) [] (CheckpointBlock to_block))
    as (l1 & l2 & Htake & Hfst & Hlen & Hc & Hne); [unfold len; simpl; lia|by apply Forall_take|].
  rewrite Hfst in *. cbn [app] in *.
  assert (w = l1 ++ l2 ++ drop (Z.to_nat max_transfers) w) as Hw by (rewrite app_assoc, <-Htake, take_drop; done).
  assert (w <> [] -> l1 <> []) as Hne'.
  { intros Hw0 Hl1. destruct (Hne Hl1) as [H0|H0]; [|unfold len in H0; simpl in H0; lia].
    destruct w as [|x w']; [done|]. destruct (Z.to_nat max_transfers) eqn:Hz; [lia|done]. }
  destruct (last l1) as [x|] eqn:Hlast.
  - destruct Hc as [(Hl2 & Hlt & Hsnd)|Hsnd]; rewrite Hsnd.
    + exists l1, [], (AtBlock to_block). split_and!; [|done|done|split; [done|lia]|simpl; lia|done|done].
      rewrite app_nil_r. subst l2. rewrite app_nil_r in Htake. rewrite <-Htake. symmetry. apply take_ge.
      pose proof (bind_transfers_length hex_decode recipient_try_from l1) as Hb.
      specialize (Hb ltac:(rewrite <-Htake; by apply Forall_take)). rewrite <-Htake in Hb at 1.
      unfold len in Hb, Hlt. rewrite length_take in Hb. lia.
    + assert (x ∈ w) as Hx by (rewrite Hw; apply last_Some in Hlast as [l ->]; set_solver).
      destruct (pending_tx _ _ _ _ _ Hx) as (t & Ht & Hh & Hnum & Hix).
      apply list_elem_of_filter in Hx as [Hx _]. unfold between in Hx. apply andb_true_iff in Hx as [_ Hx%Z.leb_le].
      exists l1, (l2 ++ drop (Z.to_nat max_transfers) w), (AtTx (block_number x) (tx_ix x)).
      split_and!; [done|done|done| |simpl; lia| |done].
      * exists t. rewrite Hnum, Hix. split_and!; [done|done|lia|done].
      * intros T HT. by apply (pending_after L scripts HL r to_block T l1).
  - apply last_None in Hlast as ->. assert (w = []) as Hw0 by (destruct w; [done|]; by destruct Hne').
    exists [], [], (AtBlock to_block). rewrite Hw0 in *. rewrite take_nil in Htake. symmetry in Htake. apply app_eq_nil in Htake as [_ ->].
    destruct Hc as [(_ & _ & Hsnd)|Hsnd]; rewrite Hsnd; split_and!; done || (simpl; lia) || (split; [done|lia]).
Qed.
End Answers.

(** ** Iterators over sorted lists *)

Lemma skip_while_filter {A} (R : relation A) (p : A -> bool) (l : list A) :
  StronglySorted R l -> (forall x y, x ∈ l -> y ∈ l -> R x y -> p y = true -> p x = true) ->
  skip_while p l = filter (fun x => negb (p x) = true) l.
Proof.
  induction 1 as [|x l Hs IH Hx]; intros Hp; [done|]. rewrite Forall_forall in Hx. simpl. rewrite filter_cons.
  destruct (p x) eqn:Hpx; cbn [negb].
  - rewrite decide_False by done. apply IH. intros y z Hy Hz. apply Hp; by right.
  - rewrite decide_True by done. f_equal. symmetry. apply filter_all. intros y Hy.
    destruct (p y) eqn:Hpy; [|done]. rewrite (Hp x y) in Hpx; [done|left|by right|by apply Hx|done].
Qed.
Lemma take_while_filter {A} (R : relation A) (p : A -> bool) (l : list A) :
  StronglySorted R l -> (forall x y, x ∈ l -> y ∈ l -> R x y -> p y = true -> p x = true) ->
  take_while p l = filter (fun x => p x = true) l.
Proof.
  induction 1 as [|x l Hs IH Hx]; intros Hp; [done|]. rewrite Forall_forall in Hx. simpl. rewrite filter_cons.
  destruct (p x) eqn:Hpx.
  - rewrite decide_True by done. f_equal. apply IH. intros y z Hy Hz. apply Hp; by right.
  - rewrite decide_False by done. symmetry. apply filter_none. intros y Hy Hpy.
    rewrite (Hp x y) in Hpx; [done|left|by right|by apply Hx|done].
Qed.

(** ** Runs that return *)

Definition returns {S E A} (P : S -> Prop) (m : M S E A) (a : A) (Q : S -> Prop) : Prop :=
  forall s, P s -> exists s', m s = Ok (a, s') /\ Q s'.
Lemma returns_bind {S E A B} (P : S -> Prop) (m : M S E A) a Q (k : A -> M S E B) b R :
  returns P m a Q -> returns Q (k a) b R -> returns P (bind m k) b R.
Proof. intros Hm Hk s Hs. destruct (Hm s Hs) as (s1 & Hs1 & HQ). rewrite (bind_Ok _ _ _ _ _ Hs1). by apply Hk. Qed.
Lemma returns_ret {S E A} (P : S -> Prop) (a : A) : returns (E:=E) P (ret a) a P.
Proof. intros s Hs. by exists s. Qed.
Lemma returns_weaken {S E A} (P P' Q Q' : S -> Prop) (m : M S E A) a :
  (forall s, P s -> P' s) -> (forall s, Q' s -> Q s) -> returns P' m a Q' -> returns P m a Q.
Proof. intros HP HQ Hm s Hs. destruct (Hm s (HP s Hs)) as (s' & ? & ?). eauto. Qed.

(** ** The sources answer with the ledger's window *)

Section Follows.
Context {pg : Postgres} {pg_laws : PostgresLaws} {Recipient : Type}.
Context (hex_decode : Bytes -> option Bytes) (recipient_try_from : Bytes -> option Recipient).
Context (world : nat -> option Db) (cfg : BlockDataSourceConfig) (cache_lookahead : Z).
Context (L : Ledger) (conf : TxInConfiguration) (height : nat -> Z).

(** How Db-Sync is configured, as the tables tell *)
Definition config_of (d : Db) : TxInConfiguration :=
  match tx_in d with Some (_ :: _) => Enabled | _ => Consumed end.

(** What query number [n] sees: the ledger up to the block [height n] *)
Record sees (n : nat) (d : Db) : Prop := {
  se_represents : represents conf (height n) L d;
  se_table : table_ok cfg (block d);
  se_config : config_of d = conf;
  se_hashes a b : a ∈ tx d -> b ∈ tx d -> t_hash a = t_hash b -> a = b;
  se_times b : b ∈ block d -> 10 ^ 12 <= time b < 10 ^ 15 (* after 2001 *)
}.
Record follows : Prop := {
  fo_ledger : ledger_ok L;
  fo_sees n : exists d, world n = Some d /\ sees n d;
  fo_schema n m d d' : world n = Some d -> world m = Some d' -> tx_in_exists d = tx_in_exists d';
  fo_height n m : (n <= m)%nat -> height n <= height m;
  fo_blocks b : b ∈ l_blocks L -> 0 <= block_no b < 2 ^ 31;
  fo_hashes a b : a ∈ l_blocks L -> b ∈ l_blocks L -> b_hash a = b_hash b -> a = b;
  fo_cfg : config_ok cfg;
  fo_boundary : max_slot_boundary cfg <= 10 ^ 9; (* less than eleven days *)
  fo_calendar ts : 0 <= ts <= 10 ^ 12 -> representable cfg ts = true;
  fo_lookahead : 0 <= cache_lookahead
}.
Hypothesis Hf : follows.

(** What the range of blocks in memory holds *)
Record cache_ok (c : TokenUtxoCache) : Prop := {
  ca_start : 0 <= start_block c;
  ca_transfers : cached_transfers c = pending L (mc_scripts c) (AtBlock (saturating_sub (start_block c) 1)) (end_block c);
  ca_txs h r : tx_cache c !! h = Some r ->
    exists t, t ∈ l_txs L /\ t_hash t = h /\ block_number r = tx_number t /\ tx_ix r = t_block_index t
}.
Record source_ok (n : nat) (s : Source) : Prop := {
  so_ticks : (n <= ticks s)%nat;
  so_cache : cache_ok (cache s);
  so_config : match tx_in_config s with Some c => c = conf | None => True end;
  so_blocks b : b ∈ from_last_by_hash (blocks s) -> b ∈ l_blocks L /\ 0 <= time b
}.

Lemma pending_block0 scripts c to_block : to_block <= 0 -> pending L scripts c to_block = [].
Proof.
  intros Hto. apply filter_none. intros r Hr. apply list_elem_of_filter in Hr as [_ Hr].
  apply list_elem_of_fmap in Hr as (t & -> & Ht). apply list_elem_of_filter in Ht as [_ Ht].
  pose proof (lg_bounds _ (fo_ledger Hf) t Ht). unfold between. rewrite andb_true_iff, Z.leb_le. simpl. lia.
Qed.

Lemma new_cache_ok : cache_ok new_cache.
Proof. split; [done| |done]. symmetry. by apply pending_block0. Qed.
Lemma new_source_ok b n : (forall x, x ∈ from_last_by_hash b -> x ∈ l_blocks L /\ 0 <= time x) -> source_ok n (new_source b n).
Proof. intros Hb. split; [done|apply new_cache_ok|done|done]. Qed.

Lemma set_mc_scripts_ok scripts c : cache_ok c -> cache_ok (set_mc_scripts scripts c) /\ mc_scripts (set_mc_scripts scripts c) = scripts.
Proof.
  intros Hc. unfold set_mc_scripts. case_bool_decide as Hs; [|by destruct (decide (mc_scripts c = scripts))].
  split; [|done]. split; [done| |apply Hc]. symmetry. by apply pending_block0.
Qed.

Lemma set_cached_transfers_ok c start_block end_block : 0 <= start_block -> cache_ok c ->
  cache_ok (set_cached_transfers start_block end_block (pending L (mc_scripts c) (AtBlock (saturating_sub start_block 1)) end_block) c).
Proof.
  intros Hs Hc. split; [done|done|]. cbn [set_cached_transfers tx_cache].
  set (l := pending _ _ _ _). assert (forall r, r ∈ l -> exists t, t ∈ l_txs L /\ t_hash t = tx_id r /\ block_number r = tx_number t /\ tx_ix r = t_block_index t) as Hl
    by (intros r; apply pending_tx).
  induction l as [|r l IH] using rev_ind; intros h r' Hr'; [done|]. rewrite foldl_app in Hr'. simpl in Hr'.
  apply lookup_insert_Some in Hr' as [[<- <-]|[_ Hr']].
  - apply Hl. set_solver.
  - apply (IH ltac:(intros; apply Hl; set_solver) h r' Hr').
Qed.

(** What the cache serves *)
Lemma serve_is_window c checkpoint to_block max_transfers : cache_ok c -> 0 <= get_block_number checkpoint < 2 ^ 32 ->
  serve_from_cache checkpoint to_block max_transfers c =
  if (to_block <=? end_block c) &&
     (start_block c <=? match checkpoint with AtBlock n => saturating_add 32 n 1 | AtTx n _ => n end)
  then Some (take (Z.to_nat max_transfers) (pending L (mc_scripts c) checkpoint to_block)) else None.
Proof.
  intros Hc Hcp. unfold serve_from_cache. destruct (Z.ltb_spec (end_block c) to_block) as [Hlt|Hle].
  { by rewrite (proj2 (Z.leb_gt _ _)). }
  rewrite (proj2 (Z.leb_le _ _)) by done. cbn [andb].
  pose proof (pending_sorted L (mc_scripts c) (fo_ledger Hf) (AtBlock (saturating_sub (start_block c) 1)) (end_block c)) as Hs.
  rewrite <-(ca_transfers _ Hc) in Hs.
  assert (forall p, (forall x y, key_le (ordering_key y) (ordering_key x) = false -> p y = true -> p x = true) ->
    (forall r, r ∈ bridge_txs L (illiquid_circulation_supply_validator_address (mc_scripts c))
         (reserve_validator_address (mc_scripts c)) (asset_id (mc_scripts c)) ->
      negb (p r) && (block_number r <=? to_block) = true ->
      start_block c <= block_number r) ->
    (forall r, negb (p r) = after_checkpoint checkpoint (ordering_key r)) ->
    take_while (fun utxo => block_number utxo <=? to_block) (skip_while p (cached_transfers c)) = pending L (mc_scripts c) checkpoint to_block) as Hw.
  { intros p Hp Hst Ha. rewrite (skip_while_filter _ _ _ Hs) by (intros; eapply Hp; eauto).
    erewrite take_while_filter; [|by apply StronglySorted_filter, Hs|].
    - rewrite (ca_transfers _ Hc). unfold pending, window. rewrite !list_filter_filter. apply filter_ext_elem. intros r Hr.
      unfold between. rewrite Ha, !andb_true_iff, !Z.leb_le. specialize (Hst r Hr). rewrite Ha, andb_true_iff, Z.leb_le in Hst.
      split; [tauto|]. intros [Haf Hto]. specialize (Hst (conj Haf Hto)). split_and!; [done|done| |lia].
      apply list_elem_of_filter in Hr as [_ (t & -> & [_ Ht]%list_elem_of_filter)%list_elem_of_fmap].
      pose proof (lg_bounds _ (fo_ledger Hf) t Ht). simpl in *. apply Z.ltb_lt. unfold saturating_sub. lia.
    - intros x y _ _ Hlt. simpl. rewrite !Z.leb_le. unfold key_le in Hlt. apply orb_false_iff in Hlt as [Hlt _].
      unfold ordering_key in Hlt. simpl in Hlt. lia. }
  destruct checkpoint as [b i|b]; simpl in Hcp.
  - destruct (start_block c <=? b) eqn:Hb; cbn [mbind option_bind]; [|done]. do 2 f_equal. apply Hw; [..|done].
    + intros x y Hxy. rewrite !key_le_iff. unfold key_le in Hxy. rewrite orb_false_iff, andb_false_iff in Hxy. lia.
    + intros r _. rewrite andb_true_iff, negb_true_iff. intros [Hk _]. unfold key_le in Hk. simpl in Hk.
      apply orb_false_iff in Hk as [Hk _]. lia.
  - destruct (start_block c <=? saturating_add 32 b 1) eqn:Hb; cbn [mbind option_bind]; [|done]. do 2 f_equal. apply Hw.
    + intros x y Hxy. rewrite !Z.leb_le. unfold key_le in Hxy. rewrite orb_false_iff in Hxy. unfold ordering_key in Hxy. simpl in Hxy. lia.
    + intros r _. rewrite andb_true_iff, negb_true_iff, Z.leb_gt. unfold saturating_add, umax in Hb. lia.
    + intros r. simpl. by rewrite <-Z.ltb_antisym.
Qed.

(** *** Queries *)

Lemma head_filter_unique {A} (P : A -> Prop) `{!forall x, Decision (P x)} (l : list A) x :
  x ∈ l -> P x -> (forall y, y ∈ l -> P y -> y = x) -> head (filter P l) = Some x.
Proof.
  intros Hx HP Hu. destruct (filter P l) as [|y l'] eqn:Hl.
  - assert (x ∈ filter P l) as Hin by (by apply list_elem_of_filter). rewrite Hl in Hin. by apply elem_of_nil in Hin.
  - assert (y ∈ filter P l) as [HPy Hy]%list_elem_of_filter by (rewrite Hl; left). simpl. by rewrite (Hu y).
Qed.

(** The cache [c], in a source whose next query is number [n] or later *)
Definition holds (n : nat) (c : TokenUtxoCache) (s : Source) : Prop := source_ok n s /\ cache s = c.

Lemma ask_returns {A} n c (f : Db -> outcome QueryError A) a :
  (forall m d, (n <= m)%nat -> world m = Some d -> sees m d -> f d = Ok a) -> returns (holds n c) (ask world f) a (holds n c).
Proof.
  intros Hask s [Hs Hc]. destruct (fo_sees Hf (ticks s)) as (d & Hw & Hd). exists (advance 1 s). unfold ask. rewrite Hw.
  rewrite (Hask _ d (so_ticks _ _ Hs) Hw Hd). split; [done|]. split; [|done].
  split; [simpl; pose proof (so_ticks _ _ Hs); lia|apply Hs..].
Qed.

Lemma config_returns n c : returns (holds n c) (get_tx_in_config world) conf (holds n c).
Proof.
  destruct (fo_sees Hf 0) as (d0 & Hw0 & _).
  assert (returns (holds n c) (from_connection world) conf (holds n c)) as Hfc.
  { unfold from_connection. eapply returns_bind.
    - apply (ask_returns _ _ _ (tx_in_exists d0)). intros m d _ Hw _. by rewrite (fo_schema Hf m 0 d d0).
    - destruct (tx_in_exists d0) eqn:He.
      + eapply returns_bind.
        * apply (ask_returns _ _ _ (if conf then true else false)). intros m d _ Hw Hd. pose proof (se_config _ _ Hd) as Hconf.
          pose proof (fo_schema Hf m 0 d d0 Hw Hw0) as Hs. rewrite He in Hs. unfold tx_in_exists, config_of, tx_in_populated in *.
          destruct (tx_in d) as [[|i l]|]; [| |done]; by rewrite <-Hconf.
        * replace (if conf then true else false : bool) with (if conf then true else false) by done.
          destruct conf; apply returns_ret.
      + replace conf with Consumed; [apply returns_ret|]. destruct (fo_sees Hf 0) as (d & Hw & Hd).
        rewrite <-(se_config _ _ Hd). assert (tx_in_exists d = false) as Hn by (by rewrite (fo_schema Hf 0 0 d d0)).
        unfold tx_in_exists, config_of in *. by destruct (tx_in d). }
  intros s Hs. unfold get_tx_in_config, gets, bind at 1. pose proof (so_config _ _ (proj1 Hs)) as Hconf.
  destruct (tx_in_config s) as [c'|]; [subst; by exists s|].
  destruct (Hfc s Hs) as (s1 & Hs1 & [Hok Hc]). rewrite (bind_Ok _ _ _ _ _ Hs1). eexists. split; [done|].
  split; [|done]. split; [apply Hok|apply Hok|done|apply Hok].
Qed.

Section Tip.
Variables (n : nat) (tip : Block).
Hypothesis Htip : tip ∈ l_blocks L.
Hypothesis Hseen : block_no tip <= height n.

Lemma tip_in m d : (n <= m)%nat -> sees m d -> tip ∈ block d.
Proof.
  intros Hm Hd. pose proof (fo_height Hf n m Hm).
  assert (tip ∈ filter (fun b => block_no b <= height m) (block d)) as Hin.
  { rewrite (rp_blocks _ _ _ _ (se_represents _ _ Hd)). apply list_elem_of_filter. split; [lia|done]. }
  by apply list_elem_of_filter in Hin as [_ ?].
Qed.
Lemma tip_by_hash m d : (n <= m)%nat -> sees m d -> q_block_by_hash (b_hash tip) (block d) = Some tip.
Proof. intros Hm Hd. apply (by_hash_Some cfg); [apply Hd|]. split; [by eapply tip_in|done]. Qed.

Lemma block_by_hash_returns c : returns (holds n c) (get_block_by_hash world (b_hash tip)) (mainchain_block tip) (holds n c).
Proof.
  intros s [Hs Hc]. destruct (fo_sees Hf (ticks s)) as (d & Hw & Hd). pose proof (so_ticks _ _ Hs) as Ht.
  assert (src_block_by_hash (fun i => block <$> world (ticks s + i)%nat) (b_hash tip) (blocks s) = Ok (Some (mainchain_block tip), blocks s)) as Hb.
  { unfold src_block_by_hash, get, bind at 1. cbn beta iota. destruct (find_by_hash (b_hash tip) (blocks s)) as [b|] eqn:Hfind.
    - unfold find_by_hash in Hfind. assert (b ∈ from_last_by_hash (blocks s) /\ b_hash b = b_hash tip) as [Hin Hh].
      { destruct (filter _ _) as [|b' l] eqn:Hl; [done|]. injection Hfind as ->.
        assert (b ∈ filter (fun b => b_hash b = b_hash tip) (from_last_by_hash (blocks s))) as Hb by (rewrite Hl; left).
        apply list_elem_of_filter in Hb. tauto. }
      destruct (so_blocks _ _ Hs b Hin) as [HbL Htime]. assert (b = tip) as -> by (apply (fo_hashes Hf); done).
      unfold map_block, bind, ret. by rewrite to_mainchain_block_Ok.
    - unfold query, ok_or, bind, ret. rewrite Nat.add_0_r, Hw. cbn [fmap option_fmap option_map].
      rewrite (tip_by_hash (ticks s) d Ht Hd). unfold map_block, bind, ret.
      by rewrite (to_mainchain_block_row cfg (block d) (se_table _ _ Hd)) by (by eapply tip_in). }
  unfold get_block_by_hash, bind at 1, on_blocks. rewrite Hb. eexists. split; [done|].
  split; [|done]. split; [simpl; lia|apply Hs..].
Qed.

(** The reference time is in 1970, before the blocks: no block is found. *)
Lemma latest_stable_None c : returns (holds n c) (get_latest_stable_block world cfg) None (holds n c).
Proof.
  intros s [Hs Hc]. pose proof (so_ticks _ _ Hs) as Ht.
  destruct (fo_sees Hf (ticks s)) as (d & Hw & Hd).
  destruct (fo_sees Hf (ticks s + 1)) as (d1 & Hw1 & Hd1). destruct (fo_sees Hf (ticks s + 1 + 1)) as (d2 & Hw2 & Hd2).
  assert (forall m d, (n <= m)%nat -> sees m d -> exists l, highest (block d) = Some l /\ l ∈ block d) as Hne.
  { intros m d' Hm Hd'. pose proof (tip_in m d' Hm Hd') as Hin. destruct (highest (block d')) as [l|] eqn:Hl.
    - exists l. split; [done|]. by apply highest_spec in Hl as [? _].
    - apply highest_None in Hl. rewrite Hl in Hin. by apply elem_of_nil in Hin. }
  destruct (Hne _ d Ht Hd) as (l & Hl & Hlin). destruct (Hne (ticks s + 1)%nat d1 ltac:(lia) Hd1) as (l1 & Hl1 & Hl1in).
  pose proof (se_times _ _ Hd l Hlin) as Htl.
  assert (get_latest_block_info (fun i => block <$> world (ticks s + i)%nat) 0 (blocks s) = Ok (mainchain_block l, blocks s)) as Hi.
  { unfold get_latest_block_info, query, q_latest_block_info, ok_or, bind, ret. rewrite Nat.add_0_r, Hw.
    cbn [fmap option_fmap option_map]. rewrite Hl. apply (to_mainchain_block_row cfg (block d) (se_table _ _ Hd)). done. }
  unfold get_latest_stable_block, bind at 1, on_blocks at 1. rewrite Hi.
  set (s1 := advance 1 (set_blocks (blocks s) s)).
  set (ts := timestamp (mainchain_block l)).
  assert (10 ^ 9 <= ts < 10 ^ 12) as Hts.
  { unfold ts. simpl. split; [apply Z.div_le_lower_bound; lia|apply Z.div_lt_upper_bound; lia]. }
  assert (src_latest_stable_block_for cfg (fun i => block <$> world (ticks s1 + i)%nat) ts (blocks s1) = Ok (None, blocks s1)) as Hst.
  { unfold src_latest_stable_block_for. pose proof (db_type_answer cfg ts (blocks s1)) as Hty. unfold time_ok in Hty.
    rewrite (fo_calendar Hf), (proj2 (Z.leb_le _ _)) in Hty by lia. rewrite (bind_Ok _ _ _ _ _ Hty).
    assert (get_latest_block_info (fun i => block <$> world (ticks s1 + i)%nat) 0 (blocks s1) = Ok (mainchain_block l1, blocks s1)) as Hi1.
    { unfold get_latest_block_info, query, q_latest_block_info, ok_or, bind, ret. cbn [ticks s1 advance set_blocks].
      rewrite Nat.add_0_r, Hw1. cbn [fmap option_fmap option_map]. rewrite Hl1.
      apply (to_mainchain_block_row cfg (block d1) (se_table _ _ Hd1)). done. }
    rewrite (bind_Ok _ _ _ _ _ Hi1). unfold get_latest_block, min_block_allowed_time, max_allowed_block_time.
    destruct (boundaries _ (fo_cfg Hf)) as [Hmin Hmax]. pose proof (fo_boundary Hf).
    destruct (slot_of_time cfg (block d2) (fo_cfg Hf) (se_table _ _ Hd2) (ts - max_slot_boundary cfg) (blocks s1)) as (x1 & Hx1 & _); [lia|].
    destruct (slot_of_time cfg (block d2) (fo_cfg Hf) (se_table _ _ Hd2) (ts - min_slot_boundary cfg) (blocks s1)) as (x2 & Hx2 & _); [lia|].
    rewrite (bind_Ok _ _ _ None (blocks s1)); [done|]. rewrite (bind_Ok _ _ _ _ _ Hx1), (bind_Ok _ _ _ _ _ Hx2).
    unfold query, ok_or, bind, ret. cbn [ticks s1 advance set_blocks]. rewrite Hw2. cbn [fmap option_fmap option_map].
    assert (forall i a b c, q_highest_block i a b (ts - min_slot_boundary cfg) c (block d2) = None) as Hq; [|by rewrite Hq].
    intros i a b c'. destruct (q_highest_block _ _ _ _ _ _) as [x|] eqn:Hx; [|done].
    apply highest_spec in Hx as [Hx _]. apply list_elem_of_filter in Hx as [Hx Hin]. pose proof (se_times _ _ Hd2 x Hin). lia. }
  unfold bind at 1, on_blocks. rewrite Hst. eexists. split; [done|]. split; [|done].
  split; [simpl; lia|apply Hs..].
Qed.

Lemma lookup_returns c h t : t ∈ l_txs L -> t_hash t = h -> tx_number t <= height n ->
  returns (holds n c) (resolve_checkpoint_for_tx_hash world h) (AtTx (tx_number t) (t_block_index t)) (holds n c).
Proof.
  intros Ht Hh Hn. unfold resolve_checkpoint_for_tx_hash. eapply returns_bind.
  - apply (ask_returns _ _ _ (Some {| info_block_number := tx_number t; info_tx_ix := t_block_index t |})).
    intros m d Hm _ Hd. pose proof (fo_height Hf n m Hm). assert (t ∈ tx d) as Hin.
    { assert (t ∈ filter (fun t => tx_number t <= height m) (tx d)) as Hin; [|by apply list_elem_of_filter in Hin as [_ ?]].
      rewrite (rp_txs _ _ _ _ (se_represents _ _ Hd)). apply list_elem_of_filter. split; [lia|done]. }
    unfold get_block_info_for_tx_hash. rewrite (head_filter_unique _ _ t); [done..|].
    intros y Hy Hyh. apply (se_hashes _ _ Hd); [done|done|congruence].
  - apply returns_ret.
Qed.

Lemma resolve_returns c checkpoint r : cache_ok c -> resolves L (height n) checkpoint r ->
  returns (holds n c) (resolve_data_checkpoint world checkpoint) r (holds n c).
Proof.
  intros Hc Hr. destruct checkpoint as [h|b]; [|destruct Hr as [-> _]; apply returns_ret].
  destruct Hr as (t & Ht & Hh & Hn & ->). unfold resolve_data_checkpoint. intros s Hs. unfold gets, bind at 1.
  replace (cache s) with c by (symmetry; apply Hs). revert s Hs. unfold try_resolve_checkpoint_from_cache.
  destruct (tx_cache c !! h) as [x|] eqn:Hx; cbn [fmap option_fmap option_map].
  - destruct (ca_txs _ Hc h x Hx) as (t' & Ht' & Hh' & -> & ->).
    rewrite (lg_hashes _ (fo_ledger Hf) t' t) by (done || congruence). apply returns_ret.
  - by apply lookup_returns.
Qed.

Lemma bridge_txs_returns c scripts checkpoint max_transfers :
  returns (holds n c)
    (ask world (get_bridge_txs conf (illiquid_circulation_supply_validator_address scripts) (reserve_validator_address scripts)
       (asset_id scripts) checkpoint (block_no tip) max_transfers))
    (let w := pending L scripts checkpoint (block_no tip) in match max_transfers with Some k => take (Z.to_nat k) w | None => w end)
    (holds n c).
Proof.
  apply ask_returns. intros m d Hm _ Hd. pose proof (fo_blocks Hf tip Htip). pose proof (fo_height Hf n m Hm).
  apply (bridge_query conf (height m) L d (fo_ledger Hf) (se_represents _ _ Hd)); lia.
Qed.

(** The range is filled up to the block that is asked for, and no further. *)
Lemma fill_returns c scripts r : 0 <= get_block_number r -> mc_scripts c = scripts ->
  let c' := set_cached_transfers (get_block_number r) (block_no tip)
              (pending L scripts (AtBlock (saturating_sub (get_block_number r) 1)) (block_no tip)) c in
  returns (holds n c) (fill_cache world cfg cache_lookahead scripts r (block_no tip)) tt (holds n c').
Proof.
  intros Hr Hsc c'. unfold fill_cache. eapply returns_bind; [apply latest_stable_None|]. cbn [default].
  pose proof (fo_blocks Hf tip Htip). pose proof (fo_lookahead Hf).
  replace (Z.min (saturating_add 32 (block_no tip) cache_lookahead) (block_no tip)) with (block_no tip)
    by (unfold saturating_add, umax; lia).
  eapply returns_bind; [apply config_returns|]. eapply returns_bind; [apply bridge_txs_returns|].
  intros s [Hs Hc]. eexists. split; [done|]. rewrite Hc. split; [|done]. subst scripts.
  split; [apply Hs|apply set_cached_transfers_ok; [done|rewrite <-Hc; apply Hs]|apply Hs..].
Qed.

Lemma resolves_number checkpoint r : resolves L (height n) checkpoint r -> 0 <= get_block_number r < 2 ^ 32.
Proof.
  destruct checkpoint as [h|b]; [intros (t & Ht & _ & _ & ->)|by intros [-> Hb]].
  pose proof (lg_bounds _ (fo_ledger Hf) t Ht). simpl. lia.
Qed.

Lemma serve_filled c scripts r max_transfers : cache_ok c -> mc_scripts c = scripts -> 0 <= get_block_number r < 2 ^ 32 ->
  start_block c = get_block_number r -> end_block c = block_no tip ->
  serve_from_cache r (block_no tip) max_transfers c = Some (take (Z.to_nat max_transfers) (pending L scripts r (block_no tip))).
Proof.
  intros Hc <- Hr Hst He. rewrite serve_is_window by done. rewrite Hst, He, Z.leb_refl. cbn [andb].
  rewrite (proj2 (Z.leb_le _ _)); [done|]. destruct r; simpl in *; [lia|]. unfold saturating_add, umax. lia.
Qed.

Lemma cached_returns scripts checkpoint r max_transfers c : resolves L (height n) checkpoint r ->
  returns (holds n c)
    (cached_get_transfers hex_decode recipient_try_from world cfg cache_lookahead scripts checkpoint max_transfers (b_hash tip))
    (answer hex_decode recipient_try_from L scripts r max_transfers (block_no tip))
    (fun s => source_ok n s /\ (cache s = set_mc_scripts scripts c \/ end_block (cache s) = block_no tip)).
Proof.
  intros Hr s [Hs <-]. pose proof (resolves_number _ _ Hr) as Hn. destruct (set_mc_scripts_ok scripts (cache s) (so_cache _ _ Hs)) as [Hc Hsc].
  set (c := set_mc_scripts scripts (cache s)) in *.
  unfold cached_get_transfers, modify, bind at 1. fold c.
  assert (holds n c (set_cache c s)) as Hh by (split; [|done]; split; [apply Hs|done|apply Hs..]).
  revert Hh. generalize (set_cache c s). clearbody c. clear s Hs.
  change (returns (holds n c) (let* b := get_block_by_hash world (b_hash tip) in
    let to_block := number b in
    let* data_checkpoint := resolve_data_checkpoint world checkpoint in
    let* served := try_serve_from_cache data_checkpoint to_block max_transfers in
    let* txs := match served with
      | Some utxos => ret utxos
      | None => do* fill_cache world cfg cache_lookahead scripts data_checkpoint to_block in
          let* served := try_serve_from_cache data_checkpoint to_block max_transfers in ok_or served NotInCache
      end in
    ret (txs_to_transfers hex_decode recipient_try_from txs max_transfers to_block))
    (answer hex_decode recipient_try_from L scripts r max_transfers (block_no tip))
    (fun s => source_ok n s /\ (cache s = c \/ end_block (cache s) = block_no tip))).
  eapply returns_bind; [apply block_by_hash_returns|]. cbn [number mainchain_block].
  eapply returns_bind; [by apply resolve_returns|].
  assert (forall c, returns (holds n c) (try_serve_from_cache r (block_no tip) max_transfers)
    (serve_from_cache r (block_no tip) max_transfers c) (holds n c)) as Htry.
  { intros c1 s [Hs Hc1]. exists s. unfold try_serve_from_cache, gets. by rewrite Hc1. }
  eapply returns_bind; [apply Htry|].
  set (txs := take (Z.to_nat max_transfers) (pending L scripts r (block_no tip))).
  eapply (returns_bind _ _ txs (fun s => source_ok n s /\ (cache s = c \/ end_block (cache s) = block_no tip))); [|apply returns_ret].
  rewrite serve_is_window by done. rewrite Hsc. fold txs. destruct (_ && _).
  - eapply (returns_weaken _ (holds n c) _ (holds n c)); [done|intros s []; auto|apply returns_ret].
  - eapply returns_bind; [by apply fill_returns; [lia|]|].
    eapply returns_bind; [apply Htry|].
    erewrite serve_filled; [| |done|done|done|done].
    + eapply returns_weaken; [| |apply returns_ret]; [done|]. intros s [Hs Hcs]. split; [done|]. right. by rewrite Hcs.
    + subst scripts. by apply set_cached_transfers_ok; [lia|].
Qed.

Lemma db_returns scripts checkpoint r max_transfers : resolves L (height n) checkpoint r ->
  returns (source_ok n)
    (db_get_transfers hex_decode recipient_try_from world scripts checkpoint max_transfers (b_hash tip))
    (answer hex_decode recipient_try_from L scripts r max_transfers (block_no tip)) (source_ok n).
Proof.
  intros Hr s Hs. assert (holds n (cache s) s) as Hh by done. revert Hh. generalize (cache s). clear Hs. intros c Hh.
  cut (returns (holds n c) (db_get_transfers hex_decode recipient_try_from world scripts checkpoint max_transfers (b_hash tip))
    (answer hex_decode recipient_try_from L scripts r max_transfers (block_no tip)) (holds n c)).
  { intros Hret. destruct (Hret s Hh) as (s' & ? & [? _]). eauto. }
  unfold db_get_transfers. eapply returns_bind.
  { apply (ask_returns _ _ _ (Some tip)). intros m d Hm _ Hd. by rewrite (tip_by_hash m d Hm Hd). }
  eapply returns_bind; [apply returns_ret|]. eapply (returns_bind _ _ r).
  { destruct checkpoint as [h|b]; [|destruct Hr as [-> _]; apply returns_ret].
    destruct Hr as (t & Ht & Hh' & Hnum & ->). by apply lookup_returns. }
  eapply returns_bind; [apply config_returns|]. eapply returns_bind; [apply bridge_txs_returns|]. apply returns_ret.
Qed.
End Tip.

End Follows.


(** ** The inherent data provider *)

(** The trait of the data sources; [S] is what a node keeps for its source. *)
Class TokenBridgeDataSource (S Recipient : Type) :=
  get_transfers : MainChainScripts -> BridgeDataCheckpoint Bytes Z -> Z -> Bytes ->
    M S SourceError (list (BridgeTransferV1 Bytes Recipient) * BridgeDataCheckpoint Bytes Z).

Inductive InherentDataCreationError :=
| ApiError
| SourceFailed (e : SourceError)
| UnsupportedPalletVersion (v highest : Z).

(** The methods of the runtime API *)
Inductive ApiMethod := ApiMainChainScripts | ApiMaxTransfersPerBlock | ApiLastDataCheckpoint.

Section Provider.
Context {Origin AccountId Recipient H : Type}.
Notation State := (PartnerChainsBridge.State (McTxHash:=Bytes) (McBlockNumber:=Z) (Scripts:=MainChainScripts) (H:=H)).
Notation Data := (TokenBridgeTransfersV1 Bytes Z Recipient).
Context (pallet : PartnerChainsBridge.Config (Origin:=Origin)).

(** The client at the parent of a block: the state of the pallet, the version of the API in the
    runtime there, or [None] if it cannot be read, and the calls that succeed *)
Record Client := { parent_state : State; api_version : option (option Z); responds : ApiMethod -> bool }.

Inductive TokenBridgeInherentDataProvider := Inert | ActiveV1 (data : Data).

Definition api_call {A} (c : Client) (m : ApiMethod) (f : State -> A) : outcome InherentDataCreationError A :=
  if responds c m then Ok (f (parent_state c)) else Err ApiError.

Section New.
Context {S : Type} {src : TokenBridgeDataSource S Recipient}.

Definition new_v1 (c : Client) (current_mc_hash : Bytes) : M S InherentDataCreationError TokenBridgeInherentDataProvider := fun st =>
  let! max_transfers := api_call c ApiMaxTransfersPerBlock (fun _ => get_max_transfers_per_block pallet) in
  let! last_checkpoint := api_call c ApiLastDataCheckpoint get_data_checkpoint in
  match last_checkpoint with
  | None => Ok (Inert, st)
  | Some last_checkpoint =>
      let! main_chain_scripts := api_call c ApiMainChainScripts get_main_chain_scripts in
      match main_chain_scripts with
      | None => Ok (Inert, st)
      | Some main_chain_scripts =>
          match get_transfers main_chain_scripts last_checkpoint max_transfers current_mc_hash st with
          | Ok ((transfers, new_checkpoint), st') => Ok (ActiveV1 {| transfers := transfers; data_checkpoint := new_checkpoint |}, st')
          | Err e => Err (SourceFailed e)
          | Panic => Panic
          end
      end
  end.

Definition new_provider (c : Client) (current_mc_hash : Bytes) : M S InherentDataCreationError TokenBridgeInherentDataProvider := fun st =>
  match api_version c with
  | None => Err ApiError
  | Some None => Ok (Inert, st)
  | Some (Some pallet_version) =>
      if pallet_version =? 1 then new_v1 c current_mc_hash st else Err (UnsupportedPalletVersion pallet_version 1)
  end.
End New.

(** What [provide_inherent_data] puts into the inherent data *)
Definition provide_inherent_data (p : TokenBridgeInherentDataProvider) : InherentData (McTxHash:=Bytes) (McBlockNumber:=Z) (Recipient:=Recipient) :=
  match p with Inert => Some None | ActiveV1 data => Some (Some data) end.
End Provider.
Arguments TokenBridgeInherentDataProvider Recipient : clear implicits.
Arguments Client H : clear implicits.

(** ** What a source promises *)

Section Promise.
Context {Recipient : Type}.
Context (hex_decode : Bytes -> option Bytes) (recipient_try_from : Bytes -> option Recipient) (L : Ledger).

(** A source that is [ready] for a block of the ledger answers with the ledger's window. *)
Class AnswersWithLedger (S : Type) {src : TokenBridgeDataSource S Recipient} (ready : S -> Block -> Prop) :=
  source_answers st tip scripts checkpoint r max_transfers : ready st tip -> tip ∈ l_blocks L -> resolves L (block_no tip) checkpoint r ->
    exists st', get_transfers scripts checkpoint max_transfers (b_hash tip) st =
                Ok (answer hex_decode recipient_try_from L scripts r max_transfers (block_no tip), st').
End Promise.

Lemma resolves_weaken L h h' checkpoint r : h <= h' -> resolves L h checkpoint r -> resolves L h' checkpoint r.
Proof. intros Hh. destruct checkpoint as [x|b]; [|done]. intros (t & Ht & Hx & Hn & Hr). exists t. split_and!; [done|done|lia|done]. Qed.

Section Instances.
Context {pg : Postgres} {pg_laws : PostgresLaws} {Recipient : Type}.
Context (hex_decode : Bytes -> option Bytes) (recipient_try_from : Bytes -> option Recipient).
Context (world : nat -> option Db) (cfg : BlockDataSourceConfig) (cache_lookahead : Z).
Context (L : Ledger) (conf : TxInConfiguration) (height : nat -> Z).

Definition db_source : TokenBridgeDataSource Source Recipient := db_get_transfers hex_decode recipient_try_from world.
Definition cached_source : TokenBridgeDataSource Source Recipient :=
  cached_get_transfers hex_decode recipient_try_from world cfg cache_lookahead.
(** The database of the node has the block, whatever was asked before. *)
Definition ready (st : Source) (tip : Block) : Prop := exists n, source_ok L conf n st /\ block_no tip <= height n.

Lemma db_source_answers : follows world cfg cache_lookahead L conf height ->
  AnswersWithLedger hex_decode recipient_try_from L Source (src:=db_source) ready.
Proof.
  intros Hf st tip scripts checkpoint r max_transfers (n & Hok & Hn) Htip Hr.
  destruct (db_returns hex_decode recipient_try_from world cfg cache_lookahead L conf height Hf n tip Htip Hn scripts checkpoint r max_transfers
    (resolves_weaken _ _ _ _ _ Hn Hr) st Hok) as (st' & Hst & _). by exists st'.
Qed.
Lemma cached_source_answers : follows world cfg cache_lookahead L conf height ->
  AnswersWithLedger hex_decode recipient_try_from L Source (src:=cached_source) ready.
Proof.
  intros Hf st tip scripts checkpoint r max_transfers (n & Hok & Hn) Htip Hr.
  destruct (cached_returns hex_decode recipient_try_from world cfg cache_lookahead L conf height Hf n tip Htip Hn scripts checkpoint r max_transfers
    (cache st) (resolves_weaken _ _ _ _ _ Hn Hr) st ltac:(done)) as (st' & Hst & _). by exists st'.
Qed.
End Instances.

(** ** Blocks of a chain *)

Section Chain.
Context {Origin AccountId Recipient H : Type}.
Context `{!EqDecision Recipient} `{!Origins Origin AccountId} `{!TransferHandler H Bytes Recipient}.
Notation State := (PartnerChainsBridge.State (McTxHash:=Bytes) (McBlockNumber:=Z) (Scripts:=MainChainScripts) (H:=H)).
Context (pallet : PartnerChainsBridge.Config (Origin:=Origin)) (none : Origin).
Context {S : Type} {src : TokenBridgeDataSource S Recipient}.

(** A block: the node that makes it asks its source, creates the inherent and executes it. *)
Definition run_block (st : S) (tip : Block) (s : State) : option State :=
  let c := {| parent_state := s; api_version := Some (Some 1); responds _ := true |} in
  match new_provider pallet c (b_hash tip) st with
  | Ok (p, _) =>
      match create_inherent (Scripts:=MainChainScripts) pallet (provide_inherent_data p) with
      | Ok (Some (Call_handle_transfers ts checkpoint)) =>
          match (do* handle_transfers none ts checkpoint in on_finalize) s with Ok (_, s') => Some s' | _ => None end
      | Ok None => match on_finalize s with Ok (_, s') => Some s' | _ => None end
      | _ => None
      end
  | _ => None
  end.
Fixpoint run_blocks (l : list (S * Block)) (s : State) : option State :=
  match l with [] => Some s | (st, tip) :: l' => s' ← run_block st tip s; run_blocks l' s' end.

Context (hex_decode : Bytes -> option Bytes) (recipient_try_from : Bytes -> option Recipient) (L : Ledger).
Context {ready : S -> Block -> Prop} `{Hans : !AnswersWithLedger hex_decode recipient_try_from L S ready} `{!TotalHandler H Bytes Recipient}.
Notation to_transfers := (tx_to_transfers hex_decode recipient_try_from).

(** The pallet with its scripts, between blocks: its checkpoint stands for [r], not after block [b] *)
Record observes (scripts : MainChainScripts) (b : Z) (r : ResolvedBridgeDataCheckpoint) (s : State) : Prop := {
  ob_scripts : MainChainScriptsConfiguration s = Some scripts;
  ob_executed : InherentExecutedThisBlock s = false;
  ob_checkpoint : exists c, DataCheckpoint s = Some c /\ resolves L b c r;
  ob_number : get_block_number r <= b
}.
(** Main chain references of blocks: blocks of the ledger whose numbers do not decrease *)
Fixpoint references (b : Z) (l : list (S * Block)) : Prop :=
  match l with
  | [] => True
  | (st, tip) :: l' => ready st tip /\ tip ∈ l_blocks L /\ b <= block_no tip /\ 0 <= block_no tip < 2 ^ 31 /\ references (block_no tip) l'
  end.
Definition last_number (b : Z) (l : list (S * Block)) : Z := match last l with Some x => block_no (snd x) | None => b end.

Hypothesis HL : ledger_ok L.
Hypothesis Hnone : is_Some (ensure_none none).
Hypothesis Hmax : 2 <= MaxTransfersPerBlock pallet.

Lemma block_step scripts b r s st tip : observes scripts b r s -> ready st tip -> tip ∈ l_blocks L -> b <= block_no tip -> 0 <= block_no tip < 2 ^ 31 ->
  exists s' r' l1 l2, run_block st tip s = Some s' /\ observes scripts (block_no tip) r' s' /\
    pending L scripts r (block_no tip) = l1 ++ l2 /\ handle_all (l1 ≫= to_transfers) (handler s) = Ok (tt, handler s') /\
    (forall T, block_no tip <= T -> pending L scripts r' T = l2 ++ pending L scripts (AtBlock (block_no tip)) T) /\
    (pending L scripts r (block_no tip) <> [] -> l1 <> []).
Proof.
  intros [Hsc Hex (c & Hc & Hr) Hn] Hready Htip Hb Hbound.
  pose proof (resolves_weaken _ _ _ _ _ Hb Hr) as Hr'.
  destruct (Hans st tip scripts c r (MaxTransfersPerBlock pallet) Hready Htip Hr') as (st' & Hget).
  destruct (answer_step hex_decode recipient_try_from L HL scripts r (MaxTransfersPerBlock pallet) (block_no tip) Hmax Hbound ltac:(lia))
    as (l1 & l2 & r' & Hw & Hfst & Hlen & Hres & Hnum & Hpend & Hne).
  destruct (answer _ _ _ _ _ _ _) as [ts c'] eqn:Ha. cbn [fst snd] in *. subst ts.
  destruct (handle_all_total (l1 ≫= to_transfers) (handler s)) as [h' Hh].
  exists (set_executed false (set_checkpoint c' (set_handler h' (set_executed true s)))), r', l1, l2.
  split_and!; [|split; [done|done|by exists c'|done]|done|done|done|done].
  unfold run_block, new_provider, new_v1, api_call, get_data_checkpoint, get_main_chain_scripts, get_max_transfers_per_block.
  cbn [api_version Z.eqb Pos.eqb responds parent_state obind]. rewrite Hc, Hsc, Hget. cbn [provide_inherent_data].
  unfold create_inherent, bounded_try_from. cbn [decode_inherent_data transfers data_checkpoint].
  rewrite (proj2 (Z.leb_le _ _)) by done. unfold bind. rewrite handle_transfers_eq.
  destruct Hnone as [u ->]. by rewrite Hex, Hh.
Qed.

Lemma blocks_run scripts b r s l : observes scripts b r s -> references b l ->
  exists s' r' taken, run_blocks l s = Some s' /\ observes scripts (last_number b l) r' s' /\
    handle_all (taken ≫= to_transfers) (handler s) = Ok (tt, handler s') /\
    (forall T, last_number b l <= T -> pending L scripts r T = taken ++ pending L scripts r' T).
Proof.
  revert b r s. induction l as [|[st tip] l IH]; intros b r s Hs Hl.
  - exists s, r, []. by split_and!.
  - destruct Hl as (Hready & Htip & Hb & Hbound & Hl).
    destruct (block_step scripts b r s st tip Hs Hready Htip Hb Hbound) as (s1 & r1 & l1 & l2 & Hrun & Hs1 & Hw & Hh & Hp & _).
    destruct (IH _ _ _ Hs1 Hl) as (s' & r' & taken & Hrun' & Hs' & Hh' & Hp').
    assert (last_number b ((st, tip) :: l) = last_number (block_no tip) l) as Hlast by (unfold last_number; rewrite last_cons; by destruct (last l)).
    assert (block_no tip <= last_number (block_no tip) l) as Hle.
    { clear -Hl. revert Hl. generalize (block_no tip). induction l as [|[st' tip'] l IH]; intros x Hl; [by unfold last_number|].
      destruct Hl as (_ & _ & Hx & _ & Hl). specialize (IH _ Hl). unfold last_number in *. rewrite last_cons.
      destruct (last l); simpl in *; lia. }
    rewrite Hlast. exists s', r', (l1 ++ taken). split_and!; [|done| |].
    + simpl. rewrite Hrun. done.
    + rewrite bind_app. by rewrite (handle_all_app _ _ _ _ Hh).
    + intros T HT. rewrite (pending_split L scripts HL r (block_no tip) T) by (pose proof (ob_number _ _ _ _ Hs); lia).
      rewrite Hw, <-!app_assoc. f_equal. rewrite <-Hp by lia. apply Hp'. lia.
Qed.
End Chain.

(** ** The states of a node's source *)

Section Reached.
Context {pg : Postgres} {Recipient : Type}.
Context (hex_decode : Bytes -> option Bytes) (recipient_try_from : Bytes -> option Recipient).
Context (world : nat -> option Db) (cfg : BlockDataSourceConfig) (cache_lookahead : Z) (L : Ledger) (conf : TxInConfiguration) (height : nat -> Z).

(** A call for a block that the database has, with a checkpoint that it can resolve *)
Definition answerable (s : Source) (tip : Block) (checkpoint : BridgeDataCheckpoint Bytes Z) (r : ResolvedBridgeDataCheckpoint) : Prop :=
  tip ∈ l_blocks L /\ block_no tip <= height (ticks s) /\ resolves L (height (ticks s)) checkpoint r.

Inductive reached : Source -> Prop :=
| reached_new b n : (forall x, x ∈ from_last_by_hash b -> x ∈ l_blocks L /\ 0 <= time x) -> reached (new_source b n)
| reached_call s tip scripts checkpoint r max_transfers a s' : reached s -> answerable s tip checkpoint r ->
    cached_get_transfers hex_decode recipient_try_from world cfg cache_lookahead scripts checkpoint max_transfers (b_hash tip) s = Ok (a, s') ->
    reached s'
| reached_failed s scripts k : reached s -> (* a call fails before it replaces the cached range *)
    reached (advance k (set_cache (set_mc_scripts scripts (cache s)) s))
| reached_shared s b : reached s -> (* another source uses the block source *)
    (forall x, x ∈ from_last_by_hash b -> x ∈ l_blocks L /\ 0 <= time x) -> reached (set_blocks b s).

Lemma reached_ok {pg_laws : PostgresLaws} s :
  follows world cfg cache_lookahead L conf height -> reached s -> source_ok L conf (ticks s) s.
Proof.
  intros Hf. induction 1 as [b n Hb|s tip scripts checkpoint r max a s' _ IH (Htip & Hn & Hr) Hcall|s scripts k _ IH|s b _ IH Hb].
  - by apply (new_source_ok world cfg cache_lookahead L conf height).
  - destruct (cached_returns hex_decode recipient_try_from world cfg cache_lookahead L conf height Hf (ticks s) tip Htip Hn scripts
      checkpoint r max (cache s) Hr s ltac:(done)) as (s1 & Hs1 & Hok & _). rewrite Hs1 in Hcall. injection Hcall as _ ->.
    split; [done|apply Hok..].
  - split; [done| |apply IH..]. by eapply set_mc_scripts_ok; [|apply IH].
  - split; [done|apply IH|apply IH|done].
Qed.
End Reached.

(** C15: the source that keeps a range of blocks in memory answers every call as the source that
    queries the database at each call does, and both with the ledger's window, after whatever calls,
    failures and interleaved uses of the shared block source.  The checkpoint is one of the ledger
    and the block that is asked for is one that the database has. *)
Theorem bridge_cache_is_transparent {pg : Postgres} {pg_laws : PostgresLaws} {Recipient : Type}
    (hex_decode : Bytes -> option Bytes) (recipient_try_from : Bytes -> option Recipient)
    (world : nat -> option Db) cfg cache_lookahead (L : Ledger) conf height s tip scripts checkpoint r max_transfers :
  follows world cfg cache_lookahead L conf height ->
  reached hex_decode recipient_try_from world cfg cache_lookahead L height s ->
  answerable L height s tip checkpoint r ->
  let a := answer hex_decode recipient_try_from L scripts r max_transfers (block_no tip) in
  (exists s', cached_get_transfers hex_decode recipient_try_from world cfg cache_lookahead scripts checkpoint max_transfers (b_hash tip) s = Ok (a, s')) /\
  exists s', db_get_transfers hex_decode recipient_try_from world scripts checkpoint max_transfers (b_hash tip) s = Ok (a, s').
Proof.
  intros Hf Hs (Htip & Hn & Hr) a. pose proof (reached_ok _ _ _ _ _ _ _ _ _ Hf Hs) as Hok. split.
  - destruct (cached_returns hex_decode recipient_try_from world cfg cache_lookahead L conf height Hf (ticks s) tip Htip Hn scripts
      checkpoint r max_transfers (cache s) Hr s ltac:(done)) as (s' & Hs' & _). by exists s'.
  - destruct (db_returns hex_decode recipient_try_from world cfg cache_lookahead L conf height Hf (ticks s) tip Htip Hn scripts
      checkpoint r max_transfers Hr s Hok) as (s' & Hs' & _). by exists s'.
Qed.

(** The lookahead is not loaded: the block source is asked for the latest stable block with a
    time in seconds, which it takes for milliseconds and finds no block for, so the range in memory
    ends with the block that was asked for. *)
Lemma lookahead_is_not_loaded {pg : Postgres} {pg_laws : PostgresLaws} {Recipient : Type}
    (hex_decode : Bytes -> option Bytes) (recipient_try_from : Bytes -> option Recipient)
    (world : nat -> option Db) cfg cache_lookahead (L : Ledger) conf height s tip scripts checkpoint r max_transfers a s' :
  follows world cfg cache_lookahead L conf height ->
  reached hex_decode recipient_try_from world cfg cache_lookahead L height s ->
  answerable L height s tip checkpoint r ->
  cached_get_transfers hex_decode recipient_try_from world cfg cache_lookahead scripts checkpoint max_transfers (b_hash tip) s = Ok (a, s') ->
  end_block (cache s') <= Z.max (end_block (cache s)) (block_no tip).
Proof.
  intros Hf Hs (Htip & Hn & Hr) Hcall. pose proof (reached_ok _ _ _ _ _ _ _ _ _ Hf Hs) as Hok.
  destruct (cached_returns hex_decode recipient_try_from world cfg cache_lookahead L conf height Hf (ticks s) tip Htip Hn scripts
    checkpoint r max_transfers (cache s) Hr s ltac:(done)) as (s1 & Hs1 & _ & Hend).
  rewrite Hs1 in Hcall. injection Hcall as _ <-.
  pose proof (fo_blocks _ _ _ _ _ _ Hf tip Htip). destruct Hend as [->| ->]; [|lia].
  unfold set_mc_scripts. case_bool_decide; simpl; lia.
Qed.

(** C10: the blocks of a chain hand the transfers of Cardano's ledger to the handler of the pallet
    in order and once: the transactions after the checkpoint of the first state are, for every
    height that the references have reached, those whose transfers were handled followed by those
    after the checkpoint of the last state; every such block can be made. *)
Theorem bridge_delivers_transfers {Origin AccountId Recipient H : Type} `{!EqDecision Recipient} `{!Origins Origin AccountId}
    `{!TransferHandler H Bytes Recipient} `{!TotalHandler H Bytes Recipient}
    (pallet : PartnerChainsBridge.Config (Origin:=Origin)) (none : Origin)
    (hex_decode : Bytes -> option Bytes) (recipient_try_from : Bytes -> option Recipient) (L : Ledger)
    {S : Type} {src : TokenBridgeDataSource S Recipient} {ready : S -> Block -> Prop}
    `{!AnswersWithLedger hex_decode recipient_try_from L S ready} scripts b r s l :
  ledger_ok L -> is_Some (ensure_none none) -> 2 <= MaxTransfersPerBlock pallet ->
  observes L scripts b r s -> references L (ready:=ready) b l ->
  exists s' r' taken, run_blocks pallet none l s = Some s' /\ observes L scripts (last_number b l) r' s' /\
    handle_all (taken ≫= tx_to_transfers hex_decode recipient_try_from) (handler s) = Ok (tt, handler s') /\
    forall T, last_number b l <= T -> pending L scripts r T = taken ++ pending L scripts r' T.
Proof. intros HL Hnone Hmax Hs Hl. by apply (blocks_run pallet none hex_decode recipient_try_from L). Qed.

(** C35: no transfer waits forever: with as many blocks as there are transactions of the bridge up
    to a reference, every one of them has been handled. *)
Theorem bridge_catches_up {Origin AccountId Recipient H : Type} `{!EqDecision Recipient} `{!Origins Origin AccountId}
    `{!TransferHandler H Bytes Recipient} `{!TotalHandler H Bytes Recipient}
    (pallet : PartnerChainsBridge.Config (Origin:=Origin)) (none : Origin)
    (hex_decode : Bytes -> option Bytes) (recipient_try_from : Bytes -> option Recipient) (L : Ledger)
    {S : Type} {src : TokenBridgeDataSource S Recipient} {ready : S -> Block -> Prop}
    `{!AnswersWithLedger hex_decode recipient_try_from L S ready} scripts b r s tip l :
  ledger_ok L -> is_Some (ensure_none none) -> 2 <= MaxTransfersPerBlock pallet ->
  observes L scripts b r s -> references L (ready:=ready) b l -> Forall (fun x => snd x = tip) l ->
  (length (pending L scripts r (block_no tip)) <= length l)%nat -> b <= block_no tip ->
  exists s', run_blocks pallet none l s = Some s' /\
    handle_all (pending L scripts r (block_no tip) ≫= tx_to_transfers hex_decode recipient_try_from) (handler s) = Ok (tt, handler s').
Proof.
  intros HL Hnone Hmax. revert b r s. induction l as [|[st t] l IH]; intros b r s Hs Hl Htips Hlen Hb.
  - destruct (pending _ _ _ _) as [|x w]; [|simpl in Hlen; lia]. by exists s.
  - apply Forall_cons in Htips as [Ht Htips]. simpl in Ht. subst t. destruct Hl as (Hready & Htip & Hle & Hbound & Hl).
    destruct (block_step pallet none hex_decode recipient_try_from L HL Hnone Hmax scripts b r s st tip Hs Hready Htip Hle Hbound)
      as (s1 & r1 & l1 & l2 & Hrun & Hs1 & Hw & Hh & Hp & Hne).
    assert (pending L scripts r1 (block_no tip) = l2) as Hl2.
    { rewrite Hp by lia. assert (pending L scripts (AtBlock (block_no tip)) (block_no tip) = []) as ->; [|by rewrite app_nil_r].
      apply filter_none. intros x _. unfold between. simpl. rewrite andb_true_iff, Z.ltb_lt, Z.leb_le. lia. }
    destruct (IH (block_no tip) r1 s1 Hs1 Hl Htips) as (s' & Hrun' & Hh'); [|done|].
    { rewrite Hl2. rewrite Hw in Hlen, Hne. destruct l1 as [|y l1]; [|rewrite length_app in Hlen; simpl in Hlen; lia].
      simpl in Hne. destruct l2 as [|z l2]; [simpl; lia|]. by destruct Hne. }
    exists s'. split; [simpl; by rewrite Hrun|]. rewrite Hw, bind_app, (handle_all_app _ _ _ _ Hh). by rewrite Hl2 in Hh'.
Qed.

(** ** An example *)

Module BridgeExample.
Definition mk (n : Z) : Block :=
  {| block_no := n; b_hash := repeat n 32; epoch_no := 0; slot_no := 20 * n; time := 10 ^ 12 + 20000 * n |}.
Definition cfg : BlockDataSourceConfig := {|
  security_parameter := 1; min_slot_boundary := 10000; max_slot_boundary := 100000;
  mainchain_epoch_config := {| epoch_duration_millis := 432000000; slot_duration_millis := 1000;
    first_epoch_timestamp_millis := 10 ^ 12; first_epoch_number := 0; mc_first_slot_number := 0 |};
  block_stability_margin := 0; max_latest_block_age_seconds := 60; cache_size := 10; representable := fun _ => true |}.
Definition scripts : MainChainScripts :=
  {| token_policy_id := [7]; token_asset_name := []; illiquid_circulation_supply_validator_address := [73]; reserve_validator_address := [82] |}.

(** [tx_a] locks 5 tokens; [tx_b] releases 10 from the reserve and locks 2 more. *)
Definition tx_a : Tx := {| t_hash := [1]; t_block := mk 1; t_block_index := 0 |}.
Definition tx_b : Tx := {| t_hash := [2]; t_block := mk 2; t_block_index := 0 |}.
Definition out (t : Tx) (i : Z) (a : Bytes) (by_ : option Tx) : TxOut := {| o_tx := t; o_index := i; o_address := a; o_consumed_by := by_ |}.
Definition row (o : TxOut) (q : Z) : MaTxOut := {| m_tx_out := o; m_ident := {| ma_policy := [7]; ma_name := [] |}; m_quantity := q |}.
Definition outs : list TxOut := [out tx_a 0 [82] (Some tx_b); out tx_a 1 [73] None; out tx_b 0 [82] None; out tx_b 1 [73] None].
Definition json : JsonValue := JArray [JString [48; 120; 9]].
Definition d : Db := {|
  block := mk <$> [0; 1; 2; 3]; tx := [tx_a; tx_b]; tx_out := outs;
  tx_in := Some [{| i_tx := tx_b; i_out_tx := tx_a; i_out_index := 0 |}];
  ma_tx_out := [row (out tx_a 0 [82] (Some tx_b)) 100; row (out tx_a 1 [73] None) 5; row (out tx_b 0 [82] None) 90; row (out tx_b 1 [73] None) 12];
  tx_metadata := [{| md_tx := tx_b; md_key := TOKEN_TRANSFER_METADATUM_KEY; md_json := Some json |}] |}.
Definition world (n : nat) : option Db := Some d.
Definition L : Ledger := {|
  l_blocks := block d; l_txs := tx d; l_tokens := view_token <$> ma_tx_out d; l_spends := spends_in Enabled d;
  l_metadata t := if decide (t = tx_b) then Some json else None |}.
Definition height (n : nat) : Z := 3.

Lemma in_blocks b : b ∈ block d -> exists i, b = mk i /\ 0 <= i <= 3.
Proof. intros (i & -> & Hi)%list_elem_of_fmap. exists i. split; [done|]. set_unfold. lia. Qed.
Lemma highest_d : highest (block d) = Some (mk 3).
Proof. reflexivity. Qed.
Lemma d_table : table_ok cfg (block d).
Proof.
  split.
  - intros a b (i & -> & _)%in_blocks (j & -> & _)%in_blocks [= ->]. done.
  - intros a b (i & -> & _)%in_blocks (j & -> & _)%in_blocks [= ->]. done.
  - intros a b (i & -> & _)%in_blocks (j & -> & _)%in_blocks. simpl. lia.
  - intros a (i & -> & Hi)%in_blocks. simpl. lia.
  - intros a (i & -> & Hi)%in_blocks. cbn -[Z.pow]. intros _.
    replace (10 ^ 12 + 20000 * i - 10 ^ 12) with (20 * i * 1000) by lia. by rewrite Z.div_mul by lia.
  - intros a (i & -> & Hi)%in_blocks. cbn -[Z.pow]. lia.
  - rewrite highest_d. intros a l n (i & -> & Hi)%in_blocks [= <-] Hn. simpl in Hn. exists (mk n). split; [|done].
    apply list_elem_of_fmap_2. set_unfold. lia.
Qed.

Lemma later_L : spent_later (view_token <$> ma_tx_out d) (spends_in Enabled d).
Proof.
  intros k s Hk Hs. apply list_elem_of_singleton in Hs as ->. intros Hid.
  apply list_elem_of_fmap in Hk as (m & -> & Hm). unfold tk_id in Hid. injection Hid as Hid _. simpl in *. rewrite Hid.
  unfold tx_number. simpl. lia.
Qed.
Lemma bridge_example_ok : ledger_ok L.
Proof.
  split.
  - repeat constructor.
  - intros a b Ha Hb Hab. set_unfold. destruct Ha as [->|[->|[]]], Hb as [->|[->|[]]]; done.
  - intros t Ht. set_unfold. destruct Ht as [->|[->|[]]]; unfold tx_number; simpl; lia.
  - apply later_L.
  - intros ics reserve asset t Ht. apply elem_of_cons in Ht as [->|Ht]; [|apply list_elem_of_singleton in Ht as ->];
      unfold bridge_tx_of, decodes, spent, created, value_of; cbn -[is_at Z.leb umax]; unfold bool_decide; cbn -[is_at Z.leb umax];
      repeat match goal with |- context [is_at ?a ?b ?c] => destruct (is_at a b c) end; reflexivity.
Qed.
Lemma d_represents : represents Enabled 3 L d.
Proof.
  split.
  - split; [done| | |apply later_L].
    + apply (bool_decide_unpack _). reflexivity.
    + intros m Hm. set_unfold. destruct Hm as [->|[->|[->|[->|[]]]]]; simpl; unfold outs; set_solver.
  - done.
  - done.
  - done.
  - done.
  - intros t _. unfold metadata_rows, L. cbn [tx_metadata d l_metadata]. rewrite filter_cons, filter_nil.
    destruct (decide (t = tx_b)) as [->|Ht]; [by rewrite decide_True|]. rewrite decide_False; [done|]. intros [Hx _]. by apply Ht.
Qed.
Lemma example_follows : follows world cfg 100 L Enabled height.
Proof.
  split.
  - apply bridge_example_ok.
  - intros n. exists d. split; [done|]. split; [apply d_represents|apply d_table|done|apply bridge_example_ok|].
    intros b (i & -> & Hi)%in_blocks. cbn -[Z.pow]. lia.
  - intros n m x y [= <-] [= <-]. done.
  - done.
  - intros b (i & -> & Hi)%in_blocks. simpl. lia.
  - apply d_table.
  - split; simpl; lia.
  - simpl. lia.
  - done.
  - done.
Qed.

(** A handler that records the transfers *)
#[export] Instance recording : TransferHandler (list (BridgeTransferV1 Bytes Bytes)) Bytes Bytes :=
  {| handle_incoming_transfer t := modify (fun l => l ++ [t]) |}.
#[export] Instance recording_total : TotalHandler (list (BridgeTransferV1 Bytes Bytes)) Bytes Bytes.
Proof. split. intros t h. by eexists. Qed.
Definition pallet : PartnerChainsBridge.Config (Origin:=RawOrigin Z) :=
  {| governance_origin _ := false; MaxTransfersPerBlock := 2; DbWeight := {| db_read := 0; db_write := 0 |} |}.
Definition s0 : PartnerChainsBridge.State (McTxHash:=Bytes) (McBlockNumber:=Z) (Scripts:=MainChainScripts) (H:=list (BridgeTransferV1 Bytes Bytes)) :=
  {| MainChainScriptsConfiguration := Some scripts; DataCheckpoint := Some (CheckpointBlock 0); InherentExecutedThisBlock := false; handler := [] |}.
Definition node : Source := new_source {| from_last_by_hash := [] |} 0.
End BridgeExample.
Import BridgeExample.

Lemma example_ready : ready L Enabled height node (mk 3).
Proof.
  exists 0%nat. split; [|done]. apply (new_source_ok world cfg 100 L Enabled height example_follows).
  by intros x Hx%elem_of_nil.
Qed.
Lemma example_observes : observes L scripts 0 (AtBlock 0) s0.
Proof. split; [done|done| |done]. exists (CheckpointBlock 0). by split. Qed.
Lemma example_references : references L (ready:=ready L Enabled height) 0 [(node, mk 3); (node, mk 3)].
Proof.
  assert (mk 3 ∈ l_blocks L) by (apply list_elem_of_fmap_2; set_unfold; lia).
  simpl. split_and!; done || apply example_ready.
Qed.
(** The second transaction does not fit into the first block with the two transfers of it. *)
Lemma example_pending : pending L scripts (AtBlock 0) 3 = bridge_tx_of L [73] [82] {| policy_id := [7]; asset_name := [] |} <$> [tx_a; tx_b].
Proof. reflexivity. Qed.
Lemma example_transfers : pending L scripts (AtBlock 0) 3 ≫= tx_to_transfers Some Some =
  [{| mc_tx_hash := [1]; amount := 5; recipient := Invalid |}; {| mc_tx_hash := [2]; amount := 10; recipient := Reserve |};
   {| mc_tx_hash := [2]; amount := 2; recipient := PartnerChainsBridge.Address [9] |}].
Proof. reflexivity. Qed.

Lemma bridge_cache_is_transparent_witness :
  exists s', cached_get_transfers (pg:=PullExample.pg) Some Some world cfg 100 scripts (CheckpointBlock 0) 2 (b_hash (mk 3)) node =
             Ok (answer Some Some L scripts (AtBlock 0) 2 3, s').
Proof.
  refine (proj1 (bridge_cache_is_transparent (pg_laws:=PullExample.pg_laws) Some Some world cfg 100 L Enabled height node (mk 3) scripts
    (CheckpointBlock 0) (AtBlock 0) 2 example_follows _ _)).
  - apply reached_new. by intros x Hx%elem_of_nil.
  - split; [apply list_elem_of_fmap_2; set_unfold; lia|]. by split.
Defined.

Lemma bridge_delivers_transfers_witness :
  exists s' r' taken, run_blocks (src:=cached_source (pg:=PullExample.pg) Some Some world cfg 100) pallet NoneOrigin [(node, mk 3); (node, mk 3)] s0 = Some s' /\
    observes L scripts 3 r' s' /\
    handle_all (taken ≫= tx_to_transfers Some Some) (handler s0) = Ok (tt, handler s') /\
    forall T, 3 <= T -> pending L scripts (AtBlock 0) T = taken ++ pending L scripts r' T.
Proof.
  apply (bridge_delivers_transfers (AccountId:=Z) pallet NoneOrigin Some Some L
    (src:=cached_source (pg:=PullExample.pg) Some Some world cfg 100)
    (AnswersWithLedger0:=cached_source_answers (pg_laws:=PullExample.pg_laws) Some Some world cfg 100 L Enabled height example_follows)
    scripts 0 (AtBlock 0) s0 [(node, mk 3); (node, mk 3)]).
  - apply bridge_example_ok.
  - by eexists.
  - simpl. lia.
  - apply example_observes.
  - apply example_references.
Defined.

Lemma bridge_catches_up_witness :
  exists s', run_blocks (src:=cached_source (pg:=PullExample.pg) Some Some world cfg 100) pallet NoneOrigin [(node, mk 3); (node, mk 3)] s0 = Some s' /\
    handle_all (pending L scripts (AtBlock 0) 3 ≫= tx_to_transfers Some Some) [] = Ok (tt, handler s').
Proof.
  apply (bridge_catches_up (AccountId:=Z) pallet NoneOrigin Some Some L
    (src:=cached_source (pg:=PullExample.pg) Some Some world cfg 100)
    (AnswersWithLedger0:=cached_source_answers (pg_laws:=PullExample.pg_laws) Some Some world cfg 100 L Enabled height example_follows)
    scripts 0 (AtBlock 0) s0 (mk 3) [(node, mk 3); (node, mk 3)]).
  - apply bridge_example_ok.
  - by eexists.
  - simpl. lia.
  - apply example_observes.
  - apply example_references.
  - by repeat constructor.
  - cbn [block_no mk]. rewrite example_pending. done.
  - done.
Defined.

(** With room for one transfer only, a transaction with two is passed over for good. *)
Lemma one_transfer_per_block_skips : fst (answer Some Some L scripts (AtTx 1 0) 1 3) = [] /\ snd (answer Some Some L scripts (AtTx 1 0) 1 3) = CheckpointBlock 3.
Proof. by split. Qed.
