(* ===== verification/LedgerErrors.v ===== *)
(** * Errors of the ledger API

    Models [src/ledger/src/versions/common/types.rs]: the errors that cross the host
    interface, each enum in a module of its own, and the code of one byte by which the
    pool reports a rejected transaction.  The codes tell the errors apart. *)

From S2P Require Import Prelude.

Module Zi.
Inductive ZswapInvalidErrorCode :=
| NullifierAlreadyPresent | CommitmentAlreadyPresent | UnknownMerkleRoot | MerkleTreeError | Unknown.
End Zi.
Module Ta.
Inductive TransactionApplicationErrorCode :=
| IntentTtlExpired | IntentTtlTooFarInFuture | IntentAlreadyExists.
End Ta.
Module Ie.
Inductive InvalidError :=
| EffectsMismatch | ContractAlreadyDeployed | ContractNotPresent | Zswap (e : Zi.ZswapInvalidErrorCode)
| Transcript | InsufficientClaimable | VerifierKeyNotFound | VerifierKeyAlreadyPresent | ReplayCounterMismatch
| ReplayProtectionViolation (e : Ta.TransactionApplicationErrorCode) | BalanceCheckOutOfBounds
| InputNotInUtxos | DustDoubleSpend | DustDeregistrationNotRegistered | GenerationInfoAlreadyPresent
| InvariantViolation | RewardTooSmall | DivideByZero | MerkleTreeError | UnknownError.
End Ie.
Module Ste.
Inductive SystemTransactionError :=
| IllegalPayout | InsufficientTreasuryFunds | CommitmentAlreadyPresent
| ReplayProtectionFailure (e : Ta.TransactionApplicationErrorCode) | IllegalReserveDistribution
| GenerationInfoAlreadyPresent | InvalidBasisPoints | InvariantViolation | TreasuryDisabled | MerkleTreeError
| UnknownError.
End Ste.
Module Mz.
Inductive MalformedZswapErrorCode :=
| InvalidProof | ContractSentCiphertext | NonDisjointCoinMerge | NotNormalized | Unknown.
End Mz.
Module Fc.
Inductive FeeCalculationErrorCode :=
| OutsideTimeToDismiss | BlockLimitExceeded.
End Fc.
Module Md.
Inductive MalformedContractDeployErrorCode :=
| NonZeroBalance | IncorrectChargedState | Unknown.
End Md.
Module Ec.
Inductive EffectsCheckErrorCode :=
| RealCallsSubsetCheckFailure | AllCommitmentsSubsetCheckFailure | RealUnshieldedSpendsSubsetCheckFailure
| ClaimedUnshieldedSpendsUniquenessFailure | ClaimedCallsUniquenessFailure | NullifiersNeqClaimedNullifiers
| CommitmentsNeqClaimedShieldedReceives.
End Ec.
Module Dc.
Inductive DisjointCheckErrorCode :=
| ShieldedInputsDisjointFailure | ShieldedOutputsDisjointFailure | UnshieldedInputsDisjointFailure.
End Dc.
Module Sc.
Inductive SequencingCheckErrorCode :=
| CallSequencingViolation | SequencingCorrelationViolation | GuaranteedInFallibleContextViolation
| FallibleInGuaranteedContextViolation | CausalityConstraintViolation | CallHasEmptyTranscripts.
End Sc.
Module Me.
Inductive MalformedError :=
| VerifierKeyNotSet | TransactionTooLarge | VerifierKeyTooLarge | VerifierKeyNotPresent | ContractNotPresent
| InvalidProof | BindingCommitmentOpeningInvalid | NotNormalized | FallibleWithoutCheckpoint
| ClaimReceiveFailed | ClaimSpendFailed | ClaimNullifierFailed | ClaimCallFailed | InvalidSchnorrProof
| UnclaimedCoinCom | UnclaimedNullifier | Unbalanced | Zswap (e : Mz.MalformedZswapErrorCode) | BuiltinDecode
| GuaranteedLimit | MergingContracts | CantMergeTypes | ClaimOverflow | ClaimCoinMismatch | KeyNotInCommittee
| InvalidCommitteeSignature | ThresholdMissed | TooManyZswapEntries | BalanceCheckOverspend | InvalidNetworkId
| IllegallyDeclaredGuaranteed | FeeCalculation (e : Fc.FeeCalculationErrorCode)
| InvalidDustRegistrationSignature | InvalidDustSpendProof | OutOfDustValidityWindow
| MultipleDustRegistrationsForKey | InsufficientDustForRegistrationFee
| MalformedContractDeploy (e : Md.MalformedContractDeployErrorCode) | IntentSignatureVerificationFailure
| IntentSignatureKeyMismatch | IntentSegmentIdCollision | IntentAtGuaranteedSegmentId | UnsupportedProofVersion
| GuaranteedTranscriptVersion | FallibleTranscriptVersion
| TransactionApplication (e : Ta.TransactionApplicationErrorCode) | BalanceCheckOutOfBounds
| BalanceCheckConversionFailure | PedersenCheckFailure | EffectsCheck (e : Ec.EffectsCheckErrorCode)
| DisjointCheck (e : Dc.DisjointCheckErrorCode) | SequencingCheck (e : Sc.SequencingCheckErrorCode)
| InputsNotSorted | OutputsNotSorted | DuplicateInputs | InputsSignaturesLengthMismatch | UnknownError.
End Me.
Module De.
Inductive DeserializationError :=
| NetworkId | Transaction | LedgerState | ContractAddress | PublicKey | TypedArenaKey | VersionedArenaKey
| UserAddress | SystemTransaction | DustPublicKey | CNightGeneratesDustActionType | CNightGeneratesDustEvent.
End De.
Module Se.
Inductive SerializationError :=
| TransactionIdentifier | ZswapState | LedgerState | LedgerParameters | ContractAddress | ContractState
| ContractStateToJson | UnknownType | MerkleTreeDigest | TypedArenaKey | VersionedArenaKey
| CNightGeneratesDustEvent | SystemTransaction | ArenaHash.
End Se.
Module Te.
Inductive TransactionError :=
| Invalid (e : Ie.InvalidError) | Malformed (e : Me.MalformedError)
| SystemTransaction (e : Ste.SystemTransactionError).
End Te.
Module Lae.
Inductive LedgerApiError :=
| Deserialization (e : De.DeserializationError) | Serialization (e : Se.SerializationError)
| Transaction (e : Te.TransactionError) | LedgerCacheError | NoLedgerState | LedgerStateScaleDecodingError
| ContractCallCostError | BlockLimitExceededError | FeeCalculationError | HostApiError
| GetTransactionContextError | ContractNotPresent | BeneficiaryNotFound | TransactionVersionNotActive.
End Lae.

(** ** Codes: [impl From<LedgerApiError> for u8] *)

Definition error_code (value : Lae.LedgerApiError) : Z :=
  match value with
  | Lae.Deserialization error => match error with
    | De.NetworkId => 0 | De.Transaction => 1 | De.LedgerState => 2 | De.ContractAddress => 3
    | De.PublicKey => 4 | De.VersionedArenaKey => 5 | De.UserAddress => 6 | De.TypedArenaKey => 7
    | De.SystemTransaction => 8 | De.DustPublicKey => 9 | De.CNightGeneratesDustActionType => 10
    | De.CNightGeneratesDustEvent => 11 end
  | Lae.Serialization error => match error with
    | Se.TransactionIdentifier => 50 | Se.LedgerState => 51 | Se.LedgerParameters => 52
    | Se.ContractAddress => 53 | Se.ContractState => 54 | Se.ContractStateToJson => 55 | Se.ZswapState => 56
    | Se.UnknownType => 57 | Se.MerkleTreeDigest => 58 | Se.VersionedArenaKey => 59 | Se.TypedArenaKey => 60
    | Se.CNightGeneratesDustEvent => 61 | Se.SystemTransaction => 62 | Se.ArenaHash => 63 end
  | Lae.Transaction error => match error with
    | Te.Invalid e => match e with
      | Ie.EffectsMismatch => 100 | Ie.ContractAlreadyDeployed => 101 | Ie.ContractNotPresent => 102
      | Ie.Zswap zi => match zi with
        | Zi.NullifierAlreadyPresent => 239 | Zi.CommitmentAlreadyPresent => 240 | Zi.UnknownMerkleRoot => 241
        | Zi.MerkleTreeError => 250 | Zi.Unknown => 103 end
      | Ie.Transcript => 104 | Ie.InsufficientClaimable => 105 | Ie.VerifierKeyNotFound => 106
      | Ie.VerifierKeyAlreadyPresent => 107 | Ie.ReplayCounterMismatch => 108
      | Ie.ReplayProtectionViolation rpv => match rpv with
        | Ta.IntentTtlExpired => 242 | Ta.IntentTtlTooFarInFuture => 243 | Ta.IntentAlreadyExists => 244 end
      | Ie.BalanceCheckOutOfBounds => 194 | Ie.InputNotInUtxos => 195 | Ie.DustDoubleSpend => 196
      | Ie.DustDeregistrationNotRegistered => 197 | Ie.GenerationInfoAlreadyPresent => 198
      | Ie.InvariantViolation => 199 | Ie.RewardTooSmall => 200 | Ie.DivideByZero => 248
      | Ie.MerkleTreeError => 249 | Ie.UnknownError => 109 end
    | Te.Malformed e => match e with
      | Me.VerifierKeyNotSet => 110 | Me.TransactionTooLarge => 111 | Me.VerifierKeyTooLarge => 112
      | Me.VerifierKeyNotPresent => 113 | Me.ContractNotPresent => 114 | Me.InvalidProof => 115
      | Me.BindingCommitmentOpeningInvalid => 116 | Me.NotNormalized => 117
      | Me.FallibleWithoutCheckpoint => 118 | Me.ClaimReceiveFailed => 119 | Me.ClaimSpendFailed => 120
      | Me.ClaimNullifierFailed => 121 | Me.ClaimCallFailed => 122 | Me.InvalidSchnorrProof => 123
      | Me.UnclaimedCoinCom => 124 | Me.UnclaimedNullifier => 125 | Me.Unbalanced => 126
      | Me.Zswap z => match z with
        | Mz.InvalidProof => 235 | Mz.ContractSentCiphertext => 236 | Mz.NonDisjointCoinMerge => 237
        | Mz.NotNormalized => 238 | Mz.Unknown => 127 end
      | Me.BuiltinDecode => 128 | Me.GuaranteedLimit => 129 | Me.MergingContracts => 130
      | Me.CantMergeTypes => 131 | Me.ClaimOverflow => 132 | Me.ClaimCoinMismatch => 133
      | Me.KeyNotInCommittee => 134 | Me.InvalidCommitteeSignature => 135 | Me.ThresholdMissed => 136
      | Me.TooManyZswapEntries => 137 | Me.BalanceCheckOverspend => 138 | Me.InvalidNetworkId => 166
      | Me.IllegallyDeclaredGuaranteed => 167
      | Me.FeeCalculation f => match f with
        | Fc.OutsideTimeToDismiss => 231 | Fc.BlockLimitExceeded => 232 end
      | Me.InvalidDustRegistrationSignature => 169 | Me.InvalidDustSpendProof => 170
      | Me.OutOfDustValidityWindow => 171 | Me.MultipleDustRegistrationsForKey => 172
      | Me.InsufficientDustForRegistrationFee => 173
      | Me.MalformedContractDeploy d => match d with
        | Md.NonZeroBalance => 233 | Md.IncorrectChargedState => 234 | Md.Unknown => 174 end
      | Me.IntentSignatureVerificationFailure => 175 | Me.IntentSignatureKeyMismatch => 176
      | Me.IntentSegmentIdCollision => 177 | Me.IntentAtGuaranteedSegmentId => 178
      | Me.UnsupportedProofVersion => 179 | Me.GuaranteedTranscriptVersion => 180
      | Me.FallibleTranscriptVersion => 181
      | Me.TransactionApplication t => match t with
        | Ta.IntentTtlExpired => 228 | Ta.IntentTtlTooFarInFuture => 229 | Ta.IntentAlreadyExists => 230 end
      | Me.BalanceCheckOutOfBounds => 183 | Me.BalanceCheckConversionFailure => 184
      | Me.PedersenCheckFailure => 185
      | Me.EffectsCheck ec => match ec with
        | Ec.RealCallsSubsetCheckFailure => 212 | Ec.AllCommitmentsSubsetCheckFailure => 213
        | Ec.RealUnshieldedSpendsSubsetCheckFailure => 214 | Ec.ClaimedUnshieldedSpendsUniquenessFailure => 215
        | Ec.ClaimedCallsUniquenessFailure => 216 | Ec.NullifiersNeqClaimedNullifiers => 217
        | Ec.CommitmentsNeqClaimedShieldedReceives => 218 end
      | Me.DisjointCheck dc => match dc with
        | Dc.ShieldedInputsDisjointFailure => 225 | Dc.ShieldedOutputsDisjointFailure => 226
        | Dc.UnshieldedInputsDisjointFailure => 227 end
      | Me.SequencingCheck sc => match sc with
        | Sc.CallSequencingViolation => 219 | Sc.SequencingCorrelationViolation => 220
        | Sc.GuaranteedInFallibleContextViolation => 221 | Sc.FallibleInGuaranteedContextViolation => 222
        | Sc.CausalityConstraintViolation => 223 | Sc.CallHasEmptyTranscripts => 224 end
      | Me.InputsNotSorted => 189 | Me.OutputsNotSorted => 190 | Me.DuplicateInputs => 191
      | Me.InputsSignaturesLengthMismatch => 192 | Me.UnknownError => 139 end
    | Te.SystemTransaction e => match e with
      | Ste.IllegalPayout => 201 | Ste.InsufficientTreasuryFunds => 202 | Ste.CommitmentAlreadyPresent => 203
      | Ste.ReplayProtectionFailure rpv => match rpv with
        | Ta.IntentTtlExpired => 245 | Ta.IntentTtlTooFarInFuture => 246 | Ta.IntentAlreadyExists => 247 end
      | Ste.IllegalReserveDistribution => 206 | Ste.GenerationInfoAlreadyPresent => 207
      | Ste.InvalidBasisPoints => 208 | Ste.InvariantViolation => 209 | Ste.TreasuryDisabled => 210
      | Ste.MerkleTreeError => 211 | Ste.UnknownError => 204 end end
  | Lae.LedgerCacheError => 150 | Lae.NoLedgerState => 151 | Lae.LedgerStateScaleDecodingError => 152
  | Lae.ContractCallCostError => 153 | Lae.BlockLimitExceededError => 154 | Lae.FeeCalculationError => 155
  | Lae.ContractNotPresent => 156 | Lae.BeneficiaryNotFound => 157 | Lae.GetTransactionContextError => 165
  | Lae.TransactionVersionNotActive => 158 | Lae.HostApiError => 255
  end.

Definition RETIRED_U8_ERROR_CODES : list Z := [168; 182; 186; 187; 188; 193; 205].

(** ** The codes tell the errors apart *)

Definition all_errors : list Lae.LedgerApiError :=
  [Lae.Deserialization De.NetworkId; Lae.Deserialization De.Transaction; Lae.Deserialization De.LedgerState;
   Lae.Deserialization De.ContractAddress; Lae.Deserialization De.PublicKey; Lae.Deserialization De.TypedArenaKey;
   Lae.Deserialization De.VersionedArenaKey; Lae.Deserialization De.UserAddress;
   Lae.Deserialization De.SystemTransaction; Lae.Deserialization De.DustPublicKey;
   Lae.Deserialization De.CNightGeneratesDustActionType; Lae.Deserialization De.CNightGeneratesDustEvent;
   Lae.Serialization Se.TransactionIdentifier; Lae.Serialization Se.ZswapState; Lae.Serialization Se.LedgerState;
   Lae.Serialization Se.LedgerParameters; Lae.Serialization Se.ContractAddress; Lae.Serialization Se.ContractState;
   Lae.Serialization Se.ContractStateToJson; Lae.Serialization Se.UnknownType;
   Lae.Serialization Se.MerkleTreeDigest; Lae.Serialization Se.TypedArenaKey;
   Lae.Serialization Se.VersionedArenaKey; Lae.Serialization Se.CNightGeneratesDustEvent;
   Lae.Serialization Se.SystemTransaction; Lae.Serialization Se.ArenaHash;
   Lae.Transaction (Te.Invalid Ie.EffectsMismatch); Lae.Transaction (Te.Invalid Ie.ContractAlreadyDeployed);
   Lae.Transaction (Te.Invalid Ie.ContractNotPresent);
   Lae.Transaction (Te.Invalid (Ie.Zswap Zi.NullifierAlreadyPresent));
   Lae.Transaction (Te.Invalid (Ie.Zswap Zi.CommitmentAlreadyPresent));
   Lae.Transaction (Te.Invalid (Ie.Zswap Zi.UnknownMerkleRoot));
   Lae.Transaction (Te.Invalid (Ie.Zswap Zi.MerkleTreeError)); Lae.Transaction (Te.Invalid (Ie.Zswap Zi.Unknown));
   Lae.Transaction (Te.Invalid Ie.Transcript); Lae.Transaction (Te.Invalid Ie.InsufficientClaimable);
   Lae.Transaction (Te.Invalid Ie.VerifierKeyNotFound); Lae.Transaction (Te.Invalid Ie.VerifierKeyAlreadyPresent);
   Lae.Transaction (Te.Invalid Ie.ReplayCounterMismatch);
   Lae.Transaction (Te.Invalid (Ie.ReplayProtectionViolation Ta.IntentTtlExpired));
   Lae.Transaction (Te.Invalid (Ie.ReplayProtectionViolation Ta.IntentTtlTooFarInFuture));
   Lae.Transaction (Te.Invalid (Ie.ReplayProtectionViolation Ta.IntentAlreadyExists));
   Lae.Transaction (Te.Invalid Ie.BalanceCheckOutOfBounds); Lae.Transaction (Te.Invalid Ie.InputNotInUtxos);
   Lae.Transaction (Te.Invalid Ie.DustDoubleSpend);
   Lae.Transaction (Te.Invalid Ie.DustDeregistrationNotRegistered);
   Lae.Transaction (Te.Invalid Ie.GenerationInfoAlreadyPresent);
   Lae.Transaction (Te.Invalid Ie.InvariantViolation); Lae.Transaction (Te.Invalid Ie.RewardTooSmall);
   Lae.Transaction (Te.Invalid Ie.DivideByZero); Lae.Transaction (Te.Invalid Ie.MerkleTreeError);
   Lae.Transaction (Te.Invalid Ie.UnknownError); Lae.Transaction (Te.Malformed Me.VerifierKeyNotSet);
   Lae.Transaction (Te.Malformed Me.TransactionTooLarge); Lae.Transaction (Te.Malformed Me.VerifierKeyTooLarge);
   Lae.Transaction (Te.Malformed Me.VerifierKeyNotPresent); Lae.Transaction (Te.Malformed Me.ContractNotPresent);
   Lae.Transaction (Te.Malformed Me.InvalidProof);
   Lae.Transaction (Te.Malformed Me.BindingCommitmentOpeningInvalid);
   Lae.Transaction (Te.Malformed Me.NotNormalized); Lae.Transaction (Te.Malformed Me.FallibleWithoutCheckpoint);
   Lae.Transaction (Te.Malformed Me.ClaimReceiveFailed); Lae.Transaction (Te.Malformed Me.ClaimSpendFailed);
   Lae.Transaction (Te.Malformed Me.ClaimNullifierFailed); Lae.Transaction (Te.Malformed Me.ClaimCallFailed);
   Lae.Transaction (Te.Malformed Me.InvalidSchnorrProof); Lae.Transaction (Te.Malformed Me.UnclaimedCoinCom);
   Lae.Transaction (Te.Malformed Me.UnclaimedNullifier); Lae.Transaction (Te.Malformed Me.Unbalanced);
   Lae.Transaction (Te.Malformed (Me.Zswap Mz.InvalidProof));
   Lae.Transaction (Te.Malformed (Me.Zswap Mz.ContractSentCiphertext));
   Lae.Transaction (Te.Malformed (Me.Zswap Mz.NonDisjointCoinMerge));
   Lae.Transaction (Te.Malformed (Me.Zswap Mz.NotNormalized));
   Lae.Transaction (Te.Malformed (Me.Zswap Mz.Unknown)); Lae.Transaction (Te.Malformed Me.BuiltinDecode);
   Lae.Transaction (Te.Malformed Me.GuaranteedLimit); Lae.Transaction (Te.Malformed Me.MergingContracts);
   Lae.Transaction (Te.Malformed Me.CantMergeTypes); Lae.Transaction (Te.Malformed Me.ClaimOverflow);
   Lae.Transaction (Te.Malformed Me.ClaimCoinMismatch); Lae.Transaction (Te.Malformed Me.KeyNotInCommittee);
   Lae.Transaction (Te.Malformed Me.InvalidCommitteeSignature); Lae.Transaction (Te.Malformed Me.ThresholdMissed);
   Lae.Transaction (Te.Malformed Me.TooManyZswapEntries); Lae.Transaction (Te.Malformed Me.BalanceCheckOverspend);
   Lae.Transaction (Te.Malformed Me.InvalidNetworkId);
   Lae.Transaction (Te.Malformed Me.IllegallyDeclaredGuaranteed);
   Lae.Transaction (Te.Malformed (Me.FeeCalculation Fc.OutsideTimeToDismiss));
   Lae.Transaction (Te.Malformed (Me.FeeCalculation Fc.BlockLimitExceeded));
   Lae.Transaction (Te.Malformed Me.InvalidDustRegistrationSignature);
   Lae.Transaction (Te.Malformed Me.InvalidDustSpendProof);
   Lae.Transaction (Te.Malformed Me.OutOfDustValidityWindow);
   Lae.Transaction (Te.Malformed Me.MultipleDustRegistrationsForKey);
   Lae.Transaction (Te.Malformed Me.InsufficientDustForRegistrationFee);
   Lae.Transaction (Te.Malformed (Me.MalformedContractDeploy Md.NonZeroBalance));
   Lae.Transaction (Te.Malformed (Me.MalformedContractDeploy Md.IncorrectChargedState));
   Lae.Transaction (Te.Malformed (Me.MalformedContractDeploy Md.Unknown));
   Lae.Transaction (Te.Malformed Me.IntentSignatureVerificationFailure);
   Lae.Transaction (Te.Malformed Me.IntentSignatureKeyMismatch);
   Lae.Transaction (Te.Malformed Me.IntentSegmentIdCollision);
   Lae.Transaction (Te.Malformed Me.IntentAtGuaranteedSegmentId);
   Lae.Transaction (Te.Malformed Me.UnsupportedProofVersion);
   Lae.Transaction (Te.Malformed Me.GuaranteedTranscriptVersion);
   Lae.Transaction (Te.Malformed Me.FallibleTranscriptVersion);
   Lae.Transaction (Te.Malformed (Me.TransactionApplication Ta.IntentTtlExpired));
   Lae.Transaction (Te.Malformed (Me.TransactionApplication Ta.IntentTtlTooFarInFuture));
   Lae.Transaction (Te.Malformed (Me.TransactionApplication Ta.IntentAlreadyExists));
   Lae.Transaction (Te.Malformed Me.BalanceCheckOutOfBounds);
   Lae.Transaction (Te.Malformed Me.BalanceCheckConversionFailure);
   Lae.Transaction (Te.Malformed Me.PedersenCheckFailure);
   Lae.Transaction (Te.Malformed (Me.EffectsCheck Ec.RealCallsSubsetCheckFailure));
   Lae.Transaction (Te.Malformed (Me.EffectsCheck Ec.AllCommitmentsSubsetCheckFailure));
   Lae.Transaction (Te.Malformed (Me.EffectsCheck Ec.RealUnshieldedSpendsSubsetCheckFailure));
   Lae.Transaction (Te.Malformed (Me.EffectsCheck Ec.ClaimedUnshieldedSpendsUniquenessFailure));
   Lae.Transaction (Te.Malformed (Me.EffectsCheck Ec.ClaimedCallsUniquenessFailure));
   Lae.Transaction (Te.Malformed (Me.EffectsCheck Ec.NullifiersNeqClaimedNullifiers));
   Lae.Transaction (Te.Malformed (Me.EffectsCheck Ec.CommitmentsNeqClaimedShieldedReceives));
   Lae.Transaction (Te.Malformed (Me.DisjointCheck Dc.ShieldedInputsDisjointFailure));
   Lae.Transaction (Te.Malformed (Me.DisjointCheck Dc.ShieldedOutputsDisjointFailure));
   Lae.Transaction (Te.Malformed (Me.DisjointCheck Dc.UnshieldedInputsDisjointFailure));
   Lae.Transaction (Te.Malformed (Me.SequencingCheck Sc.CallSequencingViolation));
   Lae.Transaction (Te.Malformed (Me.SequencingCheck Sc.SequencingCorrelationViolation));
   Lae.Transaction (Te.Malformed (Me.SequencingCheck Sc.GuaranteedInFallibleContextViolation));
   Lae.Transaction (Te.Malformed (Me.SequencingCheck Sc.FallibleInGuaranteedContextViolation));
   Lae.Transaction (Te.Malformed (Me.SequencingCheck Sc.CausalityConstraintViolation));
   Lae.Transaction (Te.Malformed (Me.SequencingCheck Sc.CallHasEmptyTranscripts));
   Lae.Transaction (Te.Malformed Me.InputsNotSorted); Lae.Transaction (Te.Malformed Me.OutputsNotSorted);
   Lae.Transaction (Te.Malformed Me.DuplicateInputs);
   Lae.Transaction (Te.Malformed Me.InputsSignaturesLengthMismatch);
   Lae.Transaction (Te.Malformed Me.UnknownError); Lae.Transaction (Te.SystemTransaction Ste.IllegalPayout);
   Lae.Transaction (Te.SystemTransaction Ste.InsufficientTreasuryFunds);
   Lae.Transaction (Te.SystemTransaction Ste.CommitmentAlreadyPresent);
   Lae.Transaction (Te.SystemTransaction (Ste.ReplayProtectionFailure Ta.IntentTtlExpired));
   Lae.Transaction (Te.SystemTransaction (Ste.ReplayProtectionFailure Ta.IntentTtlTooFarInFuture));
   Lae.Transaction (Te.SystemTransaction (Ste.ReplayProtectionFailure Ta.IntentAlreadyExists));
   Lae.Transaction (Te.SystemTransaction Ste.IllegalReserveDistribution);
   Lae.Transaction (Te.SystemTransaction Ste.GenerationInfoAlreadyPresent);
   Lae.Transaction (Te.SystemTransaction Ste.InvalidBasisPoints);
   Lae.Transaction (Te.SystemTransaction Ste.InvariantViolation);
   Lae.Transaction (Te.SystemTransaction Ste.TreasuryDisabled);
   Lae.Transaction (Te.SystemTransaction Ste.MerkleTreeError);
   Lae.Transaction (Te.SystemTransaction Ste.UnknownError); Lae.LedgerCacheError; Lae.NoLedgerState;
   Lae.LedgerStateScaleDecodingError; Lae.ContractCallCostError; Lae.BlockLimitExceededError;
   Lae.FeeCalculationError; Lae.HostApiError; Lae.GetTransactionContextError; Lae.ContractNotPresent;
   Lae.BeneficiaryNotFound; Lae.TransactionVersionNotActive].

(** The error with a code *)
Definition error_of (code : Z) : option Lae.LedgerApiError :=
  List.find (fun e => error_code e =? code) all_errors.

Ltac each_error :=
  intros e; repeat match goal with
    | e : Lae.LedgerApiError |- _ => destruct e
    | e : Te.TransactionError |- _ => destruct e
    | e : Ie.InvalidError |- _ => destruct e
    | e : Me.MalformedError |- _ => destruct e
    | e : Ste.SystemTransactionError |- _ => destruct e
    | e : De.DeserializationError |- _ => destruct e
    | e : Se.SerializationError |- _ => destruct e
    | e : Zi.ZswapInvalidErrorCode |- _ => destruct e
    | e : Ta.TransactionApplicationErrorCode |- _ => destruct e
    | e : Mz.MalformedZswapErrorCode |- _ => destruct e
    | e : Fc.FeeCalculationErrorCode |- _ => destruct e
    | e : Md.MalformedContractDeployErrorCode |- _ => destruct e
    | e : Ec.EffectsCheckErrorCode |- _ => destruct e
    | e : Dc.DisjointCheckErrorCode |- _ => destruct e
    | e : Sc.SequencingCheckErrorCode |- _ => destruct e
    end.

Lemma error_of_code : forall e, error_of (error_code e) = Some e.
Proof. each_error; vm_compute; reflexivity. Qed.

Lemma code_in_range : forall e,
  ((0 <=? error_code e) && (error_code e <=? 255) && forallb (fun c => negb (error_code e =? c)) RETIRED_U8_ERROR_CODES) = true.
Proof. each_error; vm_compute; reflexivity. Qed.

(** The codes of two errors of the ledger API are different, every code is a byte,
    and none of the retired codes is in use. *)
Theorem error_codes_are_unique :
  Inj (=) (=) error_code /\ forall e, in_u 8 (error_code e) /\ error_code e ∉ RETIRED_U8_ERROR_CODES.
Proof.
  split.
  - intros e e' Heq. pose proof (error_of_code e) as He. rewrite Heq, error_of_code in He. congruence.
  - intros e. pose proof (code_in_range e) as Hc. rewrite !andb_true_iff, forallb_forall in Hc.
    destruct Hc as [[H0 H1] Hr]. split; [unfold in_u, umax; lia|].
    intros Hin%list_elem_of_In%Hr. rewrite Z.eqb_refl in Hin. discriminate.
Qed.
