(* ===== verification/LedgerApi.v ===== *)
(** * The ledger API: transactions, their UTXOs, and the ledger of the node

    Models [src/ledger/src/common/types.rs], [src/ledger/src/versions/common/api]
    ([transaction.rs], [ledger.rs]), [utxo_ordering_override.rs] and the files of ledger 9
    beside them ([block_context], [post_block_update], [guaranteed_validation],
    [tx_envelope]), with the cost helpers of [src/ledger/helpers].

    The ledger proper, its transactions' cryptography and its serialization are the crates
    [mn-ledger-9] and others that are not part of the repository: they are the classes
    [LedgerTypes] and [MnLedger], with what the node relies on in [MnLedgerLaws]. *)

From stdpp Require Import strings.
From S2P Require Import Prelude LedgerErrors.

Notation Bytes := (list Z).

(** ** Types that cross the host interface: [common/types.rs] *)

Record ConsensusContext := { block_height : Z; memo_activation_height : Z }.
Definition MEMO_NEVER_ACTIVE : ConsensusContext := {| block_height := 0; memo_activation_height := umax 64 |}.
Definition memo_active (c : ConsensusContext) : bool := memo_activation_height c <=? block_height c.

Inductive TxWireEra := PreMemo | MemoCapable.

Record UtxoInfo := { address : Bytes; token_type : Bytes; intent_hash : Bytes; value : Z; output_no : Z }.

Record TransactionAppliedStateRoot := {
  state_root : Bytes;
  tx_hash : Bytes;
  all_applied : bool;
  call_addresses : list Bytes;
  deploy_addresses : list Bytes;
  maintain_addresses : list Bytes;
  claim_rewards : list Z;
  unshielded_utxos_created : list UtxoInfo;
  unshielded_utxos_spent : list UtxoInfo
}.
Record SystemTransactionAppliedStateRoot := { sys_state_root : Bytes; sys_tx_hash : Bytes; tx_type : string }.

(** [WrappedHash::from]: sixteen bytes, extended with zeros to thirty-two *)
Definition wrapped_hash (value : Bytes) : Bytes := value ++ replicate 16 0.

Inductive Op :=
| OpCall (address entry_point : Bytes)
| OpDeploy (address : Bytes)
| OpMaintain (address : Bytes)
| OpClaimRewards (value : Z)
| OpClaimBridgeTransfer (value : Z).
Record Tx := {
  hash : Bytes;
  operations : list Op;
  identifiers : list Bytes;
  has_fallible_coins : bool;
  has_guaranteed_coins : bool
}.

Record CoinsDetails := { inputs_num : Z; outputs_num : Z; transients_num : Z }.
Record MaintainUpdatesDetails := { replace_authority_num : Z; verifier_key_remove_num : Z; verifier_key_insert_num : Z }.
Record ContractCallsDetails := {
  calls_gas_cost : Z;
  calls_num : Z;
  deploys_num : Z;
  mainatain_updates : MaintainUpdatesDetails
}.
Definition no_calls : ContractCallsDetails :=
  {| calls_gas_cost := 0; calls_num := 0; deploys_num := 0;
     mainatain_updates := {| replace_authority_num := 0; verifier_key_remove_num := 0; verifier_key_insert_num := 0 |} |}.
Definition set_gas_cost (gas : Z) (d : ContractCallsDetails) : ContractCallsDetails :=
  {| calls_gas_cost := gas; calls_num := calls_num d; deploys_num := deploys_num d; mainatain_updates := mainatain_updates d |}.
Definition inc_calls (d : ContractCallsDetails) : ContractCallsDetails :=
  {| calls_gas_cost := calls_gas_cost d; calls_num := saturating_add 32 (calls_num d) 1; deploys_num := deploys_num d;
     mainatain_updates := mainatain_updates d |}.
Definition inc_deploys (d : ContractCallsDetails) : ContractCallsDetails :=
  {| calls_gas_cost := calls_gas_cost d; calls_num := calls_num d; deploys_num := saturating_add 32 (deploys_num d) 1;
     mainatain_updates := mainatain_updates d |}.
Definition set_updates (u : MaintainUpdatesDetails) (d : ContractCallsDetails) : ContractCallsDetails :=
  {| calls_gas_cost := calls_gas_cost d; calls_num := calls_num d; deploys_num := deploys_num d; mainatain_updates := u |}.
Definition inc_replace_authority (d : ContractCallsDetails) : ContractCallsDetails :=
  let u := mainatain_updates d in
  set_updates {| replace_authority_num := saturating_add 32 (replace_authority_num u) 1;
                 verifier_key_remove_num := verifier_key_remove_num u; verifier_key_insert_num := verifier_key_insert_num u |} d.
Definition inc_verifier_key_remove (d : ContractCallsDetails) : ContractCallsDetails :=
  let u := mainatain_updates d in
  set_updates {| replace_authority_num := replace_authority_num u;
                 verifier_key_remove_num := saturating_add 32 (verifier_key_remove_num u) 1;
                 verifier_key_insert_num := verifier_key_insert_num u |} d.
Definition inc_verifier_key_insert (d : ContractCallsDetails) : ContractCallsDetails :=
  let u := mainatain_updates d in
  set_updates {| replace_authority_num := replace_authority_num u; verifier_key_remove_num := verifier_key_remove_num u;
                 verifier_key_insert_num := saturating_add 32 (verifier_key_insert_num u) 1 |} d.
Inductive TransactionDetails :=
| StandardDetails (guaranteed_coins fallible_coins : CoinsDetails) (contract_calls : ContractCallsDetails)
| ClaimRewardsDetails.

(** [block_context/post_ledger_8.rs] *)
Record BlockContext := { tblock : Z; tblock_err : Z; parent_block_hash : Bytes; last_block_time : Z }.
Definition parent_block_time (c : BlockContext) : option Z := Some (last_block_time c).

(** [primitives/ledger] *)
Record TBlockCorrection := { offset : Z; disable_after : Z }.

(** ** The ledger crates *)

(** What the node reads of [structure::Utxo], [UtxoOutput], the costs, a claim and a
    contract's maintenance *)
Record Utxo := { u_value : Z; u_owner : Bytes; u_type : Bytes; u_intent_hash : Bytes; u_output_no : Z }.
Record UtxoOutput := { uo_value : Z; uo_owner : Bytes; uo_type : Bytes }.
Record SyntheticCost := { read_time : Z; compute_time : Z; block_usage : Z; bytes_written : Z; bytes_churned : Z }.
(** five [FixedPoint]s *)
Record NormalizedCost := { n_read_time : Z; n_compute_time : Z; n_block_usage : Z; n_bytes_written : Z; n_bytes_churned : Z }.
Inductive ClaimKind := Reward | CardanoBridge.
Inductive SingleUpdate := ReplaceAuthority | VerifierKeyInsert | VerifierKeyRemove | OtherUpdate.

#[export] Instance utxo_eq_dec : EqDecision Utxo.
Proof. solve_decision. Defined.
#[export] Instance utxo_countable : Countable Utxo.
Proof.
  refine (inj_countable' (fun u => (u_value u, u_owner u, u_type u, u_intent_hash u, u_output_no u))
    (fun '(v, o, t, i, n) => {| u_value := v; u_owner := o; u_type := t; u_intent_hash := i; u_output_no := n |}) _).
  by intros [].
Defined.
#[export] Instance utxo_info_eq_dec : EqDecision UtxoInfo.
Proof. solve_decision. Defined.

Class LedgerTypes := {
  LedgerState : Type;
  LedgerParameters : Type;
  VerifiedTransaction : Type;
  Intent : Type;
  UtxoSpend : Type;
  ContractAddress : Type;
  VerifyingKey : Type;
  MalformedTransaction : Type;
  TransactionInvalid : Type;
  SystemTransactionFailure : Type;
  DustPublicKey : Type;
  SystemPayload : Type
}.

Section Types.
Context `{!LedgerTypes}.

Inductive ContractAction :=
| Call (address : ContractAddress) (entry_point : Bytes)
| Deploy (address : ContractAddress)
| Maintain (address : ContractAddress) (updates : list SingleUpdate).

(** What the node reads of a standard transaction: the segments, the intents by segment and
    the contract actions, each with its segment, and how many coins it has *)
Record StandardTransaction := {
  segments : list Z;
  intents : list (Z * Intent);
  actions : list (Z * ContractAction);
  guaranteed_coins : bool; (* [is_some] *)
  fallible_coins : Z; (* how many entries *)
  guaranteed_counts : CoinsDetails;
  fallible_counts : CoinsDetails
}.
Record ClaimRewardsTransaction := { c_owner : VerifyingKey; c_value : Z; c_nonce : Bytes; c_kind : ClaimKind }.
Inductive Transaction := Standard (tx : StandardTransaction) | ClaimRewards (claim : ClaimRewardsTransaction).

Record OutputInstructionUnshielded := { oi_amount : Z; oi_target_address : Bytes; oi_nonce : Bytes }.
Inductive CNightGeneratesDustActionType := Create | Destroy.
Record CNightGeneratesDustEvent := {
  ev_value : Z;
  ev_owner : DustPublicKey;
  ev_time : Z;
  ev_action : CNightGeneratesDustActionType;
  ev_nonce : Bytes
}.
Inductive SystemTransaction :=
| OverwriteParameters (p : LedgerParameters)
| DistributeNight (k : ClaimKind) (outputs : list OutputInstructionUnshielded)
| PayBlockRewardsToTreasury (p : SystemPayload)
| PayFromTreasuryShielded (p : SystemPayload)
| PayFromTreasuryUnshielded (p : SystemPayload)
| DistributeReserve (amount : Z)
| UnlockToTreasury (amount : Z)
| CNightGeneratesDustUpdate (events : list CNightGeneratesDustEvent)
| OtherSystemTransaction (p : SystemPayload).

Record TransactionContext := { ref_state : LedgerState; block_context : BlockContext }.
(** [semantics::TransactionResult]: a partial success lists segments with their results. *)
Inductive TransactionResult :=
| Success
| PartialSuccess (segments : list (Z * option TransactionInvalid))
| Failure (reason : TransactionInvalid).

(** ** The ledger of the node: [api/ledger.rs] *)

Record Ledger := { state : LedgerState; block_fullness : SyntheticCost }.
Inductive AppliedStage := AllApplied | AppliedPartially (segments : gmap Z (option TransactionInvalid)).
End Types.

Class MnLedger `{!LedgerTypes} := {
  (** the state *)
  state_hash : LedgerState -> Bytes;
  network_id : LedgerState -> Bytes;
  utxos : LedgerState -> gset Utxo;
  parameters : LedgerState -> LedgerParameters;
  block_limits : LedgerParameters -> SyntheticCost;
  bridge_min_amount : LedgerParameters -> Z;
  unclaimed_block_rewards : LedgerState -> Bytes -> option Z;
  bridge_receiving : LedgerState -> Bytes -> option Z;
  (** costs *)
  cost_add : SyntheticCost -> SyntheticCost -> SyntheticCost;
  normalize : SyntheticCost -> SyntheticCost -> option NormalizedCost;
  into_atomic_units : Z -> Z -> Z;
  (** times: [Timestamp + Duration] *)
  timestamp_add : Z -> Z -> Z;
  (** transactions *)
  transaction_hash : Transaction -> Bytes;
  transaction_identifiers : Transaction -> list (option Bytes);
  cost : Transaction -> LedgerParameters -> option SyntheticCost;
  well_formed : Transaction -> LedgerState -> Z -> MalformedTransaction + VerifiedTransaction;
  apply : LedgerState -> VerifiedTransaction -> TransactionContext -> LedgerState * TransactionResult;
  apply_guaranteed_only : LedgerState -> VerifiedTransaction -> TransactionContext -> option TransactionInvalid;
  guaranteed_outputs : Intent -> list UtxoOutput;
  guaranteed_inputs : Intent -> list UtxoSpend;
  fallible_outputs : Intent -> list UtxoOutput;
  fallible_inputs : Intent -> list UtxoSpend;
  intent_hash_at : Intent -> Z -> Bytes;
  utxo_of_spend : UtxoSpend -> Utxo;
  user_address : VerifyingKey -> Bytes;
  mk_intent_hash : OutputInstructionUnshielded -> Bytes -> Bytes;
  NIGHT : Bytes;
  (** system transactions *)
  system_hash : SystemTransaction -> Bytes;
  system_cost : SystemTransaction -> LedgerParameters -> SyntheticCost;
  apply_system_tx : LedgerState -> SystemTransaction -> Z -> SystemTransactionFailure + LedgerState;
  (** the end of a block *)
  state_prevalidate : LedgerState -> NormalizedCost -> Z -> bool;
  state_apply_post_block_update : LedgerState -> Z -> NormalizedCost -> Z -> LedgerState;
  state_post_block_update : LedgerState -> Z -> NormalizedCost -> Z -> option LedgerState;
  (** errors: [conversions.rs] *)
  malformed_error : MalformedTransaction -> Me.MalformedError;
  invalid_error : TransactionInvalid -> Ie.InvalidError;
  system_error : SystemTransactionFailure -> Ste.SystemTransactionError;
  (** serialization; [versioned_deserialize] tells whether the source is a [transaction[v12]] *)
  versioned_deserialize : Bytes -> option (Transaction * bool);
  deserialize_system : Bytes -> option SystemTransaction;
  serialize_system : SystemTransaction -> option Bytes;
  deserialize_event : Bytes -> option CNightGeneratesDustEvent;
  serialize_event : CNightGeneratesDustEvent -> option Bytes;
  deserialize_dust_key : Bytes -> option DustPublicKey;
  serialize_address : ContractAddress -> option Bytes;
  serialize_parameters : LedgerParameters -> option Bytes;
  (** storage: the key of an object is computed from its content *)
  typed_key : Ledger -> Bytes;
  serialize_key : Bytes -> option Bytes;
  deserialize_key : Bytes -> option Bytes;
  (** [sp_core::Twox128] and [hex::decode] *)
  twox128 : Bytes -> Bytes;
  hex_decode : Bytes -> option Bytes
}.

Definition cost_le (c l : SyntheticCost) : Prop :=
  read_time c <= read_time l /\ compute_time c <= compute_time l /\ block_usage c <= block_usage l /\
  bytes_written c <= bytes_written l /\ bytes_churned c <= bytes_churned l.

(** What the code relies on: a cost within the limits can be normalized, a transaction
    whose guaranteed part runs is not a failure, and keys can be read back and tell objects apart. *)
Class MnLedgerLaws `{!LedgerTypes, !MnLedger} := {
  normalize_within c l : cost_le c l -> is_Some (normalize c l);
  guaranteed_runs st vt ctx : apply_guaranteed_only st vt ctx = None -> forall e, snd (apply st vt ctx) <> Failure e;
  key_roundtrip k b : serialize_key k = Some b -> deserialize_key b = Some k;
  key_serializes k : is_Some (serialize_key k);
  key_of_content l l' : typed_key l = typed_key l' -> l = l';
  system_roundtrip t b : serialize_system t = Some b -> deserialize_system b = Some t
}.

Section Api.
Context `{!LedgerTypes, !MnLedger}.

(** ** Costs: [src/ledger/helpers] and [scale_normalized_cost] *)

Definition cost_zero : SyntheticCost :=
  {| read_time := 0; compute_time := 0; block_usage := 0; bytes_written := 0; bytes_churned := 0 |}.
(** [StorableSyntheticCost::is_zero] *)
Definition is_zero (c : SyntheticCost) : bool :=
  (read_time c =? 0) && (compute_time c =? 0) && (block_usage c =? 0) && (bytes_written c =? 0) && (bytes_churned c =? 0).
Definition compute_overall_fullness (n : NormalizedCost) : Z :=
  Z.max (Z.max (Z.max (n_read_time n) (n_compute_time n)) (n_block_usage n)) (Z.max (n_bytes_written n) (n_bytes_churned n)).
Definition clamp (cost limits : SyntheticCost) : SyntheticCost :=
  {| read_time := Z.min (read_time cost) (read_time limits);
     compute_time := Z.min (compute_time cost) (compute_time limits);
     block_usage := Z.min (block_usage cost) (block_usage limits);
     bytes_written := Z.min (bytes_written cost) (bytes_written limits);
     bytes_churned := Z.min (bytes_churned cost) (bytes_churned limits) |}.
Definition clamp_and_normalize {E} (cost limits : SyntheticCost) : outcome E NormalizedCost :=
  some_or_panic (normalize (clamp cost limits) limits).
Definition scale_normalized_cost (n : NormalizedCost) (max_weight : Z) : Z :=
  let max_fp := Z.max (Z.max (Z.max (Z.max (n_read_time n) (n_compute_time n)) (n_block_usage n)) (n_bytes_written n))
                  (n_bytes_churned n) in
  wrap 64 (Z.min (into_atomic_units max_fp max_weight) max_weight).

(** [post_block_update/ledger_9.rs] *)
Definition prevalidate_post_block_update (st : LedgerState) (fullness limits : SyntheticCost) : outcome Lae.LedgerApiError unit :=
  let! normalized_fullness := some_or (normalize fullness limits) Lae.BlockLimitExceededError in
  if state_prevalidate st normalized_fullness (compute_overall_fullness normalized_fullness)
  then Ok tt else Err Lae.BlockLimitExceededError.

(** ** Operations of a transaction: [api/transaction.rs] *)

Inductive Operation :=
| OperationCall (address : ContractAddress) (entry_point : Bytes)
| OperationDeploy (address : ContractAddress)
| OperationMaintain (address : ContractAddress)
| OperationClaimRewards (value : Z)
| OperationClaimBridgeTransfer (value : Z).

Definition operation_of (a : ContractAction) : Operation :=
  match a with
  | Call address entry_point => OperationCall address entry_point
  | Deploy address => OperationDeploy address
  | Maintain address _ => OperationMaintain address
  end.
Definition calls_and_deploys (filter_segments : option (list Z)) (tx : Transaction) : list Operation :=
  let filtered_segments := default [] filter_segments in
  match tx with
  | Standard tx =>
      omap (fun '(segment, call) =>
              if bool_decide (segment ∈ filtered_segments) then None else Some (operation_of call)) (actions tx)
  | ClaimRewards c =>
      [match c_kind c with
       | Reward => OperationClaimRewards (c_value c)
       | CardanoBridge => OperationClaimBridgeTransfer (c_value c)
       end]
  end.
Definition tx_has_guaranteed_coins (tx : Transaction) : bool :=
  match tx with Standard tx => guaranteed_coins tx | ClaimRewards _ => false end.
Definition tx_has_fallible_coins (tx : Transaction) : bool :=
  match tx with Standard tx => 0 <? fallible_coins tx | ClaimRewards _ => false end.

(** ** Unshielded UTXOs of a transaction *)

Definition utxo_of_info (i : UtxoInfo) : Utxo :=
  {| u_value := value i; u_owner := address i; u_type := token_type i; u_intent_hash := intent_hash i;
     u_output_no := output_no i |}.
(** [UtxoInfo::from(UtxoOutputInfo)] *)
Definition info_of_output (h : Bytes) (n : Z) (o : UtxoOutput) : UtxoInfo :=
  {| address := uo_owner o; token_type := uo_type o; intent_hash := h; value := uo_value o; output_no := n |}.
Definition from_utxo_spend (spend : UtxoSpend) : UtxoInfo :=
  let utxo := utxo_of_spend spend in
  {| address := u_owner utxo; token_type := u_type utxo; intent_hash := u_intent_hash utxo; value := u_value utxo;
     output_no := u_output_no utxo |}.
Definition utxos_info_from_output (outputs : list UtxoOutput) (h : Bytes) : option (list UtxoInfo) :=
  mapM (fun '(no, output) => no ← try_into_u 32 no; Some (info_of_output h no output)) (imap (fun i o => (Z.of_nat i, o)) outputs).
Definition utxos_info_from_inputs (inputs : list UtxoSpend) : list UtxoInfo := from_utxo_spend <$> inputs.

(** [BTreeMap<SegmentId, Vec<UtxoInfo>>], in its order *)
Notation Segments := (list (Z * list UtxoInfo)).
Record UnshieldedUtxos := { outputs : Segments; inputs : Segments }.
Definition no_utxos : UnshieldedUtxos := {| outputs := []; inputs := [] |}.

(** [map.entry(segment_id).or_default().extend(infos)] *)
Fixpoint extend_entry (segment_id : Z) (infos : list UtxoInfo) (m : Segments) : Segments :=
  match m with
  | [] => [(segment_id, infos)]
  | (s, l) :: m' =>
      if segment_id <? s then (segment_id, infos) :: m
      else if segment_id =? s then (s, l ++ infos) :: m'
      else (s, l) :: extend_entry segment_id infos m'
  end.
Definition update_segment (segment_id : Z) (infos : list UtxoInfo) (m : Segments) : Segments :=
  match infos with [] => m | _ => extend_entry segment_id infos m end.

Definition add_intent (segment_id : Z) (h : Bytes) (utxo_outputs : list UtxoOutput) (utxo_inputs : list UtxoSpend)
    (u : UnshieldedUtxos) : option UnshieldedUtxos :=
  outputs_info ← utxos_info_from_output utxo_outputs h;
  Some {| outputs := update_segment segment_id outputs_info (outputs u);
          inputs := update_segment segment_id (utxos_info_from_inputs utxo_inputs) (inputs u) |}.

Definition intent_at (segment_id : Z) (tx : StandardTransaction) : option Intent :=
  snd <$> List.find (fun e => fst e =? segment_id) (intents tx).

(** The guaranteed phase takes the guaranteed part of every intent, a fallible segment the
    fallible part of its own. *)
Definition add_segment (tx : StandardTransaction) (u : UnshieldedUtxos) (segment_id : Z) : option UnshieldedUtxos :=
  if segment_id =? 0 then
    foldl (fun acc '(_, intent) =>
             u ← acc; add_intent segment_id (intent_hash_at intent segment_id) (guaranteed_outputs intent) (guaranteed_inputs intent) u)
      (Some u) (intents tx)
  else
    match intent_at segment_id tx with
    | Some intent =>
        add_intent segment_id (intent_hash_at intent segment_id) (fallible_outputs intent) (fallible_inputs intent) u
    | None => Some u
    end.

Definition unshielded_utxos (tx : Transaction) : UnshieldedUtxos :=
  match tx with
  | Standard tx => default no_utxos (foldl (fun acc segment_id => u ← acc; add_segment tx u segment_id) (Some no_utxos) (segments tx))
  | ClaimRewards claim =>
      let address := user_address (c_owner claim) in
      let h := mk_intent_hash {| oi_amount := c_value claim; oi_target_address := address; oi_nonce := c_nonce claim |} NIGHT in
      {| outputs := update_segment 0 [{| address := address; token_type := NIGHT; intent_hash := h;
                                         value := c_value claim; output_no := 0 |}] [];
         inputs := [] |}
  end.

Definition failed (segments : gmap Z (option TransactionInvalid)) (segment_id : Z) : bool :=
  match segments !! segment_id with Some (Some _) => true | _ => false end.
Definition remove_failed_segments (segments : gmap Z (option TransactionInvalid)) (u : UnshieldedUtxos) : UnshieldedUtxos :=
  {| outputs := filter (fun e => failed segments (fst e) = false) (outputs u);
     inputs := filter (fun e => failed segments (fst e) = false) (inputs u) |}.

Definition flatten (m : Segments) : list UtxoInfo := m ≫= snd.

Definition check_utxos_response_integrity (u : UnshieldedUtxos) (initial_utxos_size : Z) (new : Ledger)
    : outcome Lae.LedgerApiError (list UtxoInfo * list UtxoInfo) :=
  if negb (forallb (fun i => bool_decide (utxo_of_info i ∈ utxos (state new))) (flatten (outputs u)))
  then Err Lae.HostApiError
  else if existsb (fun i => bool_decide (utxo_of_info i ∈ utxos (state new))) (flatten (inputs u))
  then Err Lae.HostApiError
  else
    let expected_final_utxos_size :=
      saturating_sub (saturating_add 64 initial_utxos_size (len (flatten (outputs u)))) (len (flatten (inputs u))) in
    if Z.of_nat (size (utxos (state new))) =? expected_final_utxos_size
    then Ok (flatten (outputs u), flatten (inputs u)) else Err Lae.HostApiError.

(** ** The order of UTXOs in old blocks: [utxo_ordering_override.rs] *)

Record UtxoOrdering := { created : list (Bytes * Z); spent : list (Bytes * Z) }.
Record UtxoEntry := { e_intent_hash : Bytes; e_output_index : Z }.
Record TxOverride := { o_tx_hash : Bytes; o_block_height : Z; o_created : list UtxoEntry; o_spent : list UtxoEntry }.

(** At most thirty-two bytes, filled up with zeros; zeros if the string is not hexadecimal *)
Definition parse_hash (hex_str : Bytes) : Bytes :=
  let bytes := take 32 (default [] (hex_decode hex_str)) in
  bytes ++ replicate (32 - length bytes) 0.
Definition parse_entry (e : UtxoEntry) : Bytes * Z := (parse_hash (e_intent_hash e), e_output_index e).
Definition ordering_of (tx : TxOverride) : UtxoOrdering :=
  {| created := parse_entry <$> o_created tx; spent := parse_entry <$> o_spent tx |}.
Definition PREVIEW : Bytes := [112; 114; 101; 118; 105; 101; 119].
Definition PREPROD : Bytes := [112; 114; 101; 112; 114; 111; 100].
Definition QANET : Bytes := [113; 97; 110; 101; 116].
(** [file] is what can be read and parsed of the file of a network. *)
Definition load_overrides (file : Bytes -> option (list TxOverride)) (network_id : option Bytes) : gmap Bytes UtxoOrdering :=
  let network_id := default [] network_id in
  if bool_decide (network_id ∈ [PREVIEW; PREPROD; QANET]) then
    match file network_id with
    | Some entries => foldl (fun map tx => <[parse_hash (o_tx_hash tx) := ordering_of tx]> map) ∅ entries
    | None => ∅
    end
  else ∅.

(** [Vec::swap_remove]: the last element takes the place of the one removed. *)
Definition swap_remove {A} (pos : nat) (l : list A) : list A :=
  match last l with
  | Some x => if decide (S pos = length l) then take pos l else <[pos := x]> (take (length l - 1) l)
  | None => l
  end.
Definition entry_key (u : UtxoInfo) : Bytes * Z := (intent_hash u, output_no u).
Fixpoint reorder_loop (expected : list (Bytes * Z)) (us reordered : list UtxoInfo) : list UtxoInfo :=
  match expected with
  | [] => reordered
  | key :: expected' =>
      match list_find (fun u => entry_key u = key) us with
      | Some (pos, u) => reorder_loop expected' (swap_remove pos us) (reordered ++ [u])
      | None => us
      end
  end.
Definition reorder (us : list UtxoInfo) (expected : list (Bytes * Z)) : list UtxoInfo :=
  if bool_decide (expected = []) || negb (len us =? len expected) then us else reorder_loop expected us [].
Definition ordering_apply (o : UtxoOrdering) (outputs : list UtxoInfo) (output_segments : Z) (inputs : list UtxoInfo)
    (input_segments : Z) : list UtxoInfo * list UtxoInfo :=
  (if 1 <? output_segments then reorder outputs (created o) else outputs,
   if 1 <? input_segments then reorder inputs (spent o) else inputs).

(** ** Steps of the ledger: [api/ledger.rs] *)

Definition is_block_start (l : Ledger) : bool := is_zero (block_fullness l).

Definition get_transaction_context (l : Ledger) (c : BlockContext) : outcome Lae.LedgerApiError TransactionContext :=
  if len (parent_block_hash c) =? 32 then Ok {| ref_state := state l; block_context := c |} else Err Lae.GetTransactionContextError.

Definition apply_verified_transaction (l : Ledger) (tx : Transaction) (verified_tx : VerifiedTransaction) (ctx : TransactionContext)
    : outcome Lae.LedgerApiError (Ledger * AppliedStage) :=
  let! tx_cost := some_or (cost tx (parameters (state l))) Lae.FeeCalculationError in
  let next_block_fullness := cost_add tx_cost (block_fullness l) in
  let! _ := prevalidate_post_block_update (state l) next_block_fullness (block_limits (parameters (state l))) in
  let '(next_state, result) := apply (state l) verified_tx ctx in
  let new := {| state := next_state; block_fullness := next_block_fullness |} in
  match result with
  | Success => Ok (new, AllApplied)
  | PartialSuccess segments => Ok (new, AppliedPartially (list_to_map segments))
  | Failure reason => Err (Lae.Transaction (Te.Invalid (invalid_error reason)))
  end.

Definition ledger_post_block_update (l : Ledger) (c : BlockContext) : outcome Lae.LedgerApiError Ledger :=
  let! normalized_fullness := clamp_and_normalize (block_fullness l) (block_limits (parameters (state l))) in
  let! next_state := some_or (state_post_block_update (state l) (tblock c) normalized_fullness
                                (compute_overall_fullness normalized_fullness)) Lae.BlockLimitExceededError in
  Ok {| state := next_state; block_fullness := cost_zero |}.

Definition ledger_apply_post_block_update {E} (l : Ledger) (c : BlockContext) : outcome E Ledger :=
  let! normalized_fullness := clamp_and_normalize (block_fullness l) (block_limits (parameters (state l))) in
  Ok {| state := state_apply_post_block_update (state l) (tblock c) normalized_fullness
                   (compute_overall_fullness normalized_fullness);
        block_fullness := cost_zero |}.

(** The cost is that of the old parameters, the limits are the new ones. *)
Definition ledger_apply_system_tx (l : Ledger) (tx : SystemTransaction) (tblock : Z) : outcome Lae.LedgerApiError Ledger :=
  let next_block_fullness := cost_add (system_cost tx (parameters (state l))) (block_fullness l) in
  match apply_system_tx (state l) tx tblock with
  | inl e => Err (Lae.Transaction (Te.SystemTransaction (system_error e)))
  | inr next_state =>
      let! _ := prevalidate_post_block_update next_state next_block_fullness (block_limits (parameters next_state)) in
      Ok {| state := next_state; block_fullness := next_block_fullness |}
  end.
End Api.

(** ** Reordering

    Either the UTXOs come out in the order that is asked for, or they are left alone, or
    an entry of the override is missing: then those of the entries before it are left out,
    and the report is shorter than the override. *)

Lemma swap_remove_perm {A} pos (l : list A) u : l !! pos = Some u -> u :: swap_remove pos l ≡ₚ l.
Proof.
  intros Hu. destruct l as [|x l' _] using rev_ind; [done|]. unfold swap_remove. rewrite last_snoc, length_app. simpl.
  destruct (decide (S pos = (length l' + 1)%nat)) as [Hp|Hp].
  - assert (pos = length l') as -> by lia. rewrite lookup_app_r, Nat.sub_diag in Hu by done. simplify_eq/=.
    rewrite take_app_length. apply Permutation_cons_append.
  - apply lookup_lt_Some in Hu as Hlt. rewrite length_app in Hlt. simpl in Hlt.
    rewrite lookup_app_l in Hu by lia. rewrite take_app_le, take_ge by lia.
    rewrite <-(take_drop_middle l' pos u Hu) at 2.
    rewrite (insert_take_drop l' pos x) by lia. rewrite <-!app_assoc. simpl.
    rewrite <-!Permutation_middle, app_nil_r. done.
Qed.

Lemma reorder_loop_spec expected us reordered : exists found left,
  found ++ left ≡ₚ us /\
  ((entry_key <$> found = expected /\ reorder_loop expected us reordered = reordered ++ found) \/
   (exists missing rest, expected = (entry_key <$> found) ++ missing :: rest /\ missing ∉ entry_key <$> left /\
      reorder_loop expected us reordered = left)).
Proof.
  revert us reordered. induction expected as [|key expected IH]; intros us reordered.
  - exists [], us. split; [done|]. left. by rewrite app_nil_r.
  - simpl. destruct (list_find _ us) as [[pos u]|] eqn:E.
    + apply list_find_Some in E as (Hu & Hk & _). destruct (IH (swap_remove pos us) (reordered ++ [u])) as (found & rem & Hp & Hc).
      exists (u :: found), rem. split; [by rewrite <-(swap_remove_perm pos us u Hu), <-Hp|].
      destruct Hc as [[<- ->]|(missing & rest & -> & Hm & ->)].
      * left. subst key. by rewrite <-app_assoc.
      * right. exists missing, rest. subst key. done.
    + apply list_find_None in E. exists [], us. split; [done|]. right. exists key, expected. split; [done|]. split; [|done].
      intros (x & -> & Hx)%list_elem_of_fmap. rewrite Forall_forall in E. by apply (E x).
Qed.

Lemma reorder_elem us expected u : u ∈ reorder us expected -> u ∈ us.
Proof.
  unfold reorder. destruct (_ || _); [done|]. destruct (reorder_loop_spec expected us []) as (found & rem & Hp & Hc).
  intros Hu. rewrite <-Hp, elem_of_app. destruct Hc as [[_ E]|(? & ? & _ & _ & E)]; rewrite E in Hu; auto.
Qed.

Lemma reorder_complete us expected :
  entry_key <$> us ≡ₚ expected -> reorder us expected ≡ₚ us /\ entry_key <$> reorder us expected = expected.
Proof.
  intros Hk. assert (length us = length expected) as Hl by (by rewrite <-Hk, length_fmap).
  unfold reorder, len. rewrite Hl, Z.eqb_refl. case_bool_decide as He; simpl.
  { subst expected. apply nil_length_inv in Hl as ->. done. }
  destruct (reorder_loop_spec expected us []) as (found & rem & Hp & [[Hf ->]|(missing & rest & Hx & Hm & _)]).
  - apply (f_equal length) in Hf as Hlf. rewrite length_fmap in Hlf. rewrite <-Hp, length_app in Hl.
    assert (rem = []) as -> by (apply nil_length_inv; lia). rewrite app_nil_r in Hp. done.
  - rewrite <-Hp, fmap_app, Hx in Hk. apply (inj (app _)) in Hk. contradict Hm. rewrite Hk. left.
Qed.

(** A report that is as long as the override leaves no UTXO out. *)
Lemma reorder_length us expected :
  (length expected <= length (reorder us expected))%nat -> length (reorder us expected) = length us.
Proof.
  unfold reorder, len. case_bool_decide as He; simpl; [done|]. destruct (Z.eqb_spec (Z.of_nat (length us)) (Z.of_nat (length expected))) as [Hl|]; simpl; [|done].
  destruct (reorder_loop_spec expected us []) as (found & rem & Hp & [[<- ->]|(missing & rest & _ & _ & ->)]).
  - simpl. rewrite length_fmap in Hl. lia.
  - apply Permutation_length in Hp. rewrite length_app in Hp. lia.
Qed.

(** When an entry of the override is not among the UTXOs, exactly those of the entries
    before it are left out. *)
Lemma reorder_stale us pre missing rest : NoDup pre -> pre ⊆ (entry_key <$> us) -> missing ∉ entry_key <$> us ->
  length us = length (pre ++ missing :: rest) ->
  exists lost, entry_key <$> lost = pre /\ lost ++ reorder us (pre ++ missing :: rest) ≡ₚ us.
Proof.
  intros Hnd Hpre Hmiss Hl. unfold reorder, len. rewrite Hl, Z.eqb_refl. rewrite bool_decide_false by (by destruct pre).
  simpl orb. cbn iota.
  destruct (reorder_loop_spec (pre ++ missing :: rest) us []) as (found & rem & Hp & Hc).
  assert (missing ∉ entry_key <$> found) as Hmf.
  { contradict Hmiss. rewrite <-Hp, fmap_app, elem_of_app. by left. }
  destruct Hc as [[Hf _]|(missing' & rest' & Hx & Hm' & ->)].
  { contradict Hmf. rewrite Hf. apply elem_of_app. right. left. }
  exists found. split; [|done]. destruct (app_eq_inv _ _ _ _ Hx) as [(k & E1 & E2)|(k & E1 & E2)].
  - destruct k as [|y k]; [by rewrite E1, app_nil_r|]. injection E2 as <- _. exfalso. rewrite E1 in Hnd.
    apply NoDup_app in Hnd as (_ & Hdis & _). assert (missing' ∈ entry_key <$> us) as Hin.
    { apply Hpre. rewrite E1. apply elem_of_app. right. left. }
    rewrite <-Hp, fmap_app, elem_of_app in Hin. destruct Hin as [Hin|Hin]; [|done]. apply (Hdis missing'); [done|left].
  - destruct k as [|y k]; [by rewrite E1, app_nil_r|]. injection E2 as <- _. exfalso. apply Hmf. rewrite E1. apply elem_of_app. right. left.
Qed.

(** Lists with the same elements and the same sequence of distinct keys are the same. *)
Lemma Permutation_keys_eq {A B} (key : A -> B) l1 l2 :
  l1 ≡ₚ l2 -> key <$> l1 = key <$> l2 -> NoDup (key <$> l2) -> l1 = l2.
Proof.
  intros Hp Hk Hnd. apply list_eq_same_length with (length l2); [done|by apply Permutation_length|].
  intros i x y _ Hx Hy. assert (x ∈ l2) as [j Hj]%list_elem_of_lookup.
  { rewrite <-Hp. apply list_elem_of_lookup. by exists i. }
  assert ((key <$> l2) !! i = Some (key x)) as Hi by (rewrite <-Hk, list_lookup_fmap, Hx; done).
  assert ((key <$> l2) !! j = Some (key x)) as Hj' by (rewrite list_lookup_fmap, Hj; done).
  pose proof (NoDup_lookup _ _ _ _ Hnd Hi Hj'). congruence.
Qed.

Lemma reorder_restores us old : NoDup (entry_key <$> old) -> us ≡ₚ old -> reorder us (entry_key <$> old) = old.
Proof.
  intros Hnd Hp. destruct (reorder_complete us (entry_key <$> old)) as [Hr Hk]; [by rewrite Hp|].
  apply (Permutation_keys_eq entry_key); [by rewrite Hr|done|done].
Qed.

(** C37: an override gives back the order of an old block: if it lists the UTXOs that the
    block reported as created and as spent, in the block's order and each of them once, then
    a node that finds the same UTXOs in any other order reports them exactly as the block
    did, in each of the two lists whose UTXOs stem from more than one segment, and leaves
    the other list alone.  An override of another length, or none at all, changes nothing. *)
Theorem override_restores_order old_created old_spent outputs output_segments inputs input_segments :
  NoDup (entry_key <$> old_created) -> NoDup (entry_key <$> old_spent) ->
  outputs ≡ₚ old_created -> inputs ≡ₚ old_spent ->
  ordering_apply {| created := entry_key <$> old_created; spent := entry_key <$> old_spent |}
      outputs output_segments inputs input_segments =
    (if 1 <? output_segments then old_created else outputs, if 1 <? input_segments then old_spent else inputs) /\
  forall o, (created o = [] \/ length (created o) <> length outputs) -> (spent o = [] \/ length (spent o) <> length inputs) ->
    ordering_apply o outputs output_segments inputs input_segments = (outputs, inputs).
Proof.
  intros Hc Hs Ho Hi. unfold ordering_apply. simpl. split; [by rewrite !reorder_restores|].
  assert (forall us expected, expected = [] \/ length expected <> length us -> reorder us expected = us) as Hskip.
  { intros us expected H'. unfold reorder, len. case_bool_decide; [done|]. destruct H' as [|Hl]; [done|].
    by rewrite (proj2 (Z.eqb_neq _ _)) by lia. }
  intros o Hoc Hos. rewrite !Hskip by done. by destruct (1 <? output_segments), (1 <? input_segments).
Qed.

Module ReorderExample.
Definition utxo (h no : Z) : UtxoInfo :=
  {| address := []; token_type := []; intent_hash := [h]; value := 100; output_no := no |}.
(** The UTXOs as the node finds them, and the order of an old block *)
Definition us : list UtxoInfo := [utxo 1 0; utxo 2 0; utxo 3 0].
Definition old : list UtxoInfo := [utxo 3 0; utxo 1 0; utxo 2 0].
(** An override of which the second entry is unknown *)
Definition stale : list (list Z * Z) := [([2], 0); ([9], 0); ([1], 0)].
Lemma stale_loses : reorder us stale = [utxo 1 0; utxo 3 0].
Proof. reflexivity. Qed.
End ReorderExample.

Lemma override_restores_order_witness :
  ordering_apply {| created := [([3], 0); ([1], 0); ([2], 0)]; spent := [] |} ReorderExample.us 3 [] 0 = (ReorderExample.old, []).
Proof.
  apply (override_restores_order ReorderExample.old [] ReorderExample.us 3 [] 0).
  - by apply (bool_decide_unpack _).
  - apply NoDup_nil_2.
  - symmetry. apply (Permutation_cons_append [ReorderExample.utxo 1 0; ReorderExample.utxo 2 0] (ReorderExample.utxo 3 0)).
  - done.
Defined.
