(* ===== verification/LedgerBridge.v ===== *)
(** * The host functions of the ledger

    Models [src/ledger/src/versions/common/mod.rs], the bridge through which the runtime
    applies and validates transactions, and [src/ledger/src/host_api/ledger_9.rs], the
    versions of each host function that runtimes call.  The host keeps the ledger states,
    and two caches of validated transactions that outlive a block.

    The theorems: the caches do not change what a node computes, a transaction of the
    memo version has no effect before its activation, a transaction that was accepted at
    pre-dispatch fails only for its cost, the limits of the block or its report when it is
    applied, and what a transaction reports is in the state it leads to. *)

From stdpp Require Import strings.
From S2P Require Import Prelude LedgerErrors LedgerApi.

(** ** State of the host *)

Section Host.
Context `{!LedgerTypes}.

Record StrictTxValidationKey := { sk_state_hash : Bytes; sk_tx_hash : Bytes; sk_tblock : Z }.
#[export] Instance strict_key_eq_dec : EqDecision StrictTxValidationKey.
Proof. solve_decision. Defined.
#[export] Instance strict_key_countable : Countable StrictTxValidationKey.
Proof.
  refine (inj_countable' (fun k => (sk_state_hash k, sk_tx_hash k, sk_tblock k))
    (fun '(s, t, b) => {| sk_state_hash := s; sk_tx_hash := t; sk_tblock := b |}) _). by intros [].
Defined.

(** The database of the ledger: a part of the node's, or one of its own *)
Inductive StorageMode := UnifiedDb | SeparateDb.
#[export] Instance mode_eq_dec : EqDecision StorageMode.
Proof. solve_decision. Defined.
#[export] Instance mode_countable : Countable StorageMode.
Proof.
  refine (inj_countable' (fun m => match m with UnifiedDb => true | SeparateDb => false end)
    (fun b : bool => if b then UnifiedDb else SeparateDb) _). by intros [].
Defined.

(** The extensions of the host that a call reads *)
Record Externalities := { storage : option StorageMode; tblock_correction : option TBlockCorrection }.

(** A cached [VerifiedTransaction] has the type of its database: [downcast_ref] finds it
    only if the call uses the same one. *)
Record Host := {
  arena : gmap (StorageMode * Bytes) Ledger;
  strict_cache : gmap StrictTxValidationKey (StorageMode * VerifiedTransaction);
  soft_cache : gmap Bytes (outcome Lae.LedgerApiError unit);
  network : option Bytes; (* NETWORK_ID *)
  overrides : option (gmap Bytes UtxoOrdering); (* OVERRIDES *)
  storages : gset StorageMode (* the default storages that are set *)
}.
Definition set_arena x h := {| arena := x; strict_cache := strict_cache h; soft_cache := soft_cache h; network := network h; overrides := overrides h; storages := storages h |}.
Definition set_strict x h := {| arena := arena h; strict_cache := x; soft_cache := soft_cache h; network := network h; overrides := overrides h; storages := storages h |}.
Definition set_soft x h := {| arena := arena h; strict_cache := strict_cache h; soft_cache := x; network := network h; overrides := overrides h; storages := storages h |}.
Definition set_network x h := {| arena := arena h; strict_cache := strict_cache h; soft_cache := soft_cache h; network := x; overrides := overrides h; storages := storages h |}.
Definition set_overrides x h := {| arena := arena h; strict_cache := strict_cache h; soft_cache := soft_cache h; network := network h; overrides := x; storages := storages h |}.
Definition set_storages x h := {| arena := arena h; strict_cache := strict_cache h; soft_cache := soft_cache h; network := network h; overrides := overrides h; storages := x |}.

(** A host function returns a value or an error, and the host keeps what it changed
    before an error. *)
Definition HM (A : Type) : Type := Host -> outcome Lae.LedgerApiError A * Host.
Definition hret {A} (a : A) : HM A := fun h => (Ok a, h).
Definition hbind {A B} (m : HM A) (k : A -> HM B) : HM B := fun h =>
  match m h with
  | (Ok a, h') => k a h'
  | (Err e, h') => (Err e, h')
  | (Panic, h') => (Panic, h')
  end.
Definition lift {A} (o : outcome Lae.LedgerApiError A) : HM A := fun h => (o, h).
Definition hgets {A} (f : Host -> A) : HM A := fun h => (Ok (f h), h).
Definition hmodify (f : Host -> Host) : HM unit := fun h => (Ok tt, f h).
End Host.

Notation "'let^' x := m 'in' k" := (hbind m (fun x => k))
  (at level 10, x name, m at level 200, k at level 200, format "'[v' 'let^'  x  :=  m  'in' '/' k ']'") : pallet_scope.
Notation "'do^' m 'in' k" := (hbind m (fun _ => k))
  (at level 10, m at level 200, k at level 200, format "'[v' 'do^'  m  'in' '/' k ']'") : pallet_scope.

Section Bridge.
Context `{!LedgerTypes, !MnLedger}.
(** The override file of a network, as far as it can be read and parsed *)
Context (override_file : Bytes -> option (list TxOverride)).
(** [D]: the database of the call *)
Context (mode : StorageMode).

(** ** Storage *)

Definition get_ledger (state_key : Bytes) : HM Ledger := fun h =>
  match deserialize_key state_key with
  | None => (Err (Lae.Deserialization De.TypedArenaKey), h)
  | Some key => (some_or (arena h !! (mode, key)) Lae.NoLedgerState, h)
  end.
(** [api.tagged_serialize(&ledger.as_typed_key())] *)
Definition serialized_key (l : Ledger) : outcome Lae.LedgerApiError Bytes :=
  some_or (serialize_key (typed_key l)) (Lae.Serialization Se.TypedArenaKey).
(** The store is addressed by content: an object that it has is not written again. *)
Definition persist (l : Ledger) : HM unit :=
  hmodify (fun h => match arena h !! (mode, typed_key l) with
                    | Some _ => h
                    | None => set_arena (<[(mode, typed_key l) := l]> (arena h)) h
                    end).

(** ** Decoding: the gate of the memo version *)

(** [tx_envelope/ledger_9.rs] *)
Definition decode_versioned (bytes : Bytes) : outcome Lae.LedgerApiError (Transaction * TxWireEra) :=
  let! versioned := some_or (versioned_deserialize bytes) (Lae.Deserialization De.Transaction) in
  Ok (fst versioned, if snd versioned then PreMemo else MemoCapable).

Definition decode_transaction (tx_serialized : Bytes) (consensus : ConsensusContext) : outcome Lae.LedgerApiError Transaction :=
  let! decoded := decode_versioned tx_serialized in
  match snd decoded, memo_active consensus with
  | MemoCapable, false => Err Lae.TransactionVersionNotActive
  | _, _ => Ok (fst decoded)
  end.

(** ** Verified transactions and the strict cache *)

Definition tx_validation_cache_key (runtime_version : Z) (tx_serialized : Bytes) : Bytes :=
  wrapped_hash (twox128 (u32_to_le_bytes runtime_version ++ tx_serialized)).

Definition well_formed_tblock (ledger : Ledger) (c : BlockContext) (tc : option TBlockCorrection) : Z :=
  match tc, parent_block_time c with
  | Some tc, Some parent_block_time =>
      if (tblock c <? disable_after tc) && is_block_start ledger then timestamp_add parent_block_time (offset tc) else tblock c
  | _, _ => tblock c
  end.

Definition strict_key (ledger : Ledger) (c : BlockContext) (tx_hash : Bytes) : StrictTxValidationKey :=
  {| sk_state_hash := state_hash (state ledger); sk_tx_hash := tx_hash; sk_tblock := tblock c |}.

(** [cached.downcast_ref] *)
Definition downcast (cached : option (StorageMode * VerifiedTransaction)) : option VerifiedTransaction :=
  match cached with
  | Some (m, vt) => if decide (m = mode) then Some vt else None
  | None => None
  end.

Definition get_verified_transaction (ledger : Ledger) (tx : Transaction) (c : BlockContext) (tx_hash : Bytes)
    (tc : option TBlockCorrection) : HM VerifiedTransaction := fun h =>
  let key := strict_key ledger c tx_hash in
  match downcast (strict_cache h !! key) with
  | Some vt => (Ok vt, h)
  | None =>
      (let^ ctx := lift (get_transaction_context ledger c) in
       match well_formed tx (ref_state ctx) (well_formed_tblock ledger c tc) with
       | inl e => lift (Err (Lae.Transaction (Te.Malformed (malformed_error e))))
       | inr verified_tx =>
           do^ hmodify (fun h => set_strict (<[key := (mode, verified_tx)]> (strict_cache h)) h) in
           hret verified_tx
       end) h
  end.

(** [guaranteed_validation/ledger_9.rs] *)
Definition run_guaranteed (st : LedgerState) (vt : VerifiedTransaction) (ctx : TransactionContext) : outcome TransactionInvalid unit :=
  match apply_guaranteed_only st vt ctx with None => Ok tt | Some e => Err e end.

Definition invalid (reason : TransactionInvalid) : Lae.LedgerApiError := Lae.Transaction (Te.Invalid (invalid_error reason)).

(** For the pool: only successes are cached.  The result tells whether the cache answered. *)
Definition do_validate_transaction (ledger : Ledger) (tx : Transaction) (c : BlockContext) (tx_hash : Bytes) : HM bool := fun h =>
  match soft_cache h !! tx_hash with
  | Some cached => (let! _ := cached in Ok true, h)
  | None =>
      (let^ verified_tx := get_verified_transaction ledger tx c tx_hash None in
       let^ ctx := lift (get_transaction_context ledger c) in
       do^ lift (map_err invalid (run_guaranteed (state ledger) verified_tx ctx)) in
       do^ hmodify (fun h => set_soft (<[tx_hash := Ok tt]> (soft_cache h)) h) in
       hret false) h
  end.

(** At pre-dispatch the transaction leaves the soft cache. *)
Definition do_validate_guaranteed_execution (ledger : Ledger) (tx : Transaction) (c : BlockContext) (tx_hash : Bytes)
    (tc : option TBlockCorrection) : HM bool :=
  do^ hmodify (fun h => set_soft (delete tx_hash (soft_cache h)) h) in
  let^ was_cached := hgets (fun h => bool_decide (is_Some (strict_cache h !! strict_key ledger c tx_hash))) in
  let^ verified_tx := get_verified_transaction ledger tx c tx_hash tc in
  let^ ctx := lift (get_transaction_context ledger c) in
  do^ lift (map_err invalid (run_guaranteed (state ledger) verified_tx ctx)) in
  hret was_cached.

Definition validate_guaranteed_execution (tc : option TBlockCorrection) (state_key tx_serialized : Bytes) (c : BlockContext)
    (consensus : ConsensusContext) (runtime_version : Z) : HM unit :=
  let^ tx := lift (decode_transaction tx_serialized consensus) in
  let^ ledger := get_ledger state_key in
  let cache_key := tx_validation_cache_key runtime_version tx_serialized in
  do^ do_validate_guaranteed_execution ledger tx c cache_key tc in
  hret tt.

(** ** Costs and details *)

Definition get_transaction_cost (state_key tx : Bytes) (c : BlockContext) (consensus : ConsensusContext) (max_weight : Z) : HM Z :=
  let^ tx := lift (decode_transaction tx consensus) in
  let^ ledger := get_ledger state_key in
  let^ cost := lift (some_or (cost tx (parameters (state ledger))) Lae.FeeCalculationError) in
  let^ normalized := lift (some_or (normalize cost (block_limits (parameters (state ledger)))) Lae.BlockLimitExceededError) in
  hret (scale_normalized_cost normalized max_weight).

Definition count_update (d : ContractCallsDetails) (u : SingleUpdate) : ContractCallsDetails :=
  match u with
  | ReplaceAuthority => inc_replace_authority d
  | VerifierKeyInsert => inc_verifier_key_insert d
  | VerifierKeyRemove => inc_verifier_key_remove d
  | OtherUpdate => d
  end.
Definition count_action (d : ContractCallsDetails) (a : Z * ContractAction) : ContractCallsDetails :=
  match snd a with
  | Call _ _ => inc_calls d
  | Deploy _ => inc_deploys d
  | Maintain _ updates => foldl count_update d updates
  end.
(** [count() as u32] *)
Definition coins_details (c : CoinsDetails) : CoinsDetails :=
  {| inputs_num := wrap 32 (inputs_num c); outputs_num := wrap 32 (outputs_num c); transients_num := wrap 32 (transients_num c) |}.
Definition get_transaction_details (tx : Transaction) (tx_gas_cost : Z) : TransactionDetails :=
  match tx with
  | Standard tx =>
      StandardDetails (coins_details (guaranteed_counts tx)) (coins_details (fallible_counts tx))
        (set_gas_cost tx_gas_cost (foldl count_action no_calls (actions tx)))
  | ClaimRewards _ => ClaimRewardsDetails
  end.

(** On the path of the pool the block context is skewed by the caller, and not corrected. *)
Definition validate_transaction (state_key tx_serialized : Bytes) (c : BlockContext) (consensus : ConsensusContext)
    (runtime_version max_weight : Z) (get_tx_details : bool) : HM (Bytes * option TransactionDetails) :=
  let^ tx := lift (decode_transaction tx_serialized consensus) in
  let^ ledger := get_ledger state_key in
  let wrapped_cache_key := tx_validation_cache_key runtime_version tx_serialized in
  do^ do_validate_transaction ledger tx c wrapped_cache_key in
  if get_tx_details then
    let^ tx_gas_cost := get_transaction_cost state_key tx_serialized c consensus max_weight in
    hret (wrapped_cache_key, Some (get_transaction_details tx tx_gas_cost))
  else hret (wrapped_cache_key, None).

(** ** Applying transactions *)

(** [OnceLock]s: the first network stays, and the overrides are loaded once. *)
Definition set_network_id (id : Bytes) : HM unit :=
  hmodify (fun h => match network h with Some _ => h | None => set_network (Some id) h end).
Definition get_override (tx_hash : Bytes) : HM (option UtxoOrdering) := fun h =>
  let map := match overrides h with Some map => map | None => load_overrides override_file (network h) end in
  (Ok (map !! tx_hash), set_overrides (Some map) h).

Definition push_operation (e : TransactionAppliedStateRoot) (op : Operation) : outcome Lae.LedgerApiError TransactionAppliedStateRoot :=
  let serialized address := some_or (serialize_address address) (Lae.Serialization Se.ContractAddress) in
  let with_lists calls deploys maintains claims :=
    {| state_root := state_root e; tx_hash := tx_hash e; all_applied := all_applied e;
       call_addresses := call_addresses e ++ calls; deploy_addresses := deploy_addresses e ++ deploys;
       maintain_addresses := maintain_addresses e ++ maintains; claim_rewards := claim_rewards e ++ claims;
       unshielded_utxos_created := unshielded_utxos_created e; unshielded_utxos_spent := unshielded_utxos_spent e |} in
  match op with
  | OperationCall address _ => let! a := serialized address in Ok (with_lists [a] [] [] [])
  | OperationDeploy address => let! a := serialized address in Ok (with_lists [] [a] [] [])
  | OperationMaintain address => let! a := serialized address in Ok (with_lists [] [] [a] [])
  | OperationClaimRewards v | OperationClaimBridgeTransfer v => Ok (with_lists [] [] [] [v])
  end.
Fixpoint push_operations (e : TransactionAppliedStateRoot) (ops : list Operation) : outcome Lae.LedgerApiError TransactionAppliedStateRoot :=
  match ops with
  | [] => Ok e
  | op :: ops' => let! e' := push_operation e op in push_operations e' ops'
  end.

(** The UTXOs of the segments that did not fail, and the segments that the result lists *)
Definition applied_utxos (tx : Transaction) (stage : AppliedStage) : UnshieldedUtxos :=
  match stage with
  | AllApplied => unshielded_utxos tx
  | AppliedPartially segments => remove_failed_segments segments (unshielded_utxos tx)
  end.
Definition failed_segments (stage : AppliedStage) : option (list Z) :=
  match stage with AllApplied => None | AppliedPartially segments => Some (elements (dom segments)) end.

Definition apply_transaction (tc : option TBlockCorrection) (state_key tx_serialized : Bytes) (c : BlockContext)
    (consensus : ConsensusContext) (should_skip_failed_segments : bool) (runtime_version : Z) : HM TransactionAppliedStateRoot :=
  let^ tx := lift (decode_transaction tx_serialized consensus) in
  let^ ledger := get_ledger state_key in
  do^ set_network_id (network_id (state ledger)) in
  let initial_utxos_size := Z.of_nat (size (utxos (state ledger))) in
  let cache_key := tx_validation_cache_key runtime_version tx_serialized in
  let^ verified_tx := get_verified_transaction ledger tx c cache_key tc in
  let^ tx_ctx := lift (get_transaction_context ledger c) in
  let^ applied := lift (apply_verified_transaction ledger tx verified_tx tx_ctx) in
  let new_ledger := fst applied in
  let stage := snd applied in
  let us := applied_utxos tx stage in
  let operations := calls_and_deploys (if should_skip_failed_segments then failed_segments stage else None) tx in
  let^ checked := lift (check_utxos_response_integrity us initial_utxos_size new_ledger) in
  let^ ordering := get_override (transaction_hash tx) in
  let ordered := match ordering with
                 | Some o => ordering_apply o (fst checked) (len (outputs us)) (snd checked) (len (inputs us))
                 | None => checked
                 end in
  let^ root := lift (serialized_key new_ledger) in
  let^ event := lift (push_operations
    {| state_root := root; tx_hash := transaction_hash tx;
       all_applied := match stage with AllApplied => true | AppliedPartially _ => false end;
       call_addresses := []; deploy_addresses := []; maintain_addresses := []; claim_rewards := [];
       unshielded_utxos_created := fst ordered; unshielded_utxos_spent := snd ordered |} operations) in
  do^ persist new_ledger in
  hret event.

(** ** System transactions *)

(** [system_tx/ledger_9.rs] *)
Definition is_distribute_reserve_system_tx (tx : SystemTransaction) : bool := match tx with DistributeReserve _ => true | _ => false end.
Definition is_unlock_to_treasury_system_tx (tx : SystemTransaction) : bool := match tx with UnlockToTreasury _ => true | _ => false end.
Definition get_system_tx_type (tx : SystemTransaction) : outcome Lae.LedgerApiError string :=
  match tx with
  | OverwriteParameters _ => Ok "overwrite_parameters"%string
  | DistributeNight Reward _ => Ok "distribute_night_reward"%string
  | DistributeNight CardanoBridge _ => Ok "distribute_night_cardano_bridge"%string
  | PayBlockRewardsToTreasury _ => Ok "pay_block_rewards_to_treasury"%string
  | PayFromTreasuryShielded _ => Ok "pay_from_treasury_shielded"%string
  | PayFromTreasuryUnshielded _ => Ok "pay_from_treasury_unshielded"%string
  | _ =>
      if is_distribute_reserve_system_tx tx then Ok "distribute_reserve"%string
      else if is_unlock_to_treasury_system_tx tx then Ok "unlock_to_treasury"%string
      else match tx with
           | CNightGeneratesDustUpdate _ => Ok "cnight_generates_dust_update"%string
           | _ => Err (Lae.Transaction (Te.SystemTransaction Ste.UnknownError))
           end
  end.

Definition apply_system_transaction (state_key tx_serialized : Bytes) (c : BlockContext) : HM SystemTransactionAppliedStateRoot :=
  let^ tx := lift (some_or (deserialize_system tx_serialized) (Lae.Deserialization De.SystemTransaction)) in
  let^ tx_type := lift (get_system_tx_type tx) in
  let^ ledger := get_ledger state_key in
  let^ new_ledger := lift (ledger_apply_system_tx ledger tx (tblock c)) in
  let^ root := lift (serialized_key new_ledger) in
  do^ persist new_ledger in
  hret {| sys_state_root := root; sys_tx_hash := system_hash tx; tx_type := tx_type |}.

Definition is_governance_allowed_system_tx (tx_serialized : Bytes) : bool :=
  match deserialize_system tx_serialized with
  | Some (OverwriteParameters _) => true
  | _ => false
  end.

(** [api.night_address]: thirty-two bytes *)
Definition night_address (bytes : Bytes) : outcome Lae.LedgerApiError Bytes :=
  if len bytes =? 32 then Ok bytes else Err (Lae.Deserialization De.UserAddress).

Definition serialize_system_tx (tx : SystemTransaction) : outcome Lae.LedgerApiError Bytes :=
  some_or (serialize_system tx) (Lae.Serialization Se.SystemTransaction).
Definition construct_cnight_generates_dust_event (value : Z) (owner : Bytes) (time action : Z) (nonce : Bytes)
    : outcome Lae.LedgerApiError Bytes :=
  let! owner := some_or (deserialize_dust_key owner) (Lae.Deserialization De.DustPublicKey) in
  let! action := match action with
                 | 0 => Ok Create
                 | 1 => Ok Destroy
                 | _ => Err (Lae.Deserialization De.CNightGeneratesDustActionType)
                 end in
  some_or (serialize_event {| ev_value := value; ev_owner := owner; ev_time := time; ev_action := action; ev_nonce := nonce |})
    (Lae.Serialization Se.CNightGeneratesDustEvent).
Definition construct_cnight_generates_dust_system_tx (events : list Bytes) : outcome Lae.LedgerApiError Bytes :=
  let! events := some_or (mapM deserialize_event events) (Lae.Deserialization De.CNightGeneratesDustEvent) in
  serialize_system_tx (CNightGeneratesDustUpdate events).
Definition construct_distribute_night_cardano_bridge_system_tx (amount : Z) (target_address_bytes nonce_bytes : Bytes)
    : outcome Lae.LedgerApiError Bytes :=
  let! target_address := night_address target_address_bytes in
  serialize_system_tx
    (DistributeNight CardanoBridge [{| oi_amount := amount; oi_target_address := target_address; oi_nonce := nonce_bytes |}]).
Definition construct_distribute_reserve_system_tx (amount : Z) : outcome Lae.LedgerApiError Bytes :=
  serialize_system_tx (DistributeReserve amount).
Definition construct_unlock_to_treasury_system_tx (amount : Z) : outcome Lae.LedgerApiError Bytes :=
  serialize_system_tx (UnlockToTreasury amount).
(** Ledger 9 has no such transaction. *)
Definition construct_distribute_treasury_system_tx (amount : Z) : outcome Lae.LedgerApiError Bytes := Err Lae.HostApiError.

(** ** The end of a block *)

Definition post_block_update (state_key : Bytes) (c : BlockContext) : HM Bytes :=
  let^ ledger := get_ledger state_key in
  let^ ledger := lift (ledger_post_block_update ledger c) in
  let^ state_root := lift (serialized_key ledger) in
  do^ persist ledger in
  hret state_root.

Definition apply_post_block_update (state_key : Bytes) (c : BlockContext) : HM Bytes :=
  let^ ledger := get_ledger state_key in
  let^ ledger := lift (ledger_apply_post_block_update ledger c) in
  let^ state_root := lift (serialized_key ledger) in
  do^ persist ledger in
  hret state_root.

(** ** Reads *)

Definition get_unclaimed_amount (state_key beneficiary : Bytes) : HM Z :=
  let^ night_addr := lift (night_address beneficiary) in
  let^ ledger := get_ledger state_key in
  lift (some_or (unclaimed_block_rewards (state ledger) night_addr) Lae.BeneficiaryNotFound).
Definition get_bridge_receiving_amount (state_key beneficiary : Bytes) : HM Z :=
  let^ night_addr := lift (night_address beneficiary) in
  let^ ledger := get_ledger state_key in
  lift (some_or (bridge_receiving (state ledger) night_addr) Lae.BeneficiaryNotFound).
Definition get_ledger_parameters (state_key : Bytes) : HM Bytes :=
  let^ ledger := get_ledger state_key in
  lift (some_or (serialize_parameters (parameters (state ledger))) (Lae.Serialization Se.LedgerParameters)).
Definition get_c_to_m_bridge_min_amount (state_key : Bytes) : HM Z :=
  let^ ledger := get_ledger state_key in
  hret (bridge_min_amount (parameters (state ledger))).

Definition decoded_operation (op : Operation) : outcome Lae.LedgerApiError Op :=
  let serialized address := some_or (serialize_address address) (Lae.Serialization Se.ContractAddress) in
  match op with
  | OperationCall address entry_point => let! a := serialized address in Ok (OpCall a entry_point)
  | OperationDeploy address => let! a := serialized address in Ok (OpDeploy a)
  | OperationMaintain address => let! a := serialized address in Ok (OpMaintain a)
  | OperationClaimRewards value => Ok (OpClaimRewards value)
  | OperationClaimBridgeTransfer value => Ok (OpClaimBridgeTransfer value)
  end.
(** [try_fold] with a vector *)
Fixpoint collect_ok {A B} (f : A -> outcome Lae.LedgerApiError B) (l : list A) : outcome Lae.LedgerApiError (list B) :=
  match l with
  | [] => Ok []
  | x :: l' => let! y := f x in let! ys := collect_ok f l' in Ok (y :: ys)
  end.
Definition get_decoded_transaction (transaction_bytes : Bytes) : outcome Lae.LedgerApiError Tx :=
  let! decoded := decode_versioned transaction_bytes in
  let tx := fst decoded in
  let! operations := collect_ok decoded_operation (calls_and_deploys None tx) in
  let! ids := collect_ok (fun i => some_or i (Lae.Serialization Se.TransactionIdentifier)) (transaction_identifiers tx) in
  Ok {| hash := transaction_hash tx; operations := operations; identifiers := ids;
        has_fallible_coins := tx_has_fallible_coins tx; has_guaranteed_coins := tx_has_guaranteed_coins tx |}.
End Bridge.

(** ** The host interface: [host_api/ledger_9.rs]

    Runtimes from before the memo version call version 1 of a function, others version 2. *)

Module Ledger9Bridge.
Section Interface.
Context `{!LedgerTypes, !MnLedger} (override_file : Bytes -> option (list TxOverride)).

(** [is_unified] *)
Definition mode_of (ext : Externalities) : StorageMode :=
  match storage ext with Some UnifiedDb => UnifiedDb | _ => SeparateDb end.

(** [set_default_storage] registers the database of the node; without one it logs an error. *)
Definition set_default_storage (ext : Externalities) : HM unit :=
  hmodify (fun h => match storage ext with Some m => set_storages ({[m]} ∪ storages h) h | None => h end).
(** Storages of earlier versions, or of the other mode, are dropped. *)
Definition ensure_storage_initialized (ext : Externalities) : HM bool := fun h =>
  if bool_decide (mode_of ext ∈ storages h) then (Ok false, h)
  else (do^ set_default_storage ext in hret true) (set_storages ∅ h).

Definition apply_transaction_v2 (ext : Externalities) (state_key tx : Bytes) (c : BlockContext) (consensus : ConsensusContext)
    (runtime_version : Z) : HM TransactionAppliedStateRoot :=
  apply_transaction override_file (mode_of ext) (tblock_correction ext) state_key tx c consensus true runtime_version.
Definition apply_transaction_v1 (ext : Externalities) (state_key tx : Bytes) (c : BlockContext) (runtime_version : Z)
    : HM TransactionAppliedStateRoot :=
  apply_transaction override_file (mode_of ext) (tblock_correction ext) state_key tx c MEMO_NEVER_ACTIVE true runtime_version.

Definition validate_transaction_v2 (ext : Externalities) (state_key tx : Bytes) (c : BlockContext) (consensus : ConsensusContext)
    (runtime_version max_weight : Z) : HM Bytes :=
  let^ r := validate_transaction (mode_of ext) state_key tx c consensus runtime_version max_weight false in
  hret (fst r).
Definition validate_transaction_v1 (ext : Externalities) (state_key tx : Bytes) (c : BlockContext) (runtime_version max_weight : Z)
    : HM Bytes :=
  let^ r := validate_transaction (mode_of ext) state_key tx c MEMO_NEVER_ACTIVE runtime_version max_weight false in
  hret (fst r).

Definition validate_guaranteed_execution_v2 (ext : Externalities) (state_key tx : Bytes) (c : BlockContext)
    (consensus : ConsensusContext) (runtime_version : Z) : HM unit :=
  validate_guaranteed_execution (mode_of ext) (tblock_correction ext) state_key tx c consensus runtime_version.
Definition validate_guaranteed_execution_v1 (ext : Externalities) (state_key tx : Bytes) (c : BlockContext) (runtime_version : Z)
    : HM unit :=
  validate_guaranteed_execution (mode_of ext) (tblock_correction ext) state_key tx c MEMO_NEVER_ACTIVE runtime_version.

Definition get_transaction_cost_v2 (ext : Externalities) (state_key tx : Bytes) (c : BlockContext) (consensus : ConsensusContext)
    (max_weight : Z) : HM Z :=
  get_transaction_cost (mode_of ext) state_key tx c consensus max_weight.
Definition get_transaction_cost_v1 (ext : Externalities) (state_key tx : Bytes) (c : BlockContext) (max_weight : Z) : HM Z :=
  get_transaction_cost (mode_of ext) state_key tx c MEMO_NEVER_ACTIVE max_weight.

Definition apply_system_transaction (ext : Externalities) (state_key tx : Bytes) (c : BlockContext) (runtime_version : Z)
    : HM SystemTransactionAppliedStateRoot :=
  apply_system_transaction (mode_of ext) state_key tx c.
Definition apply_post_block_update (ext : Externalities) (state_key : Bytes) (c : BlockContext) : HM Bytes :=
  apply_post_block_update (mode_of ext) state_key c.
End Interface.
End Ledger9Bridge.

(** ** What a call does *)

Section Calls.
Context `{!LedgerTypes, !MnLedger} (override_file : Bytes -> option (list TxOverride)).

(** The overrides that a call sees *)
Definition known_overrides (h : Host) (ledger : Ledger) : gmap Bytes UtxoOrdering :=
  match overrides h with
  | Some map => map
  | None => load_overrides override_file (Some (default (network_id (state ledger)) (network h)))
  end.

(** The part of [apply_transaction] after the verification, without the host *)
Definition transition (map : gmap Bytes UtxoOrdering) (ledger : Ledger) (tx : Transaction) (skip : bool)
    (vt : VerifiedTransaction) (ctx : TransactionContext) : outcome Lae.LedgerApiError (Ledger * TransactionAppliedStateRoot) :=
  let! applied := apply_verified_transaction ledger tx vt ctx in
  let stage := snd applied in
  let us := applied_utxos tx stage in
  let! checked := check_utxos_response_integrity us (Z.of_nat (size (utxos (state ledger)))) (fst applied) in
  let ordered := match map !! transaction_hash tx with
                 | Some o => ordering_apply o (fst checked) (len (outputs us)) (snd checked) (len (inputs us))
                 | None => checked
                 end in
  let! root := serialized_key (fst applied) in
  let! event := push_operations
    {| state_root := root; tx_hash := transaction_hash tx;
       all_applied := match stage with AllApplied => true | AppliedPartially _ => false end;
       call_addresses := []; deploy_addresses := []; maintain_addresses := []; claim_rewards := [];
       unshielded_utxos_created := fst ordered; unshielded_utxos_spent := snd ordered |}
    (calls_and_deploys (if skip then failed_segments stage else None) tx) in
  Ok (fst applied, event).

Lemma hbind_Ok {A B} (m : HM A) (k : A -> HM B) h a h' : m h = (Ok a, h') -> hbind m k h = k a h'.
Proof. unfold hbind. by intros ->. Qed.

(** What a call of [apply_transaction] returns, and the states it leaves, once the
    verified transaction is known *)
Lemma apply_after_verified mode tc key bytes c consensus skip version h tx ledger vt hv :
  decode_transaction bytes consensus = Ok tx -> get_ledger mode key h = (Ok ledger, h) ->
  get_verified_transaction mode ledger tx c (tx_validation_cache_key version bytes) tc
    (snd (set_network_id (network_id (state ledger)) h)) = (Ok vt, hv) ->
  overrides hv = overrides h -> network hv = Some (default (network_id (state ledger)) (network h)) ->
  let result := let! ctx := get_transaction_context ledger c in transition (known_overrides h ledger) ledger tx skip vt ctx in
  exists h', apply_transaction override_file mode tc key bytes c consensus skip version h = (let! r := result in Ok (snd r), h') /\
  arena h' = match result with
             | Ok r => arena (snd (persist mode (fst r) hv))
             | _ => arena hv
             end /\
  strict_cache h' = strict_cache hv.
Proof.
  intros Hd Hl Hv Ho Hn result. subst result. unfold apply_transaction.
  rewrite (hbind_Ok (lift _) _ h tx h) by (unfold lift; by rewrite Hd). rewrite (hbind_Ok _ _ _ _ _ Hl).
  rewrite (hbind_Ok (set_network_id _) _ h tt (snd (set_network_id (network_id (state ledger)) h))) by done.
  cbv zeta. rewrite (hbind_Ok _ _ _ _ _ Hv).
  unfold hbind at 1, lift at 1. destruct (get_transaction_context ledger c) as [ctx|e|]; simpl obind; [|by eexists..].
  unfold hbind at 1, lift at 1, transition.
  destruct (apply_verified_transaction ledger tx vt ctx) as [[new stage]|e|]; simpl obind; [|by eexists..].
  cbn [fst snd]. unfold hbind at 1, lift at 1.
  destruct (check_utxos_response_integrity _ _ _) as [checked|e|]; simpl obind; [|by eexists..].
  unfold hbind at 1, get_override at 1. cbn [fst snd].
  assert (match overrides hv with Some map => map | None => load_overrides override_file (network hv) end = known_overrides h ledger) as ->.
  { unfold known_overrides. by rewrite Ho, Hn. }
  unfold hbind at 1, lift at 1. destruct (serialized_key new) as [root|e|]; simpl obind; [|by eexists..].
  unfold hbind at 1, lift at 1. destruct (push_operations _ _) as [event|e|]; simpl obind; [|by eexists..].
  eexists. split; [done|]. unfold persist, hmodify. cbn [fst snd set_overrides arena]. by destruct (arena hv !! _).
Qed.
End Calls.

(** ** The caches

    Between calls the caches may lose entries.  An entry of the strict cache was verified
    against a state that the host has, for a transaction that it was given; for blocks
    whose time is not corrected, at the time in its key. *)

Section Caches.
Context `{!LedgerTypes, !MnLedger} (override_file : Bytes -> option (list TxOverride)).
(** The correction that the node is configured with, and the transactions it is given *)
Context (tc : option TBlockCorrection) (seen : Z -> Bytes -> Prop).

Definition uncorrected (b : Z) : Prop := match tc with None => True | Some t => disable_after t <= b end.

Definition entry_ok (h : Host) (k : StrictTxValidationKey) (vt : VerifiedTransaction) : Prop :=
  exists at_ l version bytes tx era,
    arena h !! at_ = Some l /\ state_hash (state l) = sk_state_hash k /\
    seen version bytes /\ tx_validation_cache_key version bytes = sk_tx_hash k /\
    versioned_deserialize bytes = Some (tx, era) /\
    (uncorrected (sk_tblock k) -> well_formed tx (state l) (sk_tblock k) = inr vt).
Definition strict_ok (h : Host) : Prop := forall k m vt, strict_cache h !! k = Some (m, vt) -> entry_ok h k vt.

Lemma strict_ok_mono h h' : arena h ⊆ arena h' -> strict_cache h' ⊆ strict_cache h -> strict_ok h -> strict_ok h'.
Proof.
  intros Ha Hs Hok k m vt Hk. eapply lookup_weaken in Hk; [|exact Hs].
  destruct (Hok k m vt Hk) as (at_ & l & v & b & tx & era & Hl & Hrest).
  exists at_, l, v, b, tx, era. split; [by eapply lookup_weaken|done].
Qed.

(** *** Calls and histories *)

Inductive Call :=
| ValidateTransaction (mode : StorageMode) (key bytes : Bytes) (c : BlockContext) (consensus : ConsensusContext)
    (version max_weight : Z) (details : bool)
| ValidateGuaranteed (mode : StorageMode) (key bytes : Bytes) (c : BlockContext) (consensus : ConsensusContext) (version : Z)
| ApplyTransaction (mode : StorageMode) (key bytes : Bytes) (c : BlockContext) (consensus : ConsensusContext) (skip : bool) (version : Z)
| ApplySystem (mode : StorageMode) (key bytes : Bytes) (c : BlockContext)
| PostBlock (mode : StorageMode) (key : Bytes) (c : BlockContext)
| EnsureStorage (ext : Externalities).

Definition run_call (call : Call) (h : Host) : Host :=
  match call with
  | ValidateTransaction mode key bytes c consensus v w d => snd (validate_transaction mode key bytes c consensus v w d h)
  | ValidateGuaranteed mode key bytes c consensus v => snd (validate_guaranteed_execution mode tc key bytes c consensus v h)
  | ApplyTransaction mode key bytes c consensus skip v => snd (apply_transaction override_file mode tc key bytes c consensus skip v h)
  | ApplySystem mode key bytes c => snd (apply_system_transaction mode key bytes c h)
  | PostBlock mode key c => snd (apply_post_block_update mode key c h)
  | EnsureStorage ext => snd (Ledger9Bridge.ensure_storage_initialized ext h)
  end.
Definition given (call : Call) : Prop :=
  match call with
  | ValidateTransaction _ _ bytes _ _ v _ _ | ValidateGuaranteed _ _ bytes _ _ v | ApplyTransaction _ _ bytes _ _ _ v => seen v bytes
  | _ => True
  end.

(** A node starts with the states of its database and empty caches. *)
Inductive reachable : Host -> Prop :=
| starts a : reachable {| arena := a; strict_cache := ∅; soft_cache := ∅; network := None; overrides := None; storages := ∅ |}
| calls call h : reachable h -> given call -> reachable (run_call call h)
| evicts strict soft h : reachable h -> strict ⊆ strict_cache h -> soft ⊆ soft_cache h ->
    reachable (set_soft soft (set_strict strict h)).

(** *** The invariant, by rules for the steps of a call *)

Definition safe {A} (P : Host -> Prop) (m : HM A) (Q : A -> Host -> Prop) : Prop :=
  forall h, P h -> strict_ok (snd (m h)) /\ forall a, fst (m h) = Ok a -> Q a (snd (m h)).

Lemma safe_bind {A B} P (m : HM A) Q (k : A -> HM B) R :
  safe P m Q -> (forall a, safe (Q a) (k a) R) -> safe P (hbind m k) R.
Proof.
  intros Hm Hk h Hp. destruct (Hm h Hp) as [He Hq]. unfold hbind. destruct (m h) as [[a|e|] h']; simpl in *; [|done..].
  by apply Hk, Hq.
Qed.
Lemma safe_lift {A} P (o : outcome Lae.LedgerApiError A) :
  (forall h, P h -> strict_ok h) -> safe P (lift o) (fun a h => o = Ok a /\ P h).
Proof. intros Hp h Hh. split; [by apply Hp|done]. Qed.
Lemma safe_modify P f Q : (forall h, P h -> strict_ok (f h) /\ Q (f h)) -> safe P (hmodify f) (fun _ => Q).
Proof. intros Hf h Hh. by split; [|intros _ _]; apply Hf. Qed.
Lemma safe_weaken {A} (P P' : Host -> Prop) (m : HM A) (Q Q' : A -> Host -> Prop) :
  safe P' m Q' -> (forall h, P h -> P' h) -> (forall a h, Q' a h -> Q a h) -> safe P m Q.
Proof. intros Hm Hp Hq h Hh. destruct (Hm h (Hp h Hh)) as [He Hr]. eauto. Qed.

(** The host has the ledger. *)
Definition holds (l : Ledger) (h : Host) : Prop := strict_ok h /\ exists at_, arena h !! at_ = Some l.

Lemma safe_get_ledger mode key : safe strict_ok (get_ledger mode key) holds.
Proof.
  intros h Hh. unfold get_ledger. destruct (deserialize_key key) as [k|]; [|done]. split; [done|].
  intros l Hl. split; [done|]. exists (mode, k). simpl in Hl |- *.
  destruct (arena h !! (mode, k)); by simplify_eq/=.
Qed.

Lemma safe_persist mode l : safe strict_ok (persist mode l) (fun _ => strict_ok).
Proof.
  apply safe_modify. intros h Hh. destruct (arena h !! _) eqn:E; [done|].
  assert (strict_ok (set_arena (<[(mode, typed_key l) := l]> (arena h)) h)); [|done].
  eapply strict_ok_mono; [| |exact Hh]; [|done]. by apply insert_subseteq.
Qed.

(** The correction is the node's, or none: on the path of the pool. *)
Lemma safe_get_verified mode l tx era c version bytes tc' :
  tc' = tc \/ tc' = None -> seen version bytes -> versioned_deserialize bytes = Some (tx, era) ->
  safe (holds l) (get_verified_transaction mode l tx c (tx_validation_cache_key version bytes) tc') (fun _ => holds l).
Proof.
  intros Htc Hseen Hd h [Hok Hl]. unfold get_verified_transaction. destruct (downcast _ _); [done|].
  unfold hbind, lift. destruct (get_transaction_context l c) as [ctx|e|] eqn:Ec; [|done..].
  unfold get_transaction_context in Ec. destruct (len _ =? 32); simplify_eq/=.
  destruct (well_formed tx (state l) _) as [e|vt] eqn:Ew; [done|]. simpl.
  assert (strict_ok (set_strict (<[strict_key l c (tx_validation_cache_key version bytes) := (mode, vt)]> (strict_cache h)) h)); [|done].
  intros k m vt' Hk. simpl in Hk. apply lookup_insert_Some in Hk as [[<- [= <- <-]]|[_ Hk]].
  - destruct Hl as [at_ Hl]. exists at_, l, version, bytes, tx, era. split_and!; [done..|]. simpl. intros Hu.
    rewrite <-Ew. f_equal. unfold well_formed_tblock, uncorrected in *. simpl. destruct Htc as [-> | ->]; [|done].
    destruct tc as [t|]; [|done]. by rewrite (proj2 (Z.ltb_ge _ _)) by done.
  - exact (Hok k m vt' Hk).
Qed.

Lemma safe_pure {A} (φ : Prop) P (m : HM A) R : (φ -> safe P m R) -> safe (fun h => φ /\ P h) m R.
Proof. intros Hm h [Hf Hp]. by apply Hm. Qed.
Lemma safe_ret {A} P (a : A) : (forall h, P h -> strict_ok h) -> safe P (hret a) (fun _ => strict_ok).
Proof. intros Hp h Hh. by split; [|intros _ _]; apply Hp. Qed.
(** [lift o] in front: only what it returns matters. *)
Lemma safe_lift_bind {A B} P (o : outcome Lae.LedgerApiError A) (k : A -> HM B) R :
  (forall h, P h -> strict_ok h) -> (forall a, o = Ok a -> safe P (k a) R) -> safe P (hbind (lift o) k) R.
Proof. intros Hp Hk. eapply safe_bind; [by apply safe_lift|]. intros a. apply safe_pure, Hk. Qed.
Lemma safe_then {A} P f (k : HM A) R :
  (forall h, P h -> strict_ok h) -> (forall h, P h -> P (f h)) -> safe P k R -> safe P (hbind (hmodify f) (fun _ => k)) R.
Proof. intros Hp Hf Hk. eapply safe_bind; [apply safe_modify; intros h Hh; split; [apply Hp|]; exact (Hf h Hh)|]. done. Qed.

Lemma holds_ok l h : holds l h -> strict_ok h.
Proof. by intros [? _]. Qed.

Lemma decode_inv bytes consensus tx : decode_transaction bytes consensus = Ok tx -> exists era, versioned_deserialize bytes = Some (tx, era).
Proof.
  unfold decode_transaction, decode_versioned. destruct (versioned_deserialize bytes) as [[tx' b]|]; simpl; [|done].
  intros Heq. exists b. destruct b, (memo_active consensus); by simplify_eq/=.
Qed.

Hint Resolve holds_ok : core.

Lemma safe_guaranteed_run mode l tx era c version bytes tc' {B} (k : HM B) R :
  tc' = tc \/ tc' = None -> seen version bytes -> versioned_deserialize bytes = Some (tx, era) ->
  safe (holds l) k R ->
  safe (holds l) (let^ verified_tx := get_verified_transaction mode l tx c (tx_validation_cache_key version bytes) tc' in
    let^ ctx := lift (get_transaction_context l c) in
    do^ lift (map_err invalid (run_guaranteed (state l) verified_tx ctx)) in k) R.
Proof.
  intros Htc Hseen Hd Hk. eapply safe_bind; [by eapply safe_get_verified|]. intros vt. simpl.
  apply safe_lift_bind; [eauto|]. intros ctx _. apply safe_lift_bind; [eauto|]. intros _ _. exact Hk.
Qed.

Lemma safe_validate_guaranteed mode key bytes c consensus version :
  seen version bytes -> safe strict_ok (validate_guaranteed_execution mode tc key bytes c consensus version) (fun _ => strict_ok).
Proof.
  intros Hseen. apply safe_lift_bind; [done|]. intros tx [era Hd]%decode_inv.
  eapply safe_bind; [apply safe_get_ledger|]. intros l. cbv zeta.
  eapply safe_bind; [|intros b; apply (safe_ret (fun h => strict_ok h)); done].
  apply safe_then; [eauto|done|]. apply (safe_bind _ _ (fun _ => holds l)).
  { intros h Hh. split; [exact (holds_ok l h Hh)|]. intros a _. exact Hh. }
  intros was_cached. eapply safe_guaranteed_run; eauto. apply safe_ret, holds_ok.
Qed.

Lemma safe_validate mode key bytes c consensus version max_weight details :
  seen version bytes -> safe strict_ok (validate_transaction mode key bytes c consensus version max_weight details) (fun _ => strict_ok).
Proof.
  intros Hseen. apply safe_lift_bind; [done|]. intros tx [era Hd]%decode_inv.
  eapply safe_bind; [apply safe_get_ledger|]. intros l. cbv zeta.
  eapply (safe_bind _ _ (fun _ => holds l)).
  - intros h Hh. unfold do_validate_transaction. destruct (soft_cache h !! _); [split; [by apply (holds_ok l)|done]|].
    revert h Hh. change (safe (holds l) (let^ verified_tx := get_verified_transaction mode l tx c (tx_validation_cache_key version bytes) None in
      let^ ctx := lift (get_transaction_context l c) in
      do^ lift (map_err invalid (run_guaranteed (state l) verified_tx ctx)) in
      do^ hmodify (fun h => set_soft (<[tx_validation_cache_key version bytes := Ok tt]> (soft_cache h)) h) in hret false) (fun _ => holds l)).
    eapply safe_guaranteed_run; eauto. apply safe_then; [eauto|done|]. intros h Hh. split; [by apply (holds_ok l)|done].
  - intros _. destruct details; [|apply safe_ret; eauto].
    eapply (safe_bind _ _ (fun _ => strict_ok)); [|intros; by apply safe_ret].
    intros h Hh%holds_ok. revert h Hh.
    change (safe strict_ok (get_transaction_cost mode key bytes c consensus max_weight) (fun _ => strict_ok)).
    apply safe_lift_bind; [done|]. intros tx' _. eapply safe_bind; [apply safe_get_ledger|]. intros l'.
    apply safe_lift_bind; [eauto|]. intros cst _. apply safe_lift_bind; [eauto|]. intros n _. apply safe_ret; eauto.
Qed.

Lemma safe_apply mode key bytes c consensus skip version : seen version bytes ->
  safe strict_ok (apply_transaction override_file mode tc key bytes c consensus skip version) (fun _ => strict_ok).
Proof.
  intros Hseen. apply safe_lift_bind; [done|]. intros tx [era Hd]%decode_inv.
  eapply safe_bind; [apply safe_get_ledger|]. intros l. apply safe_then; [eauto|intros h; by destruct (network h)|]. cbv zeta.
  eapply safe_bind; [by eapply safe_get_verified; eauto|]. intros vt. simpl.
  apply safe_lift_bind; [eauto|]. intros ctx _. apply safe_lift_bind; [eauto|]. intros applied _.
  apply safe_lift_bind; [eauto|]. intros checked _. apply (safe_bind _ _ (fun _ => strict_ok)).
  { intros h Hh. split; [exact (holds_ok l h Hh)|]. intros a _. exact (holds_ok l h Hh). }
  intros ordering. cbv zeta. apply safe_lift_bind; [done|]. intros root _. apply safe_lift_bind; [done|]. intros event _.
  eapply safe_bind; [apply safe_persist|]. intros []. by apply safe_ret.
Qed.

Lemma reachable_ok h : reachable h -> strict_ok h.
Proof.
  induction 1 as [a|call h _ IH Hgiven|strict soft h _ IH Hs _].
  - intros k m vt Hk. simpl in Hk. by rewrite lookup_empty in Hk.
  - destruct call; simpl in *.
    + by apply safe_validate.
    + by apply safe_validate_guaranteed.
    + by apply safe_apply.
    + cut (safe strict_ok (apply_system_transaction mode key bytes c) (fun _ => strict_ok)); [by intros Hs; apply Hs|].
      apply safe_lift_bind; [done|]. intros tx _. apply safe_lift_bind; [done|]. intros ty _.
      eapply safe_bind; [apply safe_get_ledger|]. intros l. apply safe_lift_bind; [eauto|]. intros l' _.
      apply safe_lift_bind; [eauto|]. intros root _. apply (safe_weaken _ strict_ok _ _ (fun _ => strict_ok)); [|apply holds_ok|done].
      eapply safe_bind; [apply safe_persist|]. intros []. by apply safe_ret.
    + cut (safe strict_ok (apply_post_block_update mode key c) (fun _ => strict_ok)); [by intros Hs; apply Hs|].
      eapply safe_bind; [apply safe_get_ledger|]. intros l. apply safe_lift_bind; [eauto|]. intros l' _.
      apply safe_lift_bind; [eauto|]. intros root _. apply (safe_weaken _ strict_ok _ _ (fun _ => strict_ok)); [|apply holds_ok|done].
      eapply safe_bind; [apply safe_persist|]. intros []. by apply safe_ret.
    + unfold Ledger9Bridge.ensure_storage_initialized. case_bool_decide; [done|]. unfold hbind, Ledger9Bridge.set_default_storage, hmodify.
      simpl. by destruct (storage ext).
  - by eapply strict_ok_mono; [| |exact IH].
Qed.

(** *** Verification does not depend on the caches *)

(** No two states of the host, and no two transactions it is given, have the same hash. *)
Definition states_distinct (h : Host) : Prop := forall k1 k2 l1 l2,
  arena h !! k1 = Some l1 -> arena h !! k2 = Some l2 -> state_hash (state l1) = state_hash (state l2) -> state l1 = state l2.
Hypothesis no_collision : forall v1 b1 v2 b2, seen v1 b1 -> seen v2 b2 ->
  twox128 (u32_to_le_bytes v1 ++ b1) = twox128 (u32_to_le_bytes v2 ++ b2) ->
  u32_to_le_bytes v1 ++ b1 = u32_to_le_bytes v2 ++ b2.

Lemma cache_key_inj v1 b1 v2 b2 : seen v1 b1 -> seen v2 b2 ->
  tx_validation_cache_key v1 b1 = tx_validation_cache_key v2 b2 -> b1 = b2.
Proof.
  intros H1 H2 Heq. apply app_inj_2 in Heq as [Heq _]; [|done]. apply (no_collision v1 b1 v2 b2 H1 H2) in Heq. by simplify_eq.
Qed.

(** What verification comes to, in a block whose time is not corrected *)
Definition verify (l : Ledger) (tx : Transaction) (c : BlockContext) : outcome Lae.LedgerApiError VerifiedTransaction :=
  let! ctx := get_transaction_context l c in
  match well_formed tx (state l) (tblock c) with
  | inl e => Err (Lae.Transaction (Te.Malformed (malformed_error e)))
  | inr vt => Ok vt
  end.

(** A hit of the cache may skip the check of the block context, which is made again. *)
Lemma get_verified_spec mode l tx era c version bytes h : strict_ok h -> states_distinct h ->
  (exists at_, arena h !! at_ = Some l) -> seen version bytes -> versioned_deserialize bytes = Some (tx, era) ->
  uncorrected (tblock c) ->
  exists r h', get_verified_transaction mode l tx c (tx_validation_cache_key version bytes) tc h = (r, h') /\
    arena h' = arena h /\ overrides h' = overrides h /\ network h' = network h /\
    (r = verify l tx c \/ (exists vt, r = Ok vt) /\ get_transaction_context l c = Err Lae.GetTransactionContextError).
Proof.
  intros Hok Hdist [at_ Hl] Hseen Hd Hu. unfold get_verified_transaction.
  assert (well_formed_tblock l c tc = tblock c) as Ht.
  { unfold well_formed_tblock, uncorrected in *. simpl. destruct tc as [t|]; [|done]. by rewrite (proj2 (Z.ltb_ge _ _)) by done. }
  rewrite Ht. destruct (downcast mode _) as [vt|] eqn:Ed.
  - unfold downcast in Ed. destruct (strict_cache h !! _) as [[m vt']|] eqn:Ek; [|done]. destruct (decide (m = mode)); simplify_eq.
    destruct (Hok _ _ _ Ek) as (at' & l' & v' & b' & tx' & era' & Hl' & Hs & Hseen' & Hkey & Hd' & Hw). simpl in *.
    apply (cache_key_inj _ _ _ _ Hseen' Hseen) in Hkey as ->. simplify_eq. rewrite (Hdist at' at_ l' l Hl' Hl Hs) in Hw.
    eexists _, h. split; [done|]. split_and!; [done..|]. unfold verify, get_transaction_context. destruct (len _ =? 32); simpl.
    + left. by rewrite Hw.
    + right. eauto.
  - unfold verify, hbind, lift. unfold get_transaction_context. destruct (len _ =? 32); simpl.
    + destruct (well_formed tx (state l) (tblock c)) as [e|vt]; eexists _, _; (split; [done|]); split_and!; try done; by left.
    + eexists _, _. split; [done|]. split_and!; try done. by left.
Qed.

(** What the calls come to without caches *)
Definition apply_spec (mode : StorageMode) (key bytes : Bytes) (c : BlockContext) (consensus : ConsensusContext) (skip : bool) (h : Host)
    : outcome Lae.LedgerApiError (Ledger * TransactionAppliedStateRoot) :=
  let! tx := decode_transaction bytes consensus in
  let! l := fst (get_ledger mode key h) in
  let! vt := verify l tx c in
  let! ctx := get_transaction_context l c in
  transition (known_overrides override_file h l) l tx skip vt ctx.
Definition guaranteed_spec (mode : StorageMode) (key bytes : Bytes) (c : BlockContext) (consensus : ConsensusContext) (h : Host)
    : outcome Lae.LedgerApiError unit :=
  let! tx := decode_transaction bytes consensus in
  let! l := fst (get_ledger mode key h) in
  let! vt := verify l tx c in
  let! ctx := get_transaction_context l c in
  map_err invalid (run_guaranteed (state l) vt ctx).
Definition stored (mode : StorageMode) (l : Ledger) (a : gmap (StorageMode * Bytes) Ledger) : gmap (StorageMode * Bytes) Ledger :=
  match a !! (mode, typed_key l) with Some _ => a | None => <[(mode, typed_key l) := l]> a end.

Lemma persist_stores mode l h : arena (snd (persist mode l h)) = stored mode l (arena h).
Proof. unfold persist, stored, hmodify. simpl. by destruct (arena h !! _). Qed.

Lemma get_ledger_inv mode key h l : fst (get_ledger mode key h) = Ok l ->
  get_ledger mode key h = (Ok l, h) /\ exists at_, arena h !! at_ = Some l.
Proof.
  unfold get_ledger. destruct (deserialize_key key) as [k|]; [|done]. simpl. intros E. rewrite E. split; [done|].
  exists (mode, k). destruct (arena h !! _); by simplify_eq/=.
Qed.
Lemma get_ledger_host mode key h : snd (get_ledger mode key h) = h.
Proof. unfold get_ledger. by destruct (deserialize_key key). Qed.

Lemma set_network_frame id h :
  let h' := snd (set_network_id id h) in
  arena h' = arena h /\ strict_cache h' = strict_cache h /\ overrides h' = overrides h /\ network h' = Some (default id (network h)).
Proof. unfold set_network_id, hmodify. simpl. destruct (network h) eqn:E; simpl; by rewrite ?E. Qed.

Lemma apply_is_spec mode key bytes c consensus skip version h :
  strict_ok h -> states_distinct h -> seen version bytes -> uncorrected (tblock c) ->
  let result := apply_spec mode key bytes c consensus skip h in
  exists h', apply_transaction override_file mode tc key bytes c consensus skip version h = (let! r := result in Ok (snd r), h') /\
    arena h' = match result with Ok r => stored mode (fst r) (arena h) | _ => arena h end.
Proof.
  intros Hok Hdist Hseen Hu result. subst result. unfold apply_spec.
  destruct (decode_transaction bytes consensus) as [tx|e|] eqn:Hd; simpl obind;
    [|exists h; unfold apply_transaction, hbind, lift; by rewrite Hd..].
  destruct (fst (get_ledger mode key h)) as [l|e|] eqn:Hl; simpl obind;
    [|exists h; unfold apply_transaction, hbind, lift; rewrite Hd; pose proof (get_ledger_host mode key h);
      destruct (get_ledger mode key h); by simplify_eq/=..].
  apply get_ledger_inv in Hl as [Hl Hat]. destruct (decode_inv _ _ _ Hd) as [era Hv].
  destruct (set_network_frame (network_id (state l)) h) as (Ha & Hs & Ho & Hn).
  set (h1 := snd (set_network_id (network_id (state l)) h)) in *.
  destruct (get_verified_spec mode l tx era c version bytes h1) as (r & hv & Er & Ea & Eo & En & Hr); try done.
  { intros k m vt Hk. rewrite Hs in Hk. destruct (Hok k m vt Hk) as (at_ & Hrest). exists at_. by rewrite Ha. }
  { intros k1 k2. rewrite Ha. apply Hdist. }
  { by rewrite Ha. }
  destruct r as [vt|e|].
  - destruct (apply_after_verified override_file mode tc key bytes c consensus skip version h tx l vt hv) as (h' & E & Harena & _);
      [done|done|exact Er|by rewrite Eo|by rewrite En|].
    exists h'. rewrite E. destruct Hr as [Hr|[_ Hc]].
    + rewrite <-Hr. simpl obind. split; [done|]. rewrite Harena.
      destruct (let! ctx := get_transaction_context l c in _) as [r|e|]; [|by rewrite Ea, Ha..]. by rewrite persist_stores, Ea, Ha.
    + unfold verify. rewrite Hc in *. simpl in *. split; [done|]. by rewrite Harena, Ea.
  - destruct Hr as [Hr|[[vt Hvt] _]]; [|done]. rewrite <-Hr. simpl. exists hv. split; [|by rewrite Ea].
    unfold apply_transaction. rewrite (hbind_Ok (lift _) _ h tx h) by (unfold lift; by rewrite Hd). rewrite (hbind_Ok _ _ _ _ _ Hl).
    rewrite (hbind_Ok (set_network_id _) _ h tt h1) by done. cbv zeta. unfold hbind at 1. by rewrite Er.
  - destruct Hr as [Hr|[[vt Hvt] _]]; [|done]. rewrite <-Hr. simpl. exists hv. split; [|by rewrite Ea].
    unfold apply_transaction. rewrite (hbind_Ok (lift _) _ h tx h) by (unfold lift; by rewrite Hd). rewrite (hbind_Ok _ _ _ _ _ Hl).
    rewrite (hbind_Ok (set_network_id _) _ h tt h1) by done. cbv zeta. unfold hbind at 1. by rewrite Er.
Qed.

Lemma guaranteed_is_spec mode key bytes c consensus version h :
  strict_ok h -> states_distinct h -> seen version bytes -> uncorrected (tblock c) ->
  fst (validate_guaranteed_execution mode tc key bytes c consensus version h) = guaranteed_spec mode key bytes c consensus h.
Proof.
  intros Hok Hdist Hseen Hu. unfold guaranteed_spec, validate_guaranteed_execution.
  unfold hbind at 1, lift at 1. destruct (decode_transaction bytes consensus) as [tx|e|] eqn:Hd; simpl obind; [|done..].
  unfold hbind at 1. destruct (get_ledger mode key h) as [[l|e|] h1] eqn:Hl; simpl obind; [|done..].
  pose proof (get_ledger_inv mode key h l) as Hat. rewrite Hl in Hat. destruct (Hat eq_refl) as [[= ->] Hin]. clear Hat.
  destruct (decode_inv _ _ _ Hd) as [era Hv]. cbv zeta. unfold do_validate_guaranteed_execution.
  set (h2 := set_soft (delete (tx_validation_cache_key version bytes) (soft_cache h)) h).
  destruct (get_verified_spec mode l tx era c version bytes h2) as (r & hv & Er & _ & _ & _ & Hr); try done.
  unfold hbind, hmodify, hgets, lift, hret. fold h2. rewrite Er. destruct Hr as [-> |[[vt ->] Hc]].
  - destruct (verify l tx c); simpl obind; [|done..]. destruct (get_transaction_context l c); simpl obind; [|done..].
    by destruct (map_err invalid (run_guaranteed _ _ _)) as [[]| |].
  - unfold verify. rewrite Hc. done.
Qed.

(** Nodes that have the same states and the same overrides *)
Definition same_view (h1 h2 : Host) : Prop :=
  arena h1 = arena h2 /\ forall l, known_overrides override_file h1 l = known_overrides override_file h2 l.

(** Two nodes with the same ledger states compute the same, whatever their caches
    went through: the results of [validate_guaranteed_execution] and [apply_transaction]
    are the same, and so are the states they have afterwards.  This is for blocks whose
    time is not corrected, and as long as hashes do not collide. *)
Theorem ledger_nodes_agree h1 h2 mode key bytes c consensus skip version :
  reachable h1 -> reachable h2 -> same_view h1 h2 -> states_distinct h1 -> seen version bytes -> uncorrected (tblock c) ->
  let apply h := apply_transaction override_file mode tc key bytes c consensus skip version h in
  let validate h := validate_guaranteed_execution mode tc key bytes c consensus version h in
  fst (apply h1) = fst (apply h2) /\ arena (snd (apply h1)) = arena (snd (apply h2)) /\ fst (validate h1) = fst (validate h2).
Proof.
  intros Hr1%reachable_ok Hr2%reachable_ok [Ha Hk] Hd1 Hseen Hu. cbv zeta.
  assert (states_distinct h2) as Hd2 by (unfold states_distinct in *; by rewrite <-Ha).
  assert (fst (get_ledger mode key h1) = fst (get_ledger mode key h2)) as Hl
    by (unfold get_ledger; rewrite Ha; by destruct (deserialize_key key)).
  destruct (apply_is_spec mode key bytes c consensus skip version h1) as (h1' & -> & Ha1); [done..|].
  destruct (apply_is_spec mode key bytes c consensus skip version h2) as (h2' & -> & Ha2); [done..|]. simpl.
  rewrite !guaranteed_is_spec by done. unfold guaranteed_spec. rewrite <-Hl.
  assert (apply_spec mode key bytes c consensus skip h1 = apply_spec mode key bytes c consensus skip h2) as E.
  { unfold apply_spec. rewrite <-Hl. destruct (decode_transaction _ _); simpl; [|done..].
    destruct (fst (get_ledger mode key h1)); simpl; [|done..]. by rewrite Hk. }
  rewrite Ha1, Ha2, E, Ha. done.
Qed.
End Caches.

(** ** The memo version *)

Section Memo.
Context `{!LedgerTypes, !MnLedger} (override_file : Bytes -> option (list TxOverride)).
Import Ledger9Bridge.

Lemma decode_gated bytes tx consensus : versioned_deserialize bytes = Some (tx, false) -> memo_active consensus = false ->
  decode_transaction bytes consensus = Err Lae.TransactionVersionNotActive.
Proof. unfold decode_transaction, decode_versioned. intros -> Hc. simpl. by rewrite Hc. Qed.
Lemma decode_pre_memo bytes tx consensus : versioned_deserialize bytes = Some (tx, true) -> decode_transaction bytes consensus = Ok tx.
Proof. unfold decode_transaction, decode_versioned. by intros ->. Qed.

(** A transaction of the memo version is rejected before the height of its
    activation, by every host function, and by the first versions of them at every
    height; the host is as before.  A transaction of the old version is treated the same
    at every height. *)
Theorem memo_version_is_gated ext key bytes tx c consensus version max_weight h :
  (versioned_deserialize bytes = Some (tx, false) ->
   (block_height consensus < memo_activation_height consensus ->
      apply_transaction_v2 override_file ext key bytes c consensus version h = (Err Lae.TransactionVersionNotActive, h) /\
      validate_transaction_v2 ext key bytes c consensus version max_weight h = (Err Lae.TransactionVersionNotActive, h) /\
      validate_guaranteed_execution_v2 ext key bytes c consensus version h = (Err Lae.TransactionVersionNotActive, h) /\
      get_transaction_cost_v2 ext key bytes c consensus max_weight h = (Err Lae.TransactionVersionNotActive, h)) /\
   apply_transaction_v1 override_file ext key bytes c version h = (Err Lae.TransactionVersionNotActive, h) /\
   validate_transaction_v1 ext key bytes c version max_weight h = (Err Lae.TransactionVersionNotActive, h) /\
   validate_guaranteed_execution_v1 ext key bytes c version h = (Err Lae.TransactionVersionNotActive, h) /\
   get_transaction_cost_v1 ext key bytes c max_weight h = (Err Lae.TransactionVersionNotActive, h)) /\
  (versioned_deserialize bytes = Some (tx, true) ->
   apply_transaction_v2 override_file ext key bytes c consensus version h = apply_transaction_v1 override_file ext key bytes c version h /\
   validate_transaction_v2 ext key bytes c consensus version max_weight h = validate_transaction_v1 ext key bytes c version max_weight h /\
   validate_guaranteed_execution_v2 ext key bytes c consensus version h = validate_guaranteed_execution_v1 ext key bytes c version h /\
   get_transaction_cost_v2 ext key bytes c consensus max_weight h = get_transaction_cost_v1 ext key bytes c max_weight h).
Proof.
  split.
  - intros Hd.
    assert (forall cc, memo_active cc = false -> decode_transaction bytes cc = Err Lae.TransactionVersionNotActive) as Hg.
    { intros cc. by apply (decode_gated bytes tx). }
    split.
    + intros Hlt. assert (memo_active consensus = false) as Hc%Hg by (apply Z.leb_gt; lia).
      unfold apply_transaction_v2, validate_transaction_v2, validate_guaranteed_execution_v2, get_transaction_cost_v2,
        apply_transaction, validate_transaction, validate_guaranteed_execution, get_transaction_cost, hbind, lift.
      by rewrite Hc.
    + unfold apply_transaction_v1, validate_transaction_v1, validate_guaranteed_execution_v1, get_transaction_cost_v1,
        apply_transaction, validate_transaction, validate_guaranteed_execution, get_transaction_cost, hbind, lift.
      by rewrite (Hg MEMO_NEVER_ACTIVE) by done.
  - intros Hd. unfold apply_transaction_v2, validate_transaction_v2, validate_guaranteed_execution_v2, get_transaction_cost_v2,
      apply_transaction_v1, validate_transaction_v1, validate_guaranteed_execution_v1, get_transaction_cost_v1,
      apply_transaction, validate_transaction, validate_guaranteed_execution, get_transaction_cost.
    by rewrite !(decode_pre_memo bytes tx _ Hd).
Qed.
End Memo.

(** ** Results of a transaction *)

Section Results.
Context `{!LedgerTypes, !MnLedger} (override_file : Bytes -> option (list TxOverride)).

Lemma get_verified_frame mode l tx c k tc h :
  let h' := snd (get_verified_transaction mode l tx c k tc h) in
  arena h' = arena h /\ overrides h' = overrides h /\ network h' = network h /\ soft_cache h' = soft_cache h.
Proof.
  unfold get_verified_transaction. destruct (downcast _ _); [done|]. unfold hbind, lift.
  destruct (get_transaction_context l c); [|done..]. by destruct (well_formed _ _ _).
Qed.

(** A call that returns an event has made the transition; one that fails has changed no state. *)
Lemma apply_inv mode tc key bytes c consensus skip version h r h' :
  apply_transaction override_file mode tc key bytes c consensus skip version h = (r, h') ->
  (exists tx l vt hv ctx new e, r = Ok e /\ decode_transaction bytes consensus = Ok tx /\ get_ledger mode key h = (Ok l, h) /\
     get_verified_transaction mode l tx c (tx_validation_cache_key version bytes) tc
       (snd (set_network_id (network_id (state l)) h)) = (Ok vt, hv) /\
     get_transaction_context l c = Ok ctx /\
     transition (known_overrides override_file h l) l tx skip vt ctx = Ok (new, e) /\ arena h' = stored mode new (arena h)) \/
  (forall e, r <> Ok e) /\ arena h' = arena h.
Proof.
  destruct (decode_transaction bytes consensus) as [tx|e|] eqn:Hd;
    [|unfold apply_transaction, hbind, lift; rewrite Hd; intros [= <- <-]; by right..].
  pose proof (get_ledger_host mode key h) as Hh.
  destruct (get_ledger mode key h) as [[l|e|] h0] eqn:Hl; simpl in Hh; subst h0;
    [|unfold apply_transaction, hbind, lift; rewrite Hd, Hl; intros [= <- <-]; by right..].
  destruct (set_network_frame (network_id (state l)) h) as (Ha & _ & Ho & Hn).
  set (h1 := snd (set_network_id (network_id (state l)) h)) in *.
  destruct (get_verified_frame mode l tx c (tx_validation_cache_key version bytes) tc h1) as (Fa & Fo & Fn & _).
  destruct (get_verified_transaction mode l tx c _ tc h1) as [rv hv] eqn:Hv. simpl in Fa, Fo, Fn. intros Hrun.
  destruct rv as [vt|e|].
  - edestruct apply_after_verified as (h2 & E & Earena & _); [exact Hd|exact Hl|exact Hv|by rewrite Fo|by rewrite Fn|].
    rewrite E in Hrun. injection Hrun as <- <-. rewrite Earena. destruct (get_transaction_context l c) as [ctx|e|] eqn:Hc; cbn [obind];
      [|right; split; [done|by rewrite Fa]..].
    destruct (transition _ l tx skip vt ctx) as [[new e]|e|] eqn:Ht; cbn [obind fst]; [|right; split; [done|by rewrite Fa]..].
    left. exists tx, l, vt, hv, ctx, new, e. split_and!; try done. by rewrite persist_stores, Fa, Ha.
  - right. unfold apply_transaction in Hrun. rewrite (hbind_Ok (lift _) _ h tx h) in Hrun by (unfold lift; by rewrite Hd).
    rewrite (hbind_Ok _ _ _ _ _ Hl), (hbind_Ok (set_network_id _) _ h tt h1) in Hrun by done. cbv zeta in Hrun.
    unfold hbind at 1 in Hrun. rewrite Hv in Hrun. injection Hrun as <- <-. split; [done|by rewrite Fa].
  - right. unfold apply_transaction in Hrun. rewrite (hbind_Ok (lift _) _ h tx h) in Hrun by (unfold lift; by rewrite Hd).
    rewrite (hbind_Ok _ _ _ _ _ Hl), (hbind_Ok (set_network_id _) _ h tt h1) in Hrun by done. cbv zeta in Hrun.
    unfold hbind at 1 in Hrun. rewrite Hv in Hrun. injection Hrun as <- <-. split; [done|by rewrite Fa].
Qed.

Lemma push_operation_keeps e op e' : push_operation e op = Ok e' ->
  state_root e' = state_root e /\ tx_hash e' = tx_hash e /\ all_applied e' = all_applied e /\
  unshielded_utxos_created e' = unshielded_utxos_created e /\ unshielded_utxos_spent e' = unshielded_utxos_spent e.
Proof. destruct op; simpl; try (destruct (serialize_address _); simpl; [|done]); by intros [= <-]. Qed.
Lemma push_operations_keep ops e e' : push_operations e ops = Ok e' ->
  state_root e' = state_root e /\ tx_hash e' = tx_hash e /\ all_applied e' = all_applied e /\
  unshielded_utxos_created e' = unshielded_utxos_created e /\ unshielded_utxos_spent e' = unshielded_utxos_spent e.
Proof.
  revert e. induction ops as [|op ops IH]; intros e; simpl; [by intros [= <-]|].
  destruct (push_operation e op) as [e1| |] eqn:E; simpl; [|done..]. intros Hr%IH. apply push_operation_keeps in E. intuition congruence.
Qed.

Lemma check_integrity_inv u n new outs ins : check_utxos_response_integrity u n new = Ok (outs, ins) ->
  outs = flatten (outputs u) /\ ins = flatten (inputs u) /\
  (forall i, i ∈ outs -> utxo_of_info i ∈ utxos (state new)) /\ (forall i, i ∈ ins -> utxo_of_info i ∉ utxos (state new)) /\
  Z.of_nat (size (utxos (state new))) = saturating_sub (saturating_add 64 n (len outs)) (len ins).
Proof.
  unfold check_utxos_response_integrity. destruct (forallb _ _) eqn:Ho; simpl; [|done]. destruct (existsb _ _) eqn:Hi; [done|].
  destruct (_ =? _) eqn:Hs; [|done]. intros [= <- <-]. split_and!; try done; [| |by apply Z.eqb_eq].
  - intros i Hi'. rewrite forallb_forall in Ho. eapply bool_decide_unpack, Is_true_true, Ho. by apply list_elem_of_In.
  - intros i Hi' Hin. rewrite <-not_true_iff_false in Hi. apply Hi, existsb_exists. exists i.
    split; [by apply list_elem_of_In|by apply bool_decide_true].
Qed.

Lemma ordering_apply_elem o outs no ins ni : let r := ordering_apply o outs no ins ni in
  (forall i, i ∈ fst r -> i ∈ outs) /\ (forall i, i ∈ snd r -> i ∈ ins).
Proof. unfold ordering_apply. simpl. destruct (1 <? no), (1 <? ni); split; intros i; try done; apply reorder_elem. Qed.

(** The override, if there is one, is no longer than the report. *)
Definition listed_all (o : option UtxoOrdering) (e : TransactionAppliedStateRoot) : Prop :=
  forall ordering, o = Some ordering ->
    (length (created ordering) <= length (unshielded_utxos_created e) /\
     length (spent ordering) <= length (unshielded_utxos_spent e))%nat.

Lemma ordering_apply_length o outs no ins ni : let r := ordering_apply o outs no ins ni in
  (length (created o) <= length (fst r))%nat -> (length (spent o) <= length (snd r))%nat ->
  length (fst r) = length outs /\ length (snd r) = length ins.
Proof. unfold ordering_apply. simpl. destruct (1 <? no), (1 <? ni); intros Hc Hs; split; try done; by apply reorder_length. Qed.

(** What a transition reports, of the state that it leads to *)
Lemma transition_inv map l tx skip vt ctx new e : transition map l tx skip vt ctx = Ok (new, e) ->
  serialized_key new = Ok (state_root e) /\ tx_hash e = transaction_hash tx /\
  (forall i, i ∈ unshielded_utxos_created e -> utxo_of_info i ∈ utxos (state new)) /\
  (forall i, i ∈ unshielded_utxos_spent e -> utxo_of_info i ∉ utxos (state new)) /\
  (listed_all (map !! transaction_hash tx) e ->
     Z.of_nat (size (utxos (state new))) =
     saturating_sub (saturating_add 64 (Z.of_nat (size (utxos (state l)))) (len (unshielded_utxos_created e)))
       (len (unshielded_utxos_spent e))).
Proof.
  unfold transition. destruct (apply_verified_transaction l tx vt ctx) as [[new' stage]| |]; simpl; [|done..].
  destruct (check_utxos_response_integrity _ _ _) as [[outs ins]| |] eqn:Hc; simpl; [|done..].
  destruct (serialized_key new') as [root| |] eqn:Hk; simpl; [|done..].
  destruct (push_operations _ _) as [e'| |] eqn:Hp; simpl; [|done..]. intros [= -> ->].
  apply push_operations_keep in Hp as (Hr & Ht & _ & Hcr & Hsp). simpl in *. apply check_integrity_inv in Hc as (_ & _ & Ho & Hi & Hs).
  rewrite Hr, Ht, Hcr, Hsp. split_and!; try done.
  - intros i Hin. apply Ho. destruct (map !! _); [|done]. by apply (ordering_apply_elem _ _ _ _ _) in Hin.
  - intros i Hin. apply Hi. destruct (map !! _); [|done]. by apply (ordering_apply_elem _ _ _ _ _) in Hin.
  - unfold listed_all. rewrite Hcr, Hsp. intros Hm. rewrite Hs. unfold len. destruct (map !! transaction_hash tx) as [o|]; [|done].
    destruct (Hm o eq_refl) as [Hm1 Hm2]. destruct (ordering_apply_length _ _ _ _ _ Hm1 Hm2) as [E1 E2].
    unfold len in E1, E2. by rewrite E1, E2.
Qed.

(** After a partial success only the actions of segments that the result does not list are
    reported, also if a listed segment succeeded. *)
Lemma listed_segments_report_nothing (segs : gmap Z (option TransactionInvalid)) (tx : StandardTransaction) :
  calls_and_deploys (failed_segments (AppliedPartially segs)) (Standard tx) =
  operation_of ∘ snd <$> filter (fun a => segs !! fst a = None) (actions tx).
Proof.
  simpl. induction (actions tx) as [|[s a] l IH]; [done|]. rewrite filter_cons, omap_cons. cbn [fst].
  assert (s ∈ elements (dom segs) <-> segs !! s <> None) as Hiff by (by rewrite elem_of_elements, elem_of_dom, not_eq_None_Some).
  destruct (decide (segs !! s = None)) as [Hn|Hn].
  - rewrite bool_decide_false by (intros Hin; by apply Hiff in Hin). by rewrite IH.
  - rewrite bool_decide_true by (by apply Hiff). done.
Qed.

Context `{!MnLedgerLaws}.

(** Objects are stored under their keys. *)
Definition well_keyed (h : Host) : Prop := forall m k l, arena h !! (m, k) = Some l -> typed_key l = k.

Lemma stored_lookup mode l h : well_keyed h -> stored mode l (arena h) !! (mode, typed_key l) = Some l.
Proof.
  intros Hw. unfold stored. destruct (arena h !! (mode, typed_key l)) as [l'|] eqn:E; [|by rewrite lookup_insert_eq].
  rewrite E. f_equal. by apply key_of_content, (Hw mode).
Qed.
Lemma stored_grows mode l h : arena h ⊆ stored mode l (arena h).
Proof. unfold stored. destruct (arena h !! _) eqn:E; [done|]. by apply insert_subseteq. Qed.
Lemma stored_well_keyed mode l h h' : well_keyed h -> arena h' = stored mode l (arena h) -> well_keyed h'.
Proof.
  intros Hw Ha m k l'. rewrite Ha. unfold stored. destruct (arena h !! (mode, typed_key l)); [apply Hw|].
  intros [[[= <- <-] <-]|[_ Hl]]%lookup_insert_Some; [done|]. by eapply Hw.
Qed.
Lemma get_stored mode l root h h' : well_keyed h -> arena h' = stored mode l (arena h) -> serialized_key l = Ok root ->
  get_ledger mode root h' = (Ok l, h').
Proof.
  intros Hw Ha Hk. unfold serialized_key in Hk. destruct (serialize_key (typed_key l)) as [b|] eqn:E; simplify_eq/=.
  unfold get_ledger. rewrite (key_roundtrip _ _ E), Ha, stored_lookup by done. done.
Qed.

(** *** The overrides that a host knows, after a transaction *)

Definition stays {A} (P : Host -> Prop) (m : HM A) : Prop := forall h, P h -> P (snd (m h)).
Lemma stays_bind {A B} P (m : HM A) (k : A -> HM B) : stays P m -> (forall a, stays P (k a)) -> stays P (hbind m k).
Proof.
  intros Hm Hk h Hp. specialize (Hm h Hp). unfold hbind. destruct (m h) as [[a| |] h']; simpl in *; [|done..]. by apply Hk.
Qed.

Definition loaded (h : Host) (l : Ledger) (h' : Host) : Prop :=
  network h' = Some (default (network_id (state l)) (network h)) /\
  (overrides h' = overrides h \/ overrides h' = Some (known_overrides override_file h l)).
Lemma loaded_known h l h' l' : loaded h l h' -> known_overrides override_file h' l' = known_overrides override_file h l.
Proof.
  intros [Hn [Ho|Ho]]; unfold known_overrides at 1; rewrite Ho; [|done].
  unfold known_overrides. destruct (overrides h); [done|]. by rewrite Hn.
Qed.

Lemma apply_loads mode tc key bytes c consensus skip version h :
  let h' := snd (apply_transaction override_file mode tc key bytes c consensus skip version h) in
  match decode_transaction bytes consensus, fst (get_ledger mode key h) with
  | Ok _, Ok l => loaded h l h'
  | _, _ => h' = h
  end.
Proof.
  cbv zeta. destruct (decode_transaction bytes consensus) as [tx| |] eqn:Hd; [|unfold apply_transaction, hbind, lift; by rewrite Hd..].
  pose proof (get_ledger_host mode key h) as Hh.
  destruct (get_ledger mode key h) as [[l| |] h0] eqn:Hl; simpl in Hh; subst h0; cbn [fst];
    [|unfold apply_transaction, hbind, lift; by rewrite Hd, Hl..].
  unfold apply_transaction. rewrite (hbind_Ok (lift _) _ h tx h) by (unfold lift; by rewrite Hd). rewrite (hbind_Ok _ _ _ _ _ Hl).
  rewrite (hbind_Ok (set_network_id _) _ h tt (snd (set_network_id (network_id (state l)) h))) by done. cbv zeta.
  destruct (set_network_frame (network_id (state l)) h) as (_ & _ & Ho & Hn).
  assert (loaded h l (snd (set_network_id (network_id (state l)) h))) as Hld by (split; [done|by left]).
  revert Hld. generalize (snd (set_network_id (network_id (state l)) h)). clear Ho Hn.
  assert (forall A (o : outcome Lae.LedgerApiError A), stays (loaded h l) (lift o)) as Hlift by (intros A o h' Hp; exact Hp).
  match goal with |- forall h1, _ -> _ (snd (?m h1)) => cut (stays (loaded h l) m); [intros Hs hh Hld; exact (Hs hh Hld)|] end.
  apply stays_bind; [|intros vt; repeat (apply stays_bind; [apply Hlift|intros ?])].
  - intros h' [Hn' Ho']. destruct (get_verified_frame mode l tx c (tx_validation_cache_key version bytes) tc h') as (_ & Fo & Fn & _).
    unfold loaded. by rewrite Fo, Fn.
  - apply stays_bind; [|intros o; repeat (apply stays_bind; [apply Hlift|intros ?])].
    + intros h' Hp. pose proof (loaded_known h l h' l Hp) as Hk. destruct Hp as [Hn' Ho']. split; [done|]. right. simpl. f_equal.
      rewrite <-Hk. unfold known_overrides. destruct (overrides h'); [done|]. by rewrite Hn'.
    + apply stays_bind; [|intros _ h' Hp; exact Hp]. intros h' Hp. unfold persist, hmodify. simpl. by destruct (arena h' !! _).
Qed.

(** What the calls do to the states of the host: they only add to them. *)
Lemma apply_keeps mode tc key bytes c consensus skip version h r h' : well_keyed h ->
  apply_transaction override_file mode tc key bytes c consensus skip version h = (r, h') ->
  well_keyed h' /\ arena h ⊆ arena h' /\ forall e, r = Ok e -> exists new, get_ledger mode (state_root e) h' = (Ok new, h').
Proof.
  intros Hw [(tx & l & vt & hv & ctx & new & e & -> & _ & _ & _ & _ & Ht & Ha)|[Hne Ha]]%apply_inv.
  - split; [by eapply stored_well_keyed|]. split; [rewrite Ha; apply stored_grows|]. intros e' [= <-].
    apply transition_inv in Ht as [Hr _]. exists new. by eapply get_stored.
  - split; [intros m k l; rewrite Ha; apply Hw|]. split; [by rewrite Ha|]. intros e ->. by destruct (Hne e).
Qed.

Lemma system_inv mode key bytes c h r h' : apply_system_transaction mode key bytes c h = (r, h') ->
  (exists tx l new e, r = Ok e /\ deserialize_system bytes = Some tx /\ get_ledger mode key h = (Ok l, h) /\
     ledger_apply_system_tx l tx (tblock c) = Ok new /\ serialized_key new = Ok (sys_state_root e) /\ sys_tx_hash e = system_hash tx /\
     arena h' = stored mode new (arena h)) \/
  (exists e, r = Err e) /\ h' = h.
Proof.
  clear override_file. unfold apply_system_transaction, hbind, lift. destruct (deserialize_system bytes) as [tx|] eqn:Hd; simpl some_or; cbn iota;
    [|intros [= <- <-]; right; eauto].
  assert (forall A (o : outcome Lae.LedgerApiError A), o <> Panic -> (exists a, o = Ok a) \/ exists e, o = Err e) as Hcases
    by (intros A []; naive_solver).
  destruct (Hcases _ (get_system_tx_type tx)) as [[ty ->]|[e ->]];
    [destruct tx as [|[]| | | | | | |]; done| |intros [= <- <-]; right; eauto].
  pose proof (get_ledger_host mode key h) as Hh. destruct (get_ledger mode key h) as [[l|e|] h0] eqn:Hl; simpl in Hh; subst h0;
    [|intros [= <- <-]; right; eauto|].
  2: { unfold get_ledger in Hl. destruct (deserialize_key key); [|done]. injection Hl as Hl. by destruct (arena h !! _). }
  destruct (Hcases _ (ledger_apply_system_tx l tx (tblock c))) as [[new Hn]|[e ->]];
    [unfold ledger_apply_system_tx, prevalidate_post_block_update; destruct (apply_system_tx _ _ _); [done|]; destruct (normalize _ _); [|done];
     simpl; by destruct (state_prevalidate _ _ _)| |intros [= <- <-]; right; eauto].
  rewrite Hn. destruct (serialized_key new) as [root|e|] eqn:Hk; [|intros [= <- <-]; right; eauto|by unfold serialized_key in Hk; destruct (serialize_key _)].
  pose proof (persist_stores mode new h) as Ha. destruct (persist mode new h) as [o hp] eqn:Hp. injection Hp as <- _. simpl in Ha.
  intros [= <- <-]. left. eexists tx, l, new, _. split_and!; done.
Qed.

(** Validation changes the caches only. *)
Definition keeps_view {A} (m : HM A) : Prop :=
  forall h, arena (snd (m h)) = arena h /\ overrides (snd (m h)) = overrides h /\ network (snd (m h)) = network h.
Lemma keeps_view_bind {A B} (m : HM A) (k : A -> HM B) : keeps_view m -> (forall a, keeps_view (k a)) -> keeps_view (hbind m k).
Proof.
  intros Hm Hk h. destruct (Hm h) as (H1' & H2' & H3'). unfold hbind. destruct (m h) as [[a| |] h']; simpl in *; [|done..].
  destruct (Hk a h') as (K1 & K2 & K3). by rewrite K1, K2, K3.
Qed.
Lemma keeps_view_ledger mode key : keeps_view (get_ledger mode key).
Proof. intros h. by rewrite get_ledger_host. Qed.
Lemma keeps_view_verified mode l tx c k tc : keeps_view (get_verified_transaction mode l tx c k tc).
Proof. intros h. destruct (get_verified_frame mode l tx c k tc h) as (? & ? & ? & _). done. Qed.
Ltac keep := repeat first
  [apply keeps_view_bind; [|intros ?] | apply keeps_view_ledger | apply keeps_view_verified | by intros ?].
Lemma keeps_view_guaranteed mode tc key bytes c consensus version :
  keeps_view (validate_guaranteed_execution mode tc key bytes c consensus version).
Proof. unfold validate_guaranteed_execution, do_validate_guaranteed_execution. keep. Qed.
Lemma keeps_view_validate mode key bytes c consensus version w d : keeps_view (validate_transaction mode key bytes c consensus version w d).
Proof.
  apply keeps_view_bind; [by intros ?|]. intros tx. apply keeps_view_bind; [apply keeps_view_ledger|]. intros l. cbv zeta.
  apply keeps_view_bind.
  - intros h. unfold do_validate_transaction. destruct (soft_cache h !! _); [done|]. revert h.
    apply keeps_view_bind; [apply keeps_view_verified|]. intros vt. keep.
  - intros _. destruct d; [unfold get_transaction_cost|]; keep.
Qed.

Lemma post_block_runs mode key c h l : get_ledger mode key h = (Ok l, h) -> well_keyed h ->
  exists root new h', apply_post_block_update mode key c h = (Ok root, h') /\ arena h' = stored mode new (arena h) /\
    get_ledger mode root h' = (Ok new, h') /\ is_block_start new = true.
Proof.
  intros Hl Hw. unfold apply_post_block_update. rewrite (hbind_Ok _ _ _ _ _ Hl).
  assert (cost_le (clamp (block_fullness l) (block_limits (parameters (state l)))) (block_limits (parameters (state l)))) as Hle
    by (unfold cost_le, clamp; simpl; lia).
  destruct (normalize_within _ _ Hle) as [n Hn].
  unfold hbind at 1, lift at 1, ledger_apply_post_block_update, clamp_and_normalize. rewrite Hn. simpl obind. cbn iota.
  set (new := {| state := _; block_fullness := _ |}). unfold hbind at 1, lift at 1. destruct (key_serializes (typed_key new)) as [root Hr].
  assert (serialized_key new = Ok root) as Hk by (unfold serialized_key; by rewrite Hr). rewrite Hk.
  pose proof (persist_stores mode new h) as Ha.
  exists root, new, (snd (persist mode new h)). split_and!; [done|done| |done]. by eapply get_stored.
Qed.

(** C24: a transaction that is applied leads to a state that the host has under the
    returned root, next to all others.  The UTXOs reported as created are in it, the ones
    reported as spent are not.  The reported UTXOs account for the change of the number of
    UTXOs of the ledger unless the file of overrides has an order for this transaction that
    lists more UTXOs than are reported: without an override, and with one that lists no
    more.  (A longer list is what an override with an unknown entry leaves: UTXOs are then
    missing from the report.)  A transaction that fails leaves no state behind. *)
Theorem applied_transaction_reports mode tc key bytes c consensus skip version h r h' :
  well_keyed h -> apply_transaction override_file mode tc key bytes c consensus skip version h = (r, h') ->
  well_keyed h' /\
  match r with
  | Ok e => exists l new,
      get_ledger mode key h = (Ok l, h) /\ get_ledger mode (state_root e) h' = (Ok new, h') /\ arena h ⊆ arena h' /\
      (forall i, i ∈ unshielded_utxos_created e -> utxo_of_info i ∈ utxos (state new)) /\
      (forall i, i ∈ unshielded_utxos_spent e -> utxo_of_info i ∉ utxos (state new)) /\
      (listed_all (known_overrides override_file h l !! tx_hash e) e ->
         Z.of_nat (size (utxos (state new))) =
         saturating_sub (saturating_add 64 (Z.of_nat (size (utxos (state l)))) (len (unshielded_utxos_created e)))
           (len (unshielded_utxos_spent e)))
  | _ => arena h' = arena h
  end.
Proof.
  intros Hw [(tx & l & vt & hv & ctx & new & e & -> & Hd & Hl & _ & _ & Ht & Ha)|[Hne Ha]]%apply_inv.
  - split; [by eapply stored_well_keyed|]. apply transition_inv in Ht as (Hr & Hh & Hc & Hs & Hn). exists l, new.
    split; [done|]. split; [by eapply get_stored|]. split; [rewrite Ha; apply stored_grows|]. rewrite Hh. done.
  - split; [intros m k l; rewrite Ha; apply Hw|]. destruct r as [e| |]; [by destruct (Hne e)|done..].
Qed.

(** ** Pre-dispatch *)

(** The errors that are left to a transaction that was accepted at pre-dispatch: its
    cost, the limits of the block, the report on its UTXOs and the serialization of it *)
Definition late_error (e : Lae.LedgerApiError) : Prop :=
  match e with
  | Lae.FeeCalculationError | Lae.BlockLimitExceededError | Lae.HostApiError | Lae.Serialization _ => True
  | _ => False
  end.

Definition fails_late {A} (r : outcome Lae.LedgerApiError A) : Prop :=
  match r with Ok _ => True | Err e => late_error e | Panic => False end.
Lemma fails_late_bind {A B} (m : outcome Lae.LedgerApiError A) (k : A -> outcome Lae.LedgerApiError B) :
  fails_late m -> (forall a, m = Ok a -> fails_late (k a)) -> fails_late (let! a := m in k a).
Proof. destruct m; simpl; auto. Qed.
Lemma prevalidate_late st f l : fails_late (prevalidate_post_block_update st f l).
Proof. unfold prevalidate_post_block_update. destruct (normalize f l); simpl; [|done]. by destruct (state_prevalidate _ _ _). Qed.
Lemma push_operations_late ops ev : fails_late (push_operations ev ops).
Proof.
  revert ev. induction ops as [|op ops IH]; intros ev; [done|]. simpl. apply fails_late_bind; [|by intros; apply IH].
  destruct op; simpl; try done; by destruct (serialize_address _).
Qed.
Lemma check_integrity_late u n new : fails_late (check_utxos_response_integrity u n new).
Proof. unfold check_utxos_response_integrity. destruct (negb _); [done|]. destruct (existsb _ _); [done|]. by destruct (_ =? _). Qed.
Lemma transition_late map l tx skip vt ctx : apply_guaranteed_only (state l) vt ctx = None ->
  fails_late (transition map l tx skip vt ctx).
Proof.
  intros Hg. unfold transition. apply fails_late_bind.
  - unfold apply_verified_transaction. apply fails_late_bind; [by destruct (cost _ _)|]. intros cst _.
    apply fails_late_bind; [apply prevalidate_late|]. intros _ _. pose proof (guaranteed_runs _ _ _ Hg) as Hf.
    destruct (apply (state l) vt ctx) as [st' [|segs|reason]]; [done..|]. by destruct (Hf reason).
  - intros applied _. apply fails_late_bind; [apply check_integrity_late|]. intros checked _. cbv zeta.
    apply fails_late_bind; [unfold serialized_key; by destruct (serialize_key _)|]. intros root _.
    apply fails_late_bind; [apply push_operations_late|]. done.
Qed.

Lemma get_verified_cached mode l tx c k tc h vt h' : get_verified_transaction mode l tx c k tc h = (Ok vt, h') ->
  downcast mode (strict_cache h' !! strict_key l c k) = Some vt.
Proof.
  unfold get_verified_transaction. destruct (downcast _ _) as [vt'|] eqn:Ed; [by intros [= <- <-]|]. unfold hbind, lift.
  destruct (get_transaction_context l c); [|done..]. destruct (well_formed _ _ _) as [e|vt']; [done|].
  unfold hmodify, hret. intros [= <- <-]. simpl. rewrite lookup_insert_eq. simpl. by rewrite decide_True.
Qed.

(** What a pre-dispatch that accepts has found *)
Lemma guaranteed_inv mode tc key bytes c consensus version h h' :
  validate_guaranteed_execution mode tc key bytes c consensus version h = (Ok tt, h') ->
  exists tx l vt ctx, decode_transaction bytes consensus = Ok tx /\ get_ledger mode key h = (Ok l, h) /\ arena h' = arena h /\
    downcast mode (strict_cache h' !! strict_key l c (tx_validation_cache_key version bytes)) = Some vt /\
    get_transaction_context l c = Ok ctx /\ apply_guaranteed_only (state l) vt ctx = None.
Proof.
  unfold validate_guaranteed_execution, do_validate_guaranteed_execution, hbind, hmodify, hgets, lift, hret. cbv zeta.
  destruct (decode_transaction bytes consensus) as [tx| |]; [|done..].
  pose proof (get_ledger_host mode key h) as Hh. destruct (get_ledger mode key h) as [[l| |] h0]; simpl in Hh; subst h0; [|done..].
  set (h1 := set_soft _ h). destruct (get_verified_frame mode l tx c (tx_validation_cache_key version bytes) tc h1) as (Fa & _).
  destruct (get_verified_transaction _ _ _ _ _ _ h1) as [[vt| |] hv] eqn:Hv; [|done..]. simpl in Fa.
  destruct (get_transaction_context l c) as [ctx| |] eqn:Hc; [|done..]. unfold run_guaranteed.
  destruct (apply_guaranteed_only (state l) vt ctx) eqn:Hg; simpl; [done|]. intros [= <-].
  exists tx, l, vt, ctx. split_and!; try done. by eapply get_verified_cached.
Qed.

(** C19: a transaction that is accepted at pre-dispatch and applied then is neither
    malformed nor invalid: it is applied, or fails for its cost, the limits of the block,
    the check of its UTXOs or the serialization of its report. *)
Theorem predispatched_transaction_applies mode tc key bytes c consensus skip version h h1 :
  validate_guaranteed_execution mode tc key bytes c consensus version h = (Ok tt, h1) ->
  fails_late (fst (apply_transaction override_file mode tc key bytes c consensus skip version h1)).
Proof.
  intros (tx & l & vt & ctx & Hd & Hl & Ha & Hv & Hc & Hg)%guaranteed_inv.
  assert (get_ledger mode key h1 = (Ok l, h1)) as Hl1.
  { unfold get_ledger in *. rewrite Ha. destruct (deserialize_key key); [|done]. injection Hl as ->. done. }
  destruct (set_network_frame (network_id (state l)) h1) as (_ & Fs & Fo & Fn).
  edestruct (apply_after_verified override_file mode tc key bytes c consensus skip version h1 tx l vt) as (h2 & -> & _);
    [done|done| |exact Fo|exact Fn|].
  - unfold get_verified_transaction. by rewrite Fs, Hv.
  - cbn [fst]. rewrite Hc. cbn [obind]. apply fails_late_bind; [by apply transition_late|done].
Qed.
End Results.

(** ** A small ledger

    Its transactions are claims: each creates one UTXO of its value.  A transaction of
    one byte is of the old version, one that starts with 13 of the memo version. *)

Module LedgerExample.
#[export] Instance types : LedgerTypes := {
  LedgerState := list Z; LedgerParameters := Z; VerifiedTransaction := Z; Intent := unit; UtxoSpend := Utxo;
  ContractAddress := Z; VerifyingKey := Z; MalformedTransaction := unit; TransactionInvalid := unit;
  SystemTransactionFailure := unit; DustPublicKey := Z; SystemPayload := unit
}.

Definition claim (n : Z) : Transaction :=
  ClaimRewards {| c_owner := n; c_value := n; c_nonce := [n]; c_kind := CardanoBridge |}.
Definition claimed (tx : Transaction) : Z := match tx with ClaimRewards c => c_value c | Standard _ => 0 end.
Definition limits : SyntheticCost :=
  {| read_time := 100; compute_time := 100; block_usage := 100; bytes_written := 100; bytes_churned := 100 |}.
Definition within (c l : SyntheticCost) : bool :=
  (read_time c <=? read_time l) && (compute_time c <=? compute_time l) && (block_usage c <=? block_usage l) &&
  (bytes_written c <=? bytes_written l) && (bytes_churned c <=? bytes_churned l).
Definition one : SyntheticCost :=
  {| read_time := 1; compute_time := 1; block_usage := 1; bytes_written := 1; bytes_churned := 1 |}.
Definition add (a b : SyntheticCost) : SyntheticCost :=
  {| read_time := read_time a + read_time b; compute_time := compute_time a + compute_time b;
     block_usage := block_usage a + block_usage b; bytes_written := bytes_written a + bytes_written b;
     bytes_churned := bytes_churned a + bytes_churned b |}.
Definition fraction (c l : SyntheticCost) : NormalizedCost :=
  {| n_read_time := read_time c; n_compute_time := compute_time c; n_block_usage := block_usage c;
     n_bytes_written := bytes_written c; n_bytes_churned := bytes_churned c |}.
Definition paid (n : Z) : Utxo :=
  {| u_value := n; u_owner := [n]; u_type := [0]; u_intent_hash := [n]; u_output_no := 0 |}.
Definition key_of (l : Ledger) : Bytes :=
  read_time (block_fullness l) :: compute_time (block_fullness l) :: block_usage (block_fullness l) ::
  bytes_written (block_fullness l) :: bytes_churned (block_fullness l) :: state l.

#[export] Instance ledger : MnLedger := {
  state_hash st := st; network_id _ := []; utxos st := list_to_set (paid <$> st); parameters _ := 0; block_limits _ := limits;
  bridge_min_amount p := p; unclaimed_block_rewards _ _ := None; bridge_receiving _ _ := None;
  cost_add := add; normalize c l := if within c l then Some (fraction c l) else None; into_atomic_units f w := f * w / 100;
  timestamp_add := Z.add; transaction_hash tx := [claimed tx]; transaction_identifiers _ := [];
  cost _ _ := Some one;
  well_formed tx _ t := if t <? 1000 then inr (claimed tx) else inl tt;
  apply st n _ := if n <? 0 then (st, Failure tt) else (n :: st, Success);
  apply_guaranteed_only _ n _ := if n <? 0 then Some tt else None;
  guaranteed_outputs _ := []; guaranteed_inputs _ := []; fallible_outputs _ := []; fallible_inputs _ := [];
  intent_hash_at _ _ := []; utxo_of_spend u := u; user_address n := [n]; mk_intent_hash o _ := [oi_amount o]; NIGHT := [0];
  system_hash _ := []; system_cost _ _ := one;
  apply_system_tx st tx _ := match tx with UnlockToTreasury n => inr (n :: st) | OverwriteParameters _ => inr st
                         | DistributeNight CardanoBridge [o] => inr (oi_amount o :: st) | _ => inl tt end;
  state_prevalidate _ _ _ := true; state_apply_post_block_update st _ _ _ := st; state_post_block_update st _ _ _ := Some st;
  malformed_error _ := Me.OutOfDustValidityWindow; invalid_error _ := Ie.InsufficientClaimable; system_error _ := Ste.IllegalPayout;
  versioned_deserialize b := match b with [n] => Some (claim n, true) | [13; n] => Some (claim n, false) | _ => None end;
  deserialize_system b := match b with [0; n] => Some (OverwriteParameters n) | [1; n] => Some (UnlockToTreasury n)
    | 2 :: n :: rest => Some (DistributeNight CardanoBridge [{| oi_amount := n; oi_target_address := take 32 rest; oi_nonce := drop 32 rest |}])
    | _ => None end;
  serialize_system tx := match tx with OverwriteParameters n => Some [0; n] | UnlockToTreasury n => Some [1; n]
    | DistributeNight CardanoBridge [o] => if len (oi_target_address o) =? 32 then Some (2 :: oi_amount o :: oi_target_address o ++ oi_nonce o) else None
    | _ => None end;
  deserialize_event _ := None; serialize_event _ := None; deserialize_dust_key _ := None; serialize_address a := Some [a];
  serialize_parameters p := Some [p]; typed_key := key_of; serialize_key := Some; deserialize_key := Some;
  twox128 b := b; hex_decode _ := None
}.

#[export] Instance laws : MnLedgerLaws.
Proof.
  split.
  - intros c l (H1 & H2 & H3 & H4 & H5). simpl. unfold within. rewrite !(proj2 (Z.leb_le _ _)) by done. by eexists.
  - intros st n ctx. simpl. by destruct (n <? 0).
  - by intros k b [= ->].
  - by eexists.
  - intros [st [a b c d e]] [st' [a' b' c' d' e']] Hk. unfold typed_key, ledger, key_of in Hk. simpl in Hk.
    by simplify_eq.
  - intros [|[] [|[n a c] []]| | | | | | |] b; simpl; try done; try (by intros [= <-]).
    destruct (Z.eqb_spec (len a) 32) as [Ha|]; [|done]. intros [= <-]. unfold len in Ha.
    rewrite take_app_length', drop_app_length' by lia. done.
Qed.

(** A host with the empty ledger, and a block at time 500, after the end of the correction *)
Definition genesis : Ledger := {| state := []; block_fullness := cost_zero |}.
Definition key : Bytes := typed_key genesis.
Definition h0 : Host := {| arena := {[(SeparateDb, key) := genesis]}; strict_cache := ∅; soft_cache := ∅; network := None; overrides := None; storages := ∅ |}.
Definition block : BlockContext := {| tblock := 500; tblock_err := 30; parent_block_hash := replicate 32 7; last_block_time := 494 |}.
Definition correction : option TBlockCorrection := Some {| offset := 12; disable_after := 100 |}.
Definition always : ConsensusContext := {| block_height := 5; memo_activation_height := 0 |}.
Definition later : ConsensusContext := {| block_height := 5; memo_activation_height := 6 |}.
Definition no_file : Bytes -> option (list TxOverride) := fun _ => None.

(** The same host after the pool validated transaction [42] and pre-dispatch accepted it *)
Definition validated : Call := ValidateGuaranteed SeparateDb key [42] block always 1.
Definition h1 : Host := run_call no_file correction validated h0.

Definition ext : Externalities := {| storage := None; tblock_correction := None |}.

(** The transaction accepted, and applied *)
Definition accepted : outcome Lae.LedgerApiError unit * Host := validate_guaranteed_execution SeparateDb correction key [42] block always 1 h0.

Definition applied : outcome Lae.LedgerApiError TransactionAppliedStateRoot * Host :=
  apply_transaction no_file SeparateDb correction key [42] block always true 1 h0.

Lemma h0_well_keyed : well_keyed h0.
Proof. intros m k l Hl. simpl in Hl. apply lookup_singleton_Some in Hl as [[= <- <-] <-]. done. Qed.
End LedgerExample.

Import LedgerExample.

Lemma ledger_nodes_agree_witness : let apply h := fst (apply_transaction no_file SeparateDb correction key [42] block always true 1 h) in
  strict_cache h0 <> strict_cache h1 /\ apply h0 = apply h1.
Proof.
  cbv zeta. split.
  - intros Heq. apply (f_equal size) in Heq. vm_compute in Heq. discriminate.
  - refine (proj1 (ledger_nodes_agree no_file correction (fun _ _ => True) _ h0 h1 SeparateDb key [42] block always true 1 _ _ _ _ _ _)).
    + intros v1 b1 v2 b2 _ _ Heq. exact Heq.
    + apply starts.
    + apply (calls _ _ _ validated); [apply starts|done].
    + split; [reflexivity|]. intros l. reflexivity.
    + intros k1 k2 l1 l2 Hl1 Hl2 _. simpl in Hl1, Hl2. apply lookup_singleton_Some in Hl1 as [_ <-], Hl2 as [_ <-]. done.
    + done.
    + vm_compute. discriminate.
Defined.

Lemma memo_version_witness :
  Ledger9Bridge.apply_transaction_v2 no_file ext key [13; 42] block later 1 h0 = (Err Lae.TransactionVersionNotActive, h0) /\
  Ledger9Bridge.get_transaction_cost_v2 ext key [42] block later 9 h0 = Ledger9Bridge.get_transaction_cost_v1 ext key [42] block 9 h0.
Proof.
  split.
  - destruct (memo_version_is_gated no_file ext key [13; 42] (claim 42) block later 1 9 h0) as [Hg _].
    destruct (Hg eq_refl) as [Hv2 _]. exact (proj1 (Hv2 eq_refl)).
  - destruct (memo_version_is_gated no_file ext key [42] (claim 42) block later 1 9 h0) as [_ Hg].
    exact (proj2 (proj2 (proj2 (Hg eq_refl)))).
Defined.

Lemma applied_transaction_witness :
  len <$> (match fst applied with Ok e => Some (unshielded_utxos_created e) | _ => None end) = Some 1 /\ well_keyed (snd applied).
Proof.
  split; [vm_compute; reflexivity|].
  exact (proj1 (applied_transaction_reports no_file SeparateDb correction key [42] block always true 1 h0 (fst applied) (snd applied)
    h0_well_keyed (surjective_pairing applied))).
Defined.

Lemma predispatched_witness :
  fst accepted = Ok tt /\ fails_late (fst (apply_transaction no_file SeparateDb correction key [42] block always true 1 (snd accepted))).
Proof.
  assert (fst accepted = Ok tt) as Hok by (vm_compute; reflexivity). split; [exact Hok|].
  pose proof (surjective_pairing accepted) as E. rewrite Hok in E.
  exact (predispatched_transaction_applies no_file SeparateDb correction key [42] block always true 1 h0 (snd accepted) E).
Defined.
