(* ===== verification/Midnight.v ===== *)
(** * The pallets of the ledger

    Models [src/pallets/midnight/src/lib.rs], which keeps the key of the ledger state and
    applies transactions, and [src/pallets/midnight-system/src/lib.rs], which applies
    system transactions for governance and for other pallets.  Storage and host are
    separate: a call that fails leaves the storage as it was, and the host as far as it came.

    The theorems: the key in storage always leads to a ledger and the end of a block cannot
    fail; a block has the same effect on every node, whatever is in their caches;
    governance sends nothing but new parameters. *)

From S2P Require Import Prelude Frame LedgerErrors LedgerApi LedgerBridge.
Import Ledger9Bridge.

Definition EXTRA_WEIGHT_TX_SIZE : Weight := from_parts 20000000000 0.
Definition StateKeyLength : Z := 1065.
Definition MaxNetworkIdLength : Z := 64.

(** ** [pallet-midnight] *)

Module PalletMidnight.

Inductive Event :=
| ContractCall (tx_hash contract_address : Bytes)
| ContractDeploy (tx_hash contract_address : Bytes)
| TxApplied (tx_hash : Bytes)
| ContractMaintain (tx_hash contract_address : Bytes)
| PayoutMinted (amount : Z) (receiver : Bytes)
| ClaimRewards (tx_hash : Bytes) (value : Z)
| UnshieldedTokens (spent created : list UtxoInfo)
| TxPartialSuccess (tx_hash : Bytes).

Inductive Error :=
| NewStateOutOfBounds
| Deserialization (e : De.DeserializationError)
| Serialization (e : Se.SerializationError)
| Transaction (e : Te.TransactionError)
| LedgerCacheError | NoLedgerState | LedgerStateScaleDecodingError | ContractCallCostError | BlockLimitExceededError
| FeeCalculationError | HostApiError | NetworkIdNotString | GetTransactionContextError | ContractNotPresent
| BeneficiaryNotFound | TransactionVersionNotActive.
(** [impl From<LedgerApiError> for Error] *)
Definition from_ledger_error (value : Lae.LedgerApiError) : Error :=
  match value with
  | Lae.Deserialization error => Deserialization error
  | Lae.Serialization error => Serialization error
  | Lae.Transaction error => Transaction error
  | Lae.LedgerCacheError => LedgerCacheError
  | Lae.NoLedgerState => NoLedgerState
  | Lae.LedgerStateScaleDecodingError => LedgerStateScaleDecodingError
  | Lae.ContractCallCostError => ContractCallCostError
  | Lae.BlockLimitExceededError => BlockLimitExceededError
  | Lae.FeeCalculationError => FeeCalculationError
  | Lae.HostApiError => HostApiError
  | Lae.GetTransactionContextError => GetTransactionContextError
  | Lae.ContractNotPresent => ContractNotPresent
  | Lae.BeneficiaryNotFound => BeneficiaryNotFound
  | Lae.TransactionVersionNotActive => TransactionVersionNotActive
  end.
End PalletMidnight.

Module PalletMidnightSystem.
Inductive Error :=
| SystemTransactionNotAllowedForGovernance
| Deserialization (e : De.DeserializationError)
| Serialization (e : Se.SerializationError)
| Transaction (e : Te.TransactionError)
| LedgerCacheError | NoLedgerState | LedgerStateScaleDecodingError | ContractCallCostError | BlockLimitExceededError
| FeeCalculationError | HostApiError | GetTransactionContextError | ContractNotPresent | BeneficiaryNotFound
| TransactionVersionNotActive.
Definition from_ledger_error (value : Lae.LedgerApiError) : Error :=
  match value with
  | Lae.Deserialization e => Deserialization e
  | Lae.Serialization e => Serialization e
  | Lae.Transaction e => Transaction e
  | Lae.LedgerCacheError => LedgerCacheError
  | Lae.NoLedgerState => NoLedgerState
  | Lae.LedgerStateScaleDecodingError => LedgerStateScaleDecodingError
  | Lae.ContractCallCostError => ContractCallCostError
  | Lae.BlockLimitExceededError => BlockLimitExceededError
  | Lae.FeeCalculationError => FeeCalculationError
  | Lae.HostApiError => HostApiError
  | Lae.GetTransactionContextError => GetTransactionContextError
  | Lae.ContractNotPresent => ContractNotPresent
  | Lae.BeneficiaryNotFound => BeneficiaryNotFound
  | Lae.TransactionVersionNotActive => TransactionVersionNotActive
  end.
End PalletMidnightSystem.

(** The events of both pallets, in the order in which they are deposited *)
Inductive Event :=
| MidnightEvent (e : PalletMidnight.Event)
| SystemTransactionApplied (hash serialized_system_transaction : Bytes).

(** Weights of a block: [frame_system::limits] and [ConsumedWeight] *)
Record WeightsPerClass := { base_extrinsic : Weight; max_total : option Weight; reserved : option Weight }.
Record BlockWeights := { max_block : Weight; normal_class : WeightsPerClass }.
Record ConsumedWeight := { w_normal : Weight; w_operational : Weight; w_mandatory : Weight }.
Definition total (w : ConsumedWeight) : Weight := weight_add (weight_add (w_normal w) (w_operational w)) (w_mandatory w).

(** Storage of the two pallets, and what they read of [frame_system] and [pallet_timestamp] *)
Record State := {
  StateKey : Bytes;
  ParentTimestamp : Z;
  NetworkId : Bytes;
  MemoActivationHeight : Z;
  ConfigurableTransactionSizeWeight : Weight;
  ConfigurableOnInitializeWeight : Weight;
  ConfigurableOnRuntimeUpgradeWeight : Weight;
  MaxSkippedSlots : Z;
  ConfigurableSystemTxWeight : Weight;
  block_number : Z;
  parent_hash : Bytes;
  now : Z; (* milliseconds *)
  block_weight : ConsumedWeight;
  events : list Event
}.
Definition set_state_key k s :=
  {| StateKey := k; ParentTimestamp := ParentTimestamp s; NetworkId := NetworkId s; MemoActivationHeight := MemoActivationHeight s;
     ConfigurableTransactionSizeWeight := ConfigurableTransactionSizeWeight s; ConfigurableOnInitializeWeight := ConfigurableOnInitializeWeight s;
     ConfigurableOnRuntimeUpgradeWeight := ConfigurableOnRuntimeUpgradeWeight s; MaxSkippedSlots := MaxSkippedSlots s;
     ConfigurableSystemTxWeight := ConfigurableSystemTxWeight s; block_number := block_number s; parent_hash := parent_hash s; now := now s;
     block_weight := block_weight s; events := events s |}.
Definition set_parent_timestamp t s :=
  {| StateKey := StateKey s; ParentTimestamp := t; NetworkId := NetworkId s; MemoActivationHeight := MemoActivationHeight s;
     ConfigurableTransactionSizeWeight := ConfigurableTransactionSizeWeight s; ConfigurableOnInitializeWeight := ConfigurableOnInitializeWeight s;
     ConfigurableOnRuntimeUpgradeWeight := ConfigurableOnRuntimeUpgradeWeight s; MaxSkippedSlots := MaxSkippedSlots s;
     ConfigurableSystemTxWeight := ConfigurableSystemTxWeight s; block_number := block_number s; parent_hash := parent_hash s; now := now s;
     block_weight := block_weight s; events := events s |}.
Definition set_genesis network memo s :=
  {| StateKey := StateKey s; ParentTimestamp := ParentTimestamp s; NetworkId := network; MemoActivationHeight := memo;
     ConfigurableTransactionSizeWeight := ConfigurableTransactionSizeWeight s; ConfigurableOnInitializeWeight := ConfigurableOnInitializeWeight s;
     ConfigurableOnRuntimeUpgradeWeight := ConfigurableOnRuntimeUpgradeWeight s; MaxSkippedSlots := MaxSkippedSlots s;
     ConfigurableSystemTxWeight := ConfigurableSystemTxWeight s; block_number := block_number s; parent_hash := parent_hash s; now := now s;
     block_weight := block_weight s; events := events s |}.
Definition set_size_weight w s :=
  {| StateKey := StateKey s; ParentTimestamp := ParentTimestamp s; NetworkId := NetworkId s; MemoActivationHeight := MemoActivationHeight s;
     ConfigurableTransactionSizeWeight := w; ConfigurableOnInitializeWeight := ConfigurableOnInitializeWeight s;
     ConfigurableOnRuntimeUpgradeWeight := ConfigurableOnRuntimeUpgradeWeight s; MaxSkippedSlots := MaxSkippedSlots s;
     ConfigurableSystemTxWeight := ConfigurableSystemTxWeight s; block_number := block_number s; parent_hash := parent_hash s; now := now s;
     block_weight := block_weight s; events := events s |}.
Definition set_frame n ph t w s :=
  {| StateKey := StateKey s; ParentTimestamp := ParentTimestamp s; NetworkId := NetworkId s; MemoActivationHeight := MemoActivationHeight s;
     ConfigurableTransactionSizeWeight := ConfigurableTransactionSizeWeight s; ConfigurableOnInitializeWeight := ConfigurableOnInitializeWeight s;
     ConfigurableOnRuntimeUpgradeWeight := ConfigurableOnRuntimeUpgradeWeight s; MaxSkippedSlots := MaxSkippedSlots s;
     ConfigurableSystemTxWeight := ConfigurableSystemTxWeight s; block_number := n; parent_hash := ph; now := t;
     block_weight := w; events := events s |}.
Definition deposit e s :=
  {| StateKey := StateKey s; ParentTimestamp := ParentTimestamp s; NetworkId := NetworkId s; MemoActivationHeight := MemoActivationHeight s;
     ConfigurableTransactionSizeWeight := ConfigurableTransactionSizeWeight s; ConfigurableOnInitializeWeight := ConfigurableOnInitializeWeight s;
     ConfigurableOnRuntimeUpgradeWeight := ConfigurableOnRuntimeUpgradeWeight s; MaxSkippedSlots := MaxSkippedSlots s;
     ConfigurableSystemTxWeight := ConfigurableSystemTxWeight s; block_number := block_number s; parent_hash := parent_hash s; now := now s;
     block_weight := block_weight s; events := events s ++ [e] |}.

Record Config := {
  ext : Externalities; (* of the node *)
  spec_version : Z;
  SlotDuration : Z; (* milliseconds *)
  block_weights : BlockWeights
}.

(** What a call returns: the new storage or an error, and the host *)
Notation Run E A := (outcome E A * Host)%type.

Section Pallets.
Context `{!LedgerTypes, !MnLedger} (override_file : Bytes -> option (list TxOverride)) (cfg : Config).
Context {Origin AccountId : Type} `{!Origins Origin AccountId}.

Notation mode := (mode_of (ext cfg)).

Definition consensus_context (s : State) : ConsensusContext :=
  {| block_height := block_number s; memo_activation_height := MemoActivationHeight s |}.

(** The drift is the one that [pallet_timestamp] allows. *)
Definition get_block_context (s : State) : BlockContext :=
  {| tblock := now s / 1000; tblock_err := 30; parent_block_hash := parent_hash s; last_block_time := ParentTimestamp s |}.

(** *** Genesis and hooks *)

Definition initialize_state {E} (network_id state_key : Bytes) (s : State) : outcome E State :=
  if (len state_key <=? StateKeyLength) && (len network_id <=? MaxNetworkIdLength)
  then Ok (set_genesis network_id (MemoActivationHeight s) (set_state_key state_key s)) else Panic.
Definition genesis_build {E} (network_id genesis_state_key : Bytes) (memo_activation_height : Z) (s : State) : outcome E State :=
  let! s := initialize_state network_id genesis_state_key s in
  Ok (set_genesis (NetworkId s) memo_activation_height s).

(** The timestamp is still the one of the parent. *)
Definition on_initialize (s : State) (h : Host) : Weight * State * Host :=
  (ConfigurableOnInitializeWeight s, set_parent_timestamp (now s / 1000) s, snd (ensure_storage_initialized (ext cfg) h)).

Definition on_finalize {E} (s : State) (h : Host) : Run E State :=
  match apply_post_block_update (ext cfg) (StateKey s) (get_block_context s) h with
  | (Ok state_root, h) => (Ok (set_state_key state_root s), h)
  | (_, h) => (Panic, h)
  end.

Definition on_runtime_upgrade (s : State) (h : Host) : Weight * Host :=
  (ConfigurableOnRuntimeUpgradeWeight s, snd (ensure_storage_initialized (ext cfg) h)).

(** *** Transactions *)

Definition result_events (r : TransactionAppliedStateRoot) : list PalletMidnight.Event :=
  (PalletMidnight.ContractCall (tx_hash r) <$> call_addresses r) ++
  (PalletMidnight.ContractDeploy (tx_hash r) <$> deploy_addresses r) ++
  (PalletMidnight.ContractMaintain (tx_hash r) <$> maintain_addresses r) ++
  (PalletMidnight.ClaimRewards (tx_hash r) <$> claim_rewards r) ++
  (if bool_decide (unshielded_utxos_created r = []) && bool_decide (unshielded_utxos_spent r = []) then []
   else [PalletMidnight.UnshieldedTokens (unshielded_utxos_spent r) (unshielded_utxos_created r)]) ++
  [if all_applied r then PalletMidnight.TxApplied (tx_hash r) else PalletMidnight.TxPartialSuccess (tx_hash r)].

(** The origin is not looked at. *)
Definition send_mn_transaction (origin : Origin) (midnight_tx : Bytes) (s : State) (h : Host) : Run PalletMidnight.Error State :=
  match apply_transaction_v2 override_file (ext cfg) (StateKey s) midnight_tx (get_block_context s) (consensus_context s) (spec_version cfg) h with
  | (Ok result, h) =>
      (Ok (foldl (fun s e => deposit (MidnightEvent e) s) (set_state_key (state_root result) s) (result_events result)), h)
  | (Err e, h) => (Err (PalletMidnight.from_ledger_error e), h)
  | (Panic, h) => (Panic, h)
  end.

Definition set_tx_size_weight (origin : Origin) (new_weight : Weight) (s : State) : outcome (dispatch_error PalletMidnight.Error) State :=
  let! _ := some_or (ensure_root origin) BadOrigin in
  Ok (set_size_weight new_weight s).

Definition get_transaction_cost (tx : Bytes) (s : State) (h : Host) : outcome Lae.LedgerApiError Z :=
  fst (get_transaction_cost_v2 (ext cfg) (StateKey s) tx (get_block_context s) (consensus_context s) (ref_time (max_block (block_weights cfg))) h).
Definition get_tx_weight (tx : Bytes) (s : State) (h : Host) : Weight :=
  weight_add (match get_transaction_cost tx s h with Ok gas_cost => from_parts gas_cost 0 | _ => EXTRA_WEIGHT_TX_SIZE end)
    (ConfigurableTransactionSizeWeight s).

(** *** Validity: [ValidateUnsigned] *)

Inductive Call := SendMnTransaction (midnight_tx : Bytes) | SetTxSizeWeight (new_weight : Weight).
Inductive InvalidTransaction := Custom (code : Z) | ExhaustsResources.
Record ValidTransaction := { provides : list Bytes; longevity : Z }.

Definition validity_error (e : Lae.LedgerApiError) : InvalidTransaction := Custom (error_code e).

(** The next block is expected after one slot, and up to [MaxSkippedSlots] later. *)
Definition pool_context (s : State) : BlockContext :=
  let c := get_block_context s in
  let slot_duration_secs := SlotDuration cfg / 1000 in
  let skipped_slots_margin := saturating_mul 64 slot_duration_secs (MaxSkippedSlots s) in
  {| tblock := saturating_add 64 (saturating_add 64 (tblock c) slot_duration_secs) skipped_slots_margin;
     tblock_err := tblock_err c; parent_block_hash := parent_block_hash c; last_block_time := last_block_time c |}.

Definition validate_unsigned (call : Call) (s : State) (h : Host) : Run InvalidTransaction ValidTransaction :=
  match call with
  | SendMnTransaction midnight_tx =>
      match validate_transaction_v2 (ext cfg) (StateKey s) midnight_tx (pool_context s) (consensus_context s) (spec_version cfg)
              (ref_time (max_block (block_weights cfg))) h with
      | (Ok tx_hash, h) => (Ok {| provides := [tx_hash]; longevity := 600 |}, h)
      | (Err e, h) => (Err (validity_error e), h)
      | (Panic, h) => (Panic, h)
      end
  | SetTxSizeWeight _ => (Err (Custom 0), h)
  end.

Definition check_weight (midnight_tx : Bytes) (s : State) (h : Host) : outcome InvalidTransaction unit :=
  let limit_per_class := normal_class (block_weights cfg) in
  let extrinsic_weight := weight_add (get_tx_weight midnight_tx s h) (base_extrinsic limit_per_class) in
  match max_total limit_per_class, reserved limit_per_class with
  | Some max_total_limit, Some reserved_limit =>
      let! per_class := some_or (weight_checked_add (w_normal (block_weight s)) extrinsic_weight) ExhaustsResources in
      let all_weight := {| w_normal := per_class; w_operational := w_operational (block_weight s);
                           w_mandatory := w_mandatory (block_weight s) |} in
      let class_limit_hit := any_gt per_class max_total_limit in
      let block_limit_hit := any_gt (total all_weight) (max_block (block_weights cfg)) && any_gt per_class reserved_limit in
      if negb class_limit_hit && negb block_limit_hit then Ok tt else Err ExhaustsResources
  | _, _ => Ok tt
  end.

Definition pre_dispatch (call : Call) (s : State) (h : Host) : Run InvalidTransaction unit :=
  match call with
  | SendMnTransaction midnight_tx =>
      match check_weight midnight_tx s h with
      | Ok _ =>
          match validate_guaranteed_execution_v2 (ext cfg) (StateKey s) midnight_tx (get_block_context s) (consensus_context s)
                  (spec_version cfg) h with
          | (Ok _, h) => (Ok tt, h)
          | (Err e, h) => (Err (validity_error e), h)
          | (Panic, h) => (Panic, h)
          end
      | Err e => (Err e, h)
      | Panic => (Panic, h)
      end
  | SetTxSizeWeight _ => (Err (Custom 0), h)
  end.

(** *** Reads *)

Definition pallet_unclaimed_amount (beneficiary : Bytes) (s : State) (h : Host) : outcome Lae.LedgerApiError Z :=
  fst (get_unclaimed_amount mode (StateKey s) beneficiary h).
Definition pallet_ledger_parameters (s : State) (h : Host) : outcome Lae.LedgerApiError Bytes :=
  fst (get_ledger_parameters mode (StateKey s) h).
Definition pallet_bridge_min_amount (s : State) (h : Host) : outcome Lae.LedgerApiError Z :=
  fst (get_c_to_m_bridge_min_amount mode (StateKey s) h).

(** ** [pallet-midnight-system] *)

(** [LedgerStateProviderMut], which [pallet-midnight] implements *)
Definition mut_ledger_state {E R} (f : Bytes -> Host -> Run E (Bytes * R)) (s : State) (h : Host) : Run E (R * State) :=
  match f (StateKey s) h with
  | (Ok (new_state_key, custom_result), h) => (Ok (custom_result, set_state_key new_state_key s), h)
  | (Err e, h) => (Err e, h)
  | (Panic, h) => (Panic, h)
  end.

Definition apply_system (tx : Bytes) (c : BlockContext) (state_key : Bytes) (h : Host) : Run PalletMidnightSystem.Error (Bytes * Bytes) :=
  match apply_system_transaction (ext cfg) state_key tx c (spec_version cfg) h with
  | (Ok result, h) => (Ok (sys_state_root result, sys_tx_hash result), h)
  | (Err e, h) => (Err (PalletMidnightSystem.from_ledger_error e), h)
  | (Panic, h) => (Panic, h)
  end.

(** [MidnightSystemTransactionExecutor] *)
Definition execute_system_transaction (tx : Bytes) (s : State) (h : Host) : Run PalletMidnightSystem.Error (Bytes * State) :=
  match mut_ledger_state (apply_system tx (get_block_context s)) s h with
  | (Ok (hash, s), h) => (Ok (hash, deposit (SystemTransactionApplied hash tx) s), h)
  | (Err e, h) => (Err e, h)
  | (Panic, h) => (Panic, h)
  end.

Definition send_mn_system_transaction (origin : Origin) (midnight_system_tx : Bytes) (s : State) (h : Host)
    : Run (dispatch_error PalletMidnightSystem.Error) State :=
  match ensure_root origin with
  | None => (Err BadOrigin, h)
  | Some _ =>
      if is_governance_allowed_system_tx midnight_system_tx then
        match mut_ledger_state (apply_system midnight_system_tx (get_block_context s)) s h with
        | (Ok (hash, s), h) => (Ok (deposit (SystemTransactionApplied hash midnight_system_tx) s), h)
        | (Err e, h) => (Err (ModuleError e), h)
        | (Panic, h) => (Panic, h)
        end
      else (Err (ModuleError PalletMidnightSystem.SystemTransactionNotAllowedForGovernance), h)
  end.
End Pallets.

(** ** The key in storage leads to a ledger *)

Section Runs.
Context `{!LedgerTypes, !MnLedger, !MnLedgerLaws} (override_file : Bytes -> option (list TxOverride)) (cfg : Config).
Context {Origin AccountId : Type} `{!Origins Origin AccountId}.
Notation mode := (mode_of (ext cfg)).

Definition resolves (s : State) (h : Host) : Prop := well_keyed h /\ exists l, get_ledger mode (StateKey s) h = (Ok l, h).

(** What happens between and in blocks: frame moves on, transactions are validated and
    dispatched, and the caches lose entries.  A dispatch that fails leaves the storage. *)
Definition after {E} (s : State) (r : Run E State) : State * Host :=
  match r with (Ok s', h') => (s', h') | (_, h') => (s, h') end.
Inductive step : State * Host -> State * Host -> Prop :=
| frame_moves n ph t w s h : step (s, h) (set_frame n ph t w s, h)
| initializes s h : step (s, h) (snd (fst (on_initialize cfg s h)), snd (on_initialize cfg s h))
| sends (origin : Origin) tx s h : step (s, h) (after s (send_mn_transaction override_file cfg origin tx s h))
| sends_system (origin : Origin) tx s h : step (s, h) (after s (send_mn_system_transaction cfg origin tx s h))
| executes tx s h :
    step (s, h) (after s (match execute_system_transaction cfg tx s h with
                          | (Ok (_, s'), h') => (Ok s', h') | (Err e, h') => (Err e, h') | (Panic, h') => (Panic, h') end))
| resizes (origin : Origin) w s h : step (s, h) (after s (set_tx_size_weight origin w s, h))
| validates call s h : step (s, h) (s, snd (validate_unsigned cfg call s h))
| pre_dispatches call s h : step (s, h) (s, snd (pre_dispatch cfg call s h))
| finalizes s h : step (s, h) (after s (on_finalize (E:=Empty_set) cfg s h))
| loses strict soft s h : strict ⊆ strict_cache h -> soft ⊆ soft_cache h -> step (s, h) (s, set_soft soft (set_strict strict h)).

Lemma resolves_same s s' h h' : resolves s h -> StateKey s' = StateKey s -> arena h' = arena h -> resolves s' h'.
Proof.
  intros [Hw [l Hl]] Hk Ha. split; [intros m k l'; rewrite Ha; apply Hw|]. exists l. unfold get_ledger in *. rewrite Hk, Ha.
  destruct (deserialize_key _); [|done]. by injection Hl as ->.
Qed.
Lemma resolves_grows s h h' : resolves s h -> well_keyed h' -> arena h ⊆ arena h' -> resolves s h'.
Proof.
  intros [_ [l Hl]] Hw Ha. split; [done|]. exists l. unfold get_ledger in *. destruct (deserialize_key _) as [k|]; [|done].
  injection Hl as Hl. destruct (arena h !! (mode, k)) as [l'|] eqn:E; simplify_eq/=. by rewrite (lookup_weaken _ _ _ _ E Ha).
Qed.

Lemma deposits_keep_key evs s : StateKey (foldl (fun s e => deposit (MidnightEvent e) s) s evs) = StateKey s.
Proof. revert s. induction evs as [|e evs IH]; intros s; [done|]. simpl. by rewrite IH. Qed.

Lemma ensure_storage_keeps e : keeps_view (ensure_storage_initialized e).
Proof.
  intros h. unfold ensure_storage_initialized, set_default_storage, hbind, hmodify. case_bool_decide; [done|]. simpl. by destruct (storage e).
Qed.

(** A system transaction moves the key to a state that the host has. *)
Lemma system_resolves tx c s h : resolves s h ->
  let r := mut_ledger_state (apply_system cfg tx c) s h in
  match fst r with Ok (_, s') => resolves s' (snd r) | Err _ => snd r = h | Panic => False end.
Proof.
  intros [Hw Hl]. unfold mut_ledger_state, apply_system, Ledger9Bridge.apply_system_transaction.
  destruct (LedgerBridge.apply_system_transaction mode (StateKey s) tx c h) as [r h'] eqn:E.
  apply system_inv in E as [(t & l & new & e & -> & _ & _ & _ & Hk & _ & Ha)|[[e ->] ->]]; [|done]. simpl.
  split; [by eapply stored_well_keyed|]. exists new. by eapply get_stored.
Qed.

Lemma finalize_resolves {E} s h : resolves s h -> exists s' h' l, on_finalize (E:=E) cfg s h = (Ok s', h') /\ resolves s' h' /\
  get_ledger mode (StateKey s') h' = (Ok l, h') /\ is_block_start l = true.
Proof.
  intros [Hw [l Hl]]. unfold on_finalize, Ledger9Bridge.apply_post_block_update.
  destruct (post_block_runs mode (StateKey s) (get_block_context s) h l Hl Hw) as (root & new & h' & -> & Ha & Hr & Hb).
  eexists _, h', new. split; [done|]. split; [|done]. split; [by eapply stored_well_keyed|by exists new].
Qed.

Lemma step_resolves s h s' h' : step (s, h) (s', h') -> resolves s h -> resolves s' h'.
Proof.
  intros Hstep Hr. inversion Hstep as
    [n ph t w ? ?|? ?|origin tx ? ?|origin tx ? ? Ho|tx ? ?|origin w ? ?|call ? ? |call ? ?|? ?|strict soft ? ? Hs Ht]; subst.
  - by eapply resolves_same.
  - eapply resolves_same; [done..|]. apply ensure_storage_keeps.
  - unfold send_mn_transaction, apply_transaction_v2 in *.
    destruct (apply_transaction override_file mode _ _ _ _ _ _ _ h) as [r h1] eqn:Ea. destruct Hr as [Hw Hl].
    destruct (apply_keeps override_file _ _ _ _ _ _ _ _ _ _ _ Hw Ea) as (Hw' & Hg & Hok). destruct r as [e| |]; simplify_eq/=.
    + split; [done|]. rewrite deposits_keep_key. by apply Hok.
    + by apply (resolves_grows _ h).
    + by apply (resolves_grows _ h).
  - unfold send_mn_system_transaction in *. destruct (ensure_root origin); [|by simplify_eq/=].
    destruct (is_governance_allowed_system_tx tx); [|by simplify_eq/=].
    pose proof (system_resolves tx (get_block_context s) s h Hr) as Hsys.
    destruct (mut_ledger_state _ s h) as [[[hash s1]| |] h1]; simplify_eq/=; [|done..]. by eapply resolves_same.
  - unfold execute_system_transaction in *. pose proof (system_resolves tx (get_block_context s) s h Hr) as Hsys.
    destruct (mut_ledger_state _ s h) as [[[hash s1]| |] h1]; simplify_eq/=; [|done..]. by eapply resolves_same.
  - unfold set_tx_size_weight in *. destruct (ensure_root origin); simplify_eq/=; [|done]. by eapply resolves_same.
  - eapply resolves_same; [done..|]. destruct call as [tx|]; [|done]. unfold validate_unsigned, validate_transaction_v2, hbind.
    pose proof (keeps_view_validate mode (StateKey s') tx (pool_context cfg s') (consensus_context s') (spec_version cfg)
      (ref_time (max_block (block_weights cfg))) false h) as [Ha _].
    by destruct (validate_transaction _ _ _ _ _ _ _ _ h) as [[r| |] h1].
  - eapply resolves_same; [done..|]. destruct call as [tx|]; [|done]. unfold pre_dispatch, validate_guaranteed_execution_v2.
    destruct (check_weight cfg tx s' h); [|done..].
    pose proof (keeps_view_guaranteed mode (tblock_correction (ext cfg)) (StateKey s') tx (get_block_context s') (consensus_context s')
      (spec_version cfg) h) as [Ha _].
    by destruct (validate_guaranteed_execution _ _ _ _ _ _ _ h) as [[r| |] h1].
  - destruct (finalize_resolves (E:=Empty_set) s h Hr) as (s1 & h1 & l & E & Hr1 & _). rewrite E in *. by simplify_eq/=.
  - by eapply resolves_same.
Qed.

(** C3: in every state that blocks and the pool lead to, the key in storage leads to a
    ledger of the host, and the end of the block cannot fail: it leads to a ledger on which
    nothing has been spent in the new block yet. *)
Theorem blocks_can_be_finalized s0 h0 s h : resolves s0 h0 -> rtc step (s0, h0) (s, h) ->
  (exists l, get_ledger mode (StateKey s) h = (Ok l, h)) /\
  exists s' h' l, on_finalize (E:=Empty_set) cfg s h = (Ok s', h') /\ get_ledger mode (StateKey s') h' = (Ok l, h') /\ is_block_start l = true.
Proof.
  intros Hr Hrtc. assert (resolves s h) as Hrs.
  { remember (s0, h0) as x eqn:Ex. remember (s, h) as y eqn:Ey. revert s0 h0 s h Ex Ey Hr.
    induction Hrtc as [x|x [s1 h1] y Hxy _ IH]; intros s0 h0 s h -> Ey Hr; simplify_eq; [done|].
    by eapply IH; [..|eapply step_resolves]. }
  split; [apply Hrs|]. destruct (finalize_resolves (E:=Empty_set) s h Hrs) as (s' & h' & l & E & _ & Hl & Hb). by exists s', h', l.
Qed.

(** ** System transactions *)

Lemma execute_spec tx s h : resolves s h ->
  match execute_system_transaction cfg tx s h with
  | (Ok (hash, s'), h') => exists t l new, deserialize_system tx = Some t /\ get_ledger mode (StateKey s) h = (Ok l, h) /\
      ledger_apply_system_tx l t (tblock (get_block_context s)) = Ok new /\ get_ledger mode (StateKey s') h' = (Ok new, h') /\
      hash = system_hash t /\ events s' = events s ++ [SystemTransactionApplied hash tx] /\ resolves s' h'
  | (Err e, h') => h' = h
  | (Panic, h') => False
  end.
Proof.
  intros [Hw _]. unfold execute_system_transaction, mut_ledger_state, apply_system, Ledger9Bridge.apply_system_transaction.
  destruct (LedgerBridge.apply_system_transaction mode (StateKey s) tx _ h) as [r h'] eqn:E.
  apply system_inv in E as [(t & l & new & e & -> & Hd & Hl & Hn & Hk & Hh & Ha)|[[e ->] ->]]; [|done]. simpl.
  assert (get_ledger mode (sys_state_root e) h' = (Ok new, h')) as Hg by (by eapply get_stored).
  exists t, l, new. do 6 (split; [done|]). split; [by eapply stored_well_keyed|by exists new].
Qed.

(** C23: governance can only overwrite the parameters of the ledger, and only the root
    origin can; the new key leads to the ledger with the new parameters, and an event tells
    the transaction. *)
Theorem governance_only_overwrites_parameters (origin : Origin) tx s h s' h' :
  resolves s h -> send_mn_system_transaction cfg origin tx s h = (Ok s', h') ->
  is_Some (ensure_root origin) /\ exists p l new, deserialize_system tx = Some (OverwriteParameters p) /\
    get_ledger mode (StateKey s) h = (Ok l, h) /\
    ledger_apply_system_tx l (OverwriteParameters p) (now s / 1000) = Ok new /\
    get_ledger mode (StateKey s') h' = (Ok new, h') /\
    events s' = events s ++ [SystemTransactionApplied (system_hash (OverwriteParameters p)) tx].
Proof.
  intros Hr. unfold send_mn_system_transaction. destruct (ensure_root origin) as [u|]; [|done].
  destruct (is_governance_allowed_system_tx tx) eqn:Ha; [|done]. intros Hs. split; [by exists u|].
  pose proof (execute_spec tx s h Hr) as He. unfold execute_system_transaction in He.
  destruct (mut_ledger_state _ s h) as [[[hash s1]|e|] h1]; simplify_eq.
  destruct He as (t & l & new & Hd & Hl & Hn & Hg & -> & Hev & _).
  unfold is_governance_allowed_system_tx in Ha. rewrite Hd in Ha. destruct t as [p| | | | | | | |]; try done. by exists p, l, new.
Qed.
End Runs.

(** ** Blocks

    A block as [frame_executive] runs it: the hooks, the time, and the extrinsics in turn.
    A transaction whose pre-dispatch fails makes the block invalid; one whose dispatch
    fails leaves the storage, and stays in the block. *)

Section Blocks.
Context `{!LedgerTypes, !MnLedger, !MnLedgerLaws} (override_file : Bytes -> option (list TxOverride)) (cfg : Config).
Context {Origin AccountId : Type} `{!Origins Origin AccountId} (unsigned : Origin).
(** What frame adds to the weight of the block for an extrinsic *)
Context (register : ConsumedWeight -> Weight -> ConsumedWeight).
Notation mode := (mode_of (ext cfg)).

Inductive Extrinsic := MidnightTransaction (tx : Bytes) | SystemTransactionOf (tx : Bytes).

Definition apply_extrinsic (x : Extrinsic) (s : State) (h : Host) : Run InvalidTransaction State :=
  match x with
  | MidnightTransaction tx =>
      match pre_dispatch cfg (SendMnTransaction tx) s h with
      | (Ok _, h1) =>
          let s1 := set_frame (block_number s) (parent_hash s) (now s) (register (block_weight s) (get_tx_weight cfg tx s h)) s in
          match send_mn_transaction override_file cfg unsigned tx s1 h1 with
          | (Ok s2, h2) => (Ok s2, h2)
          | (Err _, h2) => (Ok s1, h2)
          | (Panic, h2) => (Panic, h2)
          end
      | (Err e, h1) => (Err e, h1)
      | (Panic, h1) => (Panic, h1)
      end
  | SystemTransactionOf tx =>
      match execute_system_transaction cfg tx s h with
      | (Ok (_, s2), h2) => (Ok s2, h2)
      | (Err _, h2) => (Ok s, h2)
      | (Panic, h2) => (Panic, h2)
      end
  end.
Fixpoint apply_extrinsics (xs : list Extrinsic) (s : State) (h : Host) : Run InvalidTransaction State :=
  match xs with
  | [] => (Ok s, h)
  | x :: xs' => match apply_extrinsic x s h with (Ok s', h') => apply_extrinsics xs' s' h' | r => r end
  end.
Definition execute_block (number : Z) (parent : Bytes) (time : Z) (w : ConsumedWeight) (xs : list Extrinsic) (s : State) (h : Host)
    : Run InvalidTransaction State :=
  let '(_, s1, h1) := on_initialize cfg (set_frame number parent (now s) w s) h in
  match apply_extrinsics xs (set_frame number parent time w s1) h1 with
  | (Ok s2, h2) => on_finalize cfg s2 h2
  | r => r
  end.

(** *** The same block on two nodes *)

Context (seen : Z -> Bytes -> Prop).
Hypothesis no_collision : forall v1 b1 v2 b2, seen v1 b1 -> seen v2 b2 ->
  twox128 (u32_to_le_bytes v1 ++ b1) = twox128 (u32_to_le_bytes v2 ++ b2) ->
  u32_to_le_bytes v1 ++ b1 = u32_to_le_bytes v2 ++ b2.
Notation tc := (tblock_correction (ext cfg)).
Notation node := (reachable override_file tc seen).

Record alike (h1 h2 : Host) : Prop := {
  alike_1 : node h1;
  alike_2 : node h2;
  alike_view : same_view override_file h1 h2
}.
(** Two runs that end alike *)
Definition agree {E A} (r1 r2 : Run E A) : Prop := fst r1 = fst r2 /\ alike (snd r1) (snd r2).

Definition given_extrinsic (x : Extrinsic) : Prop :=
  match x with MidnightTransaction tx => seen (spec_version cfg) tx | SystemTransactionOf _ => True end.

Lemma states_distinct_mono h h' : arena h ⊆ arena h' -> states_distinct h' -> states_distinct h.
Proof. intros Ha Hd k1 k2 l1 l2 H1' H2'. by eapply Hd; eapply lookup_weaken. Qed.

Lemma alike_keeps h1 h2 h1' h2' : alike h1 h2 -> node h1' -> node h2' ->
  arena h1' = arena h1 /\ overrides h1' = overrides h1 /\ network h1' = network h1 ->
  arena h2' = arena h2 /\ overrides h2' = overrides h2 /\ network h2' = network h2 -> alike h1' h2'.
Proof.
  intros [_ _ [Ha Hk]] Hn1 Hn2 (A1 & O1 & N1) (A2 & O2 & N2). split; [done..|]. split; [by rewrite A1, A2|].
  intros l. specialize (Hk l). unfold known_overrides in *. by rewrite O1, O2, N1, N2.
Qed.

Lemma get_ledger_alike m key h1 h2 : alike h1 h2 -> fst (get_ledger m key h1) = fst (get_ledger m key h2).
Proof. intros [_ _ [Ha _]]. unfold get_ledger. rewrite Ha. by destruct (deserialize_key key). Qed.

Lemma cost_alike tx s h1 h2 : alike h1 h2 -> get_transaction_cost cfg tx s h1 = get_transaction_cost cfg tx s h2.
Proof.
  intros Hal. unfold get_transaction_cost, get_transaction_cost_v2, LedgerBridge.get_transaction_cost, hbind, lift, hret.
  destruct (decode_transaction _ _); [|done..]. pose proof (get_ledger_alike mode (StateKey s) h1 h2 Hal) as Hl.
  destruct (get_ledger mode (StateKey s) h1) as [[l| |] ?], (get_ledger mode (StateKey s) h2) as [[l'| |] ?]; simplify_eq/=; try done.
  destruct (cost _ _); [|done]. simpl. by destruct (normalize _ _).
Qed.

Lemma pre_dispatch_alike tx s h1 h2 : alike h1 h2 -> states_distinct h1 -> seen (spec_version cfg) tx -> uncorrected tc (now s / 1000) ->
  agree (pre_dispatch cfg (SendMnTransaction tx) s h1) (pre_dispatch cfg (SendMnTransaction tx) s h2).
Proof.
  intros Hal Hd Hseen Hu. pose proof Hal as [Hn1 Hn2 [Ha _]]. unfold pre_dispatch.
  assert (check_weight cfg tx s h1 = check_weight cfg tx s h2) as ->.
  { unfold check_weight, get_tx_weight. by rewrite (cost_alike tx s h1 h2). }
  destruct (check_weight cfg tx s h2); [|done..]. unfold validate_guaranteed_execution_v2.
  assert (states_distinct h2) as Hd2 by (unfold states_distinct in *; by rewrite <-Ha).
  pose proof (guaranteed_is_spec tc seen no_collision mode (StateKey s) tx (get_block_context s) (consensus_context s) (spec_version cfg) h1
    (reachable_ok _ _ _ _ Hn1) Hd Hseen Hu) as E1.
  pose proof (guaranteed_is_spec tc seen no_collision mode (StateKey s) tx (get_block_context s) (consensus_context s) (spec_version cfg) h2
    (reachable_ok _ _ _ _ Hn2) Hd2 Hseen Hu) as E2.
  assert (guaranteed_spec mode (StateKey s) tx (get_block_context s) (consensus_context s) h1 =
          guaranteed_spec mode (StateKey s) tx (get_block_context s) (consensus_context s) h2) as E
    by (unfold guaranteed_spec; by rewrite (get_ledger_alike mode (StateKey s) h1 h2)).
  rewrite E, <-E2 in E1. clear E E2.
  assert (alike (snd (validate_guaranteed_execution mode tc (StateKey s) tx (get_block_context s) (consensus_context s) (spec_version cfg) h1))
    (snd (validate_guaranteed_execution mode tc (StateKey s) tx (get_block_context s) (consensus_context s) (spec_version cfg) h2))) as Hal'.
  { eapply alike_keeps; [exact Hal| | |apply keeps_view_guaranteed..].
    - exact (calls _ _ _ (ValidateGuaranteed mode (StateKey s) tx (get_block_context s) (consensus_context s) (spec_version cfg)) h1 Hn1 Hseen).
    - exact (calls _ _ _ (ValidateGuaranteed mode (StateKey s) tx (get_block_context s) (consensus_context s) (spec_version cfg)) h2 Hn2 Hseen). }
  destruct (validate_guaranteed_execution _ _ _ _ _ _ _ h1) as [r1 g1], (validate_guaranteed_execution _ _ _ _ _ _ _ h2) as [r2 g2].
  simpl in E1, Hal'. subst r2. by destruct r1.
Qed.

Lemma apply_alike key tx c consensus h1 h2 : alike h1 h2 -> states_distinct h1 -> seen (spec_version cfg) tx -> uncorrected tc (tblock c) ->
  agree (apply_transaction_v2 override_file (ext cfg) key tx c consensus (spec_version cfg) h1)
        (apply_transaction_v2 override_file (ext cfg) key tx c consensus (spec_version cfg) h2).
Proof.
  intros Hal Hd Hseen Hu. pose proof Hal as [Hn1 Hn2 [Ha Hk]]. unfold apply_transaction_v2.
  assert (states_distinct h2) as Hd2 by (unfold states_distinct in *; by rewrite <-Ha).
  destruct (apply_is_spec override_file tc seen no_collision mode key tx c consensus true (spec_version cfg) h1) as (g1 & E1 & A1);
    [by eapply reachable_ok|done..|].
  destruct (apply_is_spec override_file tc seen no_collision mode key tx c consensus true (spec_version cfg) h2) as (g2 & E2 & A2);
    [by eapply reachable_ok|done..|].
  pose proof (get_ledger_alike mode key h1 h2 Hal) as Hl.
  assert (apply_spec override_file mode key tx c consensus true h1 = apply_spec override_file mode key tx c consensus true h2) as Es.
  { unfold apply_spec. rewrite <-Hl. destruct (decode_transaction _ _); simpl; [|done..].
    destruct (fst (get_ledger mode key h1)); simpl; [|done..]. by rewrite Hk. }
  pose proof (apply_loads override_file mode tc key tx c consensus true (spec_version cfg) h1) as L1.
  pose proof (apply_loads override_file mode tc key tx c consensus true (spec_version cfg) h2) as L2.
  rewrite E1 in L1. rewrite E2 in L2. cbn [snd] in L1, L2. rewrite <-Hl in L2.
  split; [by rewrite E1, E2, Es|]. split.
  - exact (calls _ _ _ (ApplyTransaction mode key tx c consensus true (spec_version cfg)) h1 Hn1 Hseen).
  - exact (calls _ _ _ (ApplyTransaction mode key tx c consensus true (spec_version cfg)) h2 Hn2 Hseen).
  - rewrite E1, E2. cbn [snd]. split; [by rewrite A1, A2, Es, Ha|]. intros l'.
    destruct (decode_transaction tx consensus); [|by subst..]. destruct (fst (get_ledger mode key h1)) as [l| |]; [|by subst..].
    by rewrite (loaded_known _ _ _ _ _ L1), (loaded_known _ _ _ _ _ L2).
Qed.

Lemma system_alike key tx c h1 h2 : alike h1 h2 ->
  agree (Ledger9Bridge.apply_system_transaction (ext cfg) key tx c (spec_version cfg) h1)
        (Ledger9Bridge.apply_system_transaction (ext cfg) key tx c (spec_version cfg) h2).
Proof.
  intros Hal. pose proof Hal as [Hn1 Hn2 [Ha Hk]]. unfold agree, Ledger9Bridge.apply_system_transaction.
  assert (node (snd (LedgerBridge.apply_system_transaction mode key tx c h1))) as Hg1
    by exact (calls _ _ _ (ApplySystem mode key tx c) h1 Hn1 I).
  assert (node (snd (LedgerBridge.apply_system_transaction mode key tx c h2))) as Hg2
    by exact (calls _ _ _ (ApplySystem mode key tx c) h2 Hn2 I).
  revert Hg1 Hg2. unfold LedgerBridge.apply_system_transaction, hbind, lift, hret. pose proof (get_ledger_alike mode key h1 h2 Hal) as Hl.
  destruct (some_or (deserialize_system tx) _) as [t| |]; [|done..]. destruct (get_system_tx_type t); [|done..].
  pose proof (get_ledger_host mode key h1) as Hs1. pose proof (get_ledger_host mode key h2) as Hs2.
  destruct (get_ledger mode key h1) as [r1 g1], (get_ledger mode key h2) as [r2 g2]. simpl in Hl, Hs1, Hs2. subst.
  destruct r2 as [l| |]; [|done..]. destruct (ledger_apply_system_tx l t (tblock c)) as [new| |]; [|done..].
  destruct (serialized_key new); [|done..]. unfold persist, hmodify. simpl. intros Hg1 Hg2. split; [done|]. split; [done..|].
  rewrite Ha in *. destruct (arena h2 !! _); [done|]. split; [done|exact Hk].
Qed.

Lemma extrinsic_alike x s h1 h2 : alike h1 h2 -> states_distinct h1 -> given_extrinsic x -> uncorrected tc (now s / 1000) ->
  agree (apply_extrinsic x s h1) (apply_extrinsic x s h2).
Proof.
  intros Hal Hd Hg Hu. destruct x as [tx|tx]; cbn [apply_extrinsic].
  - assert (get_tx_weight cfg tx s h1 = get_tx_weight cfg tx s h2) as -> by (unfold get_tx_weight; by rewrite (cost_alike tx s h1 h2)).
    pose proof (pre_dispatch_alike tx s h1 h2 Hal Hd Hg Hu) as Hp.
    assert (arena (snd (pre_dispatch cfg (SendMnTransaction tx) s h1)) = arena h1) as Ha.
    { unfold pre_dispatch, validate_guaranteed_execution_v2. destruct (check_weight cfg tx s h1); [|done..].
      destruct (keeps_view_guaranteed mode tc (StateKey s) tx (get_block_context s) (consensus_context s) (spec_version cfg) h1) as [Ha _].
      by destruct (validate_guaranteed_execution _ _ _ _ _ _ _ h1) as [[]]. }
    destruct (pre_dispatch cfg (SendMnTransaction tx) s h1) as [r1 g1], (pre_dispatch cfg (SendMnTransaction tx) s h2) as [r2 g2].
    destruct Hp as [Hr Hal1]. simpl in Hr, Hal1, Ha. subst r2. destruct r1; [|done..]. unfold send_mn_transaction.
    assert (states_distinct g1) as Hd1 by (unfold states_distinct in *; by rewrite Ha).
    set (s1 := set_frame _ _ _ _ _).
    destruct (apply_alike (StateKey s1) tx (get_block_context s1) (consensus_context s1) g1 g2 Hal1 Hd1 Hg Hu) as [Hr Hal2].
    destruct (apply_transaction_v2 _ _ _ _ _ _ _ g1) as [r1 k1], (apply_transaction_v2 _ _ _ _ _ _ _ g2) as [r2 k2].
    simpl in Hr, Hal2. subst r2. by destruct r1.
  - unfold execute_system_transaction, mut_ledger_state, apply_system.
    destruct (system_alike (StateKey s) tx (get_block_context s) h1 h2 Hal) as [Hr Hal2].
    destruct (Ledger9Bridge.apply_system_transaction _ _ _ _ _ h1) as [r1 k1], (Ledger9Bridge.apply_system_transaction _ _ _ _ _ h2) as [r2 k2].
    simpl in Hr, Hal2. subst r2. by destruct r1.
Qed.

(** Extrinsics only add to the states of the host. *)
Lemma extrinsic_grows x s h : well_keyed h ->
  well_keyed (snd (apply_extrinsic x s h)) /\ arena h ⊆ arena (snd (apply_extrinsic x s h)).
Proof.
  intros Hw. destruct x as [tx|tx]; cbn [apply_extrinsic].
  - assert (arena (snd (pre_dispatch cfg (SendMnTransaction tx) s h)) = arena h) as Ha.
    { unfold pre_dispatch, validate_guaranteed_execution_v2. destruct (check_weight cfg tx s h); [|done..].
      destruct (keeps_view_guaranteed mode tc (StateKey s) tx (get_block_context s) (consensus_context s) (spec_version cfg) h) as [Ha _].
      by destruct (validate_guaranteed_execution _ _ _ _ _ _ _ h) as [[]]. }
    destruct (pre_dispatch cfg (SendMnTransaction tx) s h) as [r g]. simpl in Ha.
    assert (well_keyed g) as Hwg by (unfold well_keyed in *; by rewrite Ha). rewrite <-Ha.
    destruct r; [|done..]. unfold send_mn_transaction, apply_transaction_v2. set (s1 := set_frame _ _ _ _ _).
    destruct (apply_transaction override_file mode _ _ _ _ _ _ _ g) as [r k] eqn:E.
    destruct (apply_keeps override_file _ _ _ _ _ _ _ _ _ _ _ Hwg E) as (Hk & Hs & _). by destruct r.
  - unfold execute_system_transaction, mut_ledger_state, apply_system, Ledger9Bridge.apply_system_transaction.
    destruct (LedgerBridge.apply_system_transaction mode (StateKey s) tx _ h) as [r k] eqn:E.
    apply system_inv in E as [(t & l & new & e & -> & _ & _ & _ & _ & _ & Ha)|[[e ->] ->]]; [|done]. simpl.
    split; [by eapply stored_well_keyed|rewrite Ha; apply stored_grows].
Qed.
Lemma extrinsics_grow xs s h : well_keyed h ->
  well_keyed (snd (apply_extrinsics xs s h)) /\ arena h ⊆ arena (snd (apply_extrinsics xs s h)).
Proof.
  revert s h. induction xs as [|x xs IH]; intros s h Hw; [done|]. cbn [apply_extrinsics].
  destruct (extrinsic_grows x s h Hw) as [Hw' Hg]. destruct (apply_extrinsic x s h) as [[s'| |] h']; simpl in Hw', Hg; [|done..].
  destruct (IH s' h' Hw') as [Hw'' Hg']. split; [done|]. by etrans.
Qed.

Lemma extrinsic_now x s h s' h' : apply_extrinsic x s h = (Ok s', h') -> now s' = now s.
Proof.
  assert (forall evs s, now (foldl (fun s e => deposit (MidnightEvent e) s) s evs) = now s) as Hdep.
  { induction evs as [|e evs IH]; intros s1; [done|]. simpl. by rewrite IH. }
  destruct x as [tx|tx]; cbn [apply_extrinsic].
  - destruct (pre_dispatch _ _ _ _) as [[]]; [|done..]. unfold send_mn_transaction.
    destruct (apply_transaction_v2 _ _ _ _ _ _ _ _) as [[]]; intros [= <- <-]; [|done]. by rewrite Hdep.
  - unfold execute_system_transaction, mut_ledger_state. destruct (apply_system _ _ _ _ _) as [[[]| |]]; by intros [= <- <-].
Qed.

Lemma extrinsics_alike xs s h1 h2 : alike h1 h2 -> well_keyed h1 -> states_distinct (snd (apply_extrinsics xs s h1)) ->
  Forall given_extrinsic xs -> uncorrected tc (now s / 1000) -> agree (apply_extrinsics xs s h1) (apply_extrinsics xs s h2).
Proof.
  revert s h1 h2. induction xs as [|x xs IH]; intros s h1 h2 Hal Hw Hd Hg Hu; [done|].
  apply Forall_cons in Hg as [Hx Hxs]. assert (states_distinct h1) as Hd1.
  { eapply states_distinct_mono; [|exact Hd]. by apply extrinsics_grow. }
  pose proof (extrinsic_alike x s h1 h2 Hal Hd1 Hx Hu) as Hag. destruct (extrinsic_grows x s h1 Hw) as [Hw' _]. cbn [apply_extrinsics] in *.
  destruct (apply_extrinsic x s h1) as [r1 g1] eqn:E1, (apply_extrinsic x s h2) as [r2 g2]. destruct Hag as [Hr Hal']. simpl in Hr, Hal', Hw'.
  subst r2. destruct r1 as [s'| |]; [|done..]. apply extrinsic_now in E1. apply IH; try done. by rewrite E1.
Qed.

Lemma initialize_alike h1 h2 : alike h1 h2 ->
  alike (snd (ensure_storage_initialized (ext cfg) h1)) (snd (ensure_storage_initialized (ext cfg) h2)).
Proof.
  intros Hal. pose proof Hal as [Hn1 Hn2 _]. eapply alike_keeps; [exact Hal| | |apply ensure_storage_keeps..].
  - exact (calls _ _ _ (EnsureStorage (ext cfg)) h1 Hn1 I).
  - exact (calls _ _ _ (EnsureStorage (ext cfg)) h2 Hn2 I).
Qed.

Lemma finalize_grows {E} s h : arena h ⊆ arena (snd (on_finalize (E:=E) cfg s h)).
Proof.
  unfold on_finalize, Ledger9Bridge.apply_post_block_update, LedgerBridge.apply_post_block_update, hbind, lift, hret.
  pose proof (get_ledger_host mode (StateKey s) h) as Hh. destruct (get_ledger mode (StateKey s) h) as [[l| |] g]; simpl in Hh; subst g; [|done..].
  destruct (ledger_apply_post_block_update l _) as [new| |]; [|done..]. destruct (serialized_key new); [|done..].
  pose proof (persist_stores mode new h) as Ha. destruct (persist mode new h) as [[]]; simpl in *; rewrite ?Ha; apply stored_grows.
Qed.

Lemma finalize_alike {E} s h1 h2 : alike h1 h2 -> agree (on_finalize (E:=E) cfg s h1) (on_finalize (E:=E) cfg s h2).
Proof.
  intros Hal. pose proof Hal as [Hn1 Hn2 [Ha Hk]]. unfold agree, on_finalize, Ledger9Bridge.apply_post_block_update.
  assert (node (snd (LedgerBridge.apply_post_block_update mode (StateKey s) (get_block_context s) h1))) as Hg1
    by exact (calls _ _ _ (PostBlock mode (StateKey s) (get_block_context s)) h1 Hn1 I).
  assert (node (snd (LedgerBridge.apply_post_block_update mode (StateKey s) (get_block_context s) h2))) as Hg2
    by exact (calls _ _ _ (PostBlock mode (StateKey s) (get_block_context s)) h2 Hn2 I).
  revert Hg1 Hg2. unfold LedgerBridge.apply_post_block_update, hbind, lift, hret.
  pose proof (get_ledger_alike mode (StateKey s) h1 h2 Hal) as Hl.
  pose proof (get_ledger_host mode (StateKey s) h1) as Hs1. pose proof (get_ledger_host mode (StateKey s) h2) as Hs2.
  destruct (get_ledger mode (StateKey s) h1) as [r1 g1], (get_ledger mode (StateKey s) h2) as [r2 g2]. simpl in Hl, Hs1, Hs2. subst.
  destruct r2 as [l| |]; [|done..]. destruct (ledger_apply_post_block_update l _) as [new| |]; [|done..].
  destruct (serialized_key new); [|done..]. unfold persist, hmodify. simpl. intros Hg1 Hg2. split; [done|]. split; [done..|].
  rewrite Ha in *. destruct (arena h2 !! _); [done|]. split; [done|exact Hk].
Qed.

(** C2: a block has the same effect on two nodes that have the same states: the same
    storage with the same events, or the same refusal, and the same states of the ledger
    afterwards, whatever the nodes' pools and caches went through before.  The time of the
    block is not corrected, and hashes do not collide. *)
Theorem nodes_execute_blocks_alike number parent time w xs s h1 h2 :
  alike h1 h2 -> well_keyed h1 -> states_distinct (snd (execute_block number parent time w xs s h1)) ->
  Forall given_extrinsic xs -> uncorrected tc (time / 1000) ->
  agree (execute_block number parent time w xs s h1) (execute_block number parent time w xs s h2).
Proof.
  intros Hal Hw Hd Hg Hu. unfold execute_block, on_initialize in *. set (s1 := set_parent_timestamp _ _) in *.
  set (s2 := set_frame number parent time w s1) in *. pose proof (initialize_alike h1 h2 Hal) as Hal0.
  set (g1 := snd (ensure_storage_initialized (ext cfg) h1)) in *. set (g2 := snd (ensure_storage_initialized (ext cfg) h2)) in *.
  assert (well_keyed g1) as Hwg by (destruct (ensure_storage_keeps (ext cfg) h1) as [Ha _]; unfold well_keyed, g1 in *; by rewrite Ha).
  assert (states_distinct (snd (apply_extrinsics xs s2 g1))) as Hde.
  { destruct (apply_extrinsics xs s2 g1) as [[s3| |] k]; [|done..]. eapply states_distinct_mono; [|exact Hd]. apply finalize_grows. }
  destruct (extrinsics_alike xs s2 g1 g2 Hal0 Hwg Hde Hg Hu) as [Hr Hal1].
  destruct (apply_extrinsics xs s2 g1) as [r1 k1], (apply_extrinsics xs s2 g2) as [r2 k2]. simpl in Hr, Hal1. subst r2.
  destruct r1 as [s3| |]; [|done..]. by apply finalize_alike.
Qed.
End Blocks.

(** ** A chain of two blocks, on the small ledger *)

Module MidnightExample.
Export LedgerExample.

Definition no_weight : ConsumedWeight := {| w_normal := weight_zero; w_operational := weight_zero; w_mandatory := weight_zero |}.
Definition cfg : Config :=
  {| Midnight.ext := {| storage := Some SeparateDb; tblock_correction := correction |}; spec_version := 1; SlotDuration := 6000;
     block_weights := {| max_block := from_parts 1000000000000 1000000;
                         normal_class := {| base_extrinsic := from_parts 100 0; max_total := Some (from_parts 750000000000 1000000);
                                            reserved := Some (from_parts 0 0) |} |} |}.
Definition s0 : State :=
  {| StateKey := key; ParentTimestamp := 0; NetworkId := []; MemoActivationHeight := 0;
     ConfigurableTransactionSizeWeight := EXTRA_WEIGHT_TX_SIZE; ConfigurableOnInitializeWeight := EXTRA_WEIGHT_TX_SIZE;
     ConfigurableOnRuntimeUpgradeWeight := EXTRA_WEIGHT_TX_SIZE; MaxSkippedSlots := 1; ConfigurableSystemTxWeight := EXTRA_WEIGHT_TX_SIZE;
     block_number := 4; parent_hash := replicate 32 7; now := 494000; block_weight := no_weight; events := [] |}.
Definition register (w : ConsumedWeight) (x : Weight) : ConsumedWeight :=
  {| w_normal := weight_add (w_normal w) x; w_operational := w_operational w; w_mandatory := w_mandatory w |}.

Definition block_5 (h : Host) : Run InvalidTransaction State :=
  execute_block no_file cfg (NoneOrigin : RawOrigin Z) register 5 (replicate 32 7) 500000 no_weight [MidnightTransaction [42]; SystemTransactionOf [1; 7]] s0 h.
Definition new_parameters : Run (dispatch_error PalletMidnightSystem.Error) State :=
  send_mn_system_transaction (AccountId:=Z) cfg Root [0; 5] s0 h0.

(** After transaction [42] *)
Definition sent : State * Host := after s0 (send_mn_transaction no_file cfg (NoneOrigin : RawOrigin Z) [42] s0 h0).
Lemma sent_step : rtc (step no_file cfg (Origin:=RawOrigin Z)) (s0, h0) (fst sent, snd sent).
Proof. rewrite <-surjective_pairing. apply rtc_once. exact (sends no_file cfg NoneOrigin [42] s0 h0). Qed.

Lemma s0_resolves : resolves cfg s0 h0.
Proof. split; [apply h0_well_keyed|]. exists genesis. reflexivity. Qed.
Lemma all_distinct h : states_distinct h.
Proof. by intros k1 k2 l1 l2 _ _ Heq. Qed.
Lemma hosts_alike : alike no_file cfg (fun _ _ => True) h0 h1.
Proof.
  split.
  - apply starts.
  - apply (calls _ _ _ validated); [apply starts|done].
  - split; [reflexivity|]. intros l. reflexivity.
Qed.
End MidnightExample.

Import MidnightExample.

Lemma blocks_can_be_finalized_witness : StateKey (fst sent) <> StateKey s0 /\
  exists l, get_ledger SeparateDb (StateKey (fst sent)) (snd sent) = (Ok l, snd sent).
Proof.
  split; [vm_compute; discriminate|].
  exact (proj1 (blocks_can_be_finalized no_file cfg (Origin:=RawOrigin Z) s0 h0 (fst sent) (snd sent) s0_resolves sent_step)).
Defined.

Lemma governance_witness : exists s', fst new_parameters = Ok s' /\
  events s' = events s0 ++ [SystemTransactionApplied (system_hash (OverwriteParameters 5)) [0; 5]].
Proof.
  destruct (fst new_parameters) as [s'| |] eqn:E; [|vm_compute in E; discriminate..]. exists s'. split; [reflexivity|].
  assert (new_parameters = (Ok s', snd new_parameters)) as E' by (rewrite <-E; apply surjective_pairing).
  destruct (governance_only_overwrites_parameters cfg Root [0; 5] s0 h0 s' (snd new_parameters) s0_resolves E')
    as (_ & p & l & new & [= <-] & _ & _ & _ & Hev). exact Hev.
Defined.

Lemma nodes_execute_blocks_witness : fst (block_5 h0) = fst (block_5 h1) /\
  match fst (block_5 h0) with Ok s => length (events s) | _ => 0%nat end = 4%nat.
Proof.
  split; [|vm_compute; reflexivity].
  refine (proj1 (nodes_execute_blocks_alike no_file cfg (NoneOrigin : RawOrigin Z) register (fun _ _ => True) _ 5 (replicate 32 7) 500000 no_weight
    [MidnightTransaction [42]; SystemTransactionOf [1; 7]] s0 h0 h1 hosts_alike h0_well_keyed (all_distinct _) _ _)).
  - intros v1 b1 v2 b2 _ _ Heq. exact Heq.
  - repeat constructor.
  - vm_compute. discriminate.
Defined.
