(* ===== verification/BridgeLedger.v ===== *)
(** * The bridge on the ledger

    The runtime of [src/runtime/src/lib.rs] gives the bridge pallet of [C2mBridge] the executor
    of [pallet-midnight-system] and the smallest amount that [pallet-midnight] reads from the
    ledger.  The bridge's theorems hold of any executor that returns; here the executor is
    the one of [Midnight], and a transfer is followed into the ledger.

    The theorem: what the bridge asks for is what the ledger applies, for every transfer of
    at least the smallest amount; a ledger that refuses leaves the chain as it was. *)

From S2P Require Import Prelude Frame PartnerChainsBridge C2mBridge LedgerErrors LedgerApi LedgerBridge Midnight.
Import Ledger9Bridge.

Section Runtime.
Context `{!LedgerTypes, !MnLedger, !MnLedgerLaws} (cfg : Midnight.Config).
Context {Origin AccountId McTxHash : Type} `{!Origins Origin AccountId} `{Countable McTxHash}.
(** [blake2_256], a host function *)
Context (blake2_256 : list Z -> Bytes).

(** The ledger as the bridge sees it: the storage of the ledger's pallets, and the host *)
Definition Chain : Type := Midnight.State * Host.

Definition ok {E A} (r : outcome E A) : option A := match r with Ok a => Some a | _ => None end.

Definition runtime_execute (tx : Bytes) (l : Chain) : outcome PalletMidnightSystem.Error (Bytes * Chain) :=
  match Midnight.execute_system_transaction cfg tx (fst l) (snd l) with
  | (Ok (hash, s), h) => Ok (hash, (s, h))
  | (Err e, _) => Err e
  | (Panic, _) => Panic
  end.

(** [impl pallet_c2m_bridge::Config for Runtime] *)
Definition bridge_config : C2mBridge.Config (Origin:=Origin) (Recipient:=Bytes) (Hash256:=Bytes) (Tx:=Bytes)
    (XE:=PalletMidnightSystem.Error) (L:=Chain) :=
  {| C2mBridge.execute_system_transaction := runtime_execute;
     C2mBridge.get_c_to_m_bridge_min_amount l := ok (pallet_bridge_min_amount cfg (fst l) (snd l));
     C2mBridge.construct_unlock_to_treasury a := ok (construct_unlock_to_treasury_system_tx a);
     C2mBridge.construct_distribute_reserve a := ok (construct_distribute_reserve_system_tx a);
     C2mBridge.construct_distribute_night a r nonce := ok (construct_distribute_night_cardano_bridge_system_tx a r nonce);
     C2mBridge.blake2_256 := blake2_256;
     C2mBridge.governance_origin o := if ensure_root o then true else false |}.

#[local] Notation Bridge := (C2mBridge.State (McTxHash:=McTxHash) (Recipient:=Bytes) (Hash256:=Bytes) (L:=Chain)).

(** ** What a transfer asks of the ledger *)

(** [generate_nonce] *)
Definition nonce_of (s : Bridge) : Bytes :=
  blake2_256 (C2mBridge.NONCE_PREFIX ++ C2mBridge.parent_hash s ++ u32_to_le_bytes (C2mBridge.TransferCounter s)).

(** The contract of the bridge with the ledger: treasury and reserve get what was sent to
    them, an approved user gets the amount under a fresh nonce, and an unapproved transfer goes
    to the treasury. *)
Definition requested (t : BridgeTransferV1 McTxHash Bytes) (s : Bridge) : SystemTransaction :=
  match recipient t with
  | Invalid => UnlockToTreasury (amount t)
  | Reserve => DistributeReserve (amount t)
  | Address r =>
      if bool_decide (mc_tx_hash t ∈ C2mBridge.ApprovedMcTxHashes s)
      then DistributeNight CardanoBridge [{| oi_amount := amount t; oi_target_address := r; oi_nonce := nonce_of s |}]
      else UnlockToTreasury (amount t)
  end.
Definition reported (t : BridgeTransferV1 McTxHash Bytes) (s : Bridge) (hash : Bytes) : C2mBridge.Event :=
  match recipient t with
  | Invalid => C2mBridge.InvalidTransfer (mc_tx_hash t) (amount t) hash
  | Reserve => C2mBridge.ReserveTransfer (mc_tx_hash t) (amount t) hash
  | Address r =>
      if bool_decide (mc_tx_hash t ∈ C2mBridge.ApprovedMcTxHashes s)
      then C2mBridge.UserTransfer (mc_tx_hash t) (amount t) r hash
      else C2mBridge.UnapprovedTransfer (mc_tx_hash t) (amount t) r hash
  end.
Definition well_addressed (t : BridgeTransferV1 McTxHash Bytes) : Prop :=
  match recipient t with Address r => len r = 32 | _ => True end.

(** ** Lemmas *)

(** The executor of the runtime discharges what the bridge's theorems ask of it. *)
Lemma runtime_executor_returns tx l : C2mBridge.execute_system_transaction bridge_config tx l <> Panic.
Proof.
  simpl. unfold runtime_execute, Midnight.execute_system_transaction, mut_ledger_state, apply_system,
    Ledger9Bridge.apply_system_transaction.
  destruct (LedgerBridge.apply_system_transaction (mode_of (ext cfg)) (StateKey (fst l)) tx _ (snd l)) as [r h'] eqn:E.
  by apply system_inv in E as [(t & l' & new & e & -> & _)|[[e ->] _]].
Qed.

(** A system transaction of a known type runs exactly when the ledger applies it. *)
Lemma runtime_executes b tx s h l : resolves cfg s h -> get_ledger (mode_of (ext cfg)) (StateKey s) h = (Ok l, h) ->
  deserialize_system b = Some tx -> (exists ty, get_system_tx_type tx = Ok ty) ->
  match ledger_apply_system_tx l tx (now s / 1000) with
  | Ok new => exists s' h', runtime_execute b (s, h) = Ok (system_hash tx, (s', h')) /\
      get_ledger (mode_of (ext cfg)) (StateKey s') h' = (Ok new, h') /\
      Midnight.events s' = Midnight.events s ++ [SystemTransactionApplied (system_hash tx) b] /\ resolves cfg s' h'
  | _ => exists e, runtime_execute b (s, h) = Err e
  end.
Proof.
  intros Hr Hl Hd [ty Hty]. pose proof (execute_spec cfg b s h Hr) as He. unfold runtime_execute. cbn [fst snd].
  destruct (Midnight.execute_system_transaction cfg b s h) as [[[hash s']|e|] h'] eqn:E; [| |done].
  - destruct He as (t & l' & new & Hd' & Hl' & Hn & Hg & -> & Hev & Hres).
    rewrite Hl in Hl'. simplify_eq.
    change (tblock (get_block_context s)) with (now s / 1000) in Hn. rewrite Hn. by exists s', h'.
  - destruct (ledger_apply_system_tx l tx (now s / 1000)) as [new| |] eqn:Hn; [exfalso|by exists e..].
    unfold Midnight.execute_system_transaction, mut_ledger_state, apply_system, Ledger9Bridge.apply_system_transaction,
      LedgerBridge.apply_system_transaction, hbind, lift in E.
    rewrite Hd in E. simpl some_or in E. cbn iota in E. rewrite Hty, Hl in E.
    change (tblock (get_block_context s)) with (now s / 1000) in E. rewrite Hn in E.
    unfold serialized_key in E. destruct (key_serializes (typed_key new)) as [k Hk]. by rewrite Hk in E.
Qed.

Definition transferred (t : BridgeTransferV1 McTxHash Bytes) (l : Ledger) (s s' : Bridge) : Prop :=
  let tx := requested t s in
  let chain := C2mBridge.ledger s in
  let chain' := C2mBridge.ledger s' in
  match serialize_system tx, ledger_apply_system_tx l tx (now (fst chain) / 1000) with
  | Some b, Ok new =>
      get_ledger (mode_of (ext cfg)) (StateKey (fst chain')) (snd chain') = (Ok new, snd chain') /\
      C2mBridge.events s' = C2mBridge.events s ++ [reported t s (system_hash tx)] /\
      Midnight.events (fst chain') = Midnight.events (fst chain) ++ [SystemTransactionApplied (system_hash tx) b]
  | _, _ => chain' = chain /\ C2mBridge.events s' = C2mBridge.events s
  end.

(** Executing the transaction that was asked for, from a state that may have taken the
    approval and the nonce already. *)
Lemma execute_transfers t l (s s1 : Bridge) mk :
  resolves cfg (fst (C2mBridge.ledger s)) (snd (C2mBridge.ledger s)) ->
  get_ledger (mode_of (ext cfg)) (StateKey (fst (C2mBridge.ledger s))) (snd (C2mBridge.ledger s)) = (Ok l, snd (C2mBridge.ledger s)) ->
  C2mBridge.ledger s1 = C2mBridge.ledger s -> C2mBridge.events s1 = C2mBridge.events s ->
  (forall hash, mk hash = reported t s hash) ->
  exists s', C2mBridge.execute_serialized_tx bridge_config (ok (serialize_system_tx (requested t s))) mk s1 = Ok (tt, s') /\
    transferred t l s s' /\ resolves cfg (fst (C2mBridge.ledger s')) (snd (C2mBridge.ledger s')) /\
    C2mBridge.ApprovedMcTxHashes s' = C2mBridge.ApprovedMcTxHashes s1.
Proof.
  intros Hr Hl Hs1 He1 Hmk. unfold transferred, serialize_system_tx, C2mBridge.execute_serialized_tx. cbv zeta.
  destruct (serialize_system (requested t s)) as [b|] eqn:Hb; cbn [some_or ok]; [|exists s1; by rewrite Hs1].
  assert (exists ty, get_system_tx_type (requested t s) = Ok ty) as Hty
    by (unfold requested; destruct (recipient t) as [r| |]; [case_bool_decide|..]; by eexists).
  unfold bind at 1. cbn [C2mBridge.execute_system_transaction bridge_config]. unfold get, put. rewrite Hs1.
  destruct (C2mBridge.ledger s) as [ms h]. cbn [fst snd] in *.
  pose proof (runtime_executes b _ ms h l Hr Hl (system_roundtrip _ _ Hb) Hty) as He.
  destruct (ledger_apply_system_tx l _ _) as [new| |].
  2-3: destruct He as [err ->]; exists s1; by rewrite Hs1.
  destruct He as (s' & h' & -> & Hg & Hev & Hres). eexists. split; [done|]. simpl. by rewrite He1, Hmk.
Qed.

(** C5: a transfer of at least the smallest amount that the ledger asks for reaches the
    ledger.  The treasury gets what was sent to no one or without an approval, the reserve gets
    what was sent to it, an approved user gets the amount under the next nonce; the ledger
    that the new key leads to is the one with that transaction applied, and both pallets
    report it.  Where the ledger refuses, nothing but the approval and the nonce are gone. *)
Theorem transfers_reach_the_ledger t (s : Bridge) l :
  resolves cfg (fst (C2mBridge.ledger s)) (snd (C2mBridge.ledger s)) ->
  get_ledger (mode_of (ext cfg)) (StateKey (fst (C2mBridge.ledger s))) (snd (C2mBridge.ledger s)) = (Ok l, snd (C2mBridge.ledger s)) ->
  bridge_min_amount (parameters (state l)) <= amount t -> well_addressed t ->
  exists s', C2mBridge.handle_transfer bridge_config t s = Ok (tt, s') /\ transferred t l s s' /\
    resolves cfg (fst (C2mBridge.ledger s')) (snd (C2mBridge.ledger s')) /\
    C2mBridge.ApprovedMcTxHashes s' =
      match recipient t with Address _ => C2mBridge.ApprovedMcTxHashes s ∖ {[mc_tx_hash t]} | _ => C2mBridge.ApprovedMcTxHashes s end.
Proof.
  intros Hr Hl Hmin Hw.
  pose proof (fun s1 mk => execute_transfers t l s s1 mk Hr Hl) as He.
  unfold C2mBridge.handle_transfer. unfold bind at 1. cbn [C2mBridge.get_c_to_m_bridge_min_amount bridge_config].
  unfold get, pallet_bridge_min_amount, get_c_to_m_bridge_min_amount, hbind. rewrite Hl. cbn [fst snd hret ok].
  rewrite (proj2 (Z.ltb_ge _ _) Hmin). unfold C2mBridge.handle_regular_transfer.
  unfold requested, reported, well_addressed in *. destruct (recipient t) as [r| |].
  - unfold C2mBridge.handle_user_transfer. unfold bind at 1. unfold get at 1.
    case_bool_decide as Ha.
    + unfold C2mBridge.generate_nonce, bind, put, get, ret.
      cbn [C2mBridge.construct_distribute_night C2mBridge.blake2_256 bridge_config].
      unfold construct_distribute_night_cardano_bridge_system_tx, night_address. rewrite Hw. simpl obind. by apply He.
    + destruct (He s (fun x => C2mBridge.UnapprovedTransfer (mc_tx_hash t) (amount t) r x)) as (s' & E & Ht & Hres & Hap); [done..|].
      exists s'. split_and!; [exact E|done..|]. rewrite Hap. set_solver.
  - by apply He.
  - by apply He.
Qed.
End Runtime.

(** ** A concrete instance: an approved user gets nine *)

Module BridgeLedgerExample.
Export MidnightExample.

Definition user : Bytes := replicate 32 3.
Definition bridge : C2mBridge.State (McTxHash:=Z) (Recipient:=Bytes) (Hash256:=Bytes) (L:=Chain) :=
  {| C2mBridge.SubminimalTransfersConfiguration := 5; C2mBridge.SubminimalTransfers := C2mBridge.no_transfers;
     C2mBridge.TransferCounter := 0; C2mBridge.ApprovedMcTxHashes := {[1]}; C2mBridge.parent_hash := replicate 32 7;
     C2mBridge.ledger := (s0, h0); C2mBridge.events := [] |}.
Definition to_user : BridgeTransferV1 Z Bytes := {| mc_tx_hash := 1; amount := 9; recipient := Address user |}.
Definition credited : outcome Empty_set (unit * C2mBridge.State) :=
  C2mBridge.handle_transfer (bridge_config (Origin:=RawOrigin Z) cfg (take 2)) to_user bridge.
End BridgeLedgerExample.

Import BridgeLedgerExample.

Lemma transfers_reach_the_ledger_witness : exists s', credited = Ok (tt, s') /\
  transferred cfg (take 2) to_user genesis bridge s' /\ C2mBridge.events s' = [C2mBridge.UserTransfer 1 9 user []].
Proof.
  destruct (transfers_reach_the_ledger (Origin:=RawOrigin Z) cfg (take 2) to_user bridge genesis) as (s' & E & Ht & _).
  - apply s0_resolves.
  - reflexivity.
  - vm_compute. discriminate.
  - reflexivity.
  - exists s'. split_and!; [exact E|exact Ht|]. vm_compute in E. injection E as <-. reflexivity.
Defined.
