(* ===== verification/Beefy.v ===== *)
(** * BEEFY: authority sets, payloads and the relay

    Models [src/runtime/src/beefy.rs] (the stakes and commitments of the validators), the
    payload provider of the node ([src/node/src/payload.rs]) with its primitives
    ([src/primitives/beefy]), and the relay, which turns a signed commitment into the data of a
    proof on Cardano ([src/relay/src]: [justification.rs], [authorities.rs],
    [cardano_encoding.rs], and the choice of the validator set in [relayer.rs]).

    The theorems: the root of the relay's proof is the commitment of the authority set that
    the chain put into the payload, and every vote is for a leaf of it; the data written to
    Cardano determines the proof. *)

From S2P Require Import Prelude AuthoritySelection.

#[local] Notation Bytes := (list Z).

(** ** The crates *)

(** [sp_consensus_beefy::Payload]: entries under two-byte identifiers *)
Class BeefyPayload := {
  Payload : Type;
  from_single_entry : Bytes -> Bytes -> Payload;
  push_raw : Payload -> Bytes -> Bytes -> Payload;
  get_raw : Payload -> Bytes -> option Bytes;
  get_all_raw : Payload -> Bytes -> list Bytes
}.

(** [ecdsa_crypto::AuthorityId]: its bytes *)
#[local] Notation BeefyId := (list Z).
#[local] Notation BeefyStakes := (list (BeefyId * Z)).
Record BeefyAuthoritySet := { id : Z; set_len : Z; keyset_commitment : Bytes }.
Record ValidatorSet := { validators : list BeefyId; set_id : Z }.

(** [rs_merkle::proof_tree::ProofNode] *)
Inductive ProofNode := Leaf (hash : Bytes) | Node (nodes : list ProofNode).

Record BeefyCommitment `{!BeefyPayload} := { payload_of : Payload; beefy_block_number : Z; beefy_validator_set_id : Z }.
Record BeefySignedCommitment `{!BeefyPayload} := { beefy_commitment : BeefyCommitment; signatures : list (option Bytes) }.

(** [keccak_256], [binary_merkle_tree::merkle_root] over data, [rs_merkle] over hashes, SCALE,
    and [SignedCommitment::verify_signatures], which returns the signatures that are valid *)
Class BeefyCrates `{!BeefyPayload} := {
  keccak_256 : Bytes -> Bytes;
  merkle_root : list Bytes -> Bytes;
  tree_root : list Bytes -> option Bytes;
  ordered_proof_tree : list Bytes -> list nat -> ProofNode;
  encode_stakes : BeefyStakes -> Bytes;
  decode_stakes : Bytes -> option BeefyStakes;
  encode_set : BeefyAuthoritySet -> Bytes;
  decode_set : Bytes -> option BeefyAuthoritySet;
  encode_hash : Bytes -> Bytes;
  verify_signatures : BeefySignedCommitment -> Z -> ValidatorSet -> outcome Z (list (BeefyId * Bytes))
}.

(** The tree of both Merkle crates: neighbours are hashed together, and a node without a
    neighbour moves up. *)
Section Reference.
Context (hash : Bytes -> Bytes).
Fixpoint next_level (hashes : list Bytes) : list Bytes :=
  match hashes with
  | a :: b :: rest => hash (a ++ b) :: next_level rest
  | _ => hashes
  end.
Fixpoint climb (fuel : nat) (hashes : list Bytes) : Bytes :=
  match fuel, hashes with
  | S fuel, _ :: _ :: _ => climb fuel (next_level hashes)
  | _, h :: _ => h
  | _, [] => replicate 32 0
  end.
Definition reference_root (hashes : list Bytes) : Bytes := climb (length hashes) hashes.
End Reference.

Class BeefyLaws `{!BeefyPayload, !BeefyCrates} := {
  single_entry k v i : get_all_raw (from_single_entry k v) i = if decide (i = k) then [v] else [];
  pushed_entry p k v i : get_all_raw (push_raw p k v) i ≡ₚ (if decide (i = k) then [v] else []) ++ get_all_raw p i;
  unique_entry p i v : get_all_raw p i = [v] -> get_raw p i = Some v;
  stakes_roundtrip s : decode_stakes (encode_stakes s) = Some s;
  set_roundtrip s : decode_set (encode_set s) = Some s;
  merkle_root_shape data : merkle_root data = reference_root keccak_256 (keccak_256 <$> data);
  tree_root_shape h hashes : tree_root (h :: hashes) = Some (reference_root keccak_256 (h :: hashes));
  verified_in_set c n vs known : verify_signatures c n vs = Ok known ->
    length (signatures c) = length (validators vs) /\ beefy_validator_set_id (beefy_commitment c) = set_id vs
}.

(** [u64::to_le_bytes] *)
Definition u64_to_le_bytes (x : Z) : Bytes := u32_to_le_bytes x ++ u32_to_le_bytes (x / 4294967296).

(** ** The runtime: [runtime/src/beefy.rs] *)

Section Runtime.
Context `{!BeefyPayload, !BeefyCrates} {Keys : Type}.
#[local] Notation Member := (CommitteeMember Bytes Keys).

(** What [pallet_beefy], [pallet_beefy_mmr], [pallet_mmr] and the committee pallet store *)
Record State := {
  Authorities : list BeefyId;
  NextAuthorities : list BeefyId;
  BeefyValidatorSetId : Z;
  BeefyAuthorities : BeefyAuthoritySet;
  BeefyNextAuthorities : BeefyAuthoritySet;
  mmr_root : Bytes;
  current_committee : list Member;
  queued_committee : list Member
}.
Definition set_authorities c n s :=
  {| Authorities := Authorities s; NextAuthorities := NextAuthorities s; BeefyValidatorSetId := BeefyValidatorSetId s;
     BeefyAuthorities := c; BeefyNextAuthorities := n; mmr_root := mmr_root s;
     current_committee := current_committee s; queued_committee := queued_committee s |}.

(** [are_ids_equal]: both are the bytes of an ECDSA key *)
Definition are_ids_equal (member : Member) (validator : BeefyId) : bool :=
  match member with
  | PermissionedMember i _ | RegisteredMember i _ _ => bool_decide (i = validator)
  end.
(** A validator has the stake 1, with or without a seat in the committee. *)
Fixpoint compute_beefy_stakes (vs : list BeefyId) (committee_members : list Member) : BeefyStakes :=
  match vs with
  | [] => []
  | validator :: rest =>
      match list_find (fun m => are_ids_equal m validator = true) committee_members with
      | Some (pos, _) => (validator, 1) :: compute_beefy_stakes rest (delete pos committee_members)
      | None => (validator, 1) :: compute_beefy_stakes rest committee_members
      end
  end.

Definition authority_leaf (stake : BeefyId * Z) : Bytes := fst stake ++ u64_to_le_bytes (snd stake).
Definition compute_authority_set (i : Z) (beefy_stakes : BeefyStakes) : BeefyAuthoritySet :=
  {| id := i; set_len := wrap 32 (len beefy_stakes); keyset_commitment := merkle_root (authority_leaf <$> beefy_stakes) |}.

Definition current_beefy_stakes (vs : option (list BeefyId)) (s : State) : BeefyStakes :=
  compute_beefy_stakes (default (Authorities s) vs) (current_committee s).
(** It writes the next set where there is none. *)
Definition next_beefy_stakes (vs : option (list BeefyId)) (s : State) : option BeefyStakes * State :=
  let beefy_stakes := compute_beefy_stakes (default (NextAuthorities s) vs) (queued_committee s) in
  let s' :=
    if bool_decide (keyset_commitment (BeefyNextAuthorities s) = replicate 32 0)
    then set_authorities (BeefyAuthorities s) (compute_authority_set (wrap 64 (BeefyValidatorSetId s + 1)) beefy_stakes) s
    else s in
  (Some beefy_stakes, s').
(** The sets' identifiers are those that [pallet_beefy_mmr] stores. *)
Definition compute_current_authority_set (beefy_stakes : BeefyStakes) (s : State) : BeefyAuthoritySet :=
  compute_authority_set (id (BeefyAuthorities s)) beefy_stakes.
Definition compute_next_authority_set (beefy_stakes : BeefyStakes) (s : State) : BeefyAuthoritySet :=
  compute_authority_set (id (BeefyNextAuthorities s)) beefy_stakes.

(** [AuthoritiesProvider] *)
Definition on_new_validator_set (validator_set next_validator_set : ValidatorSet) (s : State) : State :=
  let curr_authority_set := compute_authority_set (set_id validator_set) (current_beefy_stakes (Some (validators validator_set)) s) in
  let '(next, s) := next_beefy_stakes (Some (validators next_validator_set)) s in
  let s := match next with
           | Some stakes => set_authorities (BeefyAuthorities s) (compute_authority_set (set_id next_validator_set) stakes) s
           | None => s
           end in
  set_authorities curr_authority_set (BeefyNextAuthorities s) s.

(** ** The payload: [node/src/payload.rs] *)

Definition MMR_ROOT_ID : Bytes := [109; 104].
Definition CURRENT_BEEFY_STAKES_ID : Bytes := [99; 115].
Definition CURRENT_BEEFY_AUTHORITY_SET : Bytes := [99; 98].
Definition NEXT_BEEFY_STAKES_ID : Bytes := [110; 115].
Definition NEXT_BEEFY_AUTHORITY_SET : Bytes := [110; 98].

(** A call of the runtime's interface at a block can fail; what it writes is discarded. *)
Inductive ApiCall := MmrRoot | CurrentBeefyStakes | NextBeefyStakes | ComputeCurrentAuthoritySet | ComputeNextAuthoritySet.
Definition call {A} (available : ApiCall -> bool) (c : ApiCall) (result : A) : option A :=
  if available c then Some result else None.

Definition mmr_root_from_digest_or_runtime (available : ApiCall -> bool) (digest : option Bytes) (s : State) : option Bytes :=
  match digest with Some root => Some root | None => call available MmrRoot (mmr_root s) end.

Definition payload (available : ApiCall -> bool) (digest : option Bytes) (s : State) : option Payload :=
  root ← mmr_root_from_digest_or_runtime available digest s;
  current ← call available CurrentBeefyStakes (current_beefy_stakes None s);
  current_set ← call available ComputeCurrentAuthoritySet (compute_current_authority_set current s);
  let with_current :=
    push_raw (push_raw (from_single_entry MMR_ROOT_ID (encode_hash root)) CURRENT_BEEFY_STAKES_ID (encode_stakes current))
      CURRENT_BEEFY_AUTHORITY_SET (encode_set current_set) in
  match default None (call available NextBeefyStakes (fst (next_beefy_stakes None s))) with
  | Some next =>
      next_set ← call available ComputeNextAuthoritySet (compute_next_authority_set next s);
      Some (push_raw (push_raw with_current NEXT_BEEFY_STAKES_ID (encode_stakes next)) NEXT_BEEFY_AUTHORITY_SET (encode_set next_set))
  | None => Some with_current
  end.
End Runtime.
Arguments State Keys : clear implicits.

(** ** The relay: [relay/src] *)

Inductive RelayError :=
| RpcError
| NoMatchingSignature (n e : Z)
| InvalidAuthoritiesProofCreation
| MissingCurrentBeefyStakes | MissingCurrentAuthoritySet | MissingNextBeefyStakes | MissingNextAuthoritySet
| EmptyValidatorSet.

(** [pallas::ledger::primitives::PlutusData], as far as it is used: arrays are indefinite *)
Inductive PlutusData :=
| Constr (tag : Z) (fields : list PlutusData)
| Array (items : list PlutusData)
| BigInt (i : Z)
| BoundedBytes (b : Bytes).

Record BeefyStakesInfo := {
  current_stakes : BeefyStakes;
  current_authority_set : BeefyAuthoritySet;
  next_stakes : BeefyStakes;
  next_authority_set : BeefyAuthoritySet
}.
Record AuthoritiesProof := { root : Bytes; total_leaves : Z; proof : ProofNode }.
Record Vote := { signature : Bytes; authority_index : Z; public_key : Bytes }.
Record RelayPayload := { payload_id : Bytes; data : Bytes }.
Record Commitment := { payloads : list RelayPayload; block_number : Z; validator_set_id : Z }.
Record SignedCommitment := { commitment : Commitment; votes : list Vote }.
Record RelayChainProof := { signed_commitment : SignedCommitment; authorities_proof : AuthoritiesProof }.

Section Relay.
Context `{!BeefyPayload, !BeefyCrates}.

(** [TryFrom<&Payload> for BeefyStakesInfo] *)
Definition stakes_info (p : Payload) : outcome RelayError BeefyStakesInfo :=
  let! cs := some_or (get_raw p CURRENT_BEEFY_STAKES_ID ≫= decode_stakes) MissingCurrentBeefyStakes in
  let! cb := some_or (get_raw p CURRENT_BEEFY_AUTHORITY_SET ≫= decode_set) MissingCurrentAuthoritySet in
  let! ns := some_or (get_raw p NEXT_BEEFY_STAKES_ID ≫= decode_stakes) MissingNextBeefyStakes in
  let! nb := some_or (get_raw p NEXT_BEEFY_AUTHORITY_SET ≫= decode_set) MissingNextAuthoritySet in
  Ok {| current_stakes := cs; current_authority_set := cb; next_stakes := ns; next_authority_set := nb |}.

(** *** [authorities.rs] *)

Definition prep_leaf_hash (beefy_stake : BeefyId * Z) : Bytes :=
  keccak_256 (fst beefy_stake ++ u64_to_le_bytes (snd beefy_stake)).
Definition prep_merkle_leaves (beefy_stakes : BeefyStakes) : list Bytes := prep_leaf_hash <$> beefy_stakes.

(** The positions that have a signature *)
Fixpoint signed_positions (index : nat) (sigs : list (option Bytes)) : list nat :=
  match sigs with
  | [] => []
  | Some _ :: rest => index :: signed_positions (S index) rest
  | None :: rest => signed_positions (S index) rest
  end.
(** The signatures that were found valid are not looked at. *)
Definition collect_signature_indices (c : BeefySignedCommitment) (vs : ValidatorSet) : outcome RelayError (list nat) :=
  let n := beefy_block_number (beefy_commitment c) in
  let! _ := map_err (NoMatchingSignature n) (verify_signatures c n vs) in
  Ok (signed_positions 0 (signatures c)).

(** [AuthoritiesProof::try_new] *)
Definition try_new (c : BeefySignedCommitment) (vs : ValidatorSet) : outcome RelayError AuthoritiesProof :=
  let! sig_indices := collect_signature_indices c vs in
  let! info := stakes_info (payload_of (beefy_commitment c)) in
  let keccak_hashes := prep_merkle_leaves (current_stakes info) in
  let! root := some_or (tree_root keccak_hashes) InvalidAuthoritiesProofCreation in
  Ok {| root := root; total_leaves := wrap 32 (len (validators vs)); proof := ordered_proof_tree keccak_hashes sig_indices |}.

(** *** [cardano_encoding.rs] *)

(** [signature.pop()]: without the byte that Substrate appends *)
Definition vote_of (index : nat) (sig : option Bytes) (pk : BeefyId) : option Vote :=
  match sig with
  | Some sig => Some {| signature := removelast sig; authority_index := Z.of_nat index; public_key := pk |}
  | None => None
  end.
Fixpoint votes_from (index : nat) (sigs : list (option Bytes)) (pks : list BeefyId) : list Vote :=
  match sigs, pks with
  | sig :: sigs', pk :: pks' => option_list (vote_of index sig pk) ++ votes_from (S index) sigs' pks'
  | _, _ => []
  end.
Definition from_signed_commitment_and_validators (c : BeefySignedCommitment) (pks : list BeefyId) : SignedCommitment :=
  {| commitment := {| payloads := (fun d => {| payload_id := MMR_ROOT_ID; data := d |}) <$> get_all_raw (payload_of (beefy_commitment c)) MMR_ROOT_ID;
                      block_number := beefy_block_number (beefy_commitment c);
                      validator_set_id := beefy_validator_set_id (beefy_commitment c) |};
     votes := votes_from 0 (signatures c) pks |}.

(** [RelayChainProof::generate] *)
Definition generate (c : BeefySignedCommitment) (vs : ValidatorSet) : outcome RelayError RelayChainProof :=
  let! p := try_new c vs in
  Ok {| signed_commitment := from_signed_commitment_and_validators c (validators vs); authorities_proof := p |}.

(** [ToPlutusData] *)
Definition TAG : Z := 121.
(** [x as i64] of a [usize] *)
Definition as_i64 (x : Z) : Z := if x <? 2 ^ 63 then x else x - 2 ^ 64.
Definition vote_to_plutus_data (v : Vote) : PlutusData :=
  Constr TAG [BoundedBytes (signature v); BigInt (as_i64 (authority_index v)); BoundedBytes (public_key v)].
Definition payload_to_plutus_data (p : RelayPayload) : PlutusData :=
  Constr TAG [BoundedBytes (payload_id p); BoundedBytes (data p)].
Definition commitment_to_plutus_data (c : Commitment) : PlutusData :=
  Constr TAG [Array (payload_to_plutus_data <$> payloads c); BigInt (as_i64 (block_number c)); BigInt (as_i64 (validator_set_id c))].
Definition signed_to_plutus_data (c : SignedCommitment) : PlutusData :=
  Constr TAG [commitment_to_plutus_data (commitment c); Array (vote_to_plutus_data <$> votes c)].
Fixpoint proof_node_to_plutus_data (p : ProofNode) : PlutusData :=
  match p with
  | Leaf hash => BoundedBytes hash
  | Node nodes => Array (map proof_node_to_plutus_data nodes)
  end.
Definition authorities_to_plutus_data (p : AuthoritiesProof) : PlutusData :=
  Constr TAG [BoundedBytes (root p); BigInt (as_i64 (total_leaves p)); proof_node_to_plutus_data (proof p)].
Definition to_plutus_data (p : RelayChainProof) : PlutusData :=
  Constr TAG [signed_to_plutus_data (signed_commitment p); authorities_to_plutus_data (authorities_proof p)].

(** *** [relayer.rs] *)

(** What the relay asks of a node: the best block, the hash of a block, and the validators
    at a block or at the best one *)
Record Rpc := {
  get_best_block_number : option Z;
  get_block_hash : Z -> option Bytes;
  validator_set : option Bytes -> outcome RelayError (option ValidatorSet)
}.
Definition choose_params (rpc : Rpc) (c : BeefySignedCommitment) : option Z * option Bytes :=
  let best_block := get_best_block_number rpc in
  (best_block, match best_block with
               | None => get_block_hash rpc (beefy_block_number (beefy_commitment c))
               | Some _ => None
               end).
(** [ValidatorSet::new] refuses an empty set, and the conversion panics. *)
Definition get_beefy_validator_set (rpc : Rpc) (at_block_hash : option Bytes) : outcome RelayError ValidatorSet :=
  let! v := validator_set rpc at_block_hash in
  let! v := some_or v EmptyValidatorSet in
  if bool_decide (validators v = []) then Panic else Ok v.
Definition handle_justification_stream_data (rpc : Rpc) (c : BeefySignedCommitment) : outcome RelayError PlutusData :=
  let! vs := get_beefy_validator_set rpc (snd (choose_params rpc c)) in
  let! relay_chain_proof := generate c vs in
  Ok (to_plutus_data relay_chain_proof).
End Relay.

(** ** Lemmas *)

Section Lemmas.
Context `{!BeefyPayload, !BeefyCrates, !BeefyLaws} {Keys : Type}.
#[local] Notation State := (State Keys).

Definition staked (vs : list BeefyId) : BeefyStakes := (fun v => (v, 1)) <$> vs.
Lemma stakes_are_one vs (cm : list (CommitteeMember Bytes Keys)) : compute_beefy_stakes vs cm = staked vs.
Proof. revert cm. induction vs as [|v vs IH]; intros cm; [done|]. simpl. destruct (list_find _ cm) as [[]|]; simpl; by rewrite IH. Qed.

Lemma get_pushed p k v i b : get_all_raw p i = b -> i <> k -> length b = 1%nat -> get_all_raw (push_raw p k v) i = b.
Proof.
  intros Hp Hi Hb. destruct b as [|x [|]]; [done| |done]. apply Permutation_singleton_r. by rewrite pushed_entry, Hp, decide_False.
Qed.
Lemma get_own p k v : get_all_raw p k = [] -> get_all_raw (push_raw p k v) k = [v].
Proof. intros Hp. apply Permutation_singleton_r. by rewrite pushed_entry, Hp, decide_True. Qed.
Lemma get_absent p k v i : get_all_raw p i = [] -> i <> k -> get_all_raw (push_raw p k v) i = [].
Proof. intros Hp Hi. apply Permutation_nil_r. by rewrite pushed_entry, Hp, decide_False. Qed.

(** What the relay reads from the payload of a block *)
Lemma payload_read available digest (s : State) p :
  payload available digest s = Some p -> available NextBeefyStakes = true ->
  (exists r, mmr_root_from_digest_or_runtime available digest s = Some r /\ get_all_raw p MMR_ROOT_ID = [encode_hash r]) /\
  stakes_info p = Ok {| current_stakes := staked (Authorities s);
                        current_authority_set := compute_current_authority_set (staked (Authorities s)) s;
                        next_stakes := staked (NextAuthorities s);
                        next_authority_set := compute_next_authority_set (staked (NextAuthorities s)) s |}.
Proof.
  unfold payload, next_beefy_stakes, current_beefy_stakes. rewrite !stakes_are_one. cbn [default fst].
  intros Hp Hn. destruct (mmr_root_from_digest_or_runtime available digest s) as [r|]; [|done]. simpl in Hp.
  unfold call in Hp. rewrite Hn in Hp. destruct (available CurrentBeefyStakes); [|done]. simpl in Hp.
  destruct (available ComputeCurrentAuthoritySet); [|done]. simpl in Hp.
  destruct (available ComputeNextAuthoritySet); [|done]. simpl in Hp. injection Hp as <-.
  assert (forall i, i <> MMR_ROOT_ID -> get_all_raw (from_single_entry MMR_ROOT_ID (encode_hash r)) i = []) as Habs
    by (intros i Hi; by rewrite single_entry, decide_False).
  split.
  - exists r. split; [done|]. repeat (apply get_pushed; [|done..]). by rewrite single_entry, decide_True.
  - unfold stakes_info.
    rewrite (unique_entry _ CURRENT_BEEFY_STAKES_ID (encode_stakes (staked (Authorities s))))
      by (do 3 (apply get_pushed; [|done..]); apply get_own, Habs; done).
    rewrite (unique_entry _ CURRENT_BEEFY_AUTHORITY_SET (encode_set (compute_current_authority_set (staked (Authorities s)) s)))
      by (do 2 (apply get_pushed; [|done..]); apply get_own, get_absent; [by apply Habs|done]).
    rewrite (unique_entry _ NEXT_BEEFY_STAKES_ID (encode_stakes (staked (NextAuthorities s))))
      by (apply get_pushed; [|done..]; apply get_own; do 2 (apply get_absent; [|done]); by apply Habs).
    rewrite (unique_entry _ NEXT_BEEFY_AUTHORITY_SET (encode_set (compute_next_authority_set (staked (NextAuthorities s)) s)))
      by (apply get_own; do 3 (apply get_absent; [|done]); by apply Habs).
    simpl. by rewrite !stakes_roundtrip, !set_roundtrip.
Qed.

(** Both sides hash the same leaves. *)
Lemma leaves_agree stakes : prep_merkle_leaves stakes = keccak_256 <$> (authority_leaf <$> stakes).
Proof. unfold prep_merkle_leaves. by rewrite <-list_fmap_compose. Qed.
Lemma roots_agree i stakes : stakes <> [] ->
  tree_root (prep_merkle_leaves stakes) = Some (keyset_commitment (compute_authority_set i stakes)).
Proof.
  intros Hne. rewrite leaves_agree. simpl. rewrite merkle_root_shape. destruct stakes as [|x stakes]; [done|]. apply tree_root_shape.
Qed.

Lemma votes_indices n sigs pks : length sigs = length pks ->
  (fun v => Z.to_nat (authority_index v)) <$> votes_from n sigs pks = signed_positions n sigs.
Proof.
  revert n pks. induction sigs as [|[sig|] sigs IH]; intros n [|pk pks] Hl; simpl in *; try done.
  - rewrite Nat2Z.id. f_equal. apply IH. lia.
  - apply IH. lia.
Qed.
Lemma votes_signed n sigs pks v : v ∈ votes_from n sigs pks -> exists i sig, authority_index v = Z.of_nat (n + i) /\
  sigs !! i = Some (Some sig) /\ signature v = removelast sig /\ pks !! i = Some (public_key v).
Proof.
  revert n pks. induction sigs as [|sig sigs IH]; intros n [|pk pks]; simpl; try by intros ?%not_elem_of_nil.
  intros [Hv|Hv]%elem_of_app.
  - destruct sig as [sig|]; [|by apply not_elem_of_nil in Hv]. apply list_elem_of_singleton in Hv as ->.
    exists 0%nat, sig. simpl. split_and!; [f_equal; lia|done..].
  - destruct (IH _ _ Hv) as (i & sg & Hi & H'). exists (S i), sg. split; [rewrite Hi; f_equal; lia|done].
Qed.
End Lemmas.

(** ** The relay and the chain *)

Section Theorems.
Context `{!BeefyPayload, !BeefyCrates, !BeefyLaws} {Keys : Type}.
#[local] Notation State := (State Keys).

(** A vote of the proof: the signature and the key at its index, and the leaf of that key *)
Definition vote_ok (sigs : list (option Bytes)) (vs : list BeefyId) (v : Vote) : Prop :=
  exists i sig, authority_index v = Z.of_nat i /\ sigs !! i = Some (Some sig) /\ signature v = removelast sig /\
    vs !! i = Some (public_key v) /\
    prep_merkle_leaves (staked vs) !! i = Some (keccak_256 (authority_leaf (public_key v, 1))).

(** C20: for a commitment to the payload of a block, with signatures that belong to the
    validators of that block, the relay makes a proof.  Its root and its size are those of
    the authority set that the runtime computes for the block and the payload carries; it
    opens the leaves of exactly the validators that vote, and each vote has the signature and
    the key of its index, whose leaf is in the tree. *)
Theorem relay_proof_matches_chain available digest (s : State) p c vs known :
  payload available digest s = Some p -> available NextBeefyStakes = true ->
  payload_of (beefy_commitment c) = p -> validators vs = Authorities s -> Authorities s <> [] ->
  verify_signatures c (beefy_block_number (beefy_commitment c)) vs = Ok known ->
  let set := compute_current_authority_set (current_beefy_stakes None s) s in
  exists r info, generate c vs = Ok r /\ stakes_info p = Ok info /\ current_authority_set info = set /\
    root (authorities_proof r) = keyset_commitment set /\ total_leaves (authorities_proof r) = set_len set /\
    proof (authorities_proof r) = ordered_proof_tree (prep_merkle_leaves (staked (Authorities s)))
      ((fun v => Z.to_nat (authority_index v)) <$> votes (signed_commitment r)) /\
    Forall (vote_ok (signatures c) (Authorities s)) (votes (signed_commitment r)).
Proof.
  intros Hp Hn Hc Hvs Hne Hver. cbv zeta. unfold current_beefy_stakes. rewrite stakes_are_one. cbn [default].
  destruct (payload_read available digest s p Hp Hn) as [_ Hi].
  destruct (verified_in_set _ _ _ _ Hver) as [Hl _].
  assert (staked (Authorities s) <> []) as Hst by (by destruct (Authorities s)).
  unfold generate, try_new, collect_signature_indices. rewrite Hver, Hc, Hi. simpl.
  rewrite (roots_agree (id (BeefyAuthorities s)) _ Hst). simpl. eexists _, _.
  split_and!; [reflexivity|reflexivity|done|done| | |]; simpl.
  - rewrite Hvs. unfold staked, len. by rewrite length_fmap.
  - by rewrite votes_indices.
  - apply Forall_forall. intros v Hv%votes_signed. destruct Hv as (i & sig & Hx & Hs & Hsig & Hpk). rewrite Hvs in Hpk.
    exists i, sig. split_and!; [done..|]. unfold prep_merkle_leaves, staked. by rewrite !list_lookup_fmap, Hpk.
Qed.

(** Where [AuthoritiesProvider] is told of a new validator set, the sets of the payload are
    the ones that the chain stores. *)
Theorem stored_sets_match_payload vs next_vs (s : State) :
  validators vs = Authorities s -> validators next_vs = NextAuthorities s ->
  let s' := on_new_validator_set vs next_vs s in
  compute_current_authority_set (current_beefy_stakes None s') s' = BeefyAuthorities s' /\
  compute_next_authority_set (staked (NextAuthorities s')) s' = BeefyNextAuthorities s' /\
  id (BeefyAuthorities s') = set_id vs /\ id (BeefyNextAuthorities s') = set_id next_vs.
Proof.
  intros Hv Hn. cbv zeta. unfold on_new_validator_set, next_beefy_stakes, current_beefy_stakes. rewrite !stakes_are_one.
  cbn [default]. rewrite Hv, Hn. by case_bool_decide.
Qed.

(** Every signature is relayed, whether it was found valid or not. *)
Lemma invalid_signatures_are_relayed c vs r i sig pk :
  generate c vs = Ok r ->
  signatures c !! i = Some (Some sig) -> validators vs !! i = Some pk ->
  {| signature := removelast sig; authority_index := Z.of_nat i; public_key := pk |} ∈ votes (signed_commitment r).
Proof.
  intros Hg Hs Hp. unfold generate in Hg. destruct (try_new c vs) as [p| |]; simpl in Hg; [|done..]. injection Hg as <-. simpl.
  assert (forall n sigs pks, sigs !! i = Some (Some sig) -> pks !! i = Some pk ->
    {| signature := removelast sig; authority_index := Z.of_nat (n + i); public_key := pk |} ∈ votes_from n sigs pks) as Hgen;
    [|by apply (Hgen 0%nat)].
  clear. induction i as [|i IH]; intros n [|x sigs] [|y pks] Hs Hp; try done; simpl in *.
  - simplify_eq/=. rewrite Nat.add_0_r. left.
  - apply elem_of_app. right. rewrite <-Nat.add_succ_comm. by apply IH.
Qed.
End Theorems.

(** ** The encoding for Cardano *)

Lemma as_i64_inj x y : 0 <= x < 2 ^ 64 -> 0 <= y < 2 ^ 64 -> as_i64 x = as_i64 y -> x = y.
Proof. unfold as_i64. intros Hx Hy. destruct (Z.ltb_spec x (2 ^ 63)), (Z.ltb_spec y (2 ^ 63)); lia. Qed.

Lemma fmap_inj_in {A B} (f : A -> B) (P : A -> Prop) l1 l2 :
  (forall x y, P x -> P y -> f x = f y -> x = y) -> Forall P l1 -> Forall P l2 -> f <$> l1 = f <$> l2 -> l1 = l2.
Proof.
  intros Hf H1. revert l2. induction H1 as [|x l1 Hx H1 IH]; intros [|y l2] H2 E; try done.
  apply Forall_cons in H2 as [Hy H2]. simpl in E. injection E as E1 E2. f_equal; auto.
Qed.

Fixpoint node_size (p : ProofNode) : nat :=
  match p with Leaf _ => 1%nat | Node nodes => S (sum_list (map node_size nodes)) end.
Lemma proof_node_inj p1 p2 : proof_node_to_plutus_data p1 = proof_node_to_plutus_data p2 -> p1 = p2.
Proof.
  remember (node_size p1) as n eqn:En. revert p1 p2 En. induction n as [n IH] using lt_wf_ind.
  intros [h1|l1] [h2|l2] En; simpl; try done; [by intros [= ->]|]. intros [= E]. f_equal.
  assert (forall p, p ∈ l1 -> (node_size p < n)%nat) as Hs.
  { subst n. simpl. intros p Hp. clear -Hp. induction l1 as [|q l1 IH]; [by apply not_elem_of_nil in Hp|]. simpl.
    apply elem_of_cons in Hp as [->|Hp]; [lia|]. specialize (IH Hp). lia. }
  clear En. revert l2 E. induction l1 as [|q l1 IHl]; intros [|q2 l2] E; try done. simpl in E. injection E as E1 E2.
  f_equal; [by eapply IH; [apply Hs; left|..]|]. apply IHl; [|done]. intros p Hp. apply Hs. by right.
Qed.

(** The integers of a proof are machine words. *)
Definition in_words (r : RelayChainProof) : Prop :=
  Forall (fun v => 0 <= authority_index v < 2 ^ 64) (votes (signed_commitment r)) /\
  0 <= block_number (commitment (signed_commitment r)) < 2 ^ 64 /\
  0 <= validator_set_id (commitment (signed_commitment r)) < 2 ^ 64 /\
  0 <= total_leaves (authorities_proof r) < 2 ^ 64.

(** The data that the relay writes for Cardano determines the commitment, the votes
    and the proof of the authorities. *)
Theorem relay_data_unambiguous r1 r2 : in_words r1 -> in_words r2 -> to_plutus_data r1 = to_plutus_data r2 -> r1 = r2.
Proof.
  destruct r1 as [[[ps1 n1 i1] vs1] [rt1 t1 p1]], r2 as [[[ps2 n2 i2] vs2] [rt2 t2 p2]].
  intros (Hv1 & Hn1 & Hi1 & Ht1) (Hv2 & Hn2 & Hi2 & Ht2). simpl in *.
  unfold to_plutus_data, signed_to_plutus_data, commitment_to_plutus_data, authorities_to_plutus_data. cbn -[as_i64 Z.pow].
  intros E. injection E as Eps En Ei Evs -> Et Ep%proof_node_inj. subst p2.
  apply as_i64_inj in En as ->; [|done..]. apply as_i64_inj in Ei as ->; [|done..]. apply as_i64_inj in Et as ->; [|done..].
  assert (vs1 = vs2) as ->.
  { eapply (fmap_inj_in vote_to_plutus_data); [|exact Hv1|exact Hv2|exact Evs]. intros [s1 a1 k1] [s2 a2 k2] Ha1 Ha2 E.
    unfold vote_to_plutus_data in E. cbn -[as_i64] in E. injection E as -> Ea ->. by apply as_i64_inj in Ea as ->. }
  assert (ps1 = ps2) as ->; [|done].
  eapply (fmap_inj_in payload_to_plutus_data (fun _ => True)); [|by apply Forall_true..|exact Eps]. intros [] [] _ _ [= -> ->]. done.
Qed.

(** ** A small chain: two validators, of which the second signs *)

Module BeefyExample.
Fixpoint take_stakes (n : nat) (b : Bytes) : option BeefyStakes :=
  match n with
  | O => Some []
  | S n =>
      match b with
      | k :: rest =>
          let k := Z.to_nat k in
          match drop k rest with
          | stake :: rest' => (cons (take k rest, stake)) <$> take_stakes n rest'
          | [] => None
          end
      | [] => None
      end
  end.
Fixpoint write_stakes (l : BeefyStakes) : Bytes :=
  match l with [] => [] | (v, x) :: rest => len v :: v ++ x :: write_stakes rest end.

#[export] Instance payload_list : BeefyPayload := {
  Payload := list (Bytes * Bytes);
  from_single_entry k v := [(k, v)];
  push_raw p k v := p ++ [(k, v)];
  get_raw p i := snd <$> head (filter (fun x => fst x = i) p);
  get_all_raw p i := snd <$> filter (fun x => fst x = i) p
}.
(** A hash that keeps everything; a signature is valid if it ends in 1 *)
#[export] Instance crates : BeefyCrates := {
  keccak_256 b := b;
  merkle_root data := reference_root (fun b => b) data;
  tree_root hashes := match hashes with [] => None | _ => Some (reference_root (fun b => b) hashes) end;
  ordered_proof_tree hashes indices := Node (Leaf <$> omap (fun i => hashes !! i) indices);
  encode_stakes l := len l :: write_stakes l;
  decode_stakes b := match b with n :: rest => take_stakes (Z.to_nat n) rest | [] => None end;
  encode_set x := id x :: set_len x :: keyset_commitment x;
  decode_set b := match b with i :: n :: rest => Some {| id := i; set_len := n; keyset_commitment := rest |} | _ => None end;
  encode_hash b := b;
  verify_signatures c n vs :=
    if bool_decide (length (signatures c) = length (validators vs)) && (beefy_validator_set_id (beefy_commitment c) =? set_id vs)
    then Ok (omap (fun '(v, sig) => match sig with Some s => if bool_decide (last s = Some 1) then Some (v, s) else None | None => None end)
               (zip (validators vs) (signatures c)))
    else Err 0
}.

Lemma take_written (l : BeefyStakes) : take_stakes (length l) (write_stakes l) = Some l.
Proof.
  induction l as [|[v x] l IH]; [done|]. cbn [length take_stakes write_stakes].
  unfold len. cbv zeta. rewrite Nat2Z.id, drop_app_length, take_app_length, IH. done.
Qed.

Lemma head_of_one (l : list (Bytes * Bytes)) v : snd <$> l = [v] -> snd <$> head l = Some v.
Proof. destruct l as [|x l]; [done|]. by intros [= <- _]. Qed.

#[export] Instance beefy_laws : BeefyLaws.
Proof.
  split.
  - intros k v i. cbn [get_all_raw from_single_entry payload_list]. rewrite filter_cons, filter_nil. by repeat case_decide; simplify_eq/=.
  - intros p k v i. cbn [get_all_raw push_raw payload_list]. rewrite filter_app, fmap_app, (filter_cons _ (k, v) []), filter_nil.
    repeat case_decide; simplify_eq/=; [|by rewrite app_nil_r]. symmetry. apply Permutation_cons_append.
  - intros p i v. apply head_of_one.
  - intros l. simpl. unfold len. rewrite Nat2Z.id. apply take_written.
  - by intros [].
  - intros data. simpl. by rewrite list_fmap_id.
  - done.
  - intros c n vs known. simpl. case_bool_decide; [|done]. simpl. destruct (Z.eqb_spec (beefy_validator_set_id (beefy_commitment c)) (set_id vs)); done.
Qed.

Definition s0 : State unit :=
  {| Authorities := [[2; 1]; [2; 2]]; NextAuthorities := [[2; 2]; [2; 3]]; BeefyValidatorSetId := 4;
     BeefyAuthorities := {| id := 4; set_len := 2; keyset_commitment := replicate 32 1 |};
     BeefyNextAuthorities := {| id := 5; set_len := 2; keyset_commitment := replicate 32 1 |};
     mmr_root := replicate 32 8; current_committee := [PermissionedMember [2; 1] tt; RegisteredMember [2; 2] tt []]; queued_committee := [] |}.
Definition all_calls : ApiCall -> bool := fun _ => true.
Definition p0 : Payload := default (from_single_entry [] []) (payload all_calls None s0).
Definition c0 : BeefySignedCommitment :=
  {| beefy_commitment := {| payload_of := p0; beefy_block_number := 90; beefy_validator_set_id := 4 |}; signatures := [None; Some [7; 7; 1]] |}.
Definition vs0 : ValidatorSet := {| validators := [[2; 1]; [2; 2]]; set_id := 4 |}.
Definition relayed : RelayChainProof :=
  {| signed_commitment :=
       {| commitment := {| payloads := [{| payload_id := MMR_ROOT_ID; data := replicate 32 8 |}]; block_number := 90; validator_set_id := 4 |};
          votes := [{| signature := [7; 7]; authority_index := 1; public_key := [2; 2] |}] |};
     authorities_proof :=
       {| root := [2; 1; 1; 0; 0; 0; 0; 0; 0; 0; 2; 2; 1; 0; 0; 0; 0; 0; 0; 0]; total_leaves := 2;
          proof := Node [Leaf [2; 2; 1; 0; 0; 0; 0; 0; 0; 0]] |} |}.
Lemma relayed_in_words : in_words relayed.
Proof. split_and!; simpl; [|lia..]. apply Forall_singleton. simpl. lia. Qed.
Definition generated : RelayChainProof := match generate c0 vs0 with Ok r => r | _ => relayed end.
Lemma generated_in_words : in_words generated.
Proof.
  assert (generated = relayed) as -> by (vm_compute; reflexivity). exact relayed_in_words.
Qed.
End BeefyExample.

Import BeefyExample.

Lemma relay_proof_matches_chain_witness : exists r, generate c0 vs0 = Ok r /\
  root (authorities_proof r) = keyset_commitment (compute_current_authority_set (current_beefy_stakes None s0) s0).
Proof.
  destruct (relay_proof_matches_chain all_calls None s0 p0 c0 vs0 [([2; 2], [7; 7; 1])]) as (r & info & Hg & _ & _ & Hr & _).
  - vm_compute. reflexivity.
  - reflexivity.
  - reflexivity.
  - reflexivity.
  - discriminate.
  - vm_compute. reflexivity.
  - exists r. split; [exact Hg|exact Hr].
Defined.

Lemma relay_data_unambiguous_witness : generated = relayed.
Proof. apply relay_data_unambiguous; [exact generated_in_words|exact relayed_in_words|vm_compute; reflexivity]. Defined.
