(* ===== verification/FilteringPool.v ===== *)
(** * The transaction pool's filter

    Models [src/node/src/filtering_pool.rs]: a pool that passes on to the pool of the client
    what its policy allows.  A Midnight transaction is decoded with the runtime's interface,
    which is [get_decoded_transaction] of [LedgerBridge]; the pool inside and the decoding of
    extrinsics are parameters.

    The theorem: with the filter on, no transaction reaches the pool inside that deploys or
    maintains a contract in any of its segments, and every other transaction that decodes does. *)

From S2P Require Import Prelude LedgerErrors LedgerApi LedgerBridge.

Record TxFilterConfig := { enabled : bool; deny_deploy : bool; deny_maintain : bool }.
(** [TxFilterConfig::enabled] and [disabled] *)
Definition filter_enabled : TxFilterConfig := {| enabled := true; deny_deploy := true; deny_maintain := true |}.
Definition filter_disabled : TxFilterConfig := {| enabled := false; deny_deploy := false; deny_maintain := false |}.

(** What the filter tells apart *)
Inductive RuntimeCall := SendMnTransaction (midnight_tx : Bytes) | OtherCall.

Section Pool.
Context `{!LedgerTypes, !MnLedger}.
Context {Xt Hash BlockHash PoolError Watcher Inner : Type}.
(** [UncheckedExtrinsic::decode], and whether the runtime's interface answers at a block *)
Context (decode_xt : Xt -> option RuntimeCall) (api_answers : BlockHash -> bool).
Context (ImmediatelyDropped : PoolError).
(** The pool inside *)
Context (inner_submit_at : BlockHash -> list Xt -> Inner -> outcome PoolError (list (outcome PoolError Hash)) * Inner).
Context (inner_submit_one : BlockHash -> Xt -> Inner -> outcome PoolError Hash * Inner).
Context (inner_submit_and_watch : BlockHash -> Xt -> Inner -> outcome PoolError Watcher * Inner).
Context (inner_submit_local : BlockHash -> Xt -> Inner -> outcome PoolError Hash * Inner).
Context (config : TxFilterConfig).

Definition is_forbidden_tx (tx : Tx) : bool :=
  existsb (fun operation => match operation with
                            | OpDeploy _ => deny_deploy config
                            | OpMaintain _ => deny_maintain config
                            | OpCall _ _ | OpClaimRewards _ | OpClaimBridgeTransfer _ => false
                            end) (operations tx).

Definition should_accept_extrinsic (at_block : BlockHash) (xt : Xt) : bool :=
  if negb (enabled config) then true
  else match decode_xt xt with
       | None => true
       | Some (SendMnTransaction midnight_tx) =>
           if api_answers at_block then
             match get_decoded_transaction midnight_tx with
             | Ok decoded_tx => negb (is_forbidden_tx decoded_tx)
             | _ => false
             end
           else false
       | Some OtherCall => true
       end.

Definition submit_at (at_block : BlockHash) (xts : list Xt) (p : Inner) : outcome PoolError (list (outcome PoolError Hash)) * Inner :=
  inner_submit_at at_block (List.filter (should_accept_extrinsic at_block) xts) p.
Definition submit_one (at_block : BlockHash) (xt : Xt) (p : Inner) : outcome PoolError Hash * Inner :=
  if should_accept_extrinsic at_block xt then inner_submit_one at_block xt p else (Err ImmediatelyDropped, p).
Definition submit_and_watch (at_block : BlockHash) (xt : Xt) (p : Inner) : outcome PoolError Watcher * Inner :=
  if should_accept_extrinsic at_block xt then inner_submit_and_watch at_block xt p else (Err ImmediatelyDropped, p).
Definition submit_local (at_block : BlockHash) (xt : Xt) (p : Inner) : outcome PoolError Hash * Inner :=
  if should_accept_extrinsic at_block xt then inner_submit_local at_block xt p else (Err ImmediatelyDropped, p).

(** ** What reaches the pool inside *)

Inductive Submission :=
| SubmitAt (at_block : BlockHash) (xts : list Xt)
| SubmitOne (at_block : BlockHash) (xt : Xt)
| SubmitAndWatch (at_block : BlockHash) (xt : Xt)
| SubmitLocal (at_block : BlockHash) (xt : Xt).
Definition submit (r : Submission) (p : Inner) : Inner :=
  match r with
  | SubmitAt b xts => snd (submit_at b xts p)
  | SubmitOne b xt => snd (submit_one b xt p)
  | SubmitAndWatch b xt => snd (submit_and_watch b xt p)
  | SubmitLocal b xt => snd (submit_local b xt p)
  end.

(** The contract actions that the policy denies, in any segment *)
Definition denied_action (a : ContractAction) : bool :=
  match a with Deploy _ => deny_deploy config | Maintain _ _ => deny_maintain config | LedgerApi.Call _ _ => false end.
Definition clean (tx : Transaction) : Prop :=
  match tx with
  | Standard tx => forall segment a, (segment, a) ∈ actions tx -> denied_action a = false
  | ClaimRewards _ => True
  end.
(** An extrinsic that the policy lets through *)
Definition allowed (xt : Xt) : Prop :=
  forall midnight_tx, decode_xt xt = Some (SendMnTransaction midnight_tx) ->
  exists tx old, versioned_deserialize midnight_tx = Some (tx, old) /\ clean tx.

Lemma collect_ok_forbids ops decoded : collect_ok decoded_operation ops = Ok decoded ->
  existsb (fun operation => match operation with OpDeploy _ => deny_deploy config | OpMaintain _ => deny_maintain config | _ => false end) decoded =
  existsb (fun operation => match operation with OperationDeploy _ => deny_deploy config | OperationMaintain _ => deny_maintain config | _ => false end) ops.
Proof.
  revert decoded. induction ops as [|op ops IH]; intros decoded E; simpl in E; [by injection E as <-|].
  destruct (decoded_operation op) as [o| |] eqn:Eo; [|done..]. simpl in E.
  destruct (collect_ok decoded_operation ops) as [os| |]; [|done..]. simpl in E. injection E as <-. simpl. rewrite (IH os eq_refl).
  f_equal. unfold decoded_operation in Eo. destruct op as [a e|a|a|v|v]; simpl in Eo; try (by injection Eo as <-);
    destruct (serialize_address a); simpl in Eo; simplify_eq; done.
Qed.

Lemma denied_none tx : existsb (fun operation => match operation with OperationDeploy _ => deny_deploy config
    | OperationMaintain _ => deny_maintain config | _ => false end) (calls_and_deploys None tx) = false <-> clean tx.
Proof.
  destruct tx as [tx|c]; simpl; [|by destruct (c_kind c)]. induction (actions tx) as [|[seg a] l IH]; simpl.
  - split; [|done]. intros _ segment a Ha. by apply not_elem_of_nil in Ha.
  - rewrite orb_false_iff, IH. assert (match operation_of a with OperationDeploy _ => deny_deploy config
      | OperationMaintain _ => deny_maintain config | _ => false end = denied_action a) as -> by (by destruct a). split.
    + intros [Ha Hl] s b [[= -> ->]|Hb]%elem_of_cons; eauto.
    + intros Hall. split; [eapply Hall; by left|]. intros s b Hb. eapply Hall. by right.
Qed.

Lemma accepted_is_allowed b xt : enabled config = true -> should_accept_extrinsic b xt = true -> allowed xt.
Proof.
  intros He Ha midnight_tx Hx. unfold should_accept_extrinsic in Ha. rewrite He, Hx in Ha. simpl in Ha.
  destruct (api_answers b); [|done]. unfold get_decoded_transaction, decode_versioned in Ha.
  destruct (versioned_deserialize midnight_tx) as [[tx old]|] eqn:Ev; simpl in Ha; [|done].
  destruct (collect_ok decoded_operation _) as [ops| |] eqn:Eo; simpl in Ha; [|done..].
  destruct (collect_ok _ (transaction_identifiers tx)) as [ids| |]; simpl in Ha; [|done..].
  exists tx, old. split; [done|]. apply denied_none. rewrite <-(collect_ok_forbids _ _ Eo). by apply negb_true_iff in Ha.
Qed.

(** With the filter on, a pool whose operations keep a property for extrinsics that the
    policy allows keeps it for all extrinsics: nothing else reaches it, over any sequence of
    submissions. *)
Theorem filtered_pool_keeps (I : Inner -> Prop) rs p : enabled config = true ->
  (forall b xts q, Forall allowed xts -> I q -> I (snd (inner_submit_at b xts q))) ->
  (forall b xt q, allowed xt -> I q -> I (snd (inner_submit_one b xt q)) /\ I (snd (inner_submit_and_watch b xt q)) /\
     I (snd (inner_submit_local b xt q))) ->
  I p -> I (foldl (fun q r => submit r q) p rs).
Proof.
  intros He Hat Hone. revert p. induction rs as [|r rs IH]; intros p Hp; [done|]. simpl. apply IH.
  assert (forall b xt, should_accept_extrinsic b xt = true -> allowed xt) as Hal by (intros; by eapply accepted_is_allowed).
  destruct r as [b xts|b xt|b xt|b xt]; simpl.
  - apply Hat; [|done]. apply Forall_forall. intros xt Hxt. rewrite list_elem_of_In, filter_In in Hxt. by eapply Hal, Hxt.
  - unfold submit_one. destruct (should_accept_extrinsic b xt) eqn:E; [|done]. by destruct (Hone b xt p (Hal _ _ E) Hp).
  - unfold submit_and_watch. destruct (should_accept_extrinsic b xt) eqn:E; [|done]. by destruct (Hone b xt p (Hal _ _ E) Hp) as (_ & ? & _).
  - unfold submit_local. destruct (should_accept_extrinsic b xt) eqn:E; [|done]. by destruct (Hone b xt p (Hal _ _ E) Hp) as (_ & _ & ?).
Qed.

(** The filter lets every transaction through that it can decode and that is clean. *)
Lemma clean_is_accepted b xt midnight_tx decoded : decode_xt xt = Some (SendMnTransaction midnight_tx) -> api_answers b = true ->
  get_decoded_transaction midnight_tx = Ok decoded -> (exists tx old, versioned_deserialize midnight_tx = Some (tx, old) /\ clean tx) ->
  should_accept_extrinsic b xt = true.
Proof.
  intros Hx Hb Hd (tx & old & Ev & Hc). unfold should_accept_extrinsic. destruct (enabled config); [|done]. simpl.
  rewrite Hx, Hb, Hd. apply negb_true_iff. unfold get_decoded_transaction, decode_versioned in Hd. rewrite Ev in Hd. simpl in Hd.
  destruct (collect_ok decoded_operation _) as [ops| |] eqn:Eo; simpl in Hd; [|done..].
  destruct (collect_ok _ (transaction_identifiers tx)) as [ids| |]; simpl in Hd; [|done..]. injection Hd as <-.
  unfold is_forbidden_tx. simpl. rewrite (collect_ok_forbids _ _ Eo). by apply denied_none.
Qed.
End Pool.
